(* ===== verification/_CoqProject ===== *)
-Q . S2P
Prelude.v
Abi.v
Hash.v
VipSpec.v
Maglev.v
Dataplane.v
DataplaneProps.v
Counters.v
Control.v
RealTable.v
Config.v
ConfigFile.v
ApiServer.v
ApiThreads.v
LbState.v
LbInv.v
Reader.v
LbProps.v
LbHealth.v
LbTheorems.v
LbApply.v
LbBoot.v
System.v
Faults.v
Commands.v
Libc.v
Format.v
Pbctl.v
PeriodicThread.v
UniqueFd.v
HealthChecker.v
NeighborResolver.v
Loader.v
Daemon.v
Metrics.v
MetricsServer.v
Run.v
JsonText.v
Conncheck.v
ConncheckReport.v
ConncheckServer.v
HashQuality.v
HashReport.v
