(* ===== verification/Prelude.v ===== *)
(** * PacketBalance: a verification library

    PacketBalance is a layer-4 load balancer. An XDP program in the kernel
    (src/bpf/packetbalance.bpf.c) picks a backend ("real") for each packet of a
    virtual service ("VIP") and sends the packet there in an IPIP tunnel; a
    daemon (src/src/daemon) loads the program and keeps the kernel maps it reads:
    it owns the configured VIPs and reals, checks their health, resolves their MAC
    addresses, builds a consistent-hashing ring per VIP, answers JSON commands on
    a Unix socket and serves metrics; pbctl (src/src/pbctl) is the command-line
    client, conncheck (src/tools/conncheck) the instrument of the experiments.
    This library models them as Rocq functions and proves what makes them correct,
    separately and together.

    ** Files

    - [Prelude]: machine integers (a w-bit unsigned integer is a [Z] in
      [0, 2^w)), the C++ exceptions and [result], the loops of the sources
      ([for_each] with early return), counting and list lemmas, tactics.
    - [Abi] (include/packetbalance/abi.h): constants, map keys and values, and
      the eight kernel maps as the record [Maps].
    - [Hash] (hash.h), [VipSpec] (vipspec.h): the flow hash; parsing and printing
      of addresses, ports and VIPs.
    - [Maglev] (src/core/maglev.cpp): ring construction, both modes, with the
      loops as they are written.
    - [Dataplane]: the whole XDP program as a byte-level program over the packet
      and the maps, where a load or store outside the packet is [None]; and
      [run], its specification by the network-order fields of the frame.
      [DataplaneProps] and [Counters] hold the theorems.
    - [Control]: the daemon's effects. A method is a function from a [World] (the
      object, the kernel maps, the history of the maps, the outcomes of the
      coming bpf calls) to a value or exception and a [World]; an exception keeps
      what was changed before it.
    - [RealTable] (real_table.cpp), [LbState] (lb_state.cpp and the writes of
      ring_map.cpp): the control-plane model, every method. [LbInv] has the
      invariant between model and maps, with the references to reals that a method
      holds between two steps, each for a VIP; [LbProps] has the abstract
      specification of the API and the proofs that each call implements it,
      [LbHealth] the hysteresis of health checks as an automaton, [LbTheorems] the
      theorems, [LbApply] the reload of a
      configuration, [LbBoot] the start of a daemon on the maps an earlier one
      left, which it adopts.
    - [Reader] (map_reader.cpp, read_ring): per-CPU counters, the walk over the
      connection table, reading a ring back.
    - [Config] and [ConfigFile] (src/core/config.cpp): validation, and parsing of
      the YAML file over the class [Yaml].
    - [ApiServer] (api_server.cpp): request framing on a connection; [ApiThreads]:
      its acceptor, the threads of the connections and stop as a step relation.
    - [Commands] (commands.cpp): the JSON commands.
    - [System]: both planes as steps on one world; [Faults]: the control plane's
      calls with arbitrary results of the bpf calls.
    - [Libc]: what the sources use of the C and C++ libraries to read numbers and
      words (std::stoul, std::stoi, std::atoi, inet_pton, operator>>), and programs
      that exit early.
    - [Format] (src/pbctl/format.cpp) and [Pbctl] (main.cpp, client.cpp): the
      tables, with the exceptions of the JSON library as values, and the client
      from its arguments to its exit code.
    - [PeriodicThread] (periodic_thread.h): the worker, its clients and the
      condition variable it blocks on as a step relation; [UniqueFd] (unique_fd.h): the owning file descriptor;
      [HealthChecker] (health_checker.cpp) and [NeighborResolver]
      (neighbor_resolver.cpp): the steps it runs.
    - [Loader] (loader.cpp): pin path, pinned maps, attaching; [Daemon]
      (options.cpp, daemon.cpp): command-line options, start, reload, the config
      command; [Run] (Daemon::run, main.cpp, the starts and stops of the servers):
      the daemon from its start to its exit code.
    - [Metrics] (metrics.cpp) and [MetricsServer] (metrics_server.cpp): the
      exposition text and the HTTP endpoint.
    - [Conncheck] (tools/conncheck/conncheck.cpp): its command line, connections,
      counters and event loop; [ConncheckServer] (conncheck_server.cpp): the server
      that answers it, with a trace of what it does to its descriptors;
      [HashQuality] (tools/hashquality/hashquality.cpp and ring_disruption of
      maglev.cpp): the random flows and the measurements on the rings. [JsonText]:
      the grammar of the JSON texts the tools print, and a reader; [ConncheckReport]
      and [HashReport]: the reports of the two tools.

    ** What the theorems show

    - Data plane ([DataplaneProps]): memory safety on every frame; the exact form
      of a sent frame; refinement of [run]; which real is selected; flow affinity
      across ring changes and ICMP following its flow, both on one CPU, since the
      connection table is per CPU; the outer source address. What every frame adds
      to every counter ([Counters]).
    - Rings ([Maglev]): termination, fullness, exact bounds on shares,
      independence of order and ids.
    - Table of reals: every method is safe under arbitrary bpf failures and at
      every moment in between; allocation, release and adoption.
    - Control plane: each API call refines its abstract specification; rings hold
      exactly the eligible members; neighbour resolution; a
      reload leaves exactly the configured VIPs ([LbApply.reload_refines]); a
      restart takes over without a gap ([LbBoot.restart_takes_over]); and by rule
      induction over all interleavings of calls, reloads, reports and packets the
      model and the maps agree and every state of the maps is safe for packets
      ([System.control_plane_safe]); the same safety when bpf calls fail anywhere
      and calls throw half-way ([Faults.faults_safe]).
    - Together ([System]): what becomes of every packet of a VIP that the connection
      table does not decide, and that a slot of the ring names an eligible member;
      two balancers with the same shares agree.
    - The daemon: starting it again drops nothing, from the options and the file
      over the pins and the program on the interface to the last map write
      ([Daemon.daemon_restarts]); reload and the options ([Daemon.reload_daemon],
      [Daemon.options_decide]); pinned maps are not thrown away silently
      ([Loader.pins_checked], [Loader.restart_hitless]); on every path main leaves
      no thread and no socket behind and forwarding goes on ([Run.main_leaves]).
    - Its threads: a wake unblocks the worker and is not lost, and stop ends the
      worker ([PeriodicThread]); the API server's threads touch only their own descriptors
      and its stop ends ([ApiThreads.descriptors_once], [ApiThreads.api_stop_ends]);
      handles close what they own exactly once ([UniqueFd.closed_exactly_once]); a round of probes ends and judges each real by
      its own calls and the time-out, report_health changes a member's state on
      enough results in a row and only then, and a real that keeps failing leaves
      the ring ([HealthChecker]); a
      round of the resolver sets what the kernel has learned, from the text of
      its table ([NeighborResolver]).
    - Edges: request lines refine the API ([Commands]), framing does not depend
      on how the stream is cut ([ApiServer]), reports are exact and add up
      ([Reader], [Commands]), accepted files are valid and valid configurations
      are read back ([ConfigFile]), the metrics text reads back as exactly the
      values of the maps and the model with no series twice ([Metrics]), the
      endpoint answers by the first line alone and in bounded memory
      ([MetricsServer]).
    - pbctl: a command line, its request, the daemon's framing and command, the
      answer and the exit code compose to the specification of the call
      ([Pbctl.pbctl_performs]); the daemon accepts the form of every request
      ([Pbctl.requests_understood]) and pbctl can print every answer
      ([Format.answers_print]).
    - conncheck: its report adds up ([Conncheck.conncheck_accounts]) and is read back
      as the counters of the run ([ConncheckReport.report_exact]), and a wrong
      backend is detected exactly ([Conncheck.wrong_backend_detected]). Its server
      answers each line once however the streams are cut and closes what it no
      longer serves ([ConncheckServer.server_answers]), and the two together raise
      no false alarm ([ConncheckServer.heartbeats_answered]).
    - hashquality: it ends ([HashQuality.experiment_ends]), draws distinct numbers
      ([HashQuality.flows_never_repeat]), counts each flow once and reports as moved
      the flows whose real changes ([HashQuality.experiment_measures]); its JSON file
      reads back ([HashReport.json_reads_back]).
    - Where the code departs from its intent: [share_promise_fails],
      [padding_read_as_udp], [shared_real_left_out],
      [failed_add_vip_blocks_retry], [full_reload_leaks], [next_hop_error_unnamed],
      [poll_failure_blames_reals], [failed_report_ends_daemon],
      [size_suffix_ignored], [failed_switch_leaves_none],
      [slow_client_holds_thread], [half_close_unanswered], [del_vip_unchecked],
      [thread_failure_ends_daemon], [second_daemon_rewrites].

    ** Assumptions and bounds

    - Theorems about the control plane that say [calm] assume that no bpf call
      fails; those about the table of reals and those of [Faults] do not. Theorems about one frame run
      it against maps that do not change during the run.
    - Kernel helpers, the libc error texts, the clock, the sockets, the neighbour
      table, libbpf, getopt, the JSON and YAML libraries and the kernel's
      iteration order are arguments ([Env], [CEnv], [Handler], [RingEnv],
      [ProbeEnv], [LoadEnv], [Lib] with [LibLaws], [Yaml] with [YamlLaws]); what
      is assumed of one is a named hypothesis with an instance ([env_ok],
      [calls_ok], [pins_by_name], [faithful], [exchange]).
    - Loops with data-dependent bounds recurse on the bound of the source (the
      connection-table walk, the octet scanner), on the list of outcomes of the
      system calls, or on a fuel that is proved enough: one ring of slots for a
      backend's probe and M rounds for the fill ([build_ring_total]), the buffer's
      length for request and reply lines ([serve_framing], [consume_ends]), the
      targets and the polls the clock allows for a round of probes
      ([probes_judged]), 20 digits for a 64-bit number.
    - A little-endian host, as the sources assume for the packed addresses.

    ** Not modelled

    What system calls do inside (their results are arguments or nondeterminism), and
    the mutex of the control plane (its methods run one at a time, as under it; the
    mutexes of the threads are modelled); log lines; the signal handler, which only
    ends the wait of [run]; the file limit; the acceptor of the metrics server;
    printing floating-point numbers (percentages, ages and times in tables and
    reports are parameters; the quotients of ring_disruption and tools/hashquality
    are pairs of counts). Reloads and starts under bpf
    failures are modelled, but only table_methods_safe says something about them. *)

From Stdlib Require Import ZArith Lia List Ascii String.
From stdpp Require Export base decidable numbers sorting gmap list.

Export StringSyntax AsciiSyntax.

#[global] Open Scope Z_scope.

(** ** Machine integers

    A w-bit unsigned integer is a [Z] in [0, 2^w); [u8] ... [u64] are the
    conversions C and C++ perform, reduction modulo 2^w. *)

Definition u8 (x : Z) : Z := x mod 2 ^ 8.
Definition u16 (x : Z) : Z := x mod 2 ^ 16.
Definition u32 (x : Z) : Z := x mod 2 ^ 32.
Definition u64 (x : Z) : Z := x mod 2 ^ 64.

(** The range predicate of a w-bit unsigned integer. *)
Definition is_u (w x : Z) : Prop := 0 <= x < 2 ^ w.

#[global] Instance is_u_dec w x : Decision (is_u w x).
Proof. unfold is_u. apply _. Defined.

Declare Scope pb_scope.
Delimit Scope pb_scope with pb.

Notation "a +u32 b" := (u32 (a + b)) (at level 50, left associativity) : pb_scope.
Notation "a -u32 b" := (u32 (a - b)) (at level 50, left associativity) : pb_scope.
Notation "a ^u b" := (Z.lxor a b) (at level 50, left associativity) : pb_scope.

(** ** Errors

    The C++ exceptions the program throws, by type, with their message. *)

Abbreviation str := (list ascii).
Notation "§ s" := (list_ascii_of_string s%string) (at level 1, s at level 0, format "§ s") : pb_scope.

#[global] Open Scope pb_scope.

Inductive exn : Type :=
| invalid_argument (what : str)
| runtime_error (what : str)
| logic_error (what : str)
| api_error (what : str).

#[global] Instance ascii_eq_dec : EqDecision ascii := ascii_dec.

#[global] Instance exn_eq_dec : EqDecision exn.
Proof. solve_decision. Defined.

(** A computation that returns a value or throws. *)
Inductive result (A : Type) : Type :=
| Ok (a : A)
| Throw (e : exn).
Arguments Ok {A} a.
Arguments Throw {A} e.

#[global] Instance result_ret : MRet result := @Ok.
#[global] Instance result_bind : MBind result := λ A B k r,
  match r with Ok a => k a | Throw e => Throw e end.
#[global] Instance result_fmap : FMap result := λ A B f r,
  match r with Ok a => Ok (f a) | Throw e => Throw e end.

Definition is_ok {A} (r : result A) : bool :=
  match r with Ok _ => true | Throw _ => false end.

(** ** Lemmas on machine integers *)

Create HintDb pb discriminated.

(** Prove a closed decidable proposition by evaluating its decision. *)
Ltac decide_closed :=
  match goal with |- ?P => apply (bool_decide_eq_true_1 P); vm_compute; reflexivity end.

Lemma is_u_u8 x : is_u 8 (u8 x).
Proof. unfold is_u, u8. apply Z.mod_pos_bound. lia. Qed.
Lemma is_u_u16 x : is_u 16 (u16 x).
Proof. unfold is_u, u16. apply Z.mod_pos_bound. lia. Qed.
Lemma is_u_u32 x : is_u 32 (u32 x).
Proof. unfold is_u, u32. apply Z.mod_pos_bound. lia. Qed.
Lemma is_u_u64 x : is_u 64 (u64 x).
Proof. unfold is_u, u64. apply Z.mod_pos_bound. lia. Qed.

Lemma u16_id x : is_u 16 x → u16 x = x.
Proof. apply Z.mod_small. Qed.
Lemma u32_id x : is_u 32 x → u32 x = x.
Proof. apply Z.mod_small. Qed.
Lemma u64_id x : is_u 64 x → u64 x = x.
Proof. apply Z.mod_small. Qed.

Lemma is_u_mono w w' x : w <= w' → is_u w x → is_u w' x.
Proof.
  unfold is_u. intros Hw [H1 H2]. split; [done |].
  destruct (Z.le_gt_cases 0 w) as [Hw0 | Hw0].
  - pose proof (Z.pow_le_mono_r 2 w w'). lia.
  - rewrite Z.pow_neg_r in H2 by lia. lia.
Qed.

(** Out-of-range bits of a w-bit integer are zero, and conversely. *)
Lemma is_u_testbit_high w x i : is_u w x → 0 <= w <= i → Z.testbit x i = false.
Proof.
  unfold is_u. intros Hx Hi. rewrite <-(Z.mod_small x (2 ^ w)) by lia.
  apply Z.mod_pow2_bits_high. lia.
Qed.

Lemma is_u_of_testbit w x :
  0 <= w → 0 <= x → (∀ i, w <= i → Z.testbit x i = false) → is_u w x.
Proof.
  intros Hw Hx Hb. unfold is_u. split; [done |].
  replace x with (x mod 2 ^ w); [apply Z.mod_pos_bound; lia |].
  apply Z.bits_inj'. intros i Hi. destruct (Z.lt_ge_cases i w).
  - by apply Z.mod_pow2_bits_low.
  - rewrite Z.mod_pow2_bits_high by lia. by rewrite Hb.
Qed.

Lemma is_u_lor w x y : 0 <= w → is_u w x → is_u w y → is_u w (Z.lor x y).
Proof.
  intros Hw Hx Hy. apply is_u_of_testbit; [done | |].
  - apply Z.lor_nonneg. unfold is_u in *. lia.
  - intros i Hi. by rewrite Z.lor_spec, !(is_u_testbit_high w).
Qed.

Lemma is_u_lxor w x y : 0 <= w → is_u w x → is_u w y → is_u w (Z.lxor x y).
Proof.
  intros Hw Hx Hy. apply is_u_of_testbit; [done | |].
  - apply Z.lxor_nonneg. unfold is_u in *. lia.
  - intros i Hi. by rewrite Z.lxor_spec, !(is_u_testbit_high w).
Qed.

Lemma is_u_land_r w x y : 0 <= w → 0 <= x → is_u w y → is_u w (Z.land x y).
Proof.
  intros Hw Hx Hy. apply is_u_of_testbit; [done | |].
  - apply Z.land_nonneg. lia.
  - intros i Hi. by rewrite Z.land_spec, (is_u_testbit_high w y), andb_false_r.
Qed.

Lemma is_u_shiftr w x n : 0 <= w → 0 <= n → is_u w x → is_u w (Z.shiftr x n).
Proof.
  intros Hw Hn Hx. apply is_u_of_testbit; [done | |].
  - apply Z.shiftr_nonneg. unfold is_u in Hx. lia.
  - intros i Hi. rewrite Z.shiftr_spec by lia. apply (is_u_testbit_high w); [done | lia].
Qed.

(** Bits of a truncation. *)
Lemma u32_testbit x i : 0 <= i → Z.testbit (u32 x) i = (i <? 32) && Z.testbit x i.
Proof.
  intros Hi. unfold u32. destruct (Z.ltb_spec i 32); simpl.
  - by apply Z.mod_pow2_bits_low.
  - apply Z.mod_pow2_bits_high. lia.
Qed.

#[export] Hint Resolve is_u_u8 is_u_u16 is_u_u32 is_u_u64 is_u_lxor is_u_lor : pb.
#[export] Hint Extern 1 (is_u _ (Z.of_nat _)) => unfold is_u; lia : pb.
#[export] Hint Extern 2 (0 <= _) => lia : pb.
#[export] Hint Extern 2 (is_u _ (Zpos _)) => unfold is_u; lia : pb.
#[export] Hint Extern 2 (is_u _ Z0) => unfold is_u; lia : pb.

(** Modular addition undoes modular subtraction. *)
Lemma u32_sub_add x y : is_u 32 x → u32 (u32 (x - y) + y) = x.
Proof.
  intros Hx. unfold u32. rewrite Z.add_mod_idemp_l by lia.
  replace (x - y + y) with x by lia. by apply Z.mod_small.
Qed.

Lemma u32_add_inj x y k : is_u 32 x → is_u 32 y → u32 (x + k) = u32 (y + k) → x = y.
Proof.
  unfold is_u, u32. intros Hx Hy H.
  assert ((x - y) mod 2 ^ 32 = 0) as H0.
  { replace (x - y) with ((x + k) - (y + k)) by lia.
    rewrite Zminus_mod, H, Z.sub_diag. done. }
  apply Z.mod_divide in H0 as [q Hq]; [| lia]. assert (q = 0) by nia. subst. lia.
Qed.

Lemma lxor_cancel x y : Z.lxor (Z.lxor x y) y = x.
Proof. by rewrite Z.lxor_assoc, Z.lxor_nilpotent, Z.lxor_0_r. Qed.

(** ** Loops with an early return

    The outcome of a loop body: go on with the next iteration, return from the
    enclosing function, or no outcome (an access out of range, or the fuel of
    a nested loop ran out). *)
Inductive ctl (S : Type) : Type :=
| Next (s : S)
| Return (s : S)
| Stuck.
Arguments Next {S} s.
Arguments Return {S} s.
Arguments Stuck {S}.

(** [for (x : l) body]. *)
Fixpoint for_each {A S} (body : A → S → ctl S) (l : list A) (s : S) : ctl S :=
  match l with
  | [] => Next s
  | x :: l =>
      match body x s with
      | Next s => for_each body l s
      | r => r
      end
  end.

Lemma for_each_app {A S} (body : A → S → ctl S) l1 l2 s :
  for_each body (l1 ++ l2) s =
  match for_each body l1 s with Next s => for_each body l2 s | r => r end.
Proof. revert s. induction l1 as [| x l1 IH]; intros s; simpl; [done |]. by destruct (body x s). Qed.

(** A body that skips some elements is the loop over the others. *)
Lemma for_each_filter {A S} (P : A → Prop) `{!∀ x, Decision (P x)} (body : A → S → ctl S) l s :
  for_each (λ x s, if decide (P x) then body x s else Next s) l s = for_each body (filter P l) s.
Proof.
  revert s. induction l as [| x l IH]; intros s; simpl; [done |]. rewrite filter_cons.
  destruct (decide (P x)); simpl; [| done]. by destruct (body x s).
Qed.

(** Nested loops are one loop over the concatenation. *)
Lemma for_each_bind {A B S} (f : A → list B) (body : B → S → ctl S) l s :
  for_each (λ x, for_each body (f x)) l s = for_each body (l ≫= f) s.
Proof.
  revert s. induction l as [| x l IH]; intros s; simpl; [done |].
  rewrite for_each_app. by destruct (for_each body (f x) s).
Qed.

Lemma for_each_ext {A S} (b1 b2 : A → S → ctl S) l s :
  (∀ x s, x ∈ l → b1 x s = b2 x s) → for_each b1 l s = for_each b2 l s.
Proof.
  revert s. induction l as [| x l IH]; intros s H; simpl; [done |].
  rewrite H by apply list_elem_of_here. destruct (b2 x s); try done.
  apply IH. intros y s' Hy. apply H. by apply list_elem_of_further.
Qed.

(** Outcomes related by a relation on the states. *)
Definition ctl_rel {S S'} (R : S → S' → Prop) (r : ctl S) (r' : ctl S') : Prop :=
  match r, r' with
  | Next s, Next s' => R s s'
  | Return s, Return s' => R s s'
  | Stuck, Stuck => True
  | _, _ => False
  end.

Lemma for_each_rel {A S S'} (R : S → S' → Prop) (b : A → S → ctl S) (b' : A → S' → ctl S') l s s' :
  (∀ x s s', R s s' → ctl_rel R (b x s) (b' x s')) → R s s' →
  ctl_rel R (for_each b l s) (for_each b' l s').
Proof.
  intros Hb. revert s s'. induction l as [| x l IH]; intros s s' Hs; simpl; [done |].
  specialize (Hb x s s' Hs). destruct (b x s), (b' x s'); simpl in *; done || auto.
Qed.

(** Replacing an element of a list, up to permutation. *)
Lemma insert_Permutation_split {A} (l : list A) i x y :
  l !! i = Some x → ∃ l', l ≡ₚ x :: l' ∧ <[i:=y]> l ≡ₚ y :: l'.
Proof.
  intros H. exists (take i l ++ drop (S i) l). split.
  - rewrite <-(take_drop_middle l i x H) at 1. symmetry. apply Permutation_middle.
  - rewrite insert_take_drop by (eapply lookup_lt_Some; eauto). symmetry. apply Permutation_middle.
Qed.

(** ** Counting occurrences *)

Definition occ {A} `{!EqDecision A} (x : A) (l : list A) : nat := length (filter (λ y, y = x) l).

Section occ.
Context {A : Type} `{!EqDecision A}.
Implicit Types (x y : A) (l : list A).

Lemma occ_nil x : occ x [] = 0%nat.
Proof. done. Qed.

Lemma occ_cons x y l : occ x (y :: l) = ((if decide (y = x) then 1 else 0) + occ x l)%nat.
Proof. unfold occ. rewrite filter_cons. by destruct (decide (y = x)). Qed.

Lemma occ_app x l k : occ x (l ++ k) = (occ x l + occ x k)%nat.
Proof. unfold occ. by rewrite filter_app, length_app. Qed.

#[global] Instance occ_Permutation x : Proper ((≡ₚ) ==> (=)) (occ x).
Proof. intros l k H. unfold occ. by rewrite H. Qed.

Lemma occ_length x l : (occ x l <= length l)%nat.
Proof. apply length_filter. Qed.

Lemma occ_zero x l : occ x l = 0%nat ↔ x ∉ l.
Proof.
  induction l as [| y l IH]; [by rewrite occ_nil; split; [intros _; apply not_elem_of_nil |] |].
  rewrite occ_cons, not_elem_of_cons. destruct (decide (y = x)) as [-> | Hne].
  - split; [lia | by intros [? _]].
  - rewrite Nat.add_0_l, IH. split; [by split; [apply not_eq_sym |] | by intros [_ ?]].
Qed.

Lemma occ_NoDup x l : NoDup l → x ∈ l → occ x l = 1%nat.
Proof.
  induction 1 as [| y l Hy Hl IH]; [by intros ?%not_elem_of_nil |].
  rewrite occ_cons. intros [-> | Hx]%elem_of_cons.
  - rewrite decide_True by done. by rewrite (proj2 (occ_zero y l) Hy).
  - rewrite decide_False by (by intros ->). auto.
Qed.

Lemma occ_take x l n : (occ x (take n l) <= occ x l)%nat.
Proof. rewrite <-(take_drop n l) at 2. rewrite occ_app. lia. Qed.

Lemma occ_join_replicate x l n : occ x (mjoin (replicate n l)) = (n * occ x l)%nat.
Proof. induction n as [| n IH]; simpl; [done |]. by rewrite occ_app, IH. Qed.

Lemma occ_replicate x n : occ x (replicate n x) = n.
Proof. induction n as [| n IH]; simpl; [done |]. by rewrite occ_cons, decide_True, IH. Qed.

End occ.

Lemma occ_fmap_inj {A B} `{!EqDecision A, !EqDecision B} (f : A → B) (x : A) (l : list A) :
  (∀ y, y ∈ l → f y = f x → y = x) → occ (f x) (f <$> l) = occ x l.
Proof.
  induction l as [| y l IH]; intros H; [done |]. rewrite fmap_cons, !occ_cons.
  rewrite IH by (intros z Hz; apply H; by apply list_elem_of_further).
  destruct (decide (f y = f x)) as [E | E], (decide (y = x)) as [E' | E']; try done.
  - by destruct E'; apply H; [apply list_elem_of_here |].
  - by destruct E; rewrite E'.
Qed.

Lemma length_join_replicate {A} (l : list A) n : length (mjoin (replicate n l)) = (n * length l)%nat.
Proof. induction n as [| n IH]; simpl; [done |]. by rewrite length_app, IH. Qed.

(** The first [n] elements of a cyclic repetition: whole rounds, then a part. *)
Lemma take_join_replicate {A} (l : list A) n k :
  (0 < length l)%nat → (n <= k * length l)%nat →
  take n (mjoin (replicate k l)) =
  mjoin (replicate (n / length l) l) ++ take (n mod length l) l.
Proof.
  intros Hl. revert k. induction (lt_wf n) as [n _ IH]. intros k Hk.
  destruct (decide (n < length l)%nat) as [Hlt | Hge].
  - rewrite Nat.div_small, Nat.mod_small by done. simpl. destruct k as [| k]; simpl in *.
    + by replace n with 0%nat by lia.
    + by rewrite take_app_le by lia.
  - destruct k as [| k]; simpl in Hk; [lia |]. simpl. rewrite take_app_ge by lia.
    rewrite (IH (n - length l)%nat) by lia.
    replace n with ((n - length l) + 1 * length l)%nat at 3 4 by lia.
    rewrite Nat.div_add, Nat.Div0.mod_add by lia. rewrite Nat.add_1_r. simpl. by rewrite app_assoc.
Qed.

(** Occurrences in the first [M] elements of a cyclic repetition: so many per
    whole round, and in the last one at most a round's and at most the rest. *)
Lemma occ_cyclic {A} `{!EqDecision A} (x : A) (l : list A) M :
  (0 < length l)%nat → 0 <= M →
  let L := Z.of_nat (length l) in
  M / L * Z.of_nat (occ x l)
  <= Z.of_nat (occ x (take (Z.to_nat M) (mjoin (replicate (Z.to_nat M) l))))
  <= M / L * Z.of_nat (occ x l) + Z.min (Z.of_nat (occ x l)) (M mod L).
Proof.
  intros Hl HM. simpl. rewrite take_join_replicate by nia. rewrite occ_app, occ_join_replicate.
  rewrite Nat2Z.inj_add, Nat2Z.inj_mul, Nat2Z.inj_div, Z2Nat.id by lia.
  pose proof (occ_take x l (Z.to_nat M mod length l)) as Hle1.
  pose proof (occ_length x (take (Z.to_nat M mod length l) l)) as Hle2. rewrite length_take in Hle2.
  assert (Z.of_nat (Z.to_nat M mod length l) = M mod Z.of_nat (length l)) as Hmod.
  { by rewrite Nat2Z.inj_mod, Z2Nat.id by lia. }
  lia.
Qed.

(** The length of a list of indices is the sum of the occurrences. *)
Lemma length_sum_occ l n :
  Forall (λ i, (i < n)%nat) l → length l = sum_list_with (λ i, occ i l) (seq 0 n).
Proof.
  induction 1 as [| i l Hi Hl IH]; simpl.
  - by induction (seq 0 n).
  - rewrite IH. clear IH Hl.
    assert (sum_list_with (λ j, occ j (i :: l)) (seq 0 n)
            = (sum_list_with (λ j, occ j l) (seq 0 n) + occ i (seq 0 n))%nat) as ->.
    { induction (seq 0 n) as [| j js IH]; simpl; [done |]. rewrite IH, !occ_cons.
      destruct (decide (i = j)), (decide (j = i)); try congruence; lia. }
    rewrite occ_NoDup; [lia | apply NoDup_seq | apply elem_of_seq; lia].
Qed.

(** ** Filters that keep or drop everything *)

Lemma filter_all {A} (P : A → Prop) `{!∀ x, Decision (P x)} (l : list A) :
  (∀ x, x ∈ l → P x) → filter P l = l.
Proof.
  induction l as [| x l IH]; intros Hl; [done |].
  rewrite filter_cons_True by (apply Hl, list_elem_of_here). f_equal.
  apply IH. intros y Hy. by apply Hl, list_elem_of_further.
Qed.

Lemma filter_none {A} (P : A → Prop) `{!∀ x, Decision (P x)} (l : list A) :
  (∀ x, x ∈ l → ¬ P x) → filter P l = [].
Proof.
  induction l as [| x l IH]; intros Hl; [done |].
  rewrite filter_cons_False by (apply Hl, list_elem_of_here).
  apply IH. intros y Hy. by apply Hl, list_elem_of_further.
Qed.

Lemma filter_fmap_comm {A B} (f : A → B) (P : B → Prop) `{!∀ x, Decision (P x)} (Q : A → Prop)
    `{!∀ x, Decision (Q x)} (l : list A) :
  (∀ x, P (f x) ↔ Q x) → filter P (f <$> l) = f <$> filter Q l.
Proof.
  intros Hf. induction l as [| x l IH]; [done |]. rewrite fmap_cons.
  destruct (decide (Q x)) as [Hq | Hq].
  - rewrite !filter_cons_True by (done || by apply Hf). by rewrite IH.
  - rewrite !filter_cons_False by (done || by rewrite Hf). done.
Qed.
