(* ===== verification/Abi.v ===== *)
(** * The data-plane / control-plane ABI (include/packetbalance/abi.h)

    Every constant, map key, map value and counter the XDP program and the
    daemon share, and the kernel maps themselves as one record, [Maps].
    Addresses and ports are the integers a little-endian host loads from the
    network-order bytes, exactly as the sources store them. *)

From Stdlib Require Import ZArith Lia.
From S2P Require Import Prelude.

(** ** Sizes and sentinels *)

Definition PB_RING_SIZE : Z := 65537.
Definition PB_MAX_VIPS : Z := 64.
Definition PB_MAX_REALS : Z := 512.
Definition PB_CT_DEFAULT_SIZE : Z := Z.shiftl 1 20.
Definition PB_PIN_DIR : str := §"/sys/fs/bpf/packetbalance".
Definition PB_REAL_NONE : Z := 0xFFFFFFFF.
Definition PB_STATS_GLOBAL : Z := PB_MAX_VIPS.
Definition PB_MAX_PACKET_LEN : Z := 3500.

(** ** vip_map *)

Record pb_vip_key := mk_vip_key {
  vk_addr : Z;
  vk_port : Z;
  vk_proto : Z;
  vk_pad : Z
}.

Definition PB_VIP_F_NO_CONNTRACK : Z := Z.shiftl 1 0.

Record pb_vip_value := mk_vip_value {
  vv_vip_id : Z;
  vv_flags : Z
}.

(** ** reals and neigh *)

Record pb_real := mk_pb_real {
  r_addr : Z;
  r_flags : Z
}.

(** The six bytes of a MAC; the two pad bytes are always zero. *)
Record pb_mac := mk_pb_mac {
  mac0 : Z; mac1 : Z; mac2 : Z; mac3 : Z; mac4 : Z; mac5 : Z
}.

(** ** conntrack *)

Record pb_ct_key := mk_ct_key {
  ck_saddr : Z;
  ck_daddr : Z;
  ck_sport : Z;
  ck_dport : Z;
  ck_proto : Z
}.

Record pb_ct_value := mk_ct_value {
  cv_real_id : Z;
  cv_vip_id : Z;
  cv_last_seen_ns : Z
}.

(** ** stats *)

Inductive pb_counter : Type :=
| PB_CNT_PACKETS
| PB_CNT_BYTES
| PB_CNT_CT_HIT
| PB_CNT_CT_MISS
| PB_CNT_HASH
| PB_CNT_SYN
| PB_CNT_TX
| PB_CNT_PASS
| PB_CNT_DROP_FRAG
| PB_CNT_DROP_OPTS
| PB_CNT_DROP_NO_REAL
| PB_CNT_DROP_ADJ_HEAD
| PB_CNT_DROP_MTU
| PB_CNT_DROP_SHORT
| PB_CNT_DROP_OTHER
| PB_CNT_ICMP_PMTU_FWD.

(** The enumerator's value, its index in [pb_stats.c]. *)
Definition counter_index (c : pb_counter) : nat :=
  match c with
  | PB_CNT_PACKETS => 0 | PB_CNT_BYTES => 1 | PB_CNT_CT_HIT => 2
  | PB_CNT_CT_MISS => 3 | PB_CNT_HASH => 4 | PB_CNT_SYN => 5
  | PB_CNT_TX => 6 | PB_CNT_PASS => 7 | PB_CNT_DROP_FRAG => 8
  | PB_CNT_DROP_OPTS => 9 | PB_CNT_DROP_NO_REAL => 10
  | PB_CNT_DROP_ADJ_HEAD => 11 | PB_CNT_DROP_MTU => 12
  | PB_CNT_DROP_SHORT => 13 | PB_CNT_DROP_OTHER => 14
  | PB_CNT_ICMP_PMTU_FWD => 15
  end%nat.

Definition PB_CNT_MAX : nat := 16.

(** [struct pb_stats]: the array [c]. *)
Abbreviation pb_stats := (list Z) (only parsing).

Record pb_real_stats := mk_real_stats {
  rs_packets : Z;
  rs_bytes : Z
}.

(** ** config *)

Definition PB_CFG_F_NO_CONNTRACK : Z := Z.shiftl 1 0.
Definition PB_CFG_F_ICMP_PMTU : Z := Z.shiftl 1 1.

Record pb_config := mk_pb_config {
  cfg_lb_mac : pb_mac;
  cfg_encap_src_prefix : Z;
  cfg_encap_src_mask : Z;
  cfg_flags : Z
}.

(** Values a map holds before anything is written: zeroed memory. *)
Definition real0 : pb_real := mk_pb_real 0 0.
Definition mac_zero : pb_mac := mk_pb_mac 0 0 0 0 0 0.
Definition ct_value0 : pb_ct_value := mk_ct_value 0 0 0.
Definition real_stats0 : pb_real_stats := mk_real_stats 0 0.
Definition pb_stats0 : pb_stats := replicate PB_CNT_MAX 0.
Definition pb_config0 : pb_config := mk_pb_config mac_zero 0 0 0.

(** ** Decidable equality and countability of the map keys *)

#[global] Instance pb_vip_key_eq_dec : EqDecision pb_vip_key.
Proof. solve_decision. Defined.
#[global] Instance pb_vip_key_countable : Countable pb_vip_key.
Proof.
  refine (inj_countable' (λ k, (vk_addr k, vk_port k, vk_proto k, vk_pad k))
            (λ '(a, p, q, z), mk_vip_key a p q z) _).
  by intros [].
Defined.
#[global] Instance pb_vip_value_eq_dec : EqDecision pb_vip_value.
Proof. solve_decision. Defined.
#[global] Instance pb_real_eq_dec : EqDecision pb_real.
Proof. solve_decision. Defined.
#[global] Instance pb_mac_eq_dec : EqDecision pb_mac.
Proof. solve_decision. Defined.
#[global] Instance pb_ct_key_eq_dec : EqDecision pb_ct_key.
Proof. solve_decision. Defined.
#[global] Instance pb_ct_key_countable : Countable pb_ct_key.
Proof.
  refine (inj_countable'
            (λ k, (ck_saddr k, ck_daddr k, ck_sport k, ck_dport k, ck_proto k))
            (λ '(a, b, c, d, e), mk_ct_key a b c d e) _).
  by intros [].
Defined.
#[global] Instance pb_ct_value_eq_dec : EqDecision pb_ct_value.
Proof. solve_decision. Defined.
#[global] Instance pb_counter_eq_dec : EqDecision pb_counter.
Proof. solve_decision. Defined.
#[global] Instance pb_real_stats_eq_dec : EqDecision pb_real_stats.
Proof. solve_decision. Defined.
#[global] Instance pb_config_eq_dec : EqDecision pb_config.
Proof. solve_decision. Defined.

(** ** The kernel maps

    ARRAY maps are lists indexed by the key, HASH maps finite maps, the
    ARRAY_OF_MAPS [rings] the finite map of its filled slots.  Per-CPU maps
    hold, for each key, the list of the per-CPU values. *)
Record Maps := mk_maps {
  vip_map : gmap pb_vip_key pb_vip_value;
  rings : gmap Z (list Z);
  reals : list pb_real;
  neigh : list pb_mac;
  conntrack : gmap pb_ct_key (list pb_ct_value);
  stats : list (list pb_stats);
  real_stats : list (list pb_real_stats);
  config : list pb_config
}.

(** Record updates. *)
Definition set_vip_map f m :=
  mk_maps (f (vip_map m)) (rings m) (reals m) (neigh m) (conntrack m) (stats m) (real_stats m) (config m).
Definition set_rings f m :=
  mk_maps (vip_map m) (f (rings m)) (reals m) (neigh m) (conntrack m) (stats m) (real_stats m) (config m).
Definition set_reals f m :=
  mk_maps (vip_map m) (rings m) (f (reals m)) (neigh m) (conntrack m) (stats m) (real_stats m) (config m).
Definition set_neigh f m :=
  mk_maps (vip_map m) (rings m) (reals m) (f (neigh m)) (conntrack m) (stats m) (real_stats m) (config m).
Definition set_conntrack f m :=
  mk_maps (vip_map m) (rings m) (reals m) (neigh m) (f (conntrack m)) (stats m) (real_stats m) (config m).
Definition set_stats f m :=
  mk_maps (vip_map m) (rings m) (reals m) (neigh m) (conntrack m) (f (stats m)) (real_stats m) (config m).
Definition set_real_stats f m :=
  mk_maps (vip_map m) (rings m) (reals m) (neigh m) (conntrack m) (stats m) (f (real_stats m)) (config m).
Definition set_config f m :=
  mk_maps (vip_map m) (rings m) (reals m) (neigh m) (conntrack m) (stats m) (real_stats m) (f (config m)).

(** The maps of a freshly loaded object on a machine with [ncpus] CPUs. *)
Definition fresh_maps (ncpus : nat) : Maps :=
  mk_maps ∅ ∅
    (replicate (Z.to_nat PB_MAX_REALS) real0)
    (replicate (Z.to_nat PB_MAX_REALS) mac_zero)
    ∅
    (replicate (Z.to_nat (PB_MAX_VIPS + 1)) (replicate ncpus pb_stats0))
    (replicate (Z.to_nat PB_MAX_REALS) (replicate ncpus real_stats0))
    [pb_config0].

(** Array lookup by a 32-bit key, as [bpf_map_lookup_elem] does it: out of
    range is the null pointer. *)
Definition array_lookup {A} (m : list A) (key : Z) : option A :=
  if (0 <=? key) && (key <? Z.of_nat (length m)) then m !! Z.to_nat key else None.
