(* ===== verification/Hash.v ===== *)
(** * The flow hash (include/packetbalance/hash.h)

    The final mix of Jenkins' lookup3 on 32-bit words, the 5-tuple flow hash
    both planes use, and the two backend hashes Maglev derives a backend's
    permutation from. *)

From Stdlib Require Import ZArith Lia.
From S2P Require Import Prelude Abi.

Module Hash.

Definition PB_JHASH_INITVAL : Z := 0xdeadbeef.
Definition PB_HASH_SEED : Z := 0x50424C42.

Definition pb_rol32 (word shift : Z) : Z :=
  Z.lor (u32 (Z.shiftl word (Z.land shift 31)))
        (Z.shiftr word (Z.land (u32 (- shift)) 31)).

(** [PB_JHASH_FINAL(a, b, c)]: the seven assignments of the macro, in order. *)
Definition PB_JHASH_FINAL (s : Z * Z * Z) : Z * Z * Z :=
  let '(a, b, c) := s in
  let c := (c ^u b) -u32 pb_rol32 b 14 in
  let a := (a ^u c) -u32 pb_rol32 c 11 in
  let b := (b ^u a) -u32 pb_rol32 a 25 in
  let c := (c ^u b) -u32 pb_rol32 b 16 in
  let a := (a ^u c) -u32 pb_rol32 c 4 in
  let b := (b ^u a) -u32 pb_rol32 a 14 in
  let c := (c ^u b) -u32 pb_rol32 b 24 in
  (a, b, c).

Definition pb_jhash_3words (a b c initval : Z) : Z :=
  let a := a +u32 PB_JHASH_INITVAL in
  let b := b +u32 PB_JHASH_INITVAL in
  let c := c +u32 initval in
  let '(_, _, c) := PB_JHASH_FINAL (a, b, c) in c.

Definition pb_flow_hash (saddr daddr sport dport proto : Z) : Z :=
  let ports := Z.lor (u32 (Z.shiftl sport 16)) dport in
  pb_jhash_3words saddr daddr ports (Z.lxor PB_HASH_SEED proto).

Definition pb_backend_hash_offset (addr : Z) : Z :=
  pb_jhash_3words addr 0x9e3779b9 0 0x0f0f0f0f.

Definition pb_backend_hash_skip (addr : Z) : Z :=
  pb_jhash_3words addr 0x7f4a7c15 1 0xf0f0f0f0.

(** ** Specification-level definitions *)

(** The inverse of the mix: the seven steps undone in reverse order. *)
Definition jhash_unfinal (s : Z * Z * Z) : Z * Z * Z :=
  let '(a, b, c) := s in
  let c := (c +u32 pb_rol32 b 24) ^u b in
  let b := (b +u32 pb_rol32 a 14) ^u a in
  let a := (a +u32 pb_rol32 c 4) ^u c in
  let c := (c +u32 pb_rol32 b 16) ^u b in
  let b := (b +u32 pb_rol32 a 25) ^u a in
  let a := (a +u32 pb_rol32 c 11) ^u c in
  let c := (c +u32 pb_rol32 b 14) ^u b in
  (a, b, c).

(** The 96-bit state a flow's 5-tuple is mixed into; the hash is its last word. *)
Definition flow_state (saddr daddr sport dport proto : Z) : Z * Z * Z :=
  let ports := Z.lor (u32 (Z.shiftl sport 16)) dport in
  PB_JHASH_FINAL (saddr +u32 PB_JHASH_INITVAL, daddr +u32 PB_JHASH_INITVAL,
                  ports +u32 Z.lxor PB_HASH_SEED proto).

(** ** The rotation *)

Lemma pb_rol32_range w s : is_u 32 w → is_u 32 (pb_rol32 w s).
Proof.
  intros Hw. unfold pb_rol32. apply is_u_lor; [lia | auto with pb |].
  apply is_u_shiftr; [lia | apply Z.land_nonneg; lia | done].
Qed.

Lemma land_31_mod x : Z.land x 31 = x mod 32.
Proof. change 31 with (Z.ones 5). by rewrite Z.land_ones by lia. Qed.

(** The bit of a rotated word is the bit of the word [shift] places lower,
    cyclically: pb_rol32 is the 32-bit left rotation for every shift count,
    including 0 and counts of 32 and more. *)
Theorem pb_rol32_testbit w s i :
  is_u 32 w → 0 <= s → 0 <= i < 32 →
  Z.testbit (pb_rol32 w s) i = Z.testbit w ((i - s) mod 32).
Proof.
  intros Hw Hs Hi. unfold pb_rol32. rewrite !land_31_mod.
  rewrite Z.lor_spec, u32_testbit, Z.shiftl_spec, Z.shiftr_spec by lia.
  replace (i <? 32) with true by lia. rewrite andb_true_l.
  assert (u32 (- s) mod 32 = (- s) mod 32) as ->.
  { unfold u32. change (2 ^ 32) with (32 * 2 ^ 27). rewrite Z.rem_mul_r by lia.
    rewrite Z.mul_comm, Z.mod_add, Z.mod_mod by lia. done. }
  set (r := s mod 32). assert (0 <= r < 32) as Hr by (apply Z.mod_pos_bound; lia).
  assert ((i - s) mod 32 = (i - r) mod 32) as ->.
  { unfold r. by rewrite Zminus_mod_idemp_r. }
  destruct (decide (r = 0)) as [H0 | H0].
  - assert ((- s) mod 32 = 0) as -> by (apply Z_mod_zero_opp_full; done).
    rewrite H0, Z.sub_0_r, Z.add_0_r, Z.mod_small by lia. apply orb_diag.
  - assert ((- s) mod 32 = 32 - r) as -> by (apply Z_mod_nz_opp_full; done).
    destruct (Z.lt_ge_cases i r) as [Hlt | Hge].
    + rewrite (Z.testbit_neg_r w (i - r)) by lia.
      replace ((i - r) mod 32) with (i + (32 - r)); [done |].
      rewrite <-(Z.mod_small (i + (32 - r)) 32) by lia.
      replace (i + (32 - r)) with (i - r + 1 * 32) by lia. by rewrite Z.mod_add by lia.
    + rewrite (is_u_testbit_high 32 w (i + (32 - r))) by (done || lia).
      rewrite orb_false_r, Z.mod_small by lia. done.
Qed.

(** ** The mix *)

Section mix.

Lemma mix_undo x y r : is_u 32 x → is_u 32 y → ((x ^u y) -u32 r +u32 r) ^u y = x.
Proof. intros Hx Hy. rewrite u32_sub_add by auto with pb. apply lxor_cancel. Qed.

Lemma PB_JHASH_FINAL_range a b c a' b' c' :
  PB_JHASH_FINAL (a, b, c) = (a', b', c') → is_u 32 a' ∧ is_u 32 b' ∧ is_u 32 c'.
Proof. unfold PB_JHASH_FINAL. intros [= <- <- <-]. auto with pb. Qed.

Lemma jhash_unfinal_final a b c :
  is_u 32 a → is_u 32 b → is_u 32 c → jhash_unfinal (PB_JHASH_FINAL (a, b, c)) = (a, b, c).
Proof.
  intros Ha Hb Hc. unfold jhash_unfinal, PB_JHASH_FINAL.
  by rewrite !mix_undo by auto with pb.
Qed.

End mix.

Lemma PB_JHASH_FINAL_inj a b c a' b' c' :
  is_u 32 a → is_u 32 b → is_u 32 c → is_u 32 a' → is_u 32 b' → is_u 32 c' →
  PB_JHASH_FINAL (a, b, c) = PB_JHASH_FINAL (a', b', c') → (a, b, c) = (a', b', c').
Proof.
  intros. rewrite <-(jhash_unfinal_final a b c), <-(jhash_unfinal_final a' b' c') by done.
  by f_equal.
Qed.

(** ** The flow hash *)

Lemma pb_jhash_3words_range a b c i : is_u 32 (pb_jhash_3words a b c i).
Proof.
  unfold pb_jhash_3words. destruct (PB_JHASH_FINAL _) as [[a' b'] c'] eqn:E.
  by apply PB_JHASH_FINAL_range in E as (_ & _ & ?).
Qed.

Lemma pb_flow_hash_range s d sp dp p : is_u 32 (pb_flow_hash s d sp dp p).
Proof. apply pb_jhash_3words_range. Qed.

Lemma flow_state_hash s d sp dp p : (flow_state s d sp dp p).2 = pb_flow_hash s d sp dp p.
Proof.
  unfold flow_state, pb_flow_hash, pb_jhash_3words.
  by destruct (PB_JHASH_FINAL _) as [[? ?] ?].
Qed.

(** Packing the two ports into one word loses nothing. *)
Lemma ports_pack sp dp :
  is_u 16 sp → is_u 16 dp → Z.lor (u32 (Z.shiftl sp 16)) dp = sp * 65536 + dp.
Proof.
  unfold is_u. intros Hs Hd. rewrite Z.shiftl_mul_pow2 by lia.
  rewrite u32_id by (unfold is_u; lia). symmetry. apply Z.add_nocarry_lor.
  apply Z.bits_inj'. intros i Hi. rewrite Z.land_spec, Z.bits_0.
  destruct (Z.lt_ge_cases i 16).
  - by rewrite Z.mul_pow2_bits_low.
  - rewrite (is_u_testbit_high 16 dp); [apply andb_false_r | done | lia].
Qed.

(** Distinct flows of one protocol are mixed into distinct 96-bit states: up
    to the last step, which keeps one word of the three, the flow hash loses no
    information about the addresses and ports it is given. *)
Theorem flow_state_inj s d sp dp s' d' sp' dp' p :
  is_u 32 s → is_u 32 d → is_u 16 sp → is_u 16 dp →
  is_u 32 s' → is_u 32 d' → is_u 16 sp' → is_u 16 dp' →
  flow_state s d sp dp p = flow_state s' d' sp' dp' p →
  s = s' ∧ d = d' ∧ sp = sp' ∧ dp = dp'.
Proof.
  intros Hs Hd Hsp Hdp Hs' Hd' Hsp' Hdp' H. unfold flow_state in H.
  apply PB_JHASH_FINAL_inj in H as [= H1 H2 H3]; try auto with pb.
  apply u32_add_inj in H1, H2; try done.
  rewrite !ports_pack in H3 by done. unfold is_u in *.
  apply u32_add_inj in H3; unfold is_u; lia.
Qed.

(** The values tests/core/hash_test.cpp pins. *)
Example hash_pinned :
  pb_flow_hash 0x0100000a 0x016433c6 0x3930 0x5000 6 = 0xde1e4d19 ∧
  pb_flow_hash 0 0 0 0 0 = 0x56385eb7 ∧
  pb_backend_hash_offset 0x1500000a = 0x13814be4 ∧
  pb_backend_hash_skip 0x1500000a = 0x2c509bd8.
Proof. repeat split; reflexivity. Qed.

Lemma pb_rol32_testbit_witness :
  is_u 32 0x80000001 ∧ Z.testbit (pb_rol32 0x80000001 4) 3 = Z.testbit 0x80000001 ((3 - 4) mod 32).
Proof.
  split; [unfold is_u; lia |]. apply (pb_rol32_testbit 0x80000001 4 3); unfold is_u; lia.
Defined.

Lemma flow_state_inj_witness :
  is_u 32 0x0100000a ∧
  (0x0100000a = 0x0100000a ∧ 0x016433c6 = 0x016433c6 ∧ 0x3930 = 0x3930 ∧ 0x5000 = 0x5000).
Proof.
  split; [unfold is_u; lia |].
  apply (flow_state_inj 0x0100000a 0x016433c6 0x3930 0x5000 0x0100000a 0x016433c6 0x3930 0x5000 6);
    [unfold is_u; lia ..| vm_compute; reflexivity].
Defined.

End Hash.
