(* ===== verification/VipSpec.v ===== *)
(** * Address and VIP parsing (include/packetbalance/vipspec.h)

    Strict parsers and printers for IPv4 addresses, ports and
    ADDR:PORT/PROTO specifications.  A [std::string] is a list of characters;
    a parser position is the rest of the string. [memcpy] between a byte array
    and an integer is the little-endian conversion. *)

From Stdlib Require Import ZArith Lia Ascii String.
From S2P Require Import Prelude Abi.

Module VipSpec.

(** ** Characters and decimal numbers *)

Definition digit_val (c : ascii) : Z := Z.of_nat (nat_of_ascii c) - 48.

Definition isdigit (c : ascii) : bool := (0 <=? digit_val c) && (digit_val c <=? 9).

Definition digit_char (d : Z) : ascii := ascii_of_nat (48 + Z.to_nat d).

(** [std::to_string] of an unsigned integer of at most 64 bits: 20 digits are
    enough. *)
Fixpoint dec_digits (fuel : nat) (n : Z) (acc : str) : str :=
  match fuel with
  | O => acc
  | S fuel =>
      let acc := digit_char (n mod 10) :: acc in
      if n / 10 =? 0 then acc else dec_digits fuel (n / 10) acc
  end.

Definition to_string (n : Z) : str := dec_digits 20 n [].

(** [memcpy(&out, be, 4)] on a little-endian host. *)
Definition le32 (b0 b1 b2 b3 : Z) : Z := b0 + 2 ^ 8 * b1 + 2 ^ 16 * b2 + 2 ^ 24 * b3.

(** Byte [i] of a 32-bit integer in memory. *)
Definition byte_of (x i : Z) : Z := Z.land (Z.shiftr x (8 * i)) 255.

(** ** IPv4 addresses *)

Definition bad_ipv4 (s : str) : exn := invalid_argument (§"bad IPv4 address: " ++ s).

(** The inner [while]: [n] digits of this octet were read, their value is [v]. *)
Fixpoint scan_octet (rest : str) (n v : Z) : option (Z * str) :=
  match rest with
  | c :: rest' =>
      if isdigit c then
        let v := v * 10 + digit_val c in
        if (255 <? v) || (3 <=? n) then None else scan_octet rest' (n + 1) v
      else Some (v, rest)
  | [] => Some (v, [])
  end.

(** The outer [for]: [k] octets are left; the last one is not followed by a dot. *)
Fixpoint scan_octets (k : nat) (rest : str) : option (list Z * str) :=
  match k with
  | O => Some ([], rest)
  | S k =>
      match rest with
      | c :: _ =>
          if isdigit c then
            match scan_octet rest 0 0 with
            | None => None
            | Some (v, rest) =>
                match k with
                | O => Some ([v], rest)
                | S _ =>
                    match rest with
                    | d :: rest =>
                        if bool_decide (d = "."%char) then
                          '(vs, rest) ← scan_octets k rest; Some (v :: vs, rest)
                        else None
                    | [] => None
                    end
                end
            end
          else None
      | [] => None
      end
  end.

Definition parse_ipv4 (s : str) : result Z :=
  match scan_octets 4 s with
  | Some ([b0; b1; b2; b3], []) => Ok (le32 b0 b1 b2 b3)
  | _ => Throw (bad_ipv4 s)
  end.

Definition ipv4_to_string (addr_be : Z) : str :=
  to_string (byte_of addr_be 0) ++ §"." ++ to_string (byte_of addr_be 1) ++ §"." ++
  to_string (byte_of addr_be 2) ++ §"." ++ to_string (byte_of addr_be 3).

(** ** Ports *)

Definition bad_port (s : str) : exn := invalid_argument (§"bad port: " ++ s).

Fixpoint scan_port (rest : str) (v : Z) : option Z :=
  match rest with
  | [] => Some v
  | ch :: rest => if isdigit ch then scan_port rest (u32 (v * 10 + digit_val ch)) else None
  end.

Definition parse_port (s : str) : result Z :=
  if (bool_decide (s = []) || (5 <? Z.of_nat (length s))) then Throw (bad_port s)
  else match scan_port s 0 with
       | None => Throw (bad_port s)
       | Some v => if (v <? 1) || (65535 <? v) then Throw (bad_port s) else Ok (u16 v)
       end.

Definition port_to_be (host_port : Z) : Z :=
  let b0 := u8 (Z.shiftr host_port 8) in
  let b1 := u8 (Z.land host_port 0xff) in
  b0 + 2 ^ 8 * b1.

Definition port_from_be (port_be : Z) : Z :=
  let b0 := byte_of port_be 0 in
  let b1 := byte_of port_be 1 in
  u16 (Z.lor (Z.shiftl b0 8) b1).

(** ** VIP specifications *)

Record t := mk {
  addr_be : Z;
  port_be : Z;
  proto : Z
}.

#[global] Instance t_eq_dec : EqDecision t.
Proof. solve_decision. Defined.
#[global] Instance t_countable : Countable t.
Proof.
  refine (inj_countable' (λ v, (addr_be v, port_be v, proto v)) (λ '(a, p, q), mk a p q) _).
  by intros [].
Defined.

(** [std::string::rfind] of a character. *)
Fixpoint rfind (c : ascii) (s : str) : option nat :=
  match s with
  | [] => None
  | d :: s =>
      match rfind c s with
      | Some n => Some (S n)
      | None => if bool_decide (d = c) then Some 0%nat else None
      end
  end.

Definition bad_vip (s : str) : exn :=
  invalid_argument (§"bad VIP, want ADDR:PORT/PROTO: " ++ s).
Definition bad_proto (s : str) : exn :=
  invalid_argument (§"bad proto in VIP (tcp|udp): " ++ s).

Definition parse (s : str) : result t :=
  match rfind ":"%char s, rfind "/"%char s with
  | Some colon, Some slash =>
      if (slash <? colon)%nat then Throw (bad_vip s)
      else
        a ← parse_ipv4 (take colon s);
        p ← parse_port (take (slash - colon - 1) (drop (colon + 1) s));
        let proto := drop (slash + 1) s in
        if bool_decide (proto = §"tcp") then Ok (mk a (port_to_be p) 6)
        else if bool_decide (proto = §"udp") then Ok (mk a (port_to_be p) 17)
        else Throw (bad_proto s)
  | _, _ => Throw (bad_vip s)
  end.

Definition to_str (v : t) : str :=
  ipv4_to_string (addr_be v) ++ §":" ++ to_string (port_from_be (port_be v)) ++
  (if proto v =? 6 then §"/tcp" else if proto v =? 17 then §"/udp" else §"/?").

Definition key (v : t) : pb_vip_key := mk_vip_key (addr_be v) (port_be v) (proto v) 0.

(** [operator<]: the order of [std::map<VipSpec, _>] and [std::set<VipSpec>]. *)
Definition ltb (x y : t) : bool :=
  if negb (addr_be x =? addr_be y) then addr_be x <? addr_be y
  else if negb (port_be x =? port_be y) then port_be x <? port_be y
  else proto x <? proto y.

(** ** Specification-level definitions *)

(** A group of digits one octet is written with: one to three digits, at most
    255. *)
Definition octet (d : str) (v : Z) : Prop :=
  (1 <= length d <= 3)%nat ∧ Forall (λ c, isdigit c = true) d ∧
  foldl (λ v c, v * 10 + digit_val c) 0 d = v ∧ v <= 255.

(** The VIPs the program handles: TCP or UDP, a 32-bit address, a port in
    1..65535. *)
Definition valid (v : t) : Prop :=
  is_u 32 (addr_be v) ∧ is_u 16 (port_be v) ∧ port_be v ≠ 0 ∧ (proto v = 6 ∨ proto v = 17).

(** The rest of the string does not continue the number before it. *)
Definition no_digit (rest : str) : Prop :=
  match rest with c :: _ => isdigit c = false | [] => True end.

(** The value of a digit string read after [v]. *)
Abbreviation dec_value v d := (foldl (λ acc c, acc * 10 + digit_val c) v d).

(** ** Lemmas: digits *)

Lemma isdigit_range c : isdigit c = true ↔ 0 <= digit_val c <= 9.
Proof. unfold isdigit. lia. Qed.

Lemma digit_char_spec d : 0 <= d <= 9 → isdigit (digit_char d) = true ∧ digit_val (digit_char d) = d.
Proof.
  intros H. unfold isdigit. assert (digit_val (digit_char d) = d) as ->; [| lia].
  unfold digit_val, digit_char. rewrite nat_ascii_embedding by lia. lia.
Qed.

Lemma dec_value_mono v d : 0 <= v → Forall (λ c, isdigit c = true) d → v <= dec_value v d.
Proof.
  intros Hv Hd. revert v Hv. induction Hd as [| c d Hc Hd IH]; intros v Hv; simpl; [lia |].
  apply isdigit_range in Hc. specialize (IH (v * 10 + digit_val c)). lia.
Qed.

Lemma dec_value_shift v d :
  dec_value v d = v * 10 ^ Z.of_nat (length d) + dec_value 0 d.
Proof.
  revert v. induction d as [| c d IH]; intros v; cbn [foldl length]; [lia |].
  rewrite IH, (IH (0 * 10 + digit_val c)).
  rewrite Nat2Z.inj_succ, Z.pow_succ_r by lia. ring.
Qed.

(** What [dec_digits] prepends: a non-empty digit string with the value of [n],
    of at most [k] characters when [n] has at most [k] digits. *)
Lemma dec_digits_spec fuel n acc k :
  0 <= n < 10 ^ Z.of_nat fuel → (0 < fuel)%nat → n < 10 ^ Z.of_nat k → (0 < k)%nat →
  ∃ d, dec_digits fuel n acc = d ++ acc ∧ Forall (λ c, isdigit c = true) d ∧ d ≠ [] ∧
       dec_value 0 d = n ∧ (length d <= k)%nat.
Proof.
  revert n acc k. induction fuel as [| fuel IH]; intros n acc k Hn Hf Hk Hk0; [lia |].
  pose proof (Z.mod_pos_bound n 10 ltac:(lia)) as Hm.
  destruct (digit_char_spec (n mod 10)) as [Hd Hv]; [lia |].
  cbn [dec_digits]. destruct (Z.eqb_spec (n / 10) 0) as [H0 | H0].
  - exists [digit_char (n mod 10)]. split; [done |]. repeat split; [by repeat constructor | done | | simpl; lia].
    cbn [foldl]. rewrite Hv. pose proof (Z.div_mod n 10). lia.
  - rewrite Nat2Z.inj_succ, Z.pow_succ_r in Hn by lia.
    destruct k as [| [| k]]; [lia | |].
    { change (10 ^ Z.of_nat 1) with 10 in Hk. rewrite Z.div_small in H0; lia. }
    rewrite Nat2Z.inj_succ, Z.pow_succ_r in Hk by lia.
    assert (0 <= n / 10) by (apply Z.div_pos; lia).
    destruct (IH (n / 10) (digit_char (n mod 10) :: acc) (S k)) as (d & Ed & Hds & Hne & Hval & Hlen).
    + split; [done |]. apply Z.div_lt_upper_bound; lia.
    + destruct fuel; [| lia]. change (10 ^ Z.of_nat 0) with 1 in Hn. rewrite Z.div_small in H0; lia.
    + apply Z.div_lt_upper_bound; lia.
    + lia.
    + exists (d ++ [digit_char (n mod 10)]).
      rewrite Ed, <-app_assoc. split; [done |]. repeat split.
      * apply Forall_app. split; [done | by repeat constructor].
      * by destruct d.
      * rewrite foldl_app, Hval. cbn [foldl]. rewrite Hv. pose proof (Z.div_mod n 10). lia.
      * rewrite length_app. simpl. lia.
Qed.

Lemma to_string_spec n k :
  0 <= n < 10 ^ Z.of_nat k → (0 < k <= 20)%nat →
  Forall (λ c, isdigit c = true) (to_string n) ∧ to_string n ≠ [] ∧
  dec_value 0 (to_string n) = n ∧ (length (to_string n) <= k)%nat.
Proof.
  intros Hn Hk. destruct (dec_digits_spec 20 n [] k) as (d & Ed & ?); [| lia .. |].
  - split; [lia |]. apply (Z.lt_le_trans _ (10 ^ Z.of_nat k)); [lia |]. apply Z.pow_le_mono_r; lia.
  - unfold to_string. rewrite Ed, app_nil_r. tauto.
Qed.

Lemma to_string_octet b : 0 <= b <= 255 → octet (to_string b) b.
Proof.
  intros Hb. destruct (to_string_spec b 3) as (Hd & Hne & Hv & Hl); [simpl; lia | lia |].
  split; [| auto with lia]. destruct (to_string b); [done | simpl in *; lia].
Qed.

(** ** Lemmas: the octet scanner *)

Lemma no_digit_dec rest : no_digit rest ∨ ∃ c r, rest = c :: r ∧ isdigit c = true.
Proof. destruct rest as [| c r]; [by left |]. destruct (isdigit c) eqn:E; [right; eauto | by left]. Qed.

Lemma scan_octet_complete d rest n v :
  Forall (λ c, isdigit c = true) d → no_digit rest → 0 <= v →
  n + Z.of_nat (length d) <= 3 → dec_value v d <= 255 →
  scan_octet (d ++ rest) n v = Some (dec_value v d, rest).
Proof.
  intros Hd Hr. revert n v. induction Hd as [| c d Hc Hd IH]; intros n v Hv Hl Hval.
  - destruct rest as [| c r]; [done |]. simpl in Hr |- *. by rewrite Hr.
  - cbn [foldl length] in Hl, Hval. cbn [app scan_octet foldl]. rewrite Hc.
    pose proof (proj1 (isdigit_range c) Hc).
    pose proof (dec_value_mono (v * 10 + digit_val c) d ltac:(lia) Hd).
    destruct ((255 <? v * 10 + digit_val c) || (3 <=? n)) eqn:E; [lia |].
    apply IH; lia.
Qed.

Lemma scan_octet_sound s n v v' rest :
  0 <= v → scan_octet s n v = Some (v', rest) →
  ∃ d, s = d ++ rest ∧ Forall (λ c, isdigit c = true) d ∧ no_digit rest ∧ v' = dec_value v d ∧
       (d = [] ∨ n + Z.of_nat (length d) <= 3 ∧ v' <= 255).
Proof.
  revert n v. induction s as [| c s IH]; intros n v Hv; cbn [scan_octet].
  - intros [= <- <-]. exists []. split_and!; [done | by constructor | done | done | by left].
  - destruct (isdigit c) eqn:Hc.
    + destruct ((255 <? v * 10 + digit_val c) || (3 <=? n)) eqn:E; [done |].
      intros (d & -> & Hd & Hr & -> & Hor)%IH; [| apply isdigit_range in Hc; lia].
      exists (c :: d). split; [done |]. split; [by constructor |]. split; [done |].
      split; [done |]. right. destruct Hor as [-> |]; cbn [foldl length]; lia.
    + intros [= <- <-]. exists []. split_and!; [done | by constructor | done | done | by left].
Qed.

(** An octet at the front of the input is read exactly. *)
Lemma scan_octet_octet s :
  (∃ c r, s = c :: r ∧ isdigit c = true) →
  ∀ v rest, scan_octet s 0 0 = Some (v, rest) ↔ ∃ d, octet d v ∧ s = d ++ rest ∧ no_digit rest.
Proof.
  intros (c & r & -> & Hc) v rest. split.
  - intros (d & E & Hd & Hr & -> & Hor)%scan_octet_sound; [| lia].
    exists d. destruct d as [| c' d].
    { simpl in E. subst rest. simpl in Hr. congruence. }
    destruct Hor as [|[Hl Hv]]; [done |]. split; [| done]. split; [simpl in *; lia | done].
  - intros (d & (Hl & Hd & <- & Hv) & -> & Hr). apply scan_octet_complete; (done || lia).
Qed.

Lemma octet_head d v s : octet d v → ∃ c r, d ++ s = c :: r ∧ isdigit c = true.
Proof.
  intros (Hl & Hd & _). destruct d as [| c d]; [simpl in Hl; lia |].
  inversion Hd; subst. eauto.
Qed.

Lemma scan_octets_last s vs rest :
  scan_octets 1 s = Some (vs, rest) ↔ ∃ d v, octet d v ∧ s = d ++ rest ∧ no_digit rest ∧ vs = [v].
Proof.
  split.
  - destruct s as [| c s]; [done |]. cbn [scan_octets]. destruct (isdigit c) eqn:Hc; [| done].
    destruct (scan_octet (c :: s) 0 0) as [[v r] |] eqn:E; [| done]. intros [= <- <-].
    apply scan_octet_octet in E as (d & ? & ? & ?); [| eauto]. eauto 10.
  - intros (d & v & Ho & -> & Hr & ->). destruct (octet_head d v rest Ho) as (c & r & E & Hc).
    assert (scan_octet (d ++ rest) 0 0 = Some (v, rest)) as Hs.
    { apply scan_octet_octet; eauto. }
    rewrite E in *. cbn [scan_octets]. by rewrite Hc, Hs.
Qed.

Lemma scan_octets_step k s vs rest :
  scan_octets (S (S k)) s = Some (vs, rest) ↔
  ∃ d v s' vs', octet d v ∧ s = d ++ "."%char :: s' ∧ vs = v :: vs' ∧
                scan_octets (S k) s' = Some (vs', rest).
Proof.
  split.
  - destruct s as [| c s]; [done |]. remember (S k) as k' eqn:Hk. cbn [scan_octets].
    destruct (isdigit c) eqn:Hc; [| done].
    destruct (scan_octet (c :: s) 0 0) as [[v r] |] eqn:E; [| done].
    rewrite Hk. destruct r as [| x r]; [done |]. rewrite <-Hk.
    case_bool_decide as Hx; [subst x | done].
    destruct (scan_octets k' r) as [[vs' r'] |] eqn:Er; [| done]. intros [= <- <-].
    apply scan_octet_octet in E as (d & ? & ? & ?); [| eauto]. eauto 10.
  - intros (d & v & s' & vs' & Ho & -> & -> & Hrec).
    destruct (octet_head d v ("."%char :: s') Ho) as (c & r & E & Hc).
    assert (scan_octet (d ++ "."%char :: s') 0 0 = Some (v, "."%char :: s')) as Hs.
    { apply scan_octet_octet; [by eauto |]. exists d. split_and!; done. }
    rewrite E in *. remember (S k) as k' eqn:Hk. cbn [scan_octets]. rewrite Hc, Hs, Hk, <-Hk.
    rewrite bool_decide_eq_true_2 by done. by rewrite Hrec.
Qed.

(** ** Lemmas: bytes of integers *)

Lemma byte_of_div x i : 0 <= i → byte_of x i = (x / 2 ^ (8 * i)) mod 256.
Proof.
  intros Hi. unfold byte_of. rewrite Z.shiftr_div_pow2 by lia.
  change 255 with (Z.ones 8). by rewrite Z.land_ones by lia.
Qed.

Lemma byte_of_range x i : 0 <= i → 0 <= byte_of x i <= 255.
Proof. intros Hi. rewrite byte_of_div by done. pose proof (Z.mod_pos_bound (x / 2 ^ (8 * i)) 256). lia. Qed.

Lemma le32_byte_of a :
  is_u 32 a → le32 (byte_of a 0) (byte_of a 1) (byte_of a 2) (byte_of a 3) = a.
Proof.
  unfold is_u, le32. intros Ha. rewrite !byte_of_div by lia.
  change (2 ^ (8 * 0)) with 1. change (2 ^ (8 * 1)) with 256.
  change (2 ^ (8 * 2)) with 65536. change (2 ^ (8 * 3)) with 16777216.
  Z.to_euclidean_division_equations. lia.
Qed.

Lemma le32_range b0 b1 b2 b3 :
  0 <= b0 <= 255 → 0 <= b1 <= 255 → 0 <= b2 <= 255 → 0 <= b3 <= 255 → is_u 32 (le32 b0 b1 b2 b3).
Proof. unfold is_u, le32. lia. Qed.

Lemma port_to_be_swap p : is_u 16 p → port_to_be p = p / 256 + 256 * (p mod 256).
Proof.
  unfold is_u, port_to_be, u8. intros Hp. rewrite Z.shiftr_div_pow2 by lia.
  change 0xff with (Z.ones 8). rewrite Z.land_ones by lia.
  Z.to_euclidean_division_equations. lia.
Qed.

Lemma port_from_be_swap p : is_u 16 p → port_from_be p = p / 256 + 256 * (p mod 256).
Proof.
  unfold port_from_be. intros Hp. rewrite !byte_of_div by lia.
  change (2 ^ (8 * 0)) with 1. change (2 ^ (8 * 1)) with 256. unfold is_u in Hp.
  rewrite <-Z.add_nocarry_lor.
  - rewrite Z.shiftl_mul_pow2, u16_id by (unfold is_u; Z.to_euclidean_division_equations; lia).
    Z.to_euclidean_division_equations. lia.
  - apply Z.bits_inj'. intros i Hi. rewrite Z.land_spec, Z.bits_0.
    destruct (Z.lt_ge_cases i 8).
    + by rewrite Z.shiftl_spec_low by lia.
    + rewrite (is_u_testbit_high 8 ((p / 256) mod 256)); [apply andb_false_r | | lia].
      unfold is_u. apply Z.mod_pos_bound. lia.
Qed.

Lemma swap_range p : is_u 16 p → is_u 16 (p / 256 + 256 * (p mod 256)).
Proof. unfold is_u. intros Hp. Z.to_euclidean_division_equations. lia. Qed.

Lemma swap_swap p :
  is_u 16 p → (p / 256 + 256 * (p mod 256)) / 256 + 256 * ((p / 256 + 256 * (p mod 256)) mod 256) = p.
Proof. unfold is_u. intros Hp. Z.to_euclidean_division_equations. lia. Qed.

(** ** IPv4 addresses *)

Lemma octet_range d v : octet d v → 0 <= v <= 255.
Proof.
  intros (_ & Hd & <- & Hv). split; [| done]. apply dec_value_mono; [lia | done].
Qed.

Lemma parse_ipv4_iff s a :
  parse_ipv4 s = Ok a ↔
  ∃ d0 d1 d2 d3 v0 v1 v2 v3,
    octet d0 v0 ∧ octet d1 v1 ∧ octet d2 v2 ∧ octet d3 v3 ∧
    s = d0 ++ "."%char :: d1 ++ "."%char :: d2 ++ "."%char :: d3 ∧ a = le32 v0 v1 v2 v3.
Proof.
  unfold parse_ipv4. split.
  - destruct (scan_octets 4 s) as [[vs rest] |] eqn:E; [| done].
    apply scan_octets_step in E as (d0 & v0 & s1 & vs1 & H0 & -> & -> & E).
    apply scan_octets_step in E as (d1 & v1 & s2 & vs2 & H1 & -> & -> & E).
    apply scan_octets_step in E as (d2 & v2 & s3 & vs3 & H2 & -> & -> & E).
    apply scan_octets_last in E as (d3 & v3 & H3 & -> & _ & ->).
    destruct rest; [| done]. intros [= <-]. rewrite app_nil_r.
    exists d0, d1, d2, d3, v0, v1, v2, v3. by split_and!.
  - intros (d0 & d1 & d2 & d3 & v0 & v1 & v2 & v3 & H0 & H1 & H2 & H3 & -> & ->).
    assert (scan_octets 4 (d0 ++ "."%char :: d1 ++ "."%char :: d2 ++ "."%char :: d3)
            = Some ([v0; v1; v2; v3], [])) as ->; [| done].
    apply scan_octets_step. exists d0, v0. eexists _, _. split_and!; [done | reflexivity | reflexivity |].
    apply scan_octets_step. exists d1, v1. eexists _, _. split_and!; [done | reflexivity | reflexivity |].
    apply scan_octets_step. exists d2, v2. eexists _, _. split_and!; [done | reflexivity | reflexivity |].
    apply scan_octets_last. exists d3, v3. by rewrite app_nil_r.
Qed.

Lemma parse_ipv4_ipv4_to_string a : is_u 32 a → parse_ipv4 (ipv4_to_string a) = Ok a.
Proof.
  intros Ha. apply parse_ipv4_iff.
  exists (to_string (byte_of a 0)), (to_string (byte_of a 1)),
         (to_string (byte_of a 2)), (to_string (byte_of a 3)).
  exists (byte_of a 0), (byte_of a 1), (byte_of a 2), (byte_of a 3).
  split_and!; [apply to_string_octet, byte_of_range; lia .. | done | by rewrite le32_byte_of].
Qed.

Lemma parse_ipv4_range s a : parse_ipv4 s = Ok a → is_u 32 a.
Proof.
  intros (d0 & d1 & d2 & d3 & v0 & v1 & v2 & v3 & H0 & H1 & H2 & H3 & _ & ->)%parse_ipv4_iff.
  apply le32_range; eapply octet_range; eauto.
Qed.

(** ** Ports *)

Lemma scan_port_value s v :
  Forall (λ c, isdigit c = true) s → 0 <= v → dec_value v s < 2 ^ 32 →
  scan_port s v = Some (dec_value v s).
Proof.
  intros Hd. revert v. induction Hd as [| c s Hc Hd IH]; intros v Hv Hb; cbn [scan_port foldl]; [done |].
  rewrite Hc. apply isdigit_range in Hc. cbn [foldl] in Hb.
  pose proof (dec_value_mono (v * 10 + digit_val c) s ltac:(lia) Hd).
  rewrite u32_id by (unfold is_u; lia). apply IH; lia.
Qed.

Lemma parse_port_to_string p : 1 <= p <= 65535 → parse_port (to_string p) = Ok p.
Proof.
  intros Hp. destruct (to_string_spec p 5) as (Hd & Hne & Hv & Hl); [simpl; lia | lia |].
  unfold parse_port. rewrite bool_decide_eq_false_2 by done.
  replace (5 <? Z.of_nat (length (to_string p))) with false by lia. simpl.
  rewrite scan_port_value, Hv by (done || lia).
  destruct ((p <? 1) || (65535 <? p)) eqn:E; [lia |]. by rewrite u16_id by (unfold is_u; lia).
Qed.

Lemma parse_port_range s p : parse_port s = Ok p → 1 <= p <= 65535.
Proof.
  unfold parse_port. destruct (bool_decide _ || _); [done |].
  destruct (scan_port s 0) as [v |]; [| done].
  destruct ((v <? 1) || (65535 <? v)) eqn:E; [done |]. intros [= <-].
  rewrite u16_id by (unfold is_u; lia). lia.
Qed.

Lemma port_be_inverse p :
  is_u 16 p →
  port_from_be (port_to_be p) = p ∧ port_to_be (port_from_be p) = p ∧
  is_u 16 (port_to_be p) ∧ is_u 16 (port_from_be p).
Proof.
  intros Hp. pose proof (swap_range p Hp). pose proof (swap_swap p Hp).
  rewrite (port_to_be_swap p), (port_from_be_swap p) by done.
  rewrite port_from_be_swap, port_to_be_swap by done. done.
Qed.

(** ** VIP specifications *)

Lemma rfind_none c s : c ∉ s → rfind c s = None.
Proof.
  induction s as [| d s IH]; [done |]. intros [Hne Hs]%not_elem_of_cons. simpl.
  by rewrite IH, bool_decide_eq_false_2 by congruence.
Qed.

Lemma rfind_app c s r : c ∉ r → rfind c (s ++ c :: r) = Some (length s).
Proof.
  intros Hr. induction s as [| d s IH]; simpl.
  - by rewrite rfind_none, bool_decide_eq_true_2.
  - by rewrite IH.
Qed.

Lemma digits_not_elem c s :
  isdigit c = false → Forall (λ c, isdigit c = true) s → c ∉ s.
Proof. intros Hc Hd Hin. rewrite Forall_forall in Hd. apply Hd in Hin. congruence. Qed.

(** Parsing a string assembled from its three parts. *)
Lemma parse_assembled ip port q v :
  "/"%char ∉ q → ":"%char ∉ q → ":"%char ∉ port →
  parse (ip ++ ":"%char :: port ++ "/"%char :: q) = v ↔
  (a ← parse_ipv4 ip; p ← parse_port port;
   if bool_decide (q = §"tcp") then Ok (mk a (port_to_be p) 6)
   else if bool_decide (q = §"udp") then Ok (mk a (port_to_be p) 17)
   else Throw (bad_proto (ip ++ ":"%char :: port ++ "/"%char :: q))) = v.
Proof.
  intros Hq Hq' Hp. unfold parse.
  rewrite rfind_app.
  2: { rewrite elem_of_app, elem_of_cons. by intros [? | [? | ?]]. }
  assert (rfind "/"%char (ip ++ ":"%char :: port ++ "/"%char :: q)
          = Some (length ip + S (length port))%nat) as ->.
  { replace (ip ++ ":"%char :: port ++ "/"%char :: q)
      with ((ip ++ ":"%char :: port) ++ "/"%char :: q) by (by rewrite <-app_assoc).
    rewrite rfind_app by done. by rewrite length_app. }
  replace ((length ip + S (length port) <? length ip)%nat) with false
    by (symmetry; apply Nat.ltb_ge; lia).
  rewrite take_app_length.
  replace (length ip + S (length port) - length ip - 1)%nat with (length port) by lia.
  replace (drop (length ip + 1) (ip ++ ":"%char :: port ++ "/"%char :: q))
    with (port ++ "/"%char :: q)
    by (by rewrite drop_app_add).
  rewrite take_app_length.
  replace (drop (length ip + S (length port) + 1) (ip ++ ":"%char :: port ++ "/"%char :: q)) with q.
  2: { replace (length ip + S (length port) + 1)%nat with (length ip + S (length port + 1))%nat by lia.
       rewrite drop_app_add. simpl. by rewrite drop_app_add. }
  done.
Qed.

Lemma parse_to_str v : valid v → parse (to_str v) = Ok v.
Proof.
  destruct v as [a p q]. intros (Ha & Hp & Hp0 & Hq). simpl in *. unfold to_str. simpl.
  destruct (port_be_inverse p Hp) as (Hr1 & Hr2 & Hr3 & Hr4).
  assert (1 <= port_from_be p <= 65535) as Hport.
  { unfold is_u in *. assert (port_from_be p ≠ 0); [| lia].
    intros E. rewrite E in Hr2. by vm_compute in Hr2. }
  destruct (to_string_spec (port_from_be p) 5) as (Hd & _); [simpl; lia | lia |].
  assert (∀ q', q' = §"tcp" ∧ q = 6 ∨ q' = §"udp" ∧ q = 17 →
          parse (ipv4_to_string a ++ ":"%char :: to_string (port_from_be p) ++ "/"%char :: q')
          = Ok (mk a p q)) as H.
  { intros q' Hq'. apply parse_assembled.
    - destruct Hq' as [[-> _] | [-> _]]; decide_closed.
    - destruct Hq' as [[-> _] | [-> _]]; decide_closed.
    - by apply digits_not_elem.
    - rewrite parse_ipv4_ipv4_to_string by done. simpl. rewrite parse_port_to_string by done. simpl.
      rewrite Hr2. by destruct Hq' as [[-> ->] | [-> ->]]. }
  destruct Hq as [-> | ->]; simpl; apply H; auto.
Qed.

Lemma parse_valid s v : parse s = Ok v → valid v.
Proof.
  unfold parse. destruct (rfind ":"%char s) as [colon |]; [| done].
  destruct (rfind "/"%char s) as [slash |]; [| done].
  destruct (slash <? colon)%nat; [done |].
  destruct (parse_ipv4 _) as [a |] eqn:Ea; [| done]. simpl.
  destruct (parse_port _) as [p |] eqn:Ep; [| done]. simpl.
  apply parse_ipv4_range in Ea. apply parse_port_range in Ep.
  assert (is_u 16 p) as Hp by (unfold is_u; lia).
  destruct (port_be_inverse p Hp) as (Hr1 & _ & Hr3 & _).
  assert (port_to_be p ≠ 0).
  { intros E. rewrite E in Hr1. vm_compute in Hr1. lia. }
  case_bool_decide; [intros [= <-]; by unfold valid; auto |].
  case_bool_decide; [intros [= <-]; by unfold valid; auto | done].
Qed.

(** Parse_ipv4 accepts exactly the strings of four dot-separated groups of
    one to three decimal digits, each at most 255, with nothing before, between
    or after, and returns the address whose bytes in memory are the four
    values in order. *)
Theorem parse_ipv4_spec s a :
  parse_ipv4 s = Ok a ↔
  ∃ d0 d1 d2 d3 v0 v1 v2 v3,
    octet d0 v0 ∧ octet d1 v1 ∧ octet d2 v2 ∧ octet d3 v3 ∧
    s = d0 ++ "."%char :: d1 ++ "."%char :: d2 ++ "."%char :: d3 ∧ a = le32 v0 v1 v2 v3.
Proof. apply parse_ipv4_iff. Qed.

(** Printing then parsing an IPv4 address or a port gives it back, for every
    32-bit address, every port 1..65535, and the byte-order conversions of a
    port are inverse to each other. *)
Theorem addr_port_roundtrip :
  (∀ a, is_u 32 a → parse_ipv4 (ipv4_to_string a) = Ok a) ∧
  (∀ p, 1 <= p <= 65535 → parse_port (to_string p) = Ok p) ∧
  (∀ p, is_u 16 p → port_from_be (port_to_be p) = p ∧ port_to_be (port_from_be p) = p).
Proof.
  split_and!; [apply parse_ipv4_ipv4_to_string | apply parse_port_to_string |].
  intros p Hp. by destruct (port_be_inverse p Hp) as (? & ? & _).
Qed.

(** Printing then parsing a VIP gives it back, and every string that parses
    yields a well-formed VIP (TCP or UDP, port 1..65535) that survives the same
    round trip: the daemon, pbctl and the config agree on VIP identity. *)
Theorem vip_parse_print :
  (∀ v, valid v → parse (to_str v) = Ok v) ∧
  (∀ s v, parse s = Ok v → valid v ∧ parse (to_str v) = Ok v).
Proof.
  split; [apply parse_to_str |]. intros s v H%parse_valid. auto using parse_to_str.
Qed.

(** Operator< on VipSpec is a strict total order, as std::map and std::set
    require of their key comparison. *)
Theorem ltb_strict_total :
  (∀ x, ltb x x = false) ∧
  (∀ x y z, ltb x y = true → ltb y z = true → ltb x z = true) ∧
  (∀ x y, ltb x y = false → ltb y x = false → x = y).
Proof.
  unfold ltb. split_and!.
  - intros [a p q]; simpl. repeat case_match; lia.
  - intros [a p q] [a' p' q'] [a'' p'' q'']; simpl. intros. repeat case_match; lia.
  - intros [a p q] [a' p' q']; simpl. intros. repeat case_match; f_equal; lia.
Qed.

(** The strings of tests/core/vipspec_test.cpp. *)
Example parse_examples :
  parse (§"198.51.100.1:80/tcp") = Ok (mk 0x016433c6 0x5000 6) ∧
  parse (§"198.51.100.1/tcp:80") = Throw (bad_vip (§"198.51.100.1/tcp:80")) ∧
  is_ok (parse (§"198.51.100.256:80/tcp")) = false ∧
  is_ok (parse (§"198.51.100.1:65536/tcp")) = false ∧
  is_ok (parse (§"198.51.100.1:80/icmp")) = false ∧
  ipv4_to_string 0x1500000a = §"10.0.0.21".
Proof. repeat split; vm_compute; reflexivity. Qed.

End VipSpec.
