(* ===== verification/Maglev.v ===== *)
(** * Ring construction (src/core/maglev.cpp, include/packetbalance/maglev.h)

    The Maglev fill with interleaved weights and the modulo baseline.  A
    [std::vector<uint32_t>] is a list; the two unbounded loops of build_maglev
    (the walk along a backend's permutation and the fill rounds) take fuel, and
    running out of it is [Stuck] / [None], which the termination theorem rules
    out for prime ring sizes. *)

From Stdlib Require Import ZArith Lia.
From S2P Require Import Prelude Abi Hash VipSpec.
Import Hash.

Module Maglev.

Record Backend := mk_backend {
  real_id : Z;
  addr : Z;
  weight : Z
}.

Inductive HashMode : Type := ModeMaglev | ModeModulo.

#[global] Instance Backend_eq_dec : EqDecision Backend.
Proof. solve_decision. Defined.
#[global] Instance HashMode_eq_dec : EqDecision HashMode.
Proof. solve_decision. Defined.

Definition parse_hash_mode (s : str) : result HashMode :=
  if bool_decide (s = §"maglev") then Ok ModeMaglev
  else if bool_decide (s = §"modulo") then Ok ModeModulo
  else Throw (invalid_argument (§"bad hash mode (maglev|modulo): " ++ s)).

Definition hash_mode_name (m : HashMode) : str :=
  match m with ModeMaglev => §"maglev" | ModeModulo => §"modulo" end.

(** ** Active backends, sorted by address *)

(** The comparison given to [std::sort], as the non-strict order it sorts by. *)
Definition addr_le (x y : Backend) : Prop := addr x <= addr y.

#[global] Instance addr_le_dec : RelDecision addr_le.
Proof. intros x y. unfold addr_le. apply _. Defined.

(** [std::adjacent_find] with equality of addresses. *)
Fixpoint adjacent_dup (l : list Backend) : option Backend :=
  match l with
  | x :: ((y :: _) as l') => if addr x =? addr y then Some x else adjacent_dup l'
  | _ => None
  end.

Definition active_sorted (backends : list Backend) : result (list Backend) :=
  let out := merge_sort addr_le (filter (λ b, 0 < weight b) backends) in
  match adjacent_dup out with
  | Some dup => Throw (invalid_argument
                         (§"build_ring: duplicate backend address " ++ VipSpec.ipv4_to_string (addr dup)))
  | None => Ok out
  end.

(** ** Maglev *)

(** The next slot of a permutation: 64-bit addition, then the 32-bit cast. *)
Definition advance (M skip c : Z) : Z := u32 (u64 (c + skip) mod M).

(** [while (entry[c] != PB_REAL_NONE) c = (c + skip) % M]. *)
Fixpoint walk (fuel : nat) (entry : list Z) (M skip c : Z) : option Z :=
  match fuel with
  | O => None
  | S fuel =>
      v ← entry !! Z.to_nat c;
      if v =? PB_REAL_NONE then Some c else walk fuel entry M skip (advance M skip c)
  end.

(** The mutable state of the fill. *)
Record Fill := mk_fill {
  entry : list Z;
  next : list Z;
  filled : Z
}.

Definition offset_of (M : Z) (b : Backend) : Z := pb_backend_hash_offset (addr b) mod M.
Definition skip_of (M : Z) (b : Backend) : Z :=
  if 1 <? M then pb_backend_hash_skip (addr b) mod (M - 1) + 1 else 1.

(** Backend [i] takes a turn: it claims the first free slot of its permutation. *)
Definition turn (sorted : list Backend) (skip : list Z) (M : Z) (i : nat) (st : Fill) : ctl Fill :=
  match sorted !! i, skip !! i, next st !! i with
  | Some b, Some sk, Some c =>
      match walk (Z.to_nat M) (entry st) M sk c with
      | None => Stuck
      | Some c =>
          let st := mk_fill (<[Z.to_nat c := real_id b]> (entry st))
                            (<[i := advance M sk c]> (next st))
                            (u32 (filled st + 1)) in
          if filled st =? M then Return st else Next st
      end
  | _, _, _ => Stuck
  end.

(** One pass: every backend whose weight exceeds the pass number takes a turn. *)
Definition pass (sorted : list Backend) (skip : list Z) (M : Z) (p : Z) (st : Fill) : ctl Fill :=
  for_each (λ i st,
    match sorted !! i with
    | None => Stuck
    | Some b => if weight b <=? p then Next st else turn sorted skip M i st
    end) (seq 0 (length sorted)) st.

(** [while (true)] over the rounds of w_max passes. *)
Fixpoint rounds (fuel : nat) (sorted : list Backend) (skip : list Z) (M w_max : Z) (st : Fill) : ctl Fill :=
  match fuel with
  | O => Stuck
  | S fuel =>
      match for_each (pass sorted skip M) (seqZ 0 w_max) st with
      | Next st => rounds fuel sorted skip M w_max st
      | r => r
      end
  end.

Definition build_maglev (sorted : list Backend) (M : Z) : option (list Z) :=
  let entry := replicate (Z.to_nat M) PB_REAL_NONE in
  if bool_decide (sorted = []) || (M =? 0) then Some entry
  else
    let skip := skip_of M <$> sorted in
    let next := offset_of M <$> sorted in
    let w_max := foldr Z.max 0 (weight <$> sorted) in
    match rounds (Z.to_nat M) sorted skip M w_max (mk_fill entry next 0) with
    | Return st => Some (Maglev.entry st)
    | _ => None
    end.

(** ** Modulo *)

Definition modulo_list (sorted : list Backend) : list Z :=
  sorted ≫= λ b, replicate (Z.to_nat (weight b)) (real_id b).

Definition build_modulo (sorted : list Backend) (M : Z) : list Z :=
  let l := modulo_list sorted in
  match l with
  | [] => replicate (Z.to_nat M) PB_REAL_NONE
  | _ => (λ i, default PB_REAL_NONE (l !! Z.to_nat (i mod Z.of_nat (length l)))) <$> seqZ 0 M
  end.

(** ** The ring

    [None]: the function does not return. *)
Definition build_ring (backends : list Backend) (mode : HashMode) (ring_size : Z) : option (result (list Z)) :=
  match active_sorted backends with
  | Throw e => Some (Throw e)
  | Ok sorted =>
      match mode with
      | ModeMaglev => Ok <$> build_maglev sorted ring_size
      | ModeModulo => Some (Ok (build_modulo sorted ring_size))
      end
  end.

(** Slot chosen for a flow. *)
Definition ring_index (flow_hash ring_size : Z) : Z := flow_hash mod ring_size.

(** ** Specification-level definitions *)

(** Number of slots of a ring that hold [id]. *)
Definition slots_of (id : Z) (ring : list Z) : Z := Z.of_nat (occ id ring).

(** Slot [j] of the permutation that starts at [c]: the paper's
    permutation[j] = (offset + j * skip) mod M. *)
Definition perm_at (M skip c j : Z) : Z := (c + j * skip) mod M.

(** The turns of one round, as backend indices in order. *)
Definition round (sorted : list Backend) : list nat :=
  seqZ 0 (foldr Z.max 0 (weight <$> sorted)) ≫= λ p,
    filter (λ i, p < from_option weight 0 (sorted !! i)) (seq 0 (length sorted)).

(** Backends as the daemon passes them: 32-bit ids that are not the sentinel
    and 32-bit weights. *)
Definition backend_ok (b : Backend) : Prop :=
  is_u 32 (real_id b) ∧ real_id b ≠ PB_REAL_NONE ∧ is_u 32 (weight b).

(** The lemmas never look inside the hash functions. *)
#[local] Opaque pb_backend_hash_offset pb_backend_hash_skip.

(** ** Lemmas: permutations *)

Lemma advance_eq M sk c : 0 < M < 2 ^ 32 → 0 <= c < M → 0 <= sk <= M → advance M sk c = (c + sk) mod M.
Proof.
  intros HM Hc Hs. unfold advance. rewrite u64_id by (unfold is_u; lia).
  apply u32_id. unfold is_u. pose proof (Z.mod_pos_bound (c + sk) M). lia.
Qed.

Lemma perm_at_range M sk c j : 0 < M → 0 <= perm_at M sk c j < M.
Proof. intros HM. apply Z.mod_pos_bound. lia. Qed.

Lemma perm_at_0 M sk c : 0 <= c < M → perm_at M sk c 0 = c.
Proof. intros Hc. unfold perm_at. rewrite Z.mul_0_l, Z.add_0_r. by apply Z.mod_small. Qed.

Lemma perm_at_advance M sk c j : 0 < M → perm_at M sk ((c + sk) mod M) j = perm_at M sk c (j + 1).
Proof.
  intros HM. unfold perm_at. rewrite Z.add_mod_idemp_l by lia. f_equal. lia.
Qed.

Lemma perm_at_covers M sk c t :
  Z.prime M → 1 <= sk < M → 0 <= t < M → ∃ j, 0 <= j < M ∧ perm_at M sk c j = t.
Proof.
  intros HM Hs Ht. pose proof (Z.prime_ge_2 M HM).
  destruct (Z.Bezout_coprime M sk (Z.coprime_prime_small M sk HM Hs)) as (v & u & Huv).
  exists (((t - c) * u) mod M). split; [apply Z.mod_pos_bound; lia |].
  unfold perm_at. rewrite <-Z.add_mod_idemp_r, Z.mul_mod_idemp_l, Z.add_mod_idemp_r by lia.
  rewrite <-Z.mul_assoc. replace (u * sk) with (1 - v * M) by lia.
  replace (c + (t - c) * (1 - v * M)) with (t + (- ((t - c) * v)) * M) by ring.
  rewrite Z.mod_add by lia. by apply Z.mod_small.
Qed.

Lemma perm_at_inj M sk c i j :
  Z.prime M → 1 <= sk < M → 0 <= i < M → 0 <= j < M →
  perm_at M sk c i = perm_at M sk c j → i = j.
Proof.
  intros HM Hs Hi Hj H. pose proof (Z.prime_ge_2 M HM). unfold perm_at in H.
  assert ((i - j) * sk mod M = 0) as Hz.
  { replace ((i - j) * sk) with ((c + i * sk) - (c + j * sk)) by lia.
    by rewrite Zminus_mod, H, Z.sub_diag, Z.mod_0_l by lia. }
  apply Z.mod_divide in Hz; [| lia].
  apply Z.divide_prime_mul in Hz as [[q Hq] | [q Hq]]; [| | done].
  - assert (q = 0) by nia. lia.
  - assert (q = 0 ∨ 1 <= q ∨ q <= -1) as [-> | []] by lia; nia.
Qed.

(** ** Lemmas: the walk *)

Lemma walk_spec fuel l M sk c j :
  0 < M < 2 ^ 32 → length l = Z.to_nat M → 0 <= c < M → 0 <= sk <= M → 0 <= j < Z.of_nat fuel →
  l !! Z.to_nat (perm_at M sk c j) = Some PB_REAL_NONE →
  ∃ k, 0 <= k <= j ∧ walk fuel l M sk c = Some (perm_at M sk c k) ∧
       l !! Z.to_nat (perm_at M sk c k) = Some PB_REAL_NONE ∧
       ∀ i, 0 <= i < k → l !! Z.to_nat (perm_at M sk c i) ≠ Some PB_REAL_NONE.
Proof.
  intros HM Hl. revert c j. induction fuel as [| fuel IH]; intros c j Hc Hs Hj Hfree; [lia |].
  cbn [walk]. destruct (lookup_lt_is_Some_2 l (Z.to_nat c)) as [v Hv]; [lia |].
  rewrite Hv. cbn [mbind option_bind]. destruct (Z.eqb_spec v PB_REAL_NONE) as [-> | Hne].
  - exists 0. rewrite perm_at_0 by done. split_and!; [lia | lia | done | done | lia].
  - rewrite advance_eq by lia.
    destruct (decide (j = 0)) as [-> | Hj0].
    { rewrite perm_at_0 in Hfree by done. congruence. }
    destruct (IH ((c + sk) mod M) (j - 1)) as (k & Hk & Hw & Hkf & Hmin).
    + apply Z.mod_pos_bound. lia.
    + lia.
    + lia.
    + rewrite perm_at_advance by lia. by replace (j - 1 + 1) with j by lia.
    + rewrite perm_at_advance in Hw, Hkf by lia. exists (k + 1).
      split_and!; [lia | lia | done | done |]. intros i Hi.
      destruct (decide (i = 0)) as [-> | Hi0]; [rewrite perm_at_0 by done; congruence |].
      specialize (Hmin (i - 1)). rewrite perm_at_advance in Hmin by lia.
      replace (i - 1 + 1) with i in Hmin by lia. apply Hmin. lia.
Qed.

(** The walk of a prime ring with a free slot finds one within M steps. *)
Lemma walk_finds l M sk c :
  Z.prime M → M < 2 ^ 32 → length l = Z.to_nat M → 0 <= c < M → 1 <= sk < M → PB_REAL_NONE ∈ l →
  ∃ t, walk (Z.to_nat M) l M sk c = Some t ∧ 0 <= t < M ∧ l !! Z.to_nat t = Some PB_REAL_NONE.
Proof.
  intros HM HM32 Hl Hc Hs Hin. pose proof (Z.prime_ge_2 M HM).
  apply list_elem_of_lookup in Hin as [n Hn].
  assert (n < length l)%nat by (eapply lookup_lt_Some; eauto).
  destruct (perm_at_covers M sk c (Z.of_nat n)) as (j & Hj & Ej); [done | done | lia |].
  destruct (walk_spec (Z.to_nat M) l M sk c j) as (k & Hk & Hw & Hf & _); try lia.
  { rewrite Ej, Nat2Z.id. done. }
  exists (perm_at M sk c k). split_and!; try done; by apply perm_at_range; lia.
Qed.

(** ** Lemmas: the fill *)

Section fill.
Context (sorted : list Backend) (M : Z).
Context (HM : Z.prime M) (HM32 : M < 2 ^ 32).

(** The id backend [i] writes into the slots it claims. *)
Definition id_at (i : nat) : Z := from_option real_id PB_REAL_NONE (sorted !! i).

(** After the turns [s], the ring holds the ids of those turns and free slots. *)
Record fill_inv (st : Fill) (s : list nat) : Prop := {
  fi_perm : entry st ≡ₚ replicate (Z.to_nat M - length s) PB_REAL_NONE ++ (id_at <$> s);
  fi_len : (length s <= Z.to_nat M)%nat;
  fi_next_len : length (next st) = length sorted;
  fi_next : Forall (λ c, 0 <= c < M) (next st);
  fi_filled : filled st = Z.of_nat (length s)
}.

Lemma fill_inv_length st s : fill_inv st s → length (entry st) = Z.to_nat M.
Proof.
  intros [Hp Hl _ _ _]. rewrite Hp, length_app, length_replicate, length_fmap. lia.
Qed.

Lemma skip_of_range b : 1 <= skip_of M b < M.
Proof.
  pose proof (Z.prime_ge_2 M HM). unfold skip_of. replace (1 <? M) with true by lia.
  pose proof (Z.mod_pos_bound (pb_backend_hash_skip (addr b)) (M - 1)). lia.
Qed.

Lemma fill_inv_init :
  fill_inv (mk_fill (replicate (Z.to_nat M) PB_REAL_NONE) (offset_of M <$> sorted) 0) [].
Proof.
  pose proof (Z.prime_ge_2 M HM). split; simpl; [| lia | by rewrite length_fmap | | done].
  - by rewrite app_nil_r, Nat.sub_0_r.
  - apply Forall_fmap, Forall_forall. intros b _. apply Z.mod_pos_bound. lia.
Qed.

Lemma turn_inv st s i :
  fill_inv st s → (length s < Z.to_nat M)%nat → (i < length sorted)%nat →
  ∃ st', fill_inv st' (s ++ [i]) ∧
         turn sorted (skip_of M <$> sorted) M i st =
           (if bool_decide (S (length s) = Z.to_nat M) then Return st' else Next st').
Proof.
  intros Hinv Hlt Hi. pose proof (fill_inv_length _ _ Hinv) as Hle.
  destruct Hinv as [Hp Hl Hnl Hn Hf]. pose proof (Z.prime_ge_2 M HM).
  destruct (lookup_lt_is_Some_2 sorted i Hi) as [b Hb].
  destruct (lookup_lt_is_Some_2 (next st) i) as [c Hc]; [lia |].
  pose proof (Forall_lookup_1 _ _ _ _ Hn Hc) as Hcr. simpl in Hcr.
  pose proof (skip_of_range b) as Hsk.
  destruct (walk_finds (entry st) M (skip_of M b) c) as (t & Hw & Ht & Hfree); try done.
  { rewrite Hp. apply elem_of_app. left. apply elem_of_replicate. split; [done | lia]. }
  unfold turn. rewrite Hb, list_lookup_fmap, Hb, Hc. cbn [fmap option_fmap option_map]. rewrite Hw.
  set (st' := mk_fill _ _ _). exists st'.
  assert (filled st' = Z.of_nat (length s) + 1) as Hf'.
  { unfold st'. cbn [filled]. rewrite Hf. apply u32_id. unfold is_u. lia. }
  split.
  2: { rewrite Hf'. case_bool_decide.
       - by replace (Z.of_nat (length s) + 1 =? M) with true by lia.
       - by replace (Z.of_nat (length s) + 1 =? M) with false by lia. }
  split; [.. | rewrite length_app, Nat2Z.inj_add; apply Hf'];
    unfold st'; cbn [entry next]; rewrite ?length_app; cbn [length].
  - destruct (insert_Permutation_split _ _ _ (real_id b) Hfree) as (l' & E1 & E2).
    rewrite E2. rewrite Hp in E1.
    replace (Z.to_nat M - length s)%nat with (S (Z.to_nat M - (length s + 1)))%nat in E1 by lia.
    simpl in E1. apply Permutation_cons_inv in E1. rewrite <-E1, fmap_app. simpl.
    assert (id_at i = real_id b) as -> by (unfold id_at; by rewrite Hb).
    rewrite app_assoc. apply Permutation_cons_append.
  - lia.
  - by rewrite length_insert.
  - apply Forall_insert; [done |]. rewrite advance_eq by lia. apply Z.mod_pos_bound. lia.
Qed.

Lemma turns_return l st s :
  fill_inv st s → (length s < Z.to_nat M <= length s + length l)%nat →
  Forall (λ i, (i < length sorted)%nat) l →
  ∃ st', for_each (turn sorted (skip_of M <$> sorted) M) l st = Return st' ∧
         fill_inv st' (s ++ take (Z.to_nat M - length s) l).
Proof.
  intros Hinv Hlen Hl. revert st s Hinv Hlen.
  induction Hl as [| i l Hi Hl IH]; intros st s Hinv Hlen; simpl in Hlen; [lia |].
  destruct (turn_inv st s i) as (st' & Hinv' & Ht); [done | lia | done |].
  cbn [for_each]. rewrite Ht. case_bool_decide as Hend.
  - exists st'. split; [done |]. replace (Z.to_nat M - length s)%nat with 1%nat by lia. done.
  - destruct (IH st' (s ++ [i])) as (st'' & Hr & Hinv''); [done | rewrite length_app; simpl; lia |].
    exists st''. split; [done |]. rewrite length_app in Hinv''. simpl in Hinv''.
    replace (Z.to_nat M - length s)%nat with (S (Z.to_nat M - (length s + 1)))%nat by lia.
    simpl. by rewrite <-app_assoc in Hinv''.
Qed.

(** A round of passes is the loop over the turns of [round]. *)
Lemma passes_round st :
  for_each (pass sorted (skip_of M <$> sorted) M) (seqZ 0 (foldr Z.max 0 (weight <$> sorted))) st =
  for_each (turn sorted (skip_of M <$> sorted) M) (round sorted) st.
Proof.
  unfold round. rewrite <-for_each_bind. apply for_each_ext. intros p s _. unfold pass.
  rewrite <-for_each_filter. apply for_each_ext. intros i s' Hi.
  apply elem_of_seq in Hi. destruct (lookup_lt_is_Some_2 sorted i) as [b Hb]; [lia |].
  rewrite Hb. simpl. case_decide; destruct (Z.leb_spec (weight b) p); done || lia.
Qed.

Lemma rounds_return fuel st st' :
  for_each (turn sorted (skip_of M <$> sorted) M) (mjoin (replicate fuel (round sorted))) st = Return st' →
  rounds fuel sorted (skip_of M <$> sorted) M (foldr Z.max 0 (weight <$> sorted)) st = Return st'.
Proof.
  revert st. induction fuel as [| fuel IH]; intros st; simpl; [done |].
  rewrite for_each_app, passes_round. destruct (for_each _ (round sorted) st); auto.
Qed.

End fill.

(** ** Lemmas: the turns of a round *)

Section round.
Context (sorted : list Backend) (Hw : Forall (λ b, 0 < weight b) sorted).

Lemma foldr_max_ge (ws : list Z) w : w ∈ ws → w <= foldr Z.max 0 ws.
Proof. induction 1; simpl; lia. Qed.

Lemma weight_le_max i b : sorted !! i = Some b → 0 < weight b <= foldr Z.max 0 (weight <$> sorted).
Proof.
  intros Hb. split; [by apply (Forall_lookup_1 _ _ _ _ Hw Hb) |].
  apply foldr_max_ge. apply (list_elem_of_fmap_2 weight). by eapply list_elem_of_lookup_2.
Qed.

Lemma round_index : Forall (λ i, (i < length sorted)%nat) (round sorted).
Proof.
  apply Forall_forall. intros i (p & Hi & _)%list_elem_of_bind.
  apply list_elem_of_filter in Hi as [_ Hi]. apply elem_of_seq in Hi. lia.
Qed.

Lemma occ_filter_seq (P : nat → Prop) `{!∀ i, Decision (P i)} i n :
  (i < n)%nat → occ i (filter P (seq 0 n)) = if decide (P i) then 1%nat else 0%nat.
Proof.
  intros Hi. destruct (decide (P i)) as [HP | HP].
  - apply occ_NoDup; [apply NoDup_filter, NoDup_seq |].
    apply list_elem_of_filter. split; [done |]. apply elem_of_seq. lia.
  - apply occ_zero. intros [? _]%list_elem_of_filter. done.
Qed.

Lemma count_passes w n : 0 <= w <= n → length (filter (λ p, p < w) (seqZ 0 n)) = Z.to_nat w.
Proof.
  intros Hn. replace n with (w + (n - w)) by lia. rewrite seqZ_app by lia.
  rewrite filter_app, length_app.
  assert (filter (λ p, p < w) (seqZ 0 w) = seqZ 0 w) as ->.
  { apply filter_all. intros p ?%elem_of_seqZ. lia. }
  assert (filter (λ p, p < w) (seqZ (0 + w) (n - w)) = []) as ->.
  { apply filter_none. intros p ?%elem_of_seqZ. lia. }
  rewrite length_seqZ. simpl. lia.
Qed.

(** In one round backend [i] takes exactly [weight] turns. *)
Lemma occ_round i b : sorted !! i = Some b → occ i (round sorted) = Z.to_nat (weight b).
Proof.
  intros Hb. pose proof (weight_le_max i b Hb) as Hmax.
  assert (i < length sorted)%nat as Hi by (eapply lookup_lt_Some; eauto).
  rewrite <-(count_passes (weight b) (foldr Z.max 0 (weight <$> sorted))) by lia.
  unfold round. induction (seqZ _ _) as [| p ps IH]; [done |].
  cbn [mbind list_bind]. rewrite occ_app, IH, occ_filter_seq, filter_cons, Hb by done.
  simpl. by destruct (decide (p < weight b)).
Qed.

(** The number of turns of a round is the sum of the weights. *)
Definition total_weight : Z := foldr Z.add 0 (weight <$> sorted).

Lemma sum_weights (ws : list Z) :
  Forall (λ w, 0 < w) ws → Z.of_nat (sum_list_with Z.to_nat ws) = foldr Z.add 0 ws.
Proof. induction 1; simpl; lia. Qed.

Lemma length_round : Z.of_nat (length (round sorted)) = total_weight.
Proof.
  rewrite (length_sum_occ _ (length sorted)) by apply round_index.
  unfold total_weight. rewrite <-sum_weights by (by apply Forall_fmap). f_equal.
  assert (weight <$> sorted
          = (λ i, from_option weight 0 (sorted !! i)) <$> seq 0 (length sorted)) as E.
  { apply list_eq. intros j. rewrite !list_lookup_fmap.
    destruct (decide (j < length sorted)%nat) as [Hj | Hj].
    - rewrite lookup_seq_lt by done. simpl. destruct (sorted !! j) eqn:Ej; [done |].
      apply lookup_ge_None in Ej. lia.
    - rewrite lookup_seq_ge by lia. by rewrite (proj2 (lookup_ge_None sorted j)) by lia. }
  rewrite E.
  assert (∀ l, Forall (λ i, (i < length sorted)%nat) l →
    sum_list_with (λ i, occ i (round sorted)) l
    = sum_list_with Z.to_nat ((λ i, from_option weight 0 (sorted !! i)) <$> l)) as H.
  { induction 1 as [| i l Hi Hl IH]; [done |]. cbn [sum_list_with fmap list_fmap]. rewrite IH.
    destruct (lookup_lt_is_Some_2 sorted i Hi) as [b Hb]. by rewrite Hb, (occ_round i b Hb). }
  apply H. apply Forall_forall. intros i ?%elem_of_seq. lia.
Qed.

Lemma round_length_pos : sorted ≠ [] → (0 < length (round sorted))%nat.
Proof.
  intros Hne. destruct (lookup_lt_is_Some_2 sorted 0) as [b Hb].
  { apply Nat.neq_0_lt_0. by intros ?%nil_length_inv. }
  pose proof (occ_round 0 b Hb). pose proof (weight_le_max 0 b Hb).
  pose proof (occ_length 0%nat (round sorted)). lia.
Qed.

(** ** Lemmas: the completed ring *)

Section ring.
Context (M : Z) (HM : Z.prime M) (HM32 : M < 2 ^ 32) (Hne : sorted ≠ []).

(** The turns of the whole fill, in order. *)
Definition schedule : list nat := take (Z.to_nat M) (mjoin (replicate (Z.to_nat M) (round sorted))).

Lemma build_maglev_schedule :
  ∃ ring, build_maglev sorted M = Some ring ∧ ring ≡ₚ id_at sorted <$> schedule.
Proof.
  pose proof (Z.prime_ge_2 M HM). pose proof (round_length_pos Hne).
  destruct (turns_return sorted M HM HM32 (mjoin (replicate (Z.to_nat M) (round sorted)))
              (mk_fill (replicate (Z.to_nat M) PB_REAL_NONE) (offset_of M <$> sorted) 0) [])
    as (st & Hr & Hinv).
  - by apply fill_inv_init.
  - rewrite length_join_replicate. simpl. nia.
  - apply Forall_join, Forall_replicate, round_index.
  - exists (entry st). split.
    + unfold build_maglev. rewrite bool_decide_eq_false_2 by done.
      replace (M =? 0) with false by lia. simpl.
      by rewrite (rounds_return sorted M _ _ _ Hr).
    + rewrite app_nil_l, Nat.sub_0_r in Hinv. fold schedule in Hinv.
      destruct Hinv as [Hp _ _ _ _]. rewrite Hp.
      assert (length schedule = Z.to_nat M) as ->; [| by rewrite Nat.sub_diag].
      unfold schedule. rewrite length_take, length_join_replicate. nia.
Qed.

Lemma schedule_index : Forall (λ i, (i < length sorted)%nat) schedule.
Proof. apply Forall_take, Forall_join, Forall_replicate, round_index. Qed.

Lemma length_schedule : length schedule = Z.to_nat M.
Proof.
  pose proof (round_length_pos Hne). unfold schedule.
  rewrite length_take, length_join_replicate. nia.
Qed.

(** Turns of backend [i] in the whole fill: its weight per whole round, and at
    most its weight and at most the rest in the last one. *)
Lemma occ_schedule i b :
  sorted !! i = Some b →
  M / total_weight * weight b <= Z.of_nat (occ i schedule)
  <= M / total_weight * weight b + Z.min (weight b) (M mod total_weight).
Proof.
  intros Hb. pose proof (round_length_pos Hne). pose proof (Z.prime_ge_2 M HM).
  pose proof (weight_le_max i b Hb). pose proof (occ_cyclic i (round sorted) M) as H'.
  rewrite (occ_round i b Hb), length_round, Z2Nat.id in H' by lia. apply H'; lia.
Qed.

End ring.
End round.

(** ** Lemmas: the sorted active backends *)

(** What the ring may depend on: address and weight. *)
Definition hash_key (b : Backend) : Z * Z := (addr b, weight b).

(** Backends that take slots. *)
Definition active (l : list Backend) : list Backend := filter (λ b, 0 < weight b) l.

#[global] Instance addr_le_total : Total addr_le.
Proof. intros x y. unfold addr_le. lia. Qed.
#[global] Instance addr_le_trans : Transitive addr_le.
Proof. intros x y z. unfold addr_le. lia. Qed.

Lemma adjacent_dup_cons x y l :
  adjacent_dup (x :: y :: l) = if addr x =? addr y then Some x else adjacent_dup (y :: l).
Proof. done. Qed.

Lemma adjacent_dup_addr l1 l2 :
  addr <$> l1 = addr <$> l2 → addr <$> adjacent_dup l1 = addr <$> adjacent_dup l2.
Proof.
  revert l2. induction l1 as [| x [| y l1] IH]; intros [| x' [| y' l2]] H; try done.
  injection H as Hx Hy Hl. rewrite !adjacent_dup_cons, Hx, Hy.
  destruct (addr x' =? addr y'); [simpl; by rewrite Hx |].
  apply (IH (y' :: l2)). simpl. by rewrite Hy, Hl.
Qed.

(** In a sorted list [std::adjacent_find] finds a duplicate iff there is one. *)
Lemma adjacent_dup_NoDup l : Sorted addr_le l → adjacent_dup l = None ↔ NoDup (addr <$> l).
Proof.
  intros Hl. apply Sorted_StronglySorted in Hl; [| apply _].
  induction Hl as [| x l Hl IH Hx]; [by split; [constructor |] |].
  rewrite fmap_cons, NoDup_cons. destruct l as [| y l].
  { split; [intros _; split; [apply not_elem_of_nil | constructor] | done]. }
  rewrite adjacent_dup_cons. inversion_clear Hx as [| ? ? Hxy Hxl]. unfold addr_le in Hxy.
  destruct (Z.eqb_spec (addr x) (addr y)) as [E | E].
  - split; [done |]. intros [[] _]. rewrite E, fmap_cons. apply list_elem_of_here.
  - rewrite IH. split; [| by intros []]. intros Hnd. split; [| done].
    intros (z & Ez & Hz)%list_elem_of_fmap. inversion_clear Hl as [| ? ? _ Hyl].
    apply elem_of_cons in Hz as [-> | Hz]; [done |].
    rewrite Forall_forall in Hyl. specialize (Hyl z Hz). unfold addr_le in Hyl. lia.
Qed.

(** The outcome of active_sorted, by the duplicate check. *)
Lemma active_sorted_Ok l :
  NoDup (addr <$> active l) → active_sorted l = Ok (merge_sort addr_le (active l)).
Proof.
  intros H. unfold active_sorted. fold (active l).
  rewrite (proj2 (adjacent_dup_NoDup _ (Sorted_merge_sort _ _))); [done |].
  by rewrite merge_sort_Permutation.
Qed.

Lemma active_sorted_inv l s :
  active_sorted l = Ok s →
  NoDup (addr <$> active l) ∧ s ≡ₚ active l ∧ Sorted addr_le s.
Proof.
  unfold active_sorted. fold (active l).
  destruct (adjacent_dup _) eqn:E; [done |]. intros [= <-]. split_and!.
  - apply adjacent_dup_NoDup in E; [| apply Sorted_merge_sort, _].
    by rewrite merge_sort_Permutation in E.
  - apply merge_sort_Permutation.
  - apply Sorted_merge_sort, _.
Qed.

Lemma active_weight l s : active_sorted l = Ok s → Forall (λ b, 0 < weight b) s.
Proof.
  intros (_ & Hp & _)%active_sorted_inv. rewrite Hp. unfold active.
  apply Forall_forall. by intros b [? _]%list_elem_of_filter.
Qed.

(** Sorting by address is canonical on lists with the same keys. *)
Lemma sorted_keys_unique s1 s2 :
  Sorted addr_le s1 → Sorted addr_le s2 → NoDup (addr <$> s1) →
  hash_key <$> s1 ≡ₚ hash_key <$> s2 → hash_key <$> s1 = hash_key <$> s2.
Proof.
  intros H1 H2 Hnd Hp. set (le := λ x y : Z * Z, x.1 <= y.1).
  assert (Transitive le) by (intros x y z; unfold le; lia).
  apply (Sorted_unique_strong le); [| eapply Sorted_fmap; [| done]; done.. | done].
  unfold le. intros x1 x2 Hx1 Hx2 H12 H21. rewrite <-Hp in Hx2.
  apply list_elem_of_fmap in Hx1 as (b1 & -> & Hb1), Hx2 as (b2 & -> & Hb2).
  simpl in *. apply list_elem_of_lookup in Hb1 as [i Hi], Hb2 as [j Hj].
  assert (i = j) as ->; [| congruence].
  apply (NoDup_lookup (addr <$> s1) i j (addr b1) Hnd); rewrite list_lookup_fmap.
  - by rewrite Hi.
  - rewrite Hj. simpl. f_equal. lia.
Qed.

(** The outcome of active_sorted depends on the (addr, weight) pairs alone. *)
Lemma active_sorted_keys l1 l2 :
  hash_key <$> l1 ≡ₚ hash_key <$> l2 →
  match active_sorted l1, active_sorted l2 with
  | Ok s1, Ok s2 => hash_key <$> s1 = hash_key <$> s2
  | Throw e1, Throw e2 => e1 = e2
  | _, _ => False
  end.
Proof.
  intros Hp.
  assert (hash_key <$> active l1 ≡ₚ hash_key <$> active l2) as Hact.
  { unfold active. rewrite <-!(filter_fmap_comm hash_key (λ k, 0 < k.2)) by done. by rewrite Hp. }
  assert (addr <$> active l1 ≡ₚ addr <$> active l2) as Haddr.
  { assert (∀ l, addr <$> l = fst <$> (hash_key <$> l)) as E by (intros; by rewrite <-list_fmap_compose).
    rewrite !E. by rewrite Hact. }
  assert (addr <$> merge_sort addr_le (active l1) = addr <$> merge_sort addr_le (active l2)) as Hs.
  { apply (Sorted_unique Z.le).
    1, 2: eapply Sorted_fmap; [| apply Sorted_merge_sort, _]; done.
    by rewrite !merge_sort_Permutation. }
  pose proof (adjacent_dup_addr _ _ Hs) as Hdup. unfold active_sorted. fold (active l1) (active l2).
  destruct (adjacent_dup (merge_sort _ (active l1))) as [d1 |] eqn:E1,
    (adjacent_dup (merge_sort _ (active l2))) as [d2 |]; simpl in Hdup; try done.
  - by injection Hdup as ->.
  - apply sorted_keys_unique; try apply Sorted_merge_sort, _.
    + apply adjacent_dup_NoDup; [apply Sorted_merge_sort, _ | done].
    + by rewrite !merge_sort_Permutation.
Qed.

(** ** Lemmas: rings of backends that differ in their ids only *)

Section same_keys.
Context (s1 s2 : list Backend) (Hkeys : hash_key <$> s1 = hash_key <$> s2).
Context (Hid1 : Forall (λ b, real_id b ≠ PB_REAL_NONE) s1) (Hid2 : Forall (λ b, real_id b ≠ PB_REAL_NONE) s2).

(** Two slots are both free or hold the ids of the same backend. *)
Definition slot_rel (x y : Z) : Prop :=
  (x = PB_REAL_NONE ∧ y = PB_REAL_NONE) ∨
  ∃ i b1 b2, s1 !! i = Some b1 ∧ s2 !! i = Some b2 ∧ x = real_id b1 ∧ y = real_id b2.

Definition fill_rel (st st' : Fill) : Prop :=
  Forall2 slot_rel (entry st) (entry st') ∧ next st = next st' ∧ filled st = filled st'.

Lemma keys_lookup i b1 :
  s1 !! i = Some b1 → ∃ b2, s2 !! i = Some b2 ∧ addr b1 = addr b2 ∧ weight b1 = weight b2.
Proof.
  intros H1. assert ((hash_key <$> s2) !! i = Some (hash_key b1)) as H2.
  { by rewrite <-Hkeys, list_lookup_fmap, H1. }
  rewrite list_lookup_fmap in H2. destruct (s2 !! i) as [b2 |]; [| done].
  simpl in H2. injection H2 as E1 E2. eauto.
Qed.

Lemma keys_length : length s1 = length s2.
Proof. by rewrite <-(length_fmap hash_key s1), Hkeys, length_fmap. Qed.

Lemma keys_lookup_None i : s1 !! i = None → s2 !! i = None.
Proof. rewrite !lookup_ge_None, keys_length. done. Qed.

Lemma slot_rel_free x y : slot_rel x y → (x =? PB_REAL_NONE) = (y =? PB_REAL_NONE).
Proof.
  intros [[-> ->] | (i & b1 & b2 & H1 & H2 & -> & ->)]; [done |].
  pose proof (Forall_lookup_1 _ _ _ _ Hid1 H1). pose proof (Forall_lookup_1 _ _ _ _ Hid2 H2).
  simpl in *. lia.
Qed.

Lemma keys_fmap {B} (f : Z * Z → B) (g : Backend → B) :
  (∀ b, g b = f (hash_key b)) → g <$> s1 = g <$> s2.
Proof.
  intros Hg. rewrite (list_fmap_ext g (f ∘ hash_key) s1), (list_fmap_ext g (f ∘ hash_key) s2) by auto.
  by rewrite !list_fmap_compose, Hkeys.
Qed.

Lemma walk_rel fuel e e' M sk c :
  Forall2 slot_rel e e' → walk fuel e M sk c = walk fuel e' M sk c.
Proof.
  intros He. revert c. induction fuel as [| fuel IH]; intros c; cbn [walk]; [done |].
  destruct (e !! Z.to_nat c) as [x |] eqn:Ex.
  - destruct (Forall2_lookup_l _ _ _ _ _ He Ex) as (y & Ey & Hxy). rewrite Ey. simpl.
    by rewrite (slot_rel_free _ _ Hxy), IH.
  - apply lookup_ge_None in Ex. rewrite (Forall2_length _ _ _ He) in Ex.
    by apply lookup_ge_None in Ex as ->.
Qed.

Lemma turn_rel skip M i st st' :
  fill_rel st st' → ctl_rel fill_rel (turn s1 skip M i st) (turn s2 skip M i st').
Proof.
  intros (He & Hn & Hf). unfold turn. destruct (s1 !! i) as [b1 |] eqn:H1.
  2: { by rewrite (keys_lookup_None i H1). }
  destruct (keys_lookup i b1 H1) as (b2 & H2 & _). rewrite H2, <-Hn, <-Hf.
  destruct (skip !! i) as [sk |]; [| done]. destruct (next st !! i) as [c |]; [| done].
  rewrite <-(walk_rel _ _ _ M sk c He). destruct (walk _ _ _ _ _) as [t |]; [| done].
  cbn [filled]. destruct (u32 (filled st + 1) =? M); simpl; split_and!; try done;
    apply Forall2_insert; try done; right; eauto 10.
Qed.

Lemma rounds_rel fuel skip M w_max st st' :
  fill_rel st st' → ctl_rel fill_rel (rounds fuel s1 skip M w_max st) (rounds fuel s2 skip M w_max st').
Proof.
  revert st st'. induction fuel as [| fuel IH]; intros st st' Hst; cbn [rounds]; [done |].
  assert (ctl_rel fill_rel (for_each (pass s1 skip M) (seqZ 0 w_max) st)
                           (for_each (pass s2 skip M) (seqZ 0 w_max) st')) as H.
  { apply for_each_rel; [| done]. intros p t t' Ht. unfold pass. rewrite <-keys_length.
    apply for_each_rel; [| done]. intros i u u' Hu.
    destruct (s1 !! i) as [b1 |] eqn:H1; [| by rewrite (keys_lookup_None i H1)].
    destruct (keys_lookup i b1 H1) as (b2 & H2 & _ & Hw). rewrite H2, Hw.
    destruct (weight b2 <=? p); [done |]. by apply turn_rel. }
  destruct (for_each _ _ st), (for_each _ _ st'); simpl in H; done || auto.
Qed.

Lemma Forall2_slot_none n : Forall2 slot_rel (replicate n PB_REAL_NONE) (replicate n PB_REAL_NONE).
Proof. apply Forall2_replicate. by left. Qed.

Lemma build_maglev_rel M :
  match build_maglev s1 M, build_maglev s2 M with
  | Some r1, Some r2 => Forall2 slot_rel r1 r2
  | None, None => True
  | _, _ => False
  end.
Proof.
  unfold build_maglev.
  assert (bool_decide (s1 = []) = bool_decide (s2 = [])) as ->.
  { apply bool_decide_ext. pose proof keys_length.
    split; intros ->; apply nil_length_inv; done. }
  destruct (bool_decide (s2 = []) || (M =? 0)); [apply Forall2_slot_none |].
  rewrite (keys_fmap snd weight (λ b, eq_refl)).
  rewrite (keys_fmap (λ k, skip_of M (mk_backend 0 k.1 k.2)) (skip_of M) (λ b, eq_refl)).
  rewrite (keys_fmap (λ k, offset_of M (mk_backend 0 k.1 k.2)) (offset_of M) (λ b, eq_refl)).
  match goal with |- match match rounds ?f s1 ?sk M ?w ?st with _ => _ end with _ => _ end =>
    assert (fill_rel st st) as Hst by (split; [apply Forall2_slot_none | done]);
    pose proof (rounds_rel f sk M w st st Hst) as H end.
  destruct (rounds _ s1 _ _ _ _), (rounds _ s2 _ _ _ _); simpl in H; try done. apply H.
Qed.

Lemma modulo_list_rel : Forall2 slot_rel (modulo_list s1) (modulo_list s2).
Proof.
  assert (∀ t1 t2 k, hash_key <$> t1 = hash_key <$> t2 →
    (∀ i, t1 !! i = s1 !! (k + i)%nat) → (∀ i, t2 !! i = s2 !! (k + i)%nat) →
    Forall2 slot_rel (modulo_list t1) (modulo_list t2)) as H; [| by apply (H s1 s2 0%nat)].
  induction t1 as [| b1 t1 IH]; intros [| b2 t2] k Hk H1 H2; try done.
  injection Hk as _ Hw Hk. unfold modulo_list. cbn [mbind list_bind]. apply Forall2_app.
  - rewrite Hw. apply Forall2_replicate. right. exists k, b1, b2.
    specialize (H1 0%nat). specialize (H2 0%nat). rewrite Nat.add_0_r in H1, H2. by split_and!.
  - apply (IH t2 (S k)); [done | |]; intros i.
    + rewrite Nat.add_succ_comm. apply (H1 (S i)).
    + rewrite Nat.add_succ_comm. apply (H2 (S i)).
Qed.

Lemma build_modulo_rel M : Forall2 slot_rel (build_modulo s1 M) (build_modulo s2 M).
Proof.
  pose proof modulo_list_rel as H. unfold build_modulo. rewrite (Forall2_length _ _ _ H).
  set (f := λ i, Z.to_nat (i mod Z.of_nat (length (modulo_list s2)))).
  destruct (modulo_list s1) as [| x l1] eqn:E1, (modulo_list s2) as [| y l2] eqn:E2;
    try by inversion H.
  { apply Forall2_slot_none. }
  apply Forall2_fmap, Forall2_same_length_lookup_2; [done |].
  intros k i j Hi Hj. assert (i = j) as -> by congruence. clear Hi Hj.
  destruct ((x :: l1) !! f j) as [z |] eqn:Ez; unfold f in Ez; rewrite Ez.
  - destruct (Forall2_lookup_l _ _ _ _ _ H Ez) as (z' & -> & Hz). done.
  - apply lookup_ge_None in Ez. rewrite (Forall2_length _ _ _ H) in Ez.
    apply lookup_ge_None in Ez as ->. by left.
Qed.

End same_keys.

(** ** Lemmas: the contract of build_ring *)

(** The address of the backend that owns an id. *)
Definition owner (l : list Backend) (id : Z) : option Z :=
  addr <$> head (filter (λ b, real_id b = id) l).

Lemma owner_in l b : NoDup (real_id <$> l) → b ∈ l → owner l (real_id b) = Some (addr b).
Proof.
  unfold owner. induction l as [| c l IH]; intros Hnd Hb; [by apply not_elem_of_nil in Hb |].
  rewrite fmap_cons in Hnd. apply NoDup_cons in Hnd as [Hc Hnd].
  rewrite filter_cons. destruct (decide (real_id c = real_id b)) as [E | E]; simpl.
  - apply elem_of_cons in Hb as [-> | Hb]; [done |]. destruct Hc. rewrite E.
    by apply (list_elem_of_fmap_2 real_id).
  - apply IH; [done |]. apply elem_of_cons in Hb as [-> | Hb]; done.
Qed.

Lemma owner_none l : PB_REAL_NONE ∉ real_id <$> l → owner l PB_REAL_NONE = None.
Proof.
  intros Hn. unfold owner. rewrite filter_none; [done |]. intros b Hb E. apply Hn.
  rewrite <-E. by apply (list_elem_of_fmap_2 real_id).
Qed.

Lemma modulo_list_in sorted x : x ∈ modulo_list sorted → x ∈ real_id <$> sorted.
Proof.
  intros (b & Hx & Hb)%list_elem_of_bind. apply elem_of_replicate in Hx as [-> _].
  by apply (list_elem_of_fmap_2 real_id).
Qed.

Lemma length_modulo_list sorted :
  Forall (λ b, 0 < weight b) sorted → Z.of_nat (length (modulo_list sorted)) = total_weight sorted.
Proof.
  unfold modulo_list, total_weight. induction 1 as [| b l Hb Hl IH]; [done |].
  rewrite bind_cons, fmap_cons, length_app, length_replicate. cbn [foldr]. rewrite <-IH. lia.
Qed.

(** The modulo ring is the cyclic repetition of the weighted list. *)
Lemma build_modulo_cyclic sorted M :
  0 <= M → (0 < length (modulo_list sorted))%nat →
  build_modulo sorted M = take (Z.to_nat M) (mjoin (replicate (Z.to_nat M) (modulo_list sorted))).
Proof.
  intros HM Hl. unfold build_modulo. set (l := modulo_list sorted) in *.
  assert (∀ k n, (n < k * length l)%nat → mjoin (replicate k l) !! n = l !! (n mod length l)%nat) as Hn.
  { induction k as [| k IH]; intros n Hk; simpl in *; [lia |].
    destruct (decide (n < length l)%nat).
    - rewrite lookup_app_l by done. by rewrite Nat.mod_small.
    - rewrite lookup_app_r by lia. rewrite IH by lia.
      replace n with ((n - length l) + 1 * length l)%nat at 2 by lia. by rewrite Nat.Div0.mod_add. }
  assert ((λ i, default PB_REAL_NONE (l !! Z.to_nat (i mod Z.of_nat (length l)))) <$> seqZ 0 M
          = take (Z.to_nat M) (mjoin (replicate (Z.to_nat M) l))) as E.
  { apply list_eq. intros k. rewrite list_lookup_fmap.
    destruct (decide (k < Z.to_nat M)%nat) as [Hk | Hk].
    - rewrite lookup_seqZ_lt, lookup_take_lt, Hn by nia. simpl. rewrite Z.add_0_l, Z2Nat.inj_mod, !Nat2Z.id by lia.
      destruct (lookup_lt_is_Some_2 l (k mod length l)) as [x ->]; [apply Nat.mod_upper_bound; lia | done].
    - rewrite lookup_seqZ_ge, lookup_take_ge by lia. done. }
  destruct l; [simpl in Hl; lia | done].
Qed.

(** build_ring returns a full ring of ids of active backends. *)
Lemma build_ring_ok l mode M :
  Z.prime M → M < 2 ^ 32 → NoDup (addr <$> active l) →
  ∃ r, build_ring l mode M = Some (Ok r) ∧ length r = Z.to_nat M ∧
       (active l = [] → r = replicate (Z.to_nat M) PB_REAL_NONE) ∧
       (active l ≠ [] → Forall (λ x, x ∈ real_id <$> active l) r).
Proof.
  intros HM HM32 Hnd. pose proof (Z.prime_ge_2 M HM). unfold build_ring.
  pose proof (active_sorted_Ok l Hnd) as Hs. rewrite Hs.
  pose proof (active_weight _ _ Hs) as Hw. apply active_sorted_inv in Hs as (_ & Hp & _).
  set (s := merge_sort addr_le (active l)) in *.
  destruct (decide (active l = [])) as [E | Hne].
  { assert (s = []) as Es by (apply Permutation_nil_r; by rewrite <-E). exists (replicate (Z.to_nat M) PB_REAL_NONE).
    rewrite length_replicate, Es. by destruct mode. }
  assert (s ≠ []) as Hsne by (intros E; by rewrite E, Permutation_nil_l in Hp).
  assert (∀ r, Forall (λ x, x ∈ real_id <$> s) r → Forall (λ x, x ∈ real_id <$> active l) r) as Hmem.
  { intros r Hr. eapply Forall_impl; [exact Hr |]. intros x. simpl. by rewrite Hp. }
  destruct mode.
  - destruct (build_maglev_schedule s Hw M HM HM32 Hsne) as (r & -> & Hr). exists r. split_and!; try done.
    + by rewrite Hr, length_fmap, length_schedule.
    + intros _. apply Hmem. rewrite Hr. apply Forall_fmap. eapply Forall_impl; [apply schedule_index |].
      intros i [b Hb]%lookup_lt_is_Some_2. simpl. unfold id_at. rewrite Hb. simpl.
      apply (list_elem_of_fmap_2 real_id). by eapply list_elem_of_lookup_2.
  - assert (0 < length (modulo_list s))%nat as Hlen.
    { destruct s as [| b s']; [done |]. unfold modulo_list. cbn [mbind list_bind].
      rewrite length_app, length_replicate. inversion_clear Hw. lia. }
    exists (build_modulo s M). rewrite build_modulo_cyclic by lia. split_and!; try done.
    + rewrite length_take, length_join_replicate. nia.
    + intros _. apply Hmem. apply Forall_take, Forall_join, Forall_replicate, Forall_forall.
      apply modulo_list_in.
Qed.

Lemma build_ring_throws l mode M :
  ¬ NoDup (addr <$> active l) →
  ∃ a, (2 <= occ a (addr <$> active l))%nat ∧
    build_ring l mode M = Some (Throw (invalid_argument
      (§"build_ring: duplicate backend address " ++ VipSpec.ipv4_to_string a))).
Proof.
  intros Hnd. unfold build_ring, active_sorted. fold (active l).
  rewrite <-(merge_sort_Permutation addr_le (active l)) in Hnd.
  assert (∀ s d, adjacent_dup s = Some d → (2 <= occ (addr d) (addr <$> s))%nat) as Hocc.
  { induction s as [| x [| y s] IH]; intros d; [done.. |]. rewrite adjacent_dup_cons, !fmap_cons, occ_cons.
    destruct (Z.eqb_spec (addr x) (addr y)) as [E | E].
    - intros [= <-]. rewrite occ_cons, !decide_True by done. lia.
    - intros Hd%IH. rewrite fmap_cons in Hd. lia. }
  destruct (adjacent_dup _) as [d |] eqn:E.
  - exists (addr d). split; [| done]. apply Hocc in E. by rewrite merge_sort_Permutation in E.
  - apply adjacent_dup_NoDup in E; [done | apply Sorted_merge_sort, _].
Qed.

#[global] Instance total_weight_Permutation : Proper ((≡ₚ) ==> (=)) total_weight.
Proof.
  intros s1 s2. unfold total_weight. induction 1; rewrite ?fmap_cons; cbn [foldr]; lia.
Qed.

(** The ring depends on the (address, weight) pairs alone, up to ids. *)
Lemma build_ring_keys l1 l2 mode M :
  hash_key <$> l1 ≡ₚ hash_key <$> l2 →
  NoDup (real_id <$> l1) → NoDup (real_id <$> l2) →
  PB_REAL_NONE ∉ real_id <$> l1 → PB_REAL_NONE ∉ real_id <$> l2 →
  match build_ring l1 mode M, build_ring l2 mode M with
  | Some (Ok r1), Some (Ok r2) => owner l1 <$> r1 = owner l2 <$> r2
  | Some (Throw e1), Some (Throw e2) => e1 = e2
  | None, None => True
  | _, _ => False
  end.
Proof.
  intros Hk Hn1 Hn2 Hx1 Hx2. pose proof (active_sorted_keys l1 l2 Hk) as Hs. unfold build_ring.
  destruct (active_sorted l1) as [s1 |] eqn:E1, (active_sorted l2) as [s2 |] eqn:E2; try done.
  assert (∀ l s, active_sorted l = Ok s → ∀ b, b ∈ s → b ∈ l) as Hin.
  { intros l s (_ & Hp & _)%active_sorted_inv b. rewrite Hp. by intros [_ ?]%list_elem_of_filter. }
  assert (∀ l s, active_sorted l = Ok s → PB_REAL_NONE ∉ real_id <$> l →
                 Forall (λ b, real_id b ≠ PB_REAL_NONE) s) as Hv.
  { intros l s E Hx. apply Forall_forall. intros b Hb Eb. apply Hx. rewrite <-Eb.
    apply (list_elem_of_fmap_2 real_id). by eapply Hin. }
  pose proof (Hv _ _ E1 Hx1) as Hv1. pose proof (Hv _ _ E2 Hx2) as Hv2.
  assert (∀ r1 r2, Forall2 (slot_rel s1 s2) r1 r2 → owner l1 <$> r1 = owner l2 <$> r2) as Hr.
  { induction 1 as [| x y r1 r2 Hxy Hr IH]; [done |]. rewrite !fmap_cons, IH. f_equal.
    destruct Hxy as [[-> ->] | (i & b1 & b2 & H1 & H2 & -> & ->)]; [by rewrite !owner_none |].
    destruct (keys_lookup s1 s2 Hs i b1 H1) as (b2' & H2' & Ha & _). simplify_eq.
    rewrite (owner_in l1 b1), (owner_in l2 b2); try done; [by rewrite Ha | |].
    all: eapply Hin; [done |]; by eapply list_elem_of_lookup_2. }
  destruct mode.
  - pose proof (build_maglev_rel s1 s2 Hs Hv1 Hv2 M) as H.
    destruct (build_maglev s1 M), (build_maglev s2 M); simpl; auto.
  - apply Hr. by apply build_modulo_rel.
Qed.

(** Occurrences of an id in the weighted list. *)
Lemma occ_modulo_list s b :
  NoDup (real_id <$> s) → b ∈ s → occ (real_id b) (modulo_list s) = Z.to_nat (weight b).
Proof.
  unfold modulo_list. induction s as [| c s IH]; intros Hnd Hb; [by apply not_elem_of_nil in Hb |].
  rewrite fmap_cons in Hnd. apply NoDup_cons in Hnd as [Hc Hnd]. rewrite bind_cons, occ_app.
  destruct (decide (real_id c = real_id b)) as [E | E].
  - assert (c = b) as ->.
    { apply elem_of_cons in Hb as [-> | Hb]; [done |]. destruct Hc. rewrite E.
      by apply (list_elem_of_fmap_2 real_id). }
    rewrite occ_replicate. rewrite (proj2 (occ_zero _ (s ≫= _))); [lia |].
    intros Hin. apply Hc. by apply modulo_list_in.
  - rewrite (proj2 (occ_zero _ (replicate _ _))).
    + apply IH; [done |]. apply elem_of_cons in Hb as [-> | Hb]; done.
    + intros [? _]%elem_of_replicate. done.
Qed.

(** Occurrences of an id in the fill are the turns of its backend. *)
Lemma occ_id_at s i b l :
  NoDup (real_id <$> s) → s !! i = Some b → Forall (λ i, (i < length s)%nat) l →
  occ (real_id b) (id_at s <$> l) = occ i l.
Proof.
  intros Hnd Hb Hl. replace (real_id b) with (id_at s i) by (unfold id_at; by rewrite Hb).
  apply occ_fmap_inj. intros j Hj E. rewrite Forall_forall in Hl.
  destruct (lookup_lt_is_Some_2 s j) as [c Hc]; [by apply Hl |].
  unfold id_at in E. rewrite Hb, Hc in E. simpl in E.
  apply (NoDup_lookup (real_id <$> s) j i (real_id b)); [done | |]; rewrite list_lookup_fmap.
  - rewrite Hc. simpl. by rewrite E.
  - by rewrite Hb.
Qed.

(** ** Prime ring sizes *)

(** Trial division by the candidates below a bound on the square root. *)
Lemma prime_by_trial (p s : Z) :
  2 <= p < s * s → 0 <= s → forallb (λ d, negb (p mod d =? 0)) (seqZ 2 (Z.min s p - 2)) = true → Z.prime p.
Proof.
  intros Hp Hs H. rewrite forallb_forall in H.
  assert (∀ n, 1 < n < p → n < s → ¬ (n | p)) as Hlow.
  { intros n Hn Hns Hd.
    assert (In n (seqZ 2 (Z.min s p - 2))) as Hin by (apply list_elem_of_In, elem_of_seqZ; lia).
    apply H in Hin. by rewrite (proj2 (Z.mod_divide p n ltac:(lia)) Hd) in Hin. }
  split; [lia |]. intros n Hn [m Hm]. destruct (decide (n < s)).
  - apply (Hlow n); [lia | done |]. by exists m.
  - apply (Hlow m); [nia | nia |]. exists n. lia.
Qed.

Lemma prime_13 : Z.prime 13.
Proof. apply (prime_by_trial 13 4); [lia | lia | vm_compute; reflexivity]. Qed.

Lemma prime_PB_RING_SIZE : Z.prime PB_RING_SIZE.
Proof. apply (prime_by_trial PB_RING_SIZE 257); [unfold PB_RING_SIZE; lia | lia | vm_compute; reflexivity]. Qed.

(** ** Theorems *)

(** For a prime ring size, the slots a backend visits by repeatedly
    advancing from its offset by its skip are all the slots, each once. *)
Theorem permutation_visits_all (M : Z) (b : Backend) :
  Z.prime M → M < 2 ^ 32 →
  (λ j, Nat.iter j (advance M (skip_of M b)) (offset_of M b)) <$> seq 0 (Z.to_nat M) ≡ₚ seqZ 0 M.
Proof.
  intros HM HM32. pose proof (Z.prime_ge_2 M HM). pose proof (skip_of_range M HM b) as Hsk.
  assert (0 <= offset_of M b < M) as Ho by (apply Z.mod_pos_bound; lia).
  assert (∀ j, Nat.iter j (advance M (skip_of M b)) (offset_of M b)
               = perm_at M (skip_of M b) (offset_of M b) (Z.of_nat j)) as Hit.
  { induction j as [| j IH]; [by rewrite perm_at_0 |]. rewrite Nat.iter_succ, IH.
    rewrite advance_eq by (try apply perm_at_range; lia). unfold perm_at.
    rewrite Z.add_mod_idemp_l by lia. f_equal. lia. }
  apply submseteq_length_Permutation; [| by rewrite length_fmap, length_seq, length_seqZ].
  apply NoDup_submseteq.
  - apply NoDup_fmap_2_strong; [| apply NoDup_seq]. intros i j Hi Hj E.
    apply elem_of_seq in Hi, Hj. rewrite !Hit in E.
    apply perm_at_inj in E; try done; lia.
  - intros t (j & -> & _)%list_elem_of_fmap. rewrite Hit. apply elem_of_seqZ.
    pose proof (perm_at_range M (skip_of M b) (offset_of M b) (Z.of_nat j)). lia.
Qed.

Lemma permutation_visits_all_witness :
  (λ j, Nat.iter j (advance 13 (skip_of 13 (mk_backend 1 0x0100a8c0 1)))
                   (offset_of 13 (mk_backend 1 0x0100a8c0 1))) <$> seq 0 13 ≡ₚ seqZ 0 13.
Proof. apply (permutation_visits_all 13); [apply prime_13 | lia]. Defined.

(** C13: for a prime ring size and distinct addresses, building a ring
    terminates and returns a ring of exactly that many slots, every one the id
    of a backend of positive weight, or all of them free when there is none. *)
Theorem build_ring_total (l : list Backend) (mode : HashMode) (M : Z) :
  Z.prime M → M < 2 ^ 32 → NoDup (addr <$> filter (λ b, 0 < weight b) l) →
  ∃ r, build_ring l mode M = Some (Ok r) ∧ length r = Z.to_nat M ∧
       (filter (λ b, 0 < weight b) l = [] → r = replicate (Z.to_nat M) PB_REAL_NONE) ∧
       (filter (λ b, 0 < weight b) l ≠ [] →
        Forall (λ x, ∃ b, b ∈ l ∧ 0 < weight b ∧ x = real_id b) r).
Proof.
  intros HM HM32 Hnd. destruct (build_ring_ok l mode M HM HM32 Hnd) as (r & H1 & H2 & H3 & H4).
  exists r. split_and!; try done. intros Hne. eapply Forall_impl; [by apply H4 |].
  intros x (b & -> & [Hb1 Hb2]%list_elem_of_filter)%list_elem_of_fmap. eauto.
Qed.

Lemma build_ring_total_witness :
  ∃ r, build_ring [mk_backend 7 0x0200000a 1; mk_backend 9 0x0300000a 0] ModeMaglev 13 = Some (Ok r) ∧
       length r = 13%nat.
Proof.
  destruct (build_ring_total [mk_backend 7 0x0200000a 1; mk_backend 9 0x0300000a 0] ModeMaglev 13)
    as (r & H1 & H2 & _); [apply prime_13 | lia | decide_closed |].
  exists r. split; [exact H1 | exact H2].
Defined.

(** Two backends of positive weight with the same address make build_ring
    throw std::invalid_argument naming an address that occurs twice. *)
Theorem build_ring_duplicate (l : list Backend) (mode : HashMode) (M : Z) :
  ¬ NoDup (addr <$> filter (λ b, 0 < weight b) l) →
  ∃ a, (2 <= occ a (addr <$> filter (λ b, (0 < weight b)%Z) l))%nat ∧
    build_ring l mode M = Some (Throw (invalid_argument
      (§"build_ring: duplicate backend address " ++ VipSpec.ipv4_to_string a))).
Proof. apply build_ring_throws. Qed.

Lemma build_ring_duplicate_witness :
  ∃ a, build_ring [mk_backend 1 0x0200000a 1; mk_backend 2 0x0200000a 5] ModeModulo 13
    = Some (Throw (invalid_argument
      (§"build_ring: duplicate backend address " ++ VipSpec.ipv4_to_string a))).
Proof.
  destruct (build_ring_duplicate [mk_backend 1 0x0200000a 1; mk_backend 2 0x0200000a 5] ModeModulo 13)
    as (a & _ & H); [decide_closed |].
  exists a. exact H.
Defined.

(** The slots of a backend in a ring of either mode. *)
Lemma build_ring_slots (l : list Backend) (mode : HashMode) (M : Z) (r : list Z) (b : Backend) :
  Z.prime M → M < 2 ^ 32 → NoDup (real_id <$> l) → b ∈ l → 0 < weight b →
  build_ring l mode M = Some (Ok r) →
  let W := total_weight (active l) in
  M / W * weight b <= slots_of (real_id b) r <= M / W * weight b + Z.min (weight b) (M mod W).
Proof.
  intros HM HM32 Hid Hbl Hbw Hr. pose proof (Z.prime_ge_2 M HM). simpl. unfold build_ring in Hr.
  destruct (active_sorted l) as [s | e] eqn:Es; [| done].
  pose proof (active_weight _ _ Es) as Hw. apply active_sorted_inv in Es as (_ & Hp & _).
  assert (b ∈ s) as Hb by (rewrite Hp; by apply list_elem_of_filter).
  assert (NoDup (real_id <$> s)) as Hnd.
  { rewrite Hp. unfold active. eapply (sublist_NoDup _ (real_id <$> l)); [done |].
    apply fmap_sublist, sublist_filter. }
  assert (s ≠ []) as Hne by (intros ->; by apply not_elem_of_nil in Hb).
  rewrite <-Hp. destruct mode.
  - destruct (build_maglev_schedule s Hw M HM HM32 Hne) as (r' & Hr' & Hpr).
    rewrite Hr' in Hr. injection Hr as <-. apply list_elem_of_lookup in Hb as [i Hi].
    unfold slots_of. rewrite Hpr, (occ_id_at s i b) by (done || by apply schedule_index).
    by apply occ_schedule.
  - injection Hr as <-. pose proof (length_modulo_list s Hw) as HL.
    pose proof (occ_modulo_list s b Hnd Hb) as Hocc. pose proof (occ_length (real_id b) (modulo_list s)).
    unfold slots_of. rewrite build_modulo_cyclic by lia.
    pose proof (occ_cyclic (real_id b) (modulo_list s) M) as HC. rewrite Hocc, HL, Z2Nat.id in HC by lia.
    apply HC; lia.
Qed.

(** C14: in either mode a backend of weight w among active backends of total
    weight W owns w slots for each of the M / W whole rounds, and in the last,
    partial round at most w and at most M mod W more. *)
Theorem build_ring_shares (l : list Backend) (mode : HashMode) (M : Z) (r : list Z) (b : Backend) :
  Z.prime M → M < 2 ^ 32 → NoDup (real_id <$> l) → b ∈ l → 0 < weight b →
  build_ring l mode M = Some (Ok r) →
  let W := total_weight (active l) in
  M / W * weight b <= slots_of (real_id b) r <= M / W * weight b + Z.min (weight b) (M mod W).
Proof. apply build_ring_slots. Qed.

Lemma build_ring_shares_witness :
  let l := [mk_backend 1 0x0200000a 1; mk_backend 2 0x0300000a 2] in
  ∃ r, build_ring l ModeMaglev 13 = Some (Ok r) ∧ 8 <= slots_of 2 r <= 8 + 1.
Proof.
  simpl. eexists. split; [vm_compute; reflexivity |].
  apply (build_ring_shares [mk_backend 1 0x0200000a 1; mk_backend 2 0x0300000a 2] ModeMaglev 13 _
           (mk_backend 2 0x0300000a 2)); [apply prime_13 | lia | decide_closed | decide_closed | done |].
  vm_compute. reflexivity.
Defined.

(** The ring is a function of the set of (address, weight) pairs: two
    callers that list the same pairs in any order and under any ids get, slot
    by slot, the same backend address, or the same exception. *)
Theorem build_ring_same_set (l1 l2 : list Backend) (mode : HashMode) (M : Z) :
  hash_key <$> l1 ≡ₚ hash_key <$> l2 →
  NoDup (real_id <$> l1) → NoDup (real_id <$> l2) →
  PB_REAL_NONE ∉ real_id <$> l1 → PB_REAL_NONE ∉ real_id <$> l2 →
  match build_ring l1 mode M, build_ring l2 mode M with
  | Some (Ok r1), Some (Ok r2) => owner l1 <$> r1 = owner l2 <$> r2
  | Some (Throw e1), Some (Throw e2) => e1 = e2
  | None, None => True
  | _, _ => False
  end.
Proof. apply build_ring_keys. Qed.

Lemma build_ring_same_set_witness :
  let l1 := [mk_backend 1 0x0200000a 1; mk_backend 2 0x0300000a 2] in
  let l2 := [mk_backend 1 0x0300000a 2; mk_backend 5 0x0200000a 1] in
  match build_ring l1 ModeMaglev 13, build_ring l2 ModeMaglev 13 with
  | Some (Ok r1), Some (Ok r2) => owner l1 <$> r1 = owner l2 <$> r2
  | _, _ => False
  end.
Proof.
  simpl.
  pose proof (build_ring_same_set [mk_backend 1 0x0200000a 1; mk_backend 2 0x0300000a 2]
    [mk_backend 1 0x0300000a 2; mk_backend 5 0x0200000a 1] ModeMaglev 13) as H.
  vm_compute build_ring in H |- *. apply H; [apply Permutation_swap | decide_closed..].
Defined.

(** The share promises of the header (within 1%, within one slot) fail
    when the total weight is large for the ring: in a modulo ring of 13 slots
    two backends of weight 10 get 10 and 3, and in a maglev ring of 13 slots
    backends of weight 20 and 10 get 7 and 6. *)
Theorem share_promise_fails :
  (∃ r, build_ring [mk_backend 1 0x0200000a 10; mk_backend 2 0x0300000a 10] ModeModulo 13 = Some (Ok r) ∧
        slots_of 1 r = 10 ∧ slots_of 2 r = 3) ∧
  (∃ r, build_ring [mk_backend 1 0x0200000a 20; mk_backend 2 0x0300000a 10] ModeMaglev 13 = Some (Ok r) ∧
        slots_of 1 r = 7 ∧ slots_of 2 r = 6).
Proof. split; eexists; (split; [vm_compute; reflexivity | split; vm_compute; reflexivity]). Qed.

End Maglev.
