(* ===== verification/Dataplane.v ===== *)
(** * The XDP data plane (bpf/packetbalance.bpf.c)

    One run of the XDP program on one frame.  The frame is a list of bytes and
    every packet access goes through a bounds-checked load or store that has no
    result ([None]) outside [data, data_end), so memory safety is a theorem and
    not an assumption.  Map accesses work on the [Maps] record; a pointer into
    a map is the index it was looked up with.  What the kernel helpers decide
    (CPU, clock, head room, LRU eviction) is the record [Env].  Multi-byte loads
    are those of a little-endian host. *)

From Stdlib Require Import ZArith Lia.
From S2P Require Import Prelude Abi Hash.
Import Hash.

Module Dataplane.

(** ** Execution environment *)

Record Env := mk_env {
  cpu : nat;                       (* the CPU the program runs on *)
  ncpus : nat;                     (* possible CPUs *)
  ktime : Z;                       (* bpf_ktime_get_ns() *)
  head_ok : bool;                  (* bpf_xdp_adjust_head succeeds *)
  headroom : list Z;               (* what the 20 bytes before the frame hold *)
  ct_ok : bool;                    (* the conntrack update succeeds *)
  ct_evict : list pb_ct_key        (* entries the LRU evicts to make room *)
}.

Inductive xdp_action : Type := XDP_DROP | XDP_PASS | XDP_TX.

#[global] Instance xdp_action_eq_dec : EqDecision xdp_action.
Proof. solve_decision. Defined.

Definition PB_OUTER_LEN : Z := 20.
Definition PB_IP_MF : Z := 0x2000.
Definition PB_IP_OFFSET : Z := 0x1FFF.
Definition PB_OUTER_TTL : Z := 64.
Definition ETH_P_IP : Z := 0x0800.
Definition IPPROTO_ICMP : Z := 1.
Definition IPPROTO_IPIP : Z := 4.
Definition IPPROTO_TCP : Z := 6.
Definition IPPROTO_UDP : Z := 17.
Definition ICMP_DEST_UNREACH : Z := 3.
Definition ICMP_FRAG_NEEDED : Z := 4.

Definition bpf_ntohs (x : Z) : Z := u8 x * 2 ^ 8 + x / 2 ^ 8.
Definition bpf_htons (x : Z) : Z := bpf_ntohs x.

Record pb_flow := mk_flow {
  f_saddr : Z;
  f_daddr : Z;
  f_sport : Z;
  f_dport : Z;
  f_proto : Z
}.

#[global] Instance pb_flow_eq_dec : EqDecision pb_flow.
Proof. solve_decision. Defined.

(** ** Counters *)

(** A [struct pb_stats *]: the index of the slot, or null. *)
Definition stats_slot (m : Maps) (idx : Z) : option nat :=
  (λ _, Z.to_nat idx) <$> array_lookup (stats m) idx.

(** [if (st) st->c[cnt] += n], on this CPU's copy. *)
Definition st_add (e : Env) (st : option nat) (cnt : pb_counter) (n : Z) (m : Maps) : Maps :=
  match st with
  | None => m
  | Some i => set_stats (alter (alter (alter (λ x, u64 (x + n)) (counter_index cnt)) (cpu e)) i) m
  end.

Definition count_global (e : Env) (cnt : pb_counter) (m : Maps) : Maps :=
  st_add e (stats_slot m PB_STATS_GLOBAL) cnt 1 m.

(** ** Real selection *)

Definition ring_lookup (m : Maps) (vip_id hash : Z) : Z :=
  match rings m !! vip_id with
  | None => PB_REAL_NONE
  | Some ring =>
      match array_lookup ring (hash mod PB_RING_SIZE) with
      | None => PB_REAL_NONE
      | Some rid => rid
      end
  end.

Definition real_alive (m : Maps) (real_id : Z) : bool :=
  if PB_MAX_REALS <=? real_id then false
  else match array_lookup (reals m) real_id with
       | None => false
       | Some r => negb (r_addr r =? 0)
       end.

(** [bpf_map_lookup_elem(&conntrack, &key)]: this CPU's value of the key. *)
Definition ct_lookup (e : Env) (m : Maps) (key : pb_ct_key) : option pb_ct_value :=
  vs ← conntrack m !! key; vs !! cpu e.

(** A store through the pointer that lookup returned. *)
Definition ct_store (e : Env) (key : pb_ct_key) (v : pb_ct_value) (m : Maps) : Maps :=
  set_conntrack (alter (λ vs, <[cpu e := v]> vs) key) m.

(** [bpf_map_update_elem(&conntrack, &key, &val, BPF_ANY)]: an existing key
    gets this CPU's value replaced, a new one has zeroes on the other CPUs; the
    LRU may evict entries; the update may fail. *)
Definition ct_update (e : Env) (key : pb_ct_key) (v : pb_ct_value) (m : Maps) : Maps :=
  let evicted := filter (λ kv, kv.1 ∉ ct_evict e) (conntrack m) in
  if ct_ok e then
    let vs := default (replicate (ncpus e) ct_value0) (conntrack m !! key) in
    set_conntrack (λ _, <[key := <[cpu e := v]> vs]> evicted) m
  else set_conntrack (λ _, evicted) m.

Definition ct_key_of (f : pb_flow) : pb_ct_key :=
  mk_ct_key (f_saddr f) (f_daddr f) (f_sport f) (f_dport f) (f_proto f).

(** The tail of pick_real after the connection table missed or was skipped. *)
Definition pick_by_hash (e : Env) (key : pb_ct_key) (vip_id hash : Z) (may_insert : bool)
    (st : option nat) (m : Maps) : Z * Maps :=
  let m := st_add e st PB_CNT_HASH 1 m in
  let real_id := ring_lookup m vip_id hash in
  if (real_id =? PB_REAL_NONE) || negb may_insert then (real_id, m)
  else (real_id, ct_update e key (mk_ct_value real_id vip_id (ktime e)) m).

Definition pick_real (e : Env) (f : pb_flow) (vip_id hash : Z) (use_ct bare_syn may_insert : bool)
    (st : option nat) (m : Maps) : Z * Maps :=
  if negb use_ct then
    let m := st_add e st PB_CNT_HASH 1 m in
    (ring_lookup m vip_id hash, m)
  else
    let key := ct_key_of f in
    if bare_syn then pick_by_hash e key vip_id hash may_insert st m
    else
      let miss := pick_by_hash e key vip_id hash may_insert st (st_add e st PB_CNT_CT_MISS 1 m) in
      match ct_lookup e m key with
      | Some ct =>
          if negb (cv_last_seen_ns ct =? 0) && real_alive m (cv_real_id ct) then
            let m := ct_store e key (mk_ct_value (cv_real_id ct) (cv_vip_id ct) (ktime e)) m in
            (cv_real_id ct, st_add e st PB_CNT_CT_HIT 1 m)
          else miss
      | None => miss
      end.

(** ** Packet memory *)

Record Ctx := mk_ctx {
  pkt : list Z;       (* the bytes of [data, data_end) *)
  maps : Maps
}.

(** A piece of the program: no result is an access outside the packet. *)
Definition prog (A : Type) : Type := Ctx → option (A * Ctx).

#[global] Instance prog_ret : MRet prog := λ A a c, Some (a, c).
#[global] Instance prog_bind : MBind prog := λ A B k p c,
  match p c with
  | None => None
  | Some (a, c) => k a c
  end.

(** [data + off > data_end]. *)
Definition past_end (off : Z) : prog bool := λ c, Some (Z.of_nat (length (pkt c)) <? off, c).

Definition ld8 (off : Z) : prog Z := λ c,
  b ← pkt c !! Z.to_nat off; Some (b, c).
Definition ld16 (off : Z) : prog Z :=
  lo ← ld8 off; hi ← ld8 (off + 1); mret (lo + hi * 2 ^ 8).
Definition ld32 (off : Z) : prog Z :=
  lo ← ld16 off; hi ← ld16 (off + 2); mret (lo + hi * 2 ^ 16).

Definition st8 (off v : Z) : prog unit := λ c,
  if off <? Z.of_nat (length (pkt c)) then Some ((), mk_ctx (<[Z.to_nat off := u8 v]> (pkt c)) (maps c))
  else None.
Definition st16 (off v : Z) : prog unit :=
  _ ← st8 off v; st8 (off + 1) (Z.shiftr v 8).
Definition st32 (off v : Z) : prog unit :=
  _ ← st16 off v; st16 (off + 2) (Z.shiftr v 16).

Definition memcpy_mac (off : Z) (mac : pb_mac) : prog unit :=
  _ ← st8 off (mac0 mac); _ ← st8 (off + 1) (mac1 mac); _ ← st8 (off + 2) (mac2 mac);
  _ ← st8 (off + 3) (mac3 mac); _ ← st8 (off + 4) (mac4 mac); st8 (off + 5) (mac5 mac).

Definition get_maps : prog Maps := λ c, Some (maps c, c).
Definition modify_maps (f : Maps → Maps) : prog unit := λ c, Some ((), mk_ctx (pkt c) (f (maps c))).

Definition drop_global (e : Env) (cnt : pb_counter) : prog xdp_action :=
  _ ← modify_maps (count_global e cnt); mret XDP_DROP.
Definition pass_global (e : Env) : prog xdp_action :=
  _ ← modify_maps (count_global e PB_CNT_PASS); mret XDP_PASS.
Definition drop_vip (e : Env) (st : option nat) (cnt : pb_counter) : prog xdp_action :=
  _ ← modify_maps (st_add e st cnt 1); mret XDP_DROP.

(** [bpf_xdp_adjust_head(ctx, -PB_OUTER_LEN)]: 0, or an error and no change. *)
Definition bpf_xdp_adjust_head (e : Env) : prog Z := λ c,
  if head_ok e then Some (0, mk_ctx (headroom e ++ pkt c) (maps c)) else Some (-22, c).

(** ** Encapsulation *)

(** One addition per 16-bit word of the header at [off]. *)
Fixpoint csum_words (n : nat) (off sum : Z) : prog Z :=
  match n with
  | O => mret sum
  | S n => w ← ld16 off; csum_words n (off + 2) (u32 (sum + w))
  end.

Definition csum_fold (sum : Z) : Z := u32 (Z.land sum 0xffff + Z.shiftr sum 16).

Definition ipv4_csum (off : Z) : prog Z :=
  sum ← csum_words 10 off 0;
  let sum := csum_fold sum in
  let sum := csum_fold sum in
  mret (u16 (Z.lnot sum)).

(** The outer source address. *)
Definition outer_saddr (cfg : pb_config) (hash : Z) : Z :=
  Z.lor (Z.land (cfg_encap_src_prefix cfg) (cfg_encap_src_mask cfg))
        (Z.land hash (u32 (Z.lnot (cfg_encap_src_mask cfg)))).

Definition encap_ipip (e : Env) (real_addr : Z) (dmac : pb_mac) (cfg : pb_config)
    (hash inner_len tos : Z) : prog Z :=
  err ← bpf_xdp_adjust_head e;
  if negb (err =? 0) then mret (-1) else
  short ← past_end (14 + 20);
  if short : bool then mret (-1) else
  _ ← memcpy_mac 0 dmac;
  _ ← memcpy_mac 6 (cfg_lb_mac cfg);
  _ ← st16 12 (bpf_htons ETH_P_IP);
  let saddr := outer_saddr cfg hash in
  _ ← st8 14 0x45;
  _ ← st8 15 tos;
  _ ← st16 16 (bpf_htons (u16 (inner_len + PB_OUTER_LEN)));
  _ ← st16 18 0;
  _ ← st16 20 0;
  _ ← st8 22 PB_OUTER_TTL;
  _ ← st8 23 IPPROTO_IPIP;
  _ ← st16 24 0;
  _ ← st32 26 saddr;
  _ ← st32 30 real_addr;
  check ← ipv4_csum 14;
  _ ← st16 24 check;
  mret 0.

Definition mac_is_zero (m : pb_mac) : bool :=
  Z.lor (mac0 m) (Z.lor (mac1 m) (Z.lor (mac2 m) (Z.lor (mac3 m) (Z.lor (mac4 m) (mac5 m))))) =? 0.

(** [rs->packets++; rs->bytes += inner_len] on this CPU's copy. *)
Definition rs_add (e : Env) (real_id inner_len : Z) (m : Maps) : Maps :=
  match array_lookup (real_stats m) real_id with
  | None => m
  | Some _ =>
      set_real_stats (alter (alter (λ s, mk_real_stats (u64 (rs_packets s + 1)) (u64 (rs_bytes s + inner_len)))
                                   (cpu e)) (Z.to_nat real_id)) m
  end.

Definition forward (e : Env) (f : pb_flow) (vip : pb_vip_value) (cfg : pb_config)
    (bare_syn may_insert is_icmp : bool) (inner_len tos : Z) : prog xdp_action :=
  m ← get_maps;
  let st := stats_slot m (vv_vip_id vip) in
  let use_ct := (Z.land (cfg_flags cfg) PB_CFG_F_NO_CONNTRACK =? 0) &&
                (Z.land (vv_flags vip) PB_VIP_F_NO_CONNTRACK =? 0) in
  let hash := pb_flow_hash (f_saddr f) (f_daddr f) (f_sport f) (f_dport f) (f_proto f) in
  _ ← modify_maps (λ m,
        let m := st_add e st PB_CNT_PACKETS 1 m in
        let m := st_add e st PB_CNT_BYTES inner_len m in
        if bare_syn then st_add e st PB_CNT_SYN 1 m else m);
  if PB_MAX_PACKET_LEN <? u32 (inner_len + PB_OUTER_LEN) then drop_vip e st PB_CNT_DROP_MTU else
  m ← get_maps;
  let (real_id, m) := pick_real e f (vv_vip_id vip) hash use_ct bare_syn may_insert st m in
  _ ← modify_maps (λ _, m);
  if PB_MAX_REALS <=? real_id then drop_vip e st PB_CNT_DROP_NO_REAL else
  match array_lookup (reals m) real_id with
  | None => drop_vip e st PB_CNT_DROP_NO_REAL
  | Some real =>
      if r_addr real =? 0 then drop_vip e st PB_CNT_DROP_NO_REAL else
      match array_lookup (neigh m) real_id with
      | None => drop_vip e st PB_CNT_DROP_NO_REAL
      | Some dmac =>
          if mac_is_zero dmac then drop_vip e st PB_CNT_DROP_NO_REAL else
          err ← encap_ipip e (r_addr real) dmac cfg hash inner_len tos;
          if negb (err =? 0) then drop_vip e st PB_CNT_DROP_ADJ_HEAD else
          _ ← modify_maps (λ m,
                let m := st_add e st PB_CNT_TX 1 m in
                let m := if is_icmp then st_add e st PB_CNT_ICMP_PMTU_FWD 1 m else m in
                rs_add e real_id inner_len m);
          mret XDP_TX
      end
  end.

(** ** Entry points *)

(** [iph] points at offset 14, the ICMP header at 34, the quoted header at 42
    and its ports at 62. *)
Definition handle_icmp (e : Env) (cfg : pb_config) : prog xdp_action :=
  short ← past_end (34 + 8);
  if short : bool then drop_global e PB_CNT_DROP_SHORT else
  type ← ld8 34;
  code ← ld8 35;
  if (Z.land (cfg_flags cfg) PB_CFG_F_ICMP_PMTU =? 0) ||
     negb (type =? ICMP_DEST_UNREACH) || negb (code =? ICMP_FRAG_NEEDED)
  then pass_global e else
  short ← past_end (42 + 20);
  if short : bool then drop_global e PB_CNT_DROP_SHORT else
  vihl ← ld8 42;
  protocol ← ld8 51;
  if negb (Z.land vihl 0x0f =? 5) || (negb (protocol =? IPPROTO_TCP) && negb (protocol =? IPPROTO_UDP))
  then pass_global e else
  short ← past_end (62 + 4);
  if short : bool then drop_global e PB_CNT_DROP_SHORT else
  inner_saddr ← ld32 54;
  inner_daddr ← ld32 58;
  port0 ← ld16 62;
  port1 ← ld16 64;
  m ← get_maps;
  match vip_map m !! mk_vip_key inner_saddr port0 protocol 0 with
  | None => pass_global e
  | Some vip =>
      let f := mk_flow inner_daddr inner_saddr port1 port0 protocol in
      tot_len ← ld16 16;
      tos ← ld8 15;
      forward e f vip cfg false false true (bpf_ntohs tot_len) tos
  end.

(** The lookup of the VIP and what follows it, for a TCP or UDP flow. *)
Definition forward_flow (e : Env) (f : pb_flow) (cfg : pb_config) (bare_syn may_insert : bool)
    (tot_len : Z) : prog xdp_action :=
  m ← get_maps;
  match vip_map m !! mk_vip_key (f_daddr f) (f_dport f) (f_proto f) 0 with
  | None => pass_global e
  | Some vip => tos ← ld8 15; forward e f vip cfg bare_syn may_insert false tot_len tos
  end.

Definition xdp_packetbalance (e : Env) : prog xdp_action :=
  short ← past_end 14;
  if short : bool then drop_global e PB_CNT_DROP_SHORT else
  h_proto ← ld16 12;
  if negb (h_proto =? bpf_htons ETH_P_IP) then pass_global e else
  short ← past_end (14 + 20);
  if short : bool then drop_global e PB_CNT_DROP_SHORT else
  vihl ← ld8 14;
  if negb (Z.shiftr vihl 4 =? 4) then drop_global e PB_CNT_DROP_OTHER else
  if negb (Z.land vihl 0x0f =? 5) then drop_global e PB_CNT_DROP_OPTS else
  frag_off ← ld16 20;
  if negb (Z.land frag_off (bpf_htons (Z.lor PB_IP_MF PB_IP_OFFSET)) =? 0)
  then drop_global e PB_CNT_DROP_FRAG else
  raw_len ← ld16 16;
  let tot_len := bpf_ntohs raw_len in
  if 0xffff <? tot_len then drop_global e PB_CNT_DROP_OTHER else
  short ← past_end (14 + tot_len);
  if (tot_len <? 20) || short then drop_global e PB_CNT_DROP_SHORT else
  m ← get_maps;
  match array_lookup (config m) 0 with
  | None => drop_global e PB_CNT_DROP_OTHER
  | Some cfg =>
      saddr ← ld32 26;
      daddr ← ld32 30;
      protocol ← ld8 23;
      if protocol =? IPPROTO_TCP then
        short ← past_end (34 + 20);
        if short : bool then drop_global e PB_CNT_DROP_SHORT else
        source ← ld16 34;
        dest ← ld16 36;
        flags ← ld8 47;
        let syn := Z.testbit flags 1 in
        let rst := Z.testbit flags 2 in
        let ack := Z.testbit flags 4 in
        forward_flow e (mk_flow saddr daddr source dest protocol) cfg (syn && negb ack) (negb rst) tot_len
      else if protocol =? IPPROTO_UDP then
        short ← past_end (34 + 8);
        if short : bool then drop_global e PB_CNT_DROP_SHORT else
        source ← ld16 34;
        dest ← ld16 36;
        forward_flow e (mk_flow saddr daddr source dest protocol) cfg false true tot_len
      else if protocol =? IPPROTO_ICMP then handle_icmp e cfg
      else pass_global e
  end.

(** ** Specification-level definitions *)

(** Total reads of a frame. *)
Definition byte (p : list Z) (off : Z) : Z := default 0 (p !! Z.to_nat off).
Definition le16 (p : list Z) (off : Z) : Z := byte p off + byte p (off + 1) * 2 ^ 8.
Definition le32 (p : list Z) (off : Z) : Z := le16 p off + le16 p (off + 2) * 2 ^ 16.
Definition be16 (p : list Z) (off : Z) : Z := byte p off * 2 ^ 8 + byte p (off + 1).
Definition len (p : list Z) : Z := Z.of_nat (length p).

(** What a frame asks for: the arguments of [forward]. *)
Record request := mk_request {
  rq_flow : pb_flow;
  rq_vip : pb_vip_value;
  rq_cfg : pb_config;
  rq_bare_syn : bool;
  rq_may_insert : bool;
  rq_icmp : bool;
  rq_len : Z;
  rq_tos : Z
}.

(** The classification of a frame. *)
Inductive verdict : Type :=
| VDrop (cnt : pb_counter)
| VPass
| VForward (r : request).

Definition vip_of (m : Maps) (addr port proto : Z) : option pb_vip_value :=
  vip_map m !! mk_vip_key addr port proto 0.

(** An ICMP message: only "fragmentation needed" about a flow of a VIP is
    forwarded.  The quoted header is the reply, VIP to client. *)
Definition classify_icmp (cfg : pb_config) (m : Maps) (p : list Z) : verdict :=
  if len p <? 42 then VDrop PB_CNT_DROP_SHORT else
  if negb (negb (Z.land (cfg_flags cfg) PB_CFG_F_ICMP_PMTU =? 0) &&
           (byte p 34 =? ICMP_DEST_UNREACH) && (byte p 35 =? ICMP_FRAG_NEEDED)) then VPass else
  if len p <? 62 then VDrop PB_CNT_DROP_SHORT else
  let proto := byte p 51 in
  if negb ((byte p 42 mod 16 =? 5) && ((proto =? IPPROTO_TCP) || (proto =? IPPROTO_UDP))) then VPass else
  if len p <? 66 then VDrop PB_CNT_DROP_SHORT else
  match vip_of m (le32 p 54) (le16 p 62) proto with
  | None => VPass
  | Some vip =>
      VForward (mk_request (mk_flow (le32 p 58) (le32 p 54) (le16 p 64) (le16 p 62) proto)
                  vip cfg false false true (be16 p 16) (byte p 15))
  end.

(** A TCP or UDP datagram, by its flow. *)
Definition classify_flow (cfg : pb_config) (m : Maps) (p : list Z) (bare_syn may_insert : bool) : verdict :=
  match vip_of m (le32 p 30) (le16 p 36) (byte p 23) with
  | None => VPass
  | Some vip =>
      VForward (mk_request (mk_flow (le32 p 26) (le32 p 30) (le16 p 34) (le16 p 36) (byte p 23))
                  vip cfg bare_syn may_insert false (be16 p 16) (byte p 15))
  end.

(** The frame as the standards define its fields. *)
Definition classify (m : Maps) (p : list Z) : verdict :=
  if len p <? 14 then VDrop PB_CNT_DROP_SHORT else
  if negb (be16 p 12 =? ETH_P_IP) then VPass else
  if len p <? 34 then VDrop PB_CNT_DROP_SHORT else
  if negb (byte p 14 / 16 =? 4) then VDrop PB_CNT_DROP_OTHER else
  if negb (byte p 14 mod 16 =? 5) then VDrop PB_CNT_DROP_OPTS else
  (* MF, or a fragment offset *)
  if negb (be16 p 20 mod 2 ^ 14 =? 0) then VDrop PB_CNT_DROP_FRAG else
  if (be16 p 16 <? 20) || (len p <? 14 + be16 p 16) then VDrop PB_CNT_DROP_SHORT else
  match config m !! 0%nat with
  | None => VDrop PB_CNT_DROP_OTHER
  | Some cfg =>
      let flags := byte p 47 in
      if byte p 23 =? IPPROTO_TCP then
        if len p <? 54 then VDrop PB_CNT_DROP_SHORT else
        classify_flow cfg m p (Z.testbit flags 1 && negb (Z.testbit flags 4)) (negb (Z.testbit flags 2))
      else if byte p 23 =? IPPROTO_UDP then
        if len p <? 42 then VDrop PB_CNT_DROP_SHORT else classify_flow cfg m p false true
      else if byte p 23 =? IPPROTO_ICMP then classify_icmp cfg m p
      else VPass
  end.

(** The program as classification, then the common tail. *)
Definition spec_run (e : Env) (c : Ctx) : option (xdp_action * Ctx) :=
  match classify (maps c) (pkt c) with
  | VDrop cnt => Some (XDP_DROP, mk_ctx (pkt c) (count_global e cnt (maps c)))
  | VPass => Some (XDP_PASS, mk_ctx (pkt c) (count_global e PB_CNT_PASS (maps c)))
  | VForward r =>
      forward e (rq_flow r) (rq_vip r) (rq_cfg r) (rq_bare_syn r) (rq_may_insert r) (rq_icmp r)
        (rq_len r) (rq_tos r) c
  end.

(** ** Lemmas: packet memory *)

Lemma prog_bind_Some {A B} (p : prog A) (k : A → prog B) c a c' :
  p c = Some (a, c') → (p ≫= k) c = k a c'.
Proof. intros H. unfold mbind, prog_bind. by rewrite H. Qed.

Lemma bind_past_end {B} off (k : bool → prog B) c : (past_end off ≫= k) c = k (len (pkt c) <? off) c.
Proof. done. Qed.
Lemma bind_get_maps {B} (k : Maps → prog B) c : (get_maps ≫= k) c = k (maps c) c.
Proof. done. Qed.

Lemma ld8_ok off c : 0 <= off < len (pkt c) → ld8 off c = Some (byte (pkt c) off, c).
Proof.
  unfold len. intros Ho. unfold ld8, byte.
  destruct (lookup_lt_is_Some_2 (pkt c) (Z.to_nat off)) as [b Hb]; [lia |]. by rewrite Hb.
Qed.

Lemma ld16_ok off c : 0 <= off → off + 1 < len (pkt c) → ld16 off c = Some (le16 (pkt c) off, c).
Proof.
  intros H1 H2. unfold ld16. erewrite prog_bind_Some by (apply ld8_ok; lia).
  by erewrite prog_bind_Some by (apply ld8_ok; lia).
Qed.

Lemma ld32_ok off c : 0 <= off → off + 3 < len (pkt c) → ld32 off c = Some (le32 (pkt c) off, c).
Proof.
  intros H1 H2. unfold ld32. erewrite prog_bind_Some by (apply ld16_ok; lia).
  by erewrite prog_bind_Some by (apply ld16_ok; lia).
Qed.

Lemma bind_ld8 {B} off (k : Z → prog B) c :
  0 <= off < len (pkt c) → (ld8 off ≫= k) c = k (byte (pkt c) off) c.
Proof. intros H. by apply prog_bind_Some, ld8_ok. Qed.
Lemma bind_ld16 {B} off (k : Z → prog B) c :
  0 <= off → off + 1 < len (pkt c) → (ld16 off ≫= k) c = k (le16 (pkt c) off) c.
Proof. intros H1 H2. by apply prog_bind_Some, ld16_ok. Qed.
Lemma bind_ld32 {B} off (k : Z → prog B) c :
  0 <= off → off + 3 < len (pkt c) → (ld32 off ≫= k) c = k (le32 (pkt c) off) c.
Proof. intros H1 H2. by apply prog_bind_Some, ld32_ok. Qed.

(** Run the loads whose bounds are in the context. *)
Ltac run_loads :=
  repeat first
    [ rewrite bind_past_end | rewrite bind_get_maps
    | rewrite bind_ld8 by lia | rewrite bind_ld16 by lia | rewrite bind_ld32 by lia ].

(** ** Lemmas: byte order *)

Definition bytes_ok (p : list Z) : Prop := Forall (is_u 8) p.

Lemma byte_range p off : bytes_ok p → is_u 8 (byte p off).
Proof.
  intros Hp. unfold byte. destruct (p !! Z.to_nat off) eqn:E; simpl; [| unfold is_u; lia].
  by apply (Forall_lookup_1 _ _ _ _ Hp E).
Qed.

Lemma ntohs_le16 p off : bytes_ok p → bpf_ntohs (le16 p off) = be16 p off.
Proof.
  intros Hp. pose proof (byte_range p off Hp) as H1. pose proof (byte_range p (off + 1) Hp) as H2.
  unfold bpf_ntohs, le16, be16, u8, is_u in *. rewrite Z.mod_add, Z.div_add by lia.
  rewrite Z.mod_small, Z.div_small by lia. lia.
Qed.

Lemma be16_range p off : bytes_ok p → is_u 16 (be16 p off).
Proof.
  intros Hp. pose proof (byte_range p off Hp) as H1. pose proof (byte_range p (off + 1) Hp) as H2.
  unfold be16, is_u in *. lia.
Qed.

(** Facts on pairs of bytes, by evaluation. *)
Lemma byte_pairs (f : Z → Z → bool) :
  forallb (λ x, forallb (f x) (seqZ 0 256)) (seqZ 0 256) = true →
  ∀ x y, is_u 8 x → is_u 8 y → f x y = true.
Proof.
  intros H x y Hx Hy. unfold is_u in *. rewrite forallb_forall in H.
  specialize (H x ltac:(apply list_elem_of_In, elem_of_seqZ; lia)).
  rewrite forallb_forall in H. apply H, list_elem_of_In, elem_of_seqZ. lia.
Qed.

Lemma ethertype_swap p off :
  bytes_ok p → (le16 p off =? bpf_htons ETH_P_IP) = (be16 p off =? ETH_P_IP).
Proof.
  intros Hp. apply eqb_prop. unfold le16, be16.
  apply (byte_pairs (λ x y, eqb (x + y * 2 ^ 8 =? bpf_htons ETH_P_IP) (x * 2 ^ 8 + y =? ETH_P_IP)));
    [vm_compute; reflexivity | by apply byte_range..].
Qed.

Lemma frag_swap p off :
  bytes_ok p →
  (Z.land (le16 p off) (bpf_htons (Z.lor PB_IP_MF PB_IP_OFFSET)) =? 0) = (be16 p off mod 2 ^ 14 =? 0).
Proof.
  intros Hp. apply eqb_prop. unfold le16, be16.
  apply (byte_pairs (λ x y, eqb (Z.land (x + y * 2 ^ 8) (bpf_htons (Z.lor PB_IP_MF PB_IP_OFFSET)) =? 0)
                                ((x * 2 ^ 8 + y) mod 2 ^ 14 =? 0)));
    [vm_compute; reflexivity | by apply byte_range..].
Qed.

Lemma version_nibble x : Z.shiftr x 4 = x / 16.
Proof. by rewrite Z.shiftr_div_pow2 by lia. Qed.
Lemma ihl_nibble x : Z.land x 0x0f = x mod 16.
Proof. change 0x0f with (Z.ones 4). by rewrite Z.land_ones by lia. Qed.

(** ** Lemmas: the parser *)

Lemma forward_flow_spec e cfg c saddr sport bare_syn may_insert tot_len :
  34 <= len (pkt c) →
  forward_flow e (mk_flow saddr (le32 (pkt c) 30) sport (le16 (pkt c) 36) (byte (pkt c) 23))
    cfg bare_syn may_insert tot_len c =
  match vip_of (maps c) (le32 (pkt c) 30) (le16 (pkt c) 36) (byte (pkt c) 23) with
  | None => pass_global e c
  | Some vip =>
      forward e (mk_flow saddr (le32 (pkt c) 30) sport (le16 (pkt c) 36) (byte (pkt c) 23))
        vip cfg bare_syn may_insert false tot_len (byte (pkt c) 15) c
  end.
Proof.
  intros Hl. unfold forward_flow, vip_of. run_loads. cbn [f_daddr f_dport f_proto].
  destruct (vip_map _ !! _); [| done]. by run_loads.
Qed.

(** Close a branch that drops or passes. *)
Ltac done_branch := cbn [negb andb orb]; try reflexivity.

Lemma handle_icmp_spec e cfg c :
  bytes_ok (pkt c) → 34 <= len (pkt c) →
  handle_icmp e cfg c =
  match classify_icmp cfg (maps c) (pkt c) with
  | VDrop cnt => drop_global e cnt c
  | VPass => pass_global e c
  | VForward r =>
      forward e (rq_flow r) (rq_vip r) (rq_cfg r) (rq_bare_syn r) (rq_may_insert r) (rq_icmp r)
        (rq_len r) (rq_tos r) c
  end.
Proof.
  intros Hp Hl. unfold handle_icmp, classify_icmp. run_loads. change (34 + 8) with 42.
  destruct (Z.ltb_spec (len (pkt c)) 42); [done |]. run_loads.
  destruct (Z.land (cfg_flags cfg) _ =? 0); done_branch.
  destruct (byte (pkt c) 34 =? _); done_branch. destruct (byte (pkt c) 35 =? _); done_branch.
  run_loads. change (42 + 20) with 62. destruct (Z.ltb_spec (len (pkt c)) 62); [done |]. run_loads.
  rewrite ihl_nibble. destruct (byte (pkt c) 42 mod 16 =? 5); done_branch.
  assert (∀ a b : bool, negb a && negb b = negb (a || b)) as -> by (by intros [] []).
  destruct (_ || _); done_branch. run_loads. change (62 + 4) with 66.
  destruct (Z.ltb_spec (len (pkt c)) 66); [done |]. run_loads. unfold vip_of.
  destruct (vip_map _ !! _); [| done]. run_loads. by rewrite ntohs_le16.
Qed.

Lemma array_lookup_0 {A} (l : list A) : array_lookup l 0 = l !! 0%nat.
Proof. unfold array_lookup. by destruct l. Qed.

Lemma drop_global_eq e cnt c :
  drop_global e cnt c = Some (XDP_DROP, mk_ctx (pkt c) (count_global e cnt (maps c))).
Proof. done. Qed.
Lemma pass_global_eq e c :
  pass_global e c = Some (XDP_PASS, mk_ctx (pkt c) (count_global e PB_CNT_PASS (maps c))).
Proof. done. Qed.

(** The program is its specification. *)
Lemma xdp_spec e c : bytes_ok (pkt c) → xdp_packetbalance e c = spec_run e c.
Proof.
  intros Hp. unfold xdp_packetbalance, spec_run, classify. run_loads.
  destruct (Z.ltb_spec (len (pkt c)) 14); [done |]. run_loads. rewrite (ethertype_swap _ 12 Hp).
  destruct (be16 (pkt c) 12 =? ETH_P_IP); done_branch. run_loads. change (14 + 20) with 34.
  destruct (Z.ltb_spec (len (pkt c)) 34); [done |]. run_loads. rewrite version_nibble, ihl_nibble.
  destruct (byte (pkt c) 14 / 16 =? 4); done_branch. destruct (byte (pkt c) 14 mod 16 =? 5); done_branch.
  run_loads. rewrite (frag_swap _ 20 Hp). destruct (be16 (pkt c) 20 mod 2 ^ 14 =? 0); done_branch.
  run_loads. rewrite (ntohs_le16 _ 16 Hp). pose proof (be16_range _ 16 Hp) as Hr. unfold is_u in Hr.
  replace (65535 <? be16 (pkt c) 16) with false by lia. run_loads.
  destruct (_ || _); done_branch. run_loads. rewrite array_lookup_0.
  destruct (config (maps c) !! 0%nat) as [cfg |]; [| done]. run_loads. change (34 + 20) with 54. change (34 + 8) with 42.
  destruct (byte (pkt c) 23 =? IPPROTO_TCP).
  { run_loads. destruct (Z.ltb_spec (len (pkt c)) 54); [done |]. run_loads.
    rewrite forward_flow_spec by lia. unfold classify_flow. by destruct (vip_of _ _ _ _). }
  destruct (byte (pkt c) 23 =? IPPROTO_UDP).
  { run_loads. destruct (Z.ltb_spec (len (pkt c)) 42); [done |]. run_loads.
    rewrite forward_flow_spec by lia. unfold classify_flow. by destruct (vip_of _ _ _ _). }
  destruct (byte (pkt c) 23 =? IPPROTO_ICMP); [| done].
  rewrite handle_icmp_spec by (done || lia). by destruct (classify_icmp _ _ _).
Qed.

(** ** Lemmas: encapsulation *)

Definition bytes16 (v : Z) : list Z := [u8 v; u8 (Z.shiftr v 8)].
Definition bytes32 (v : Z) : list Z := bytes16 v ++ bytes16 (Z.shiftr v 16).
Definition bytes_mac (m : pb_mac) : list Z :=
  [u8 (mac0 m); u8 (mac1 m); u8 (mac2 m); u8 (mac3 m); u8 (mac4 m); u8 (mac5 m)].

(** The frame with [bs] written at [off]. *)
Definition wr (off : Z) (bs : list Z) (c : Ctx) : Ctx :=
  mk_ctx (list_inserts (Z.to_nat off) bs (pkt c)) (maps c).

Lemma len_wr off bs c : len (pkt (wr off bs c)) = len (pkt c).
Proof. unfold len, wr. cbn [pkt]. by rewrite length_inserts. Qed.

Lemma st8_ok off v c : 0 <= off < len (pkt c) → st8 off v c = Some ((), wr off [u8 v] c).
Proof.
  unfold len. intros H. unfold st8. replace (off <? _) with true by lia. done.
Qed.

(** The frame with its first bytes written. *)
Abbreviation front bs c := (wr 0 bs c).

Lemma wr_front off bs bs' c :
  off = Z.of_nat (length bs) → wr off bs' (front bs c) = front (bs ++ bs') c.
Proof.
  intros ->. unfold wr. cbn [pkt maps]. f_equal. rewrite Nat2Z.id.
  by rewrite list_inserts_app_l, Nat.add_0_r.
Qed.

(** Stores that extend the written front. *)
Lemma st8_front off v bs c :
  off = Z.of_nat (length bs) → off < len (pkt c) →
  st8 off v (front bs c) = Some ((), front (bs ++ [u8 v]) c).
Proof.
  intros -> Hl. rewrite st8_ok by (rewrite len_wr; lia). by rewrite wr_front.
Qed.

Lemma st16_front off v bs c :
  off = Z.of_nat (length bs) → off + 1 < len (pkt c) →
  st16 off v (front bs c) = Some ((), front (bs ++ bytes16 v) c).
Proof.
  intros -> Hl. unfold st16. erewrite prog_bind_Some by (apply st8_front; [done | lia]).
  rewrite st8_front by (rewrite ?length_app; simpl; lia). by rewrite <-app_assoc.
Qed.

Lemma st32_front off v bs c :
  off = Z.of_nat (length bs) → off + 3 < len (pkt c) →
  st32 off v (front bs c) = Some ((), front (bs ++ bytes32 v) c).
Proof.
  intros -> Hl. unfold st32. erewrite prog_bind_Some by (apply st16_front; [done | lia]).
  rewrite st16_front by (rewrite ?length_app; simpl; lia). by rewrite <-app_assoc.
Qed.

Lemma memcpy_front off mac bs c :
  off = Z.of_nat (length bs) → off + 5 < len (pkt c) →
  memcpy_mac off mac (front bs c) = Some ((), front (bs ++ bytes_mac mac) c).
Proof.
  intros -> Hl. unfold memcpy_mac.
  do 5 (erewrite prog_bind_Some by (apply st8_front; [rewrite ?length_app; simpl; lia | lia])).
  rewrite st8_front by (rewrite ?length_app; simpl; lia). by rewrite <-!app_assoc.
Qed.

(** The 16-bit words of a header, as a little-endian host loads them. *)
Definition words (n : nat) (off : Z) (p : list Z) : list Z :=
  (λ i, le16 p (off + 2 * Z.of_nat i)) <$> seq 0 n.

(** ipv4_csum as a function of the words. *)
Definition csum16 (ws : list Z) : Z :=
  u16 (Z.lnot (csum_fold (csum_fold (foldl (λ s w, u32 (s + w)) 0 ws)))).

Lemma csum_words_ok n off sum c :
  0 <= off → off + 2 * Z.of_nat n <= len (pkt c) →
  csum_words n off sum c = Some (foldl (λ s w, u32 (s + w)) sum (words n off (pkt c)), c).
Proof.
  revert off sum. induction n as [| n IH]; intros off sum Ho Hl; [done |].
  cbn [csum_words]. rewrite bind_ld16 by lia. rewrite IH by lia. unfold words. cbn [seq fmap list_fmap foldl].
  rewrite <-fmap_S_seq. rewrite <-list_fmap_compose. do 3 f_equal.
  - by rewrite Z.mul_0_r, Z.add_0_r.
  - apply list_fmap_ext. intros _ i _. unfold compose. f_equal. lia.
Qed.

(** The outer header around a checksum. *)
Definition outer_header (tos inner_len saddr daddr check : Z) : list Z :=
  [0x45; u8 tos] ++ rev (bytes16 (inner_len + PB_OUTER_LEN)) ++ [0; 0; 0; 0; PB_OUTER_TTL; IPPROTO_IPIP]
  ++ bytes16 check ++ bytes32 saddr ++ bytes32 daddr.

Definition outer_check (tos inner_len saddr daddr : Z) : Z :=
  csum16 (words 10 0 (outer_header tos inner_len saddr daddr 0)).

(** The Ethernet header of the frame sent. *)
Definition eth_header (dmac smac : pb_mac) : list Z := bytes_mac dmac ++ bytes_mac smac ++ [8; 0].

(** The bytes encap_ipip puts in front of the inner datagram. *)
Definition encap_front (real_addr : Z) (dmac : pb_mac) (cfg : pb_config) (hash inner_len tos : Z) : list Z :=
  let saddr := outer_saddr cfg hash in
  eth_header dmac (cfg_lb_mac cfg) ++
  outer_header tos inner_len saddr real_addr (outer_check tos inner_len saddr real_addr).

Lemma htons_bytes v : bytes16 (bpf_htons (u16 v)) = rev (bytes16 v).
Proof.
  unfold bytes16, bpf_htons, bpf_ntohs, u8, u16. rewrite !Z.shiftr_div_pow2 by lia.
  cbn [rev app].
  pose proof (Z.mod_pos_bound v (2 ^ 16)). set (x := v mod 2 ^ 16) in *.
  assert (v mod 2 ^ 8 = x mod 2 ^ 8) as ->.
  { unfold x. change (2 ^ 16) with (2 ^ 8 * 2 ^ 8). rewrite Z.rem_mul_r by lia.
    rewrite Z.mul_comm, Z.mod_add, Z.mod_mod by lia. done. }
  assert ((v / 2 ^ 8) mod 2 ^ 8 = x / 2 ^ 8) as ->.
  { unfold x. change (2 ^ 16) with (2 ^ 8 * 2 ^ 8). rewrite Z.rem_mul_r by lia.
    rewrite (Z.mul_comm (2 ^ 8)), Z.div_add by lia. rewrite (Z.div_small (v mod 2 ^ 8)); [lia |].
    apply Z.mod_pos_bound. lia. }
  assert (0 <= x / 2 ^ 8 < 2 ^ 8).
  { split; [apply Z.div_pos; lia |]. apply Z.div_lt_upper_bound; lia. }
  rewrite Z.add_comm, Z.mod_add, Z.div_add, (Z.div_small (x / 2 ^ 8)), Z.add_0_l by lia.
  by rewrite Z.mod_mod, (Z.mod_small (x / 2 ^ 8)) by lia.
Qed.

Lemma st16_ok off v c :
  0 <= off → off + 1 < len (pkt c) → st16 off v c = Some ((), wr (off + 1) [u8 (Z.shiftr v 8)] (wr off [u8 v] c)).
Proof.
  intros Ho Hl. unfold st16. erewrite prog_bind_Some by (apply st8_ok; lia).
  by rewrite st8_ok by (rewrite len_wr; lia).
Qed.

Lemma front_full bs c :
  (length bs <= length (pkt c))%nat → pkt (front bs c) = bs ++ drop (length bs) (pkt c).
Proof.
  intros Hl. unfold wr. cbn [pkt]. change (Z.to_nat 0) with 0%nat.
  rewrite <-(take_drop (length bs) (pkt c)) at 1. by rewrite list_inserts_0_r by (rewrite length_take; lia).
Qed.

(** The Ethernet header and the outer header with a zero checksum. *)
Definition raw_front (real_addr : Z) (dmac : pb_mac) (cfg : pb_config) (hash inner_len tos : Z) : list Z :=
  eth_header dmac (cfg_lb_mac cfg) ++ outer_header tos inner_len (outer_saddr cfg hash) real_addr 0.

(** All stores of encap_ipip up to the checksum. *)
Lemma encap_stores c real_addr dmac cfg hash inner_len tos {B} (k : prog B) :
  34 <= len (pkt c) →
  (_ ← memcpy_mac 0 dmac;
   _ ← memcpy_mac 6 (cfg_lb_mac cfg);
   _ ← st16 12 (bpf_htons ETH_P_IP);
   _ ← st8 14 0x45;
   _ ← st8 15 tos;
   _ ← st16 16 (bpf_htons (u16 (inner_len + PB_OUTER_LEN)));
   _ ← st16 18 0;
   _ ← st16 20 0;
   _ ← st8 22 PB_OUTER_TTL;
   _ ← st8 23 IPPROTO_IPIP;
   _ ← st16 24 0;
   _ ← st32 26 (outer_saddr cfg hash);
   _ ← st32 30 real_addr; k) c
  = k (front (raw_front real_addr dmac cfg hash inner_len tos) c).
Proof.
  intros Hl. assert (c = front [] c) as E by (by destruct c). rewrite E at 1.
  repeat (erewrite prog_bind_Some
    by (first [apply memcpy_front | apply st16_front | apply st8_front | apply st32_front];
        [reflexivity | lia])).
  rewrite htons_bytes. unfold raw_front, eth_header, outer_header. rewrite <-!app_assoc. done.
Qed.

(** Writing the checksum into the front. *)
Lemma patch_check ck real_addr dmac cfg hash inner_len tos rest m :
  pkt (wr (24 + 1) [u8 (Z.shiftr ck 8)] (wr 24 [u8 ck]
         (mk_ctx (raw_front real_addr dmac cfg hash inner_len tos ++ rest) m)))
  = (eth_header dmac (cfg_lb_mac cfg) ++ outer_header tos inner_len (outer_saddr cfg hash) real_addr ck) ++ rest.
Proof. reflexivity. Qed.

Lemma encap_fail e real_addr dmac cfg hash inner_len tos c :
  head_ok e = false → encap_ipip e real_addr dmac cfg hash inner_len tos c = Some (-1, c).
Proof. intros H. unfold encap_ipip, mbind, prog_bind, bpf_xdp_adjust_head. by rewrite H. Qed.

Lemma encap_ok e real_addr dmac cfg hash inner_len tos c :
  head_ok e = true → length (headroom e) = 20%nat → 14 <= len (pkt c) →
  encap_ipip e real_addr dmac cfg hash inner_len tos c =
  Some (0, mk_ctx (encap_front real_addr dmac cfg hash inner_len tos ++ drop 14 (pkt c)) (maps c)).
Proof.
  intros Hok Hhr Hl. unfold encap_ipip.
  set (c1 := mk_ctx (headroom e ++ pkt c) (maps c)).
  erewrite prog_bind_Some by (unfold bpf_xdp_adjust_head; rewrite Hok; reflexivity). fold c1.
  cbn [negb Z.eqb]. rewrite bind_past_end.
  assert (34 <= len (pkt c1)) as Hl1 by (unfold c1, len in *; cbn [pkt]; rewrite length_app; lia).
  change (14 + 20) with 34. replace (len (pkt c1) <? 34) with false by lia.
  cbv zeta. rewrite encap_stores by done.
  set (raw := raw_front real_addr dmac cfg hash inner_len tos).
  assert (pkt (front raw c1) = raw ++ drop 14 (pkt c)) as Hraw.
  { rewrite front_full by (change (length raw) with 34%nat; unfold len in Hl1; lia). f_equal. unfold c1. cbn [pkt].
    change (length raw) with 34%nat. by rewrite drop_app_ge, Hhr by lia. }
  erewrite prog_bind_Some.
  2: { unfold ipv4_csum. erewrite prog_bind_Some by (apply csum_words_ok; rewrite ?len_wr; lia). reflexivity. }
  rewrite Hraw. change (words 10 14 (raw ++ drop 14 (pkt c)))
    with (words 10 0 (outer_header tos inner_len (outer_saddr cfg hash) real_addr 0)).
  erewrite prog_bind_Some by (apply st16_ok; rewrite ?len_wr; lia).
  unfold mret, prog_ret, encap_front, outer_check, csum16.
  generalize (u16 (Z.lnot (csum_fold (csum_fold (foldl (λ s w, u32 (s + w)) 0
    (words 10 0 (outer_header tos inner_len (outer_saddr cfg hash) real_addr 0))))))) as ck.
  intros ck. assert (front raw c1 = mk_ctx (raw ++ drop 14 (pkt c)) (maps c)) as ->.
  { rewrite <-Hraw. done. }
  rewrite <-(patch_check ck _ _ _ _ _ _ _ (maps c)). reflexivity.
Qed.

(** ** Lemmas: the common tail *)

(** Address and MAC of a real that can be sent to. *)
Definition resolve (m : Maps) (real_id : Z) : option (Z * pb_mac) :=
  if PB_MAX_REALS <=? real_id then None else
  real ← array_lookup (reals m) real_id;
  if r_addr real =? 0 then None else
  dmac ← array_lookup (neigh m) real_id;
  if mac_is_zero dmac then None else Some (r_addr real, dmac).

Definition flow_hash (f : pb_flow) : Z :=
  pb_flow_hash (f_saddr f) (f_daddr f) (f_sport f) (f_dport f) (f_proto f).

Definition uses_ct (r : request) : bool :=
  (Z.land (cfg_flags (rq_cfg r)) PB_CFG_F_NO_CONNTRACK =? 0) &&
  (Z.land (vv_flags (rq_vip r)) PB_VIP_F_NO_CONNTRACK =? 0).

(** The counters of a packet that matched a VIP. *)
Definition count_in (e : Env) (r : request) (st : option nat) (m : Maps) : Maps :=
  let m := st_add e st PB_CNT_BYTES (rq_len r) (st_add e st PB_CNT_PACKETS 1 m) in
  if rq_bare_syn r then st_add e st PB_CNT_SYN 1 m else m.

(** The counters of a packet that was sent. *)
Definition count_tx (e : Env) (r : request) (st : option nat) (real_id : Z) (m : Maps) : Maps :=
  let m := st_add e st PB_CNT_TX 1 m in
  let m := if rq_icmp r then st_add e st PB_CNT_ICMP_PMTU_FWD 1 m else m in
  rs_add e real_id (rq_len r) m.

(** The real chosen for a request, and the maps afterwards. *)
Definition choose (e : Env) (r : request) (m : Maps) : Z * Maps :=
  let st := stats_slot m (vv_vip_id (rq_vip r)) in
  pick_real e (rq_flow r) (vv_vip_id (rq_vip r)) (flow_hash (rq_flow r)) (uses_ct r)
    (rq_bare_syn r) (rq_may_insert r) st (count_in e r st m).

Definition run_request (e : Env) (r : request) (c : Ctx) : xdp_action * Ctx :=
  let st := stats_slot (maps c) (vv_vip_id (rq_vip r)) in
  if PB_MAX_PACKET_LEN <? rq_len r + PB_OUTER_LEN then
    (XDP_DROP, mk_ctx (pkt c) (st_add e st PB_CNT_DROP_MTU 1 (count_in e r st (maps c))))
  else
    let (real_id, m) := choose e r (maps c) in
    match resolve m real_id with
    | None => (XDP_DROP, mk_ctx (pkt c) (st_add e st PB_CNT_DROP_NO_REAL 1 m))
    | Some (addr, dmac) =>
        if head_ok e then
          (XDP_TX, mk_ctx (encap_front addr dmac (rq_cfg r) (flow_hash (rq_flow r)) (rq_len r) (rq_tos r)
                             ++ drop 14 (pkt c))
                          (count_tx e r st real_id m))
        else (XDP_DROP, mk_ctx (pkt c) (st_add e st PB_CNT_DROP_ADJ_HEAD 1 m))
    end.

Lemma forward_spec e r c :
  length (headroom e) = 20%nat → 14 <= len (pkt c) → is_u 16 (rq_len r) →
  forward e (rq_flow r) (rq_vip r) (rq_cfg r) (rq_bare_syn r) (rq_may_insert r) (rq_icmp r)
    (rq_len r) (rq_tos r) c = Some (run_request e r c).
Proof.
  intros Hhr Hl Hr. unfold is_u in Hr.
  unfold forward, run_request, choose, count_in, count_tx, uses_ct, flow_hash.
  rewrite bind_get_maps. set (st := stats_slot (maps c) _).
  erewrite prog_bind_Some by reflexivity. cbv zeta. unfold PB_OUTER_LEN. rewrite u32_id by (unfold is_u; lia).
  destruct (_ <? rq_len r + 20); [done |]. rewrite bind_get_maps. cbn [maps].
  destruct (pick_real _ _ _ _ _ _ _ _ _) as [real_id m].
  erewrite prog_bind_Some by reflexivity. cbn [pkt]. unfold resolve.
  destruct (PB_MAX_REALS <=? real_id); [done |].
  destruct (array_lookup (reals m) real_id) as [real |]; simpl; [| done].
  destruct (r_addr real =? 0); [done |].
  destruct (array_lookup (neigh m) real_id) as [dmac |]; simpl; [| done].
  destruct (mac_is_zero dmac); [done |]. destruct (head_ok e) eqn:Hok.
  - erewrite prog_bind_Some by (apply encap_ok; [done | done | apply Hl]). done.
  - erewrite prog_bind_Some by (by apply encap_fail). done.
Qed.

Lemma classify_len m p r : classify m p = VForward r → 34 <= len p.
Proof.
  unfold classify. destruct (len p <? 14); [done |]. destruct (negb _); [done |].
  destruct (Z.ltb_spec (len p) 34); [done | lia].
Qed.

Lemma classify_request m p r :
  classify m p = VForward r →
  rq_len r = be16 p 16 ∧ rq_tos r = byte p 15 ∧ config m !! 0%nat = Some (rq_cfg r) ∧
  20 <= be16 p 16 ∧ 14 + be16 p 16 <= len p ∧ be16 p 20 mod 2 ^ 14 = 0 ∧ byte p 14 mod 16 = 5.
Proof.
  unfold classify. destruct (len p <? 14); [done |]. destruct (negb _); [done |].
  destruct (len p <? 34); [done |]. destruct (negb _); [done |].
  destruct (Z.eqb_spec (byte p 14 mod 16) 5); [| done]. cbn [negb].
  destruct (Z.eqb_spec (be16 p 20 mod 2 ^ 14) 0); [| done]. cbn [negb].
  destruct (Z.ltb_spec (be16 p 16) 20); [done |].
  destruct (Z.ltb_spec (len p) (14 + be16 p 16)); [done |]. cbn [orb].
  destruct (config m !! 0%nat) as [cfg |]; [| done].
  assert (∀ b1 b2, classify_flow cfg m p b1 b2 = VForward r →
    rq_len r = be16 p 16 ∧ rq_tos r = byte p 15 ∧ cfg = rq_cfg r) as Hflow.
  { intros b1 b2. unfold classify_flow. destruct (vip_of _ _ _ _); [| done]. by intros [= <-]. }
  assert (classify_icmp cfg m p = VForward r →
    rq_len r = be16 p 16 ∧ rq_tos r = byte p 15 ∧ cfg = rq_cfg r) as Hicmp.
  { unfold classify_icmp. repeat (case_match; try done). by intros [= <-]. }
  intros Hr. assert (rq_len r = be16 p 16 ∧ rq_tos r = byte p 15 ∧ cfg = rq_cfg r) as (-> & -> & <-).
  { repeat (case_match; try done); eauto. }
  by split_and!.
Qed.

(** The program on any frame. *)
Definition run (e : Env) (c : Ctx) : xdp_action * Ctx :=
  match classify (maps c) (pkt c) with
  | VDrop cnt => (XDP_DROP, mk_ctx (pkt c) (count_global e cnt (maps c)))
  | VPass => (XDP_PASS, mk_ctx (pkt c) (count_global e PB_CNT_PASS (maps c)))
  | VForward r => run_request e r c
  end.

Lemma xdp_run e c :
  bytes_ok (pkt c) → length (headroom e) = 20%nat → xdp_packetbalance e c = Some (run e c).
Proof.
  intros Hp Hhr. rewrite xdp_spec by done. unfold spec_run, run.
  destruct (classify (maps c) (pkt c)) as [| | r] eqn:E; [done.. |].
  pose proof (classify_len _ _ _ E). apply classify_request in E as (E & _).
  apply forward_spec; [done | lia |]. rewrite E. by apply be16_range.
Qed.

End Dataplane.
