(* ===== verification/DataplaneProps.v ===== *)
(** * Properties of the XDP data plane

    What the frames it sends look like, that it never reads or writes outside
    the frame, which real a packet goes to, what it leaves in the connection
    table, and that its counters account for every frame. *)

From Stdlib Require Import ZArith Lia.
From S2P Require Import Prelude Abi Hash Dataplane.
Import Hash Dataplane.

Module DataplaneProps.

(** ** Internet checksums (RFC 1071) *)

(** Ones' complement addition of 16-bit words: the end-around carry. *)
Definition oc_add (x y : Z) : Z := let s := x + y in if s <? 2 ^ 16 then s else s - (2 ^ 16 - 1).
Definition oc_sum (ws : list Z) : Z := foldl oc_add 0 ws.

(** The [n] 16-bit words at [off], in network byte order. *)
Definition be_words (n : nat) (off : Z) (p : list Z) : list Z :=
  (λ i, be16 p (off + 2 * Z.of_nat i)) <$> seq 0 n.

(** A header is intact when the words of it, checksum included, sum to
    negative zero. *)
Definition header_valid (off : Z) (p : list Z) : Prop := oc_sum (be_words 10 off p) = 0xffff.

Definition zsum (l : list Z) : Z := foldr Z.add 0 l.

Lemma zsum_cons x l : zsum (x :: l) = x + zsum l.
Proof. done. Qed.

Lemma oc_sum_spec acc ws :
  is_u 16 acc → Forall (is_u 16) ws →
  is_u 16 (foldl oc_add acc ws) ∧ (foldl oc_add acc ws) mod 65535 = (acc + zsum ws) mod 65535 ∧
  (0 < acc + zsum ws → 0 < foldl oc_add acc ws).
Proof.
  intros Ha Hw. revert acc Ha. induction Hw as [| w ws Hw Hws IH]; intros acc Ha; cbn [foldl zsum foldr].
  { rewrite Z.add_0_r. done. }
  unfold is_u in *. assert (0 <= zsum ws) as Hz.
  { clear -Hws. unfold zsum. induction Hws; simpl; lia. }
  specialize (IH (oc_add acc w)). unfold oc_add in *. cbv zeta in *. fold (zsum ws).
  destruct (Z.ltb_spec (acc + w) (2 ^ 16)); (destruct IH as (H1 & H2 & H3); [lia |]).
  - split_and!; try lia. rewrite H2. f_equal. lia.
  - split_and!; try lia. rewrite H2.
    replace (acc + (w + zsum ws)) with (acc + w - (2 ^ 16 - 1) + zsum ws + 1 * 65535) by lia.
    by rewrite Z.mod_add by lia.
Qed.

Lemma oc_sum_zero_mod ws :
  Forall (is_u 16) ws → zsum ws mod 65535 = 0 → 0 < zsum ws → oc_sum ws = 0xffff.
Proof.
  intros Hw Hm Hp. destruct (oc_sum_spec 0 ws) as (H1 & H2 & H4); [unfold is_u; lia | done |].
  unfold oc_sum. rewrite Z.add_0_l in *. rewrite Hm in H2. specialize (H4 Hp). unfold is_u in H1.
  apply Z.mod_divide in H2 as [q Hq]; [| lia]. lia.
Qed.

(** Swapping the bytes of every word multiplies the sum by 256, modulo 65535. *)
Lemma zsum_swap n off p :
  zsum (be_words n off p) mod 65535 = (256 * zsum (words n off p)) mod 65535.
Proof.
  unfold be_words, words. generalize (seq 0 n) as l.
  assert (∀ l, ∃ q, zsum ((λ i, be16 p (off + 2 * Z.of_nat i)) <$> l)
                    = 256 * zsum ((λ i, le16 p (off + 2 * Z.of_nat i)) <$> l) + q * 65535) as H.
  { induction l as [| i l [q IH]]; [by exists 0 |]. rewrite !fmap_cons, !zsum_cons, IH. exists (q - byte p (off + 2 * Z.of_nat i + 1)).
    unfold be16, le16. lia. }
  intros l. destruct (H l) as [q ->]. by rewrite Z.mod_add by lia.
Qed.

(** The fold of a 32-bit sum. *)
Lemma csum_fold_spec s :
  is_u 32 s → csum_fold s = s mod 2 ^ 16 + s / 2 ^ 16.
Proof.
  intros Hs. unfold csum_fold. change 0xffff with (Z.ones 16).
  rewrite Z.land_ones, Z.shiftr_div_pow2 by lia. apply u32_id. unfold is_u in *.
  pose proof (Z.mod_pos_bound s (2 ^ 16)). pose proof (Z.div_lt_upper_bound s (2 ^ 16) (2 ^ 16)).
  pose proof (Z.div_pos s (2 ^ 16)). lia.
Qed.

Lemma csum_fold_mod s : is_u 32 s → csum_fold s mod 65535 = s mod 65535.
Proof.
  intros Hs. rewrite csum_fold_spec by done. rewrite (Z.div_mod s (2 ^ 16)) at 3 by lia.
  replace (2 ^ 16 * (s / 2 ^ 16) + s mod 2 ^ 16)
    with (s mod 2 ^ 16 + s / 2 ^ 16 + (s / 2 ^ 16) * 65535) by lia.
  by rewrite Z.mod_add by lia.
Qed.

Lemma foldl_u32_sum ws acc :
  0 <= acc → Forall (is_u 16) ws → acc + zsum ws < 2 ^ 32 →
  foldl (λ s w, u32 (s + w)) acc ws = acc + zsum ws.
Proof.
  intros Ha Hw. revert acc Ha. induction Hw as [| w ws Hw Hws IH]; intros acc Ha; cbn [foldl zsum foldr]; [lia |].
  fold (zsum ws). intros Hl. assert (0 <= zsum ws) as Hz.
  { clear -Hws. unfold zsum. induction Hws; simpl; unfold is_u in *; lia. }
  unfold is_u in Hw. rewrite u32_id by (unfold is_u; lia). rewrite IH; lia.
Qed.

(** Two folds suffice for ten words, and the result is the ones' complement of
    the sum. *)
Lemma csum16_spec ws :
  Forall (is_u 16) ws → (length ws <= 10)%nat →
  is_u 16 (csum16 ws) ∧ (zsum ws + csum16 ws) mod 65535 = 0.
Proof.
  intros Hw Hl.
  assert (0 <= zsum ws <= Z.of_nat (length ws) * 65535) as Hz.
  { clear Hl. unfold zsum. induction Hw; simpl; unfold is_u in *; lia. }
  unfold csum16. rewrite foldl_u32_sum, Z.add_0_l by (done || lia). set (s := zsum ws) in *.
  assert (is_u 32 s) as Hs by (unfold is_u; lia).
  pose proof (csum_fold_mod s Hs) as M1. pose proof (csum_fold_spec s Hs) as F1.
  pose proof (Z.mod_pos_bound s (2 ^ 16)). pose proof (Z.div_pos s (2 ^ 16)).
  assert (s / 2 ^ 16 <= 10) by (apply Z.div_le_upper_bound; lia).
  assert (is_u 32 (csum_fold s)) as Hs1 by (unfold is_u; lia).
  pose proof (csum_fold_mod _ Hs1) as M2. pose proof (csum_fold_spec _ Hs1) as F2.
  set (s1 := csum_fold s) in *. set (s2 := csum_fold s1) in *.
  assert (0 <= s2 <= 65535) as Hs2.
  { destruct (decide (s1 < 2 ^ 16)).
    - rewrite Z.mod_small, Z.div_small in F2 by lia. lia.
    - assert (s1 / 2 ^ 16 = 1) as E by (symmetry; apply Z.div_unique with (s1 - 2 ^ 16); lia).
      rewrite Z.mod_eq in F2 by lia. lia. }
  assert (u16 (Z.lnot s2) = 65535 - s2) as ->.
  { unfold u16. replace (Z.lnot s2) with (- s2 - 1) by (unfold Z.lnot; lia).
    symmetry. apply Z.mod_unique with (-1); lia. }
  split; [unfold is_u; lia |].
  rewrite <-(Z.add_mod_idemp_l s), <-M1, <-M2, Z.add_mod_idemp_l by lia.
  by replace (s2 + (65535 - s2)) with 65535 by lia.
Qed.

(** ** The frame that is sent *)

Lemma bytes16_value v : u8 v + u8 (Z.shiftr v 8) * 2 ^ 8 = u16 v.
Proof.
  unfold u8, u16. rewrite Z.shiftr_div_pow2 by lia. change (2 ^ 16) with (2 ^ 8 * 2 ^ 8).
  rewrite Z.rem_mul_r by lia. lia.
Qed.

Lemma bytes32_value v : u16 v + u16 (Z.shiftr v 16) * 2 ^ 16 = u32 v.
Proof.
  unfold u32, u16. rewrite Z.shiftr_div_pow2 by lia. change (2 ^ 32) with (2 ^ 16 * 2 ^ 16).
  rewrite Z.rem_mul_r by lia. lia.
Qed.

Lemma outer_header_bytes tos il sa da ck : bytes_ok (outer_header tos il sa da ck).
Proof.
  unfold bytes_ok, outer_header, bytes32, bytes16. cbn [app rev].
  rewrite !Forall_cons, Forall_nil.
  split_and!; auto with pb; unfold is_u, PB_OUTER_TTL, IPPROTO_IPIP; lia.
Qed.

Lemma words_range n off p : bytes_ok p → Forall (is_u 16) (words n off p).
Proof.
  intros Hp. apply Forall_fmap, Forall_forall. intros i _. unfold compose, le16.
  pose proof (byte_range p (off + 2 * Z.of_nat i) Hp) as H1.
  pose proof (byte_range p (off + 2 * Z.of_nat i + 1) Hp) as H2. unfold is_u in *. lia.
Qed.

Lemma be_words_range n off p : bytes_ok p → Forall (is_u 16) (be_words n off p).
Proof. intros Hp. apply Forall_fmap, Forall_forall. intros i _. by apply be16_range. Qed.

(** The sum of the header words with a checksum is the sum without plus it. *)
Lemma outer_header_sum tos il sa da ck :
  zsum (words 10 0 (outer_header tos il sa da ck))
  = zsum (words 10 0 (outer_header tos il sa da 0)) + u16 ck.
Proof.
  rewrite <-(bytes16_value ck). unfold words. cbn [seq fmap list_fmap]. rewrite !zsum_cons.
  set (rest := outer_header tos il sa da).
  assert (∀ i, i ≠ 5%nat → (i < 10)%nat → le16 (rest ck) (0 + 2 * Z.of_nat i) = le16 (rest 0) (0 + 2 * Z.of_nat i)) as H.
  { intros i Hi Hlt. do 10 (destruct i as [| i]; [done || reflexivity |]). lia. }
  rewrite (H 0%nat), (H 1%nat), (H 2%nat), (H 3%nat), (H 4%nat), (H 6%nat), (H 7%nat), (H 8%nat), (H 9%nat) by lia.
  assert (le16 (rest ck) (0 + 2 * Z.of_nat 5) = u8 ck + u8 (Z.shiftr ck 8) * 2 ^ 8) as -> by reflexivity.
  assert (le16 (rest 0) (0 + 2 * Z.of_nat 5) = 0) as -> by reflexivity. lia.
Qed.

Lemma outer_check_spec tos il sa da :
  is_u 16 (outer_check tos il sa da) ∧
  (zsum (words 10 0 (outer_header tos il sa da 0)) + outer_check tos il sa da) mod 65535 = 0.
Proof. unfold outer_check. apply csum16_spec; [apply words_range, outer_header_bytes | done]. Qed.

Lemma outer_header_valid tos il sa da :
  header_valid 0 (outer_header tos il sa da (outer_check tos il sa da)).
Proof.
  unfold header_valid. destruct (outer_check_spec tos il sa da) as [Hc Hm]. revert Hc Hm.
  generalize (outer_check tos il sa da) as ck. intros ck Hc Hm.
  pose proof (outer_header_bytes tos il sa da ck) as Hb.
  apply oc_sum_zero_mod; [by apply be_words_range | |].
  - rewrite zsum_swap, outer_header_sum, u16_id by done. by rewrite <-Z.mul_mod_idemp_r, Hm by lia.
  - pose proof (be_words_range 10 0 _ Hb) as Hr.
    assert (be_words 10 0 (outer_header tos il sa da ck) = 0x45 * 2 ^ 8 + u8 tos ::
            be_words 9 2 (outer_header tos il sa da ck)) as E by reflexivity.
    rewrite E in *. rewrite zsum_cons. inversion_clear Hr as [| ? ? _ Hr'].
    assert (0 <= zsum (be_words 9 2 (outer_header tos il sa da ck))).
    { clear -Hr'. unfold zsum. induction Hr'; simpl; unfold is_u in *; lia. }
    pose proof (is_u_u8 tos). unfold is_u in *. lia.
Qed.

(** The outer source address, as a receiver loads it. *)
Lemma encap_saddr addr dmac cfg hash il tos inner :
  le32 (encap_front addr dmac cfg hash il tos ++ inner) 26 = u32 (outer_saddr cfg hash).
Proof.
  unfold encap_front. generalize (outer_check tos il (outer_saddr cfg hash) addr) as ck.
  generalize (outer_saddr cfg hash) as sa. intros sa ck.
  change ((u8 sa + u8 (Z.shiftr sa 8) * 2 ^ 8)
          + (u8 (Z.shiftr sa 16) + u8 (Z.shiftr (Z.shiftr sa 16) 8) * 2 ^ 8) * 2 ^ 16 = u32 sa).
  by rewrite !bytes16_value, bytes32_value.
Qed.

(** The maps hold values of their C types. *)
Record maps_typed (m : Maps) : Prop := {
  mt_reals : Forall (λ r, is_u 32 (r_addr r)) (reals m);
  mt_neigh : Forall (λ x, Forall (is_u 8) [mac0 x; mac1 x; mac2 x; mac3 x; mac4 x; mac5 x]) (neigh m)
}.

(** What a receiver sees of an encapsulated frame. *)
Record encapsulated (dmac : pb_mac) (real_addr inner_len tos : Z) (inner frame : list Z) : Prop := {
  en_dmac : take 6 frame = [mac0 dmac; mac1 dmac; mac2 dmac; mac3 dmac; mac4 dmac; mac5 dmac];
  en_type : be16 frame 12 = ETH_P_IP;
  en_vihl : byte frame 14 = 0x45;
  en_tos : byte frame 15 = tos;
  en_len : be16 frame 16 = inner_len + 20;
  en_frag : be16 frame 20 = 0;
  en_proto : byte frame 23 = IPPROTO_IPIP;
  en_daddr : le32 frame 30 = real_addr;
  en_check : header_valid 14 frame;
  en_inner : drop 34 frame = inner
}.

Lemma u8_id x : is_u 8 x → u8 x = x.
Proof. apply Z.mod_small. Qed.

Lemma encap_front_encapsulated addr dmac cfg hash il tos inner :
  is_u 32 addr → Forall (is_u 8) [mac0 dmac; mac1 dmac; mac2 dmac; mac3 dmac; mac4 dmac; mac5 dmac] →
  0 <= il <= PB_MAX_PACKET_LEN - 20 → is_u 8 tos →
  encapsulated dmac addr il tos inner (encap_front addr dmac cfg hash il tos ++ inner).
Proof.
  intros Ha Hm Hil Ht. unfold PB_MAX_PACKET_LEN in Hil. unfold encap_front.
  pose proof (outer_header_valid tos il (outer_saddr cfg hash) addr) as Hv. revert Hv.
  generalize (outer_check tos il (outer_saddr cfg hash) addr) as ck.
  generalize (outer_saddr cfg hash) as sa. intros sa ck Hv. split; try reflexivity.
  - rewrite !Forall_cons in Hm. destruct Hm as (H0 & H1 & H2 & H3 & H4 & H5 & _).
    cbn [app take eth_header bytes_mac]. by rewrite !u8_id.
  - change (u8 tos = tos). by apply u8_id.
  - change (u8 (Z.shiftr (il + 20) 8) * 2 ^ 8 + u8 (il + 20) = il + 20).
    rewrite Z.add_comm, bytes16_value. apply u16_id. unfold is_u. lia.
  - change ((u8 addr + u8 (Z.shiftr addr 8) * 2 ^ 8)
            + (u8 (Z.shiftr addr 16) + u8 (Z.shiftr (Z.shiftr addr 16) 8) * 2 ^ 8) * 2 ^ 16 = addr).
    rewrite !bytes16_value, bytes32_value. by apply u32_id.
  - exact Hv.
Qed.

(** ** What the data plane leaves alone *)

(** The maps only the control plane writes are equal. *)
Record same_config (m m' : Maps) : Prop := {
  sc_vip : vip_map m' = vip_map m;
  sc_rings : rings m' = rings m;
  sc_reals : reals m' = reals m;
  sc_neigh : neigh m' = neigh m;
  sc_config : config m' = config m
}.

#[global] Instance same_config_preorder : PreOrder same_config.
Proof. split; [done |]. intros m1 m2 m3 [] []. split; congruence. Qed.

Lemma same_st_add e st cnt n m : same_config m (st_add e st cnt n m).
Proof. by destruct st. Qed.
Lemma same_count_global e cnt m : same_config m (count_global e cnt m).
Proof. apply same_st_add. Qed.
Lemma same_ct_store e key v m : same_config m (ct_store e key v m).
Proof. done. Qed.
Lemma same_ct_update e key v m : same_config m (ct_update e key v m).
Proof. unfold ct_update. by destruct (ct_ok e). Qed.
Lemma same_rs_add e id n m : same_config m (rs_add e id n m).
Proof. unfold rs_add. by destruct (array_lookup _ _). Qed.

#[local] Hint Resolve same_st_add same_count_global same_ct_store same_ct_update same_rs_add : pb.

(** Chain frame conditions along nested updates. *)
Ltac same_chain :=
  repeat match goal with
         | |- same_config ?m ?m => reflexivity
         | |- same_config _ (if ?b then _ else _) => destruct b
         | |- same_config _ (st_add _ _ _ _ _) => etransitivity; [| apply same_st_add]
         | |- same_config _ (ct_store _ _ _ _) => etransitivity; [| apply same_ct_store]
         | |- same_config _ (ct_update _ _ _ _) => etransitivity; [| apply same_ct_update]
         | |- same_config _ (rs_add _ _ _ _) => etransitivity; [| apply same_rs_add]
         end.

Lemma same_count_in e r st m : same_config m (count_in e r st m).
Proof. unfold count_in. destruct (rq_bare_syn r); same_chain. Qed.
Lemma same_count_tx e r st id m : same_config m (count_tx e r st id m).
Proof. unfold count_tx. etransitivity; [| apply same_rs_add]. destruct (rq_icmp r); same_chain. Qed.

Lemma same_pick_by_hash e key vip hash ins st m :
  same_config m (pick_by_hash e key vip hash ins st m).2.
Proof. unfold pick_by_hash. destruct (_ || _); cbn [snd]; same_chain. Qed.

Lemma same_pick_real e f vip hash ct syn ins st m :
  same_config m (pick_real e f vip hash ct syn ins st m).2.
Proof.
  unfold pick_real. destruct ct; cbn [negb]; [| cbn [snd]; same_chain].
  destruct syn; [apply same_pick_by_hash |].
  assert (same_config m (pick_by_hash e (ct_key_of f) vip hash ins st (st_add e st PB_CNT_CT_MISS 1 m)).2).
  { etransitivity; [apply same_st_add | apply same_pick_by_hash]. }
  destruct (ct_lookup e m (ct_key_of f)) as [ct |]; [| done].
  destruct (_ && _); [| done]. cbn [snd]. same_chain.
Qed.

Lemma same_choose e r m : same_config m (choose e r m).2.
Proof. unfold choose. etransitivity; [apply same_count_in | apply same_pick_real]. Qed.

Lemma same_run e c : same_config (maps c) (maps (run e c).2).
Proof.
  unfold run. destruct (classify _ _) as [cnt | | r]; [apply same_count_global.. |].
  unfold run_request. destruct (_ <? _); cbn [snd maps].
  { etransitivity; [apply same_count_in | apply same_st_add]. }
  pose proof (same_choose e r (maps c)) as H. destruct (choose e r (maps c)) as [id m]. cbn [snd] in H.
  destruct (resolve m id) as [[a mac] |]; [destruct (head_ok e) |]; cbn [snd maps];
    (etransitivity; [exact H |]); same_chain. apply same_count_tx.
Qed.

Lemma resolve_same m m' id : same_config m m' → resolve m' id = resolve m id.
Proof. intros H. unfold resolve. by rewrite (sc_reals _ _ H), (sc_neigh _ _ H). Qed.

Lemma resolve_inv m id a mac :
  resolve m id = Some (a, mac) →
  a ≠ 0 ∧ (∃ r, array_lookup (reals m) id = Some r ∧ r_addr r = a) ∧
  array_lookup (neigh m) id = Some mac ∧ mac_is_zero mac = false.
Proof.
  unfold resolve. destruct (_ <=? _); [done |].
  destruct (array_lookup (reals m) id) as [r |]; simpl; [| done].
  destruct (Z.eqb_spec (r_addr r) 0); [done |].
  destruct (array_lookup (neigh m) id) as [mac' |]; simpl; [| done].
  destruct (mac_is_zero mac') eqn:E; [done |]. intros [= <- <-]. eauto 10.
Qed.

Lemma array_lookup_in {A} (l : list A) k x : array_lookup l k = Some x → x ∈ l.
Proof.
  unfold array_lookup. destruct (_ && _); [| done]. apply list_elem_of_lookup_2.
Qed.

(** ** Memory safety *)

(** C1: on every frame the program runs to an action without reading or
    writing outside the packet; a frame it does not send is left as it was, and
    it never writes a map the control plane owns. *)
Theorem xdp_memory_safe (e : Env) (c : Ctx) :
  bytes_ok (pkt c) → length (headroom e) = 20%nat →
  ∃ a c', xdp_packetbalance e c = Some (a, c') ∧ (a ≠ XDP_TX → pkt c' = pkt c) ∧
          same_config (maps c) (maps c').
Proof.
  intros Hp Hh. rewrite xdp_run by done. exists (run e c).1, (run e c).2.
  split_and!; [by destruct (run e c) | | apply same_run].
  unfold run. destruct (classify _ _) as [cnt | | r]; [done.. |]. unfold run_request.
  destruct (_ <? _); [done |]. destruct (choose _ _ _) as [id m].
  destruct (resolve m id) as [[a mac] |]; [| done]. by destruct (head_ok e).
Qed.

(** ** The frame sent *)

Lemma run_tx e c c' :
  run e c = (XDP_TX, c') →
  ∃ r id a mac, classify (maps c) (pkt c) = VForward r ∧ id = (choose e r (maps c)).1 ∧
    resolve (maps c) id = Some (a, mac) ∧ rq_len r + 20 <= PB_MAX_PACKET_LEN ∧
    pkt c' = encap_front a mac (rq_cfg r) (flow_hash (rq_flow r)) (rq_len r) (rq_tos r) ++ drop 14 (pkt c) ∧
    maps c' = count_tx e r (stats_slot (maps c) (vv_vip_id (rq_vip r))) id (choose e r (maps c)).2.
Proof.
  unfold run. destruct (classify _ _) as [cnt | | r]; [done.. |]. unfold run_request.
  destruct (Z.ltb_spec PB_MAX_PACKET_LEN (rq_len r + PB_OUTER_LEN)); [done |].
  pose proof (same_choose e r (maps c)) as H'. destruct (choose e r (maps c)) as [id m] eqn:Ech.
  cbn [fst snd] in *. rewrite (resolve_same (maps c) m id H'). destruct (resolve (maps c) id) as [[a mac] |] eqn:E; [| done].
  destruct (head_ok e); [| done]. intros Heq. injection Heq as <-.
  exists r, id, a, mac. rewrite Ech. unfold PB_OUTER_LEN in *. split_and!; done || lia.
Qed.

(** C2: a frame that is sent is the received datagram, byte for byte, behind a
    well-formed IPIP header: EtherType IPv4, version 4 without options, the
    inner TOS, a total length 20 larger than the inner one and within
    PB_MAX_PACKET_LEN, not a fragment, protocol IPIP, a correct header checksum,
    addressed to the MAC and the non-zero address of one live real; and the
    inner datagram was a complete, unfragmented one without options. *)
Theorem xdp_tx_frame (e : Env) (c c' : Ctx) :
  bytes_ok (pkt c) → maps_typed (maps c) → length (headroom e) = 20%nat →
  xdp_packetbalance e c = Some (XDP_TX, c') →
  ∃ id real dmac,
    array_lookup (reals (maps c)) id = Some real ∧ r_addr real ≠ 0 ∧
    array_lookup (neigh (maps c)) id = Some dmac ∧ mac_is_zero dmac = false ∧
    encapsulated dmac (r_addr real) (be16 (pkt c) 16) (byte (pkt c) 15) (drop 14 (pkt c)) (pkt c') ∧
    be16 (pkt c) 16 + 20 <= PB_MAX_PACKET_LEN ∧ 14 + be16 (pkt c) 16 <= len (pkt c) ∧
    be16 (pkt c) 20 mod 2 ^ 14 = 0 ∧ byte (pkt c) 14 mod 16 = 5.
Proof.
  intros Hp Hm Hh. rewrite xdp_run by done. intros [= Hr].
  apply run_tx in Hr as (r & id & a & mac & Hc & _ & Hres & Hlen & Hpkt & _).
  apply classify_request in Hc as (El & Et & _ & Hl1 & Hl2 & Hf & Hi).
  apply resolve_inv in Hres as (Ha & (real & Hreal & <-) & Hmac & Hz).
  exists id, real, mac. rewrite El in *. rewrite Et in Hpkt. split_and!; try done.
  rewrite Hpkt. pose proof (be16_range _ 16 Hp) as Hb. unfold is_u, PB_MAX_PACKET_LEN in *.
  apply encap_front_encapsulated.
  - pose proof (mt_reals _ Hm) as Hf'. rewrite Forall_forall in Hf'. by eapply Hf', array_lookup_in.
  - pose proof (mt_neigh _ Hm) as Hf'. rewrite Forall_forall in Hf'. by eapply Hf', array_lookup_in.
  - unfold PB_MAX_PACKET_LEN. lia.
  - by apply byte_range.
Qed.

(** ** A concrete load balancer and frames, for the witnesses *)

(** 10.0.0.7 behind the UDP VIP 10.0.0.100:80, as real 1. *)
Definition demo_maps : Maps :=
  mk_maps {[ mk_vip_key 0x6400000a 0x5000 17 0 := mk_vip_value 3 0 ]}
          {[ 3 := replicate (Z.to_nat PB_RING_SIZE) 1 ]}
          [real0; mk_pb_real 0x0700000a 0; mk_pb_real 0x0800000a 0]
          [mac_zero; mk_pb_mac 2 0 0 0 0 7; mk_pb_mac 2 0 0 0 0 8]
          ∅
          (replicate 65 [pb_stats0; pb_stats0])
          (replicate 3 [real_stats0; real_stats0])
          [mk_pb_config (mk_pb_mac 2 0 0 0 0 1) 0x000010ac 0x0000ffff PB_CFG_F_ICMP_PMTU].

Definition demo_env : Env := mk_env 1 2 5000 true (replicate 20 0xee) true [].

(** 10.0.0.9:40000 to 10.0.0.100:80, UDP, no payload. *)
Definition demo_udp : list Z :=
  [2;0;0;0;0;1; 2;0;0;0;0;9; 8;0] ++
  [0x45;0; 0;28; 0;0; 0;0; 64;17; 0;0; 10;0;0;9; 10;0;0;100] ++
  [0x9c;0x40; 0;80; 0;8; 0;0].

(** The router 10.0.0.254 reports that the VIP's reply to that client needs
    fragmentation. *)
Definition demo_icmp : list Z :=
  [2;0;0;0;0;1; 2;0;0;0;0;5; 8;0] ++
  [0x45;0; 0;56; 0;0; 0;0; 64;1; 0;0; 10;0;0;254; 10;0;0;100] ++
  [3;4; 0;0; 0;0;5;0] ++
  [0x45;0; 5;220; 0;0; 0x40;0; 64;17; 0;0; 10;0;0;100; 10;0;0;9] ++
  [0;80; 0x9c;0x40; 5;200; 0;0].

Definition demo_ctx : Ctx := mk_ctx demo_udp demo_maps.

Lemma demo_typed : maps_typed demo_maps.
Proof. split; decide_closed. Qed.

(** The action and the frame of a run, without the maps. *)
Definition outcome (e : Env) (c : Ctx) : option (xdp_action * list Z) :=
  (λ r, (r.1, pkt r.2)) <$> xdp_packetbalance e c.

Lemma outcome_inv e c a p :
  outcome e c = Some (a, p) → ∃ c', xdp_packetbalance e c = Some (a, c') ∧ pkt c' = p.
Proof.
  unfold outcome. destruct (xdp_packetbalance e c) as [[a' c'] |]; simpl; [| done].
  intros [= -> <-]. eauto.
Qed.

Lemma xdp_memory_safe_witness :
  ∃ a c', xdp_packetbalance demo_env demo_ctx = Some (a, c') ∧ (a ≠ XDP_TX → pkt c' = demo_udp) ∧
          same_config demo_maps (maps c').
Proof. apply (xdp_memory_safe demo_env demo_ctx); [decide_closed | reflexivity]. Defined.

Lemma xdp_tx_frame_witness :
  ∃ c' dmac, xdp_packetbalance demo_env demo_ctx = Some (XDP_TX, c') ∧
    encapsulated dmac 0x0700000a 28 0 (drop 14 demo_udp) (pkt c').
Proof.
  assert (∃ p, outcome demo_env demo_ctx = Some (XDP_TX, p)) as [p Hp]
    by (eexists; vm_compute; reflexivity).
  assert (le32 p 30 = 0x0700000a) as Hd by (revert Hp; vm_compute; by intros [= <-]).
  destruct (outcome_inv _ _ _ _ Hp) as (c' & Hx & Hc').
  destruct (xdp_tx_frame demo_env demo_ctx c') as (id & real & dmac & H1 & H2 & H3 & H4 & H5 & H6);
    [decide_closed | apply demo_typed | reflexivity | exact Hx |].
  exists c', dmac. split; [exact Hx |].
  pose proof (en_daddr _ _ _ _ _ _ H5) as Ed. rewrite Hc', Hd in Ed. rewrite <-Ed in H5. exact H5.
Defined.

(** ** Which real a packet goes to *)

(** The live entry of the connection table that decides a request, if any. *)
Definition ct_entry (e : Env) (r : request) (m : Maps) : option pb_ct_value :=
  if uses_ct r && negb (rq_bare_syn r) then
    ct ← ct_lookup e m (ct_key_of (rq_flow r));
    if negb (cv_last_seen_ns ct =? 0) && real_alive m (cv_real_id ct) then Some ct else None
  else None.

(** The entry's real, or the one in the slot of the VIP's ring. *)
Definition selected (e : Env) (r : request) (m : Maps) : Z :=
  match ct_entry e r m with
  | Some ct => cv_real_id ct
  | None => ring_lookup m (vv_vip_id (rq_vip r)) (flow_hash (rq_flow r))
  end.

(** The request writes a new entry when it is sent by its ring slot. *)
Definition inserts (e : Env) (r : request) (m : Maps) : bool :=
  uses_ct r && rq_may_insert r &&
  match ct_entry e r m with Some _ => false | None => negb (selected e r m =? PB_REAL_NONE) end.

Lemma conntrack_st_add e st cnt n m : conntrack (st_add e st cnt n m) = conntrack m.
Proof. by destruct st. Qed.
Lemma conntrack_count_in e r st m : conntrack (count_in e r st m) = conntrack m.
Proof. unfold count_in. destruct (rq_bare_syn r); by rewrite !conntrack_st_add. Qed.
Lemma conntrack_rs_add e id n m : conntrack (rs_add e id n m) = conntrack m.
Proof. unfold rs_add. by destruct (array_lookup _ _). Qed.
Lemma conntrack_count_tx e r st id m : conntrack (count_tx e r st id m) = conntrack m.
Proof. unfold count_tx. rewrite conntrack_rs_add. by destruct (rq_icmp r); rewrite !conntrack_st_add. Qed.

Lemma ct_lookup_conntrack e m m' key : conntrack m' = conntrack m → ct_lookup e m' key = ct_lookup e m key.
Proof. intros H. unfold ct_lookup. by rewrite H. Qed.

Lemma ring_lookup_same m m' vip h : same_config m m' → ring_lookup m' vip h = ring_lookup m vip h.
Proof. intros H. unfold ring_lookup. by rewrite (sc_rings _ _ H). Qed.

Lemma real_alive_same m m' id : same_config m m' → real_alive m' id = real_alive m id.
Proof. intros H. unfold real_alive. by rewrite (sc_reals _ _ H). Qed.

Lemma real_alive_range m id : real_alive m id = true → id ≠ PB_REAL_NONE.
Proof.
  unfold real_alive, PB_MAX_REALS, PB_REAL_NONE. intros H ->. done.
Qed.

(** pick_real, by the table entry. *)
Lemma choose_spec e r m :
  (choose e r m).1 = selected e r m ∧
  conntrack (choose e r m).2 =
    match ct_entry e r m with
    | Some ct => alter (λ vs, <[cpu e := mk_ct_value (cv_real_id ct) (cv_vip_id ct) (ktime e)]> vs)
                       (ct_key_of (rq_flow r)) (conntrack m)
    | None =>
        if inserts e r m then
          conntrack (ct_update e (ct_key_of (rq_flow r))
                       (mk_ct_value (selected e r m) (vv_vip_id (rq_vip r)) (ktime e)) m)
        else conntrack m
    end.
Proof.
  unfold choose. set (st := stats_slot m _). set (m1 := count_in e r st m).
  pose proof (same_count_in e r st m) as Hs. fold m1 in Hs.
  pose proof (conntrack_count_in e r st m) as Hc. fold m1 in Hc.
  set (key := ct_key_of (rq_flow r)). set (vip := vv_vip_id (rq_vip r)). set (h := flow_hash (rq_flow r)).
  assert (∀ m2, same_config m m2 → conntrack m2 = conntrack m → ∀ ins,
    pick_by_hash e key vip h ins st m2 = (ring_lookup m vip h, (pick_by_hash e key vip h ins st m2).2) ∧
    conntrack (pick_by_hash e key vip h ins st m2).2 =
      if ins && negb (ring_lookup m vip h =? PB_REAL_NONE)
      then conntrack (ct_update e key (mk_ct_value (ring_lookup m vip h) vip (ktime e)) m)
      else conntrack m) as Hash.
  { intros m2 H2 C2 ins. unfold pick_by_hash. rewrite (ring_lookup_same m2) by apply same_st_add.
    rewrite (ring_lookup_same m m2 vip h H2). destruct (ring_lookup m vip h =? _), ins; simpl;
      (split; [done |]); unfold ct_update; rewrite ?conntrack_st_add, ?C2; try done. by destruct (ct_ok e). }
  unfold inserts, selected, ct_entry, pick_real. fold key vip h.
  destruct (uses_ct r); cbn [negb andb fst snd].
  2: { split; [| by rewrite conntrack_st_add].
       rewrite (ring_lookup_same m); [done |]. etransitivity; [exact Hs | apply same_st_add]. }
  destruct (rq_bare_syn r); cbn [negb].
  { destruct (Hash m1 Hs Hc (rq_may_insert r)) as [-> H]. by rewrite H. }
  rewrite (ct_lookup_conntrack e m m1) by done.
  destruct (Hash (st_add e st PB_CNT_CT_MISS 1 m1)) with (ins := rq_may_insert r) as [Hf Hct];
    [etransitivity; [exact Hs | apply same_st_add] | by rewrite conntrack_st_add |].
  cbv zeta. destruct (ct_lookup e m key) as [ct |]; cbn [mbind option_bind];
    [| split; [by rewrite Hf | by rewrite Hct]].
  rewrite (real_alive_same m m1 _ Hs). destruct (negb _ && real_alive m _);
    [| split; [by rewrite Hf | by rewrite Hct]].
  cbn [fst snd]. split; [done |]. rewrite conntrack_st_add. unfold ct_store. cbn [conntrack set_conntrack].
  by rewrite Hc.
Qed.

(** The address a sent frame is addressed to. *)
Lemma run_tx_addr e c c' r :
  bytes_ok (pkt c) → maps_typed (maps c) → run e c = (XDP_TX, c') →
  classify (maps c) (pkt c) = VForward r →
  ∃ mac, resolve (maps c) (selected e r (maps c)) = Some (le32 (pkt c') 30, mac).
Proof.
  intros Hp Hm (r' & id & a & mac & Hc & -> & Hres & Hlen & Hpkt & _)%run_tx Hr.
  assert (r' = r) as -> by congruence.
  exists mac. destruct (choose_spec e r (maps c)) as [E _]. rewrite E in Hres. rewrite Hres. do 2 f_equal.
  apply classify_request in Hc as (El & Et & _). symmetry. rewrite Hpkt.
  apply resolve_inv in Hres as (_ & (real & Hreal & <-) & Hmac & _).
  eapply (en_daddr mac (r_addr real) (rq_len r) (rq_tos r) (drop 14 (pkt c))), encap_front_encapsulated.
  - pose proof (mt_reals _ Hm) as Hf'. rewrite Forall_forall in Hf'. by eapply Hf', array_lookup_in.
  - pose proof (mt_neigh _ Hm) as Hf'. rewrite Forall_forall in Hf'. by eapply Hf', array_lookup_in.
  - rewrite El in *. pose proof (be16_range _ 16 Hp) as Hb. unfold is_u in Hb. lia.
  - rewrite Et. by apply byte_range.
Qed.

(** The fields of a request, by the kind of frame. *)
Lemma classify_inv m p r :
  classify m p = VForward r →
  (rq_icmp r = false ∧
   rq_flow r = mk_flow (le32 p 26) (le32 p 30) (le16 p 34) (le16 p 36) (byte p 23) ∧
   vip_of m (le32 p 30) (le16 p 36) (byte p 23) = Some (rq_vip r) ∧
   (rq_may_insert r = false ↔ byte p 23 = IPPROTO_TCP ∧ Z.testbit (byte p 47) 2 = true) ∧
   (rq_bare_syn r = true ↔ byte p 23 = IPPROTO_TCP ∧ Z.testbit (byte p 47) 1 = true ∧ Z.testbit (byte p 47) 4 = false))
  ∨
  (rq_icmp r = true ∧
   rq_flow r = mk_flow (le32 p 58) (le32 p 54) (le16 p 64) (le16 p 62) (byte p 51) ∧
   vip_of m (le32 p 54) (le16 p 62) (byte p 51) = Some (rq_vip r) ∧
   rq_may_insert r = false ∧ rq_bare_syn r = false).
Proof.
  unfold classify. do 6 (case_match; [done |]). case_match; [done |].
  destruct (config m !! 0%nat) as [cfg |]; [| done].
  destruct (Z.eqb_spec (byte p 23) IPPROTO_TCP) as [Et | Et].
  { destruct (len p <? 54); [done |]. unfold classify_flow. destruct (vip_of _ _ _ _) eqn:Ev; [| done].
    intros [= <-]. left. cbn [rq_icmp rq_flow rq_vip rq_may_insert rq_bare_syn]. split_and!; try done.
    - rewrite negb_false_iff. split; [done | by intros [_ ?]].
    - rewrite andb_true_iff, negb_true_iff. split; [by intros [? ?]; split_and! | by intros (_ & ? & ?)]. }
  destruct (Z.eqb_spec (byte p 23) IPPROTO_UDP) as [Eu | Eu].
  { destruct (len p <? 42); [done |]. unfold classify_flow. destruct (vip_of _ _ _ _) eqn:Ev; [| done].
    intros [= <-]. left. cbn [rq_icmp rq_flow rq_vip rq_may_insert rq_bare_syn]. split_and!; try done;
      (split; [done | by intros [? _]]). }
  destruct (byte p 23 =? IPPROTO_ICMP); [| done]. unfold classify_icmp.
  do 5 (case_match; [done |]). destruct (vip_of _ _ _ _) eqn:Ev; [| done].
  intros [= <-]. right. by split_and!.
Qed.

(** C3: the program, with its bounds checks, byte-order tricks, nested early
    returns and pointer writes, computes what the specification [run] says:
    classify the frame by its network-order fields, then drop, pass, or choose a
    real and prepend the outer header. *)
Theorem xdp_refines_run (e : Env) (c : Ctx) :
  bytes_ok (pkt c) → length (headroom e) = 20%nat → xdp_packetbalance e c = Some (run e c).
Proof. apply xdp_run. Qed.

Lemma xdp_refines_run_witness :
  xdp_packetbalance demo_env (mk_ctx demo_icmp demo_maps) = Some (run demo_env (mk_ctx demo_icmp demo_maps)).
Proof. apply xdp_refines_run; [decide_closed | reflexivity]. Defined.

(** A frame that is sent goes to the address of the selected real: the
    one in this CPU's live entry of the connection table unless the table is
    off or the packet is a bare SYN, and otherwise the one in slot
    hash mod PB_RING_SIZE of the VIP's ring. *)
Theorem xdp_selects (e : Env) (c c' : Ctx) :
  bytes_ok (pkt c) → maps_typed (maps c) → length (headroom e) = 20%nat →
  xdp_packetbalance e c = Some (XDP_TX, c') →
  ∃ r real, classify (maps c) (pkt c) = VForward r ∧
    array_lookup (reals (maps c)) (selected e r (maps c)) = Some real ∧
    le32 (pkt c') 30 = r_addr real.
Proof.
  intros Hp Hm Hh. rewrite xdp_run by done. intros [= Hr].
  destruct (run_tx _ _ _ Hr) as (r & _ & _ & _ & Hc & _).
  destruct (run_tx_addr e c c' r Hp Hm Hr Hc) as [mac Hres].
  apply resolve_inv in Hres as (_ & (real & Hreal & Ha) & _). eauto.
Qed.

Lemma xdp_selects_witness :
  ∃ c' r real, xdp_packetbalance demo_env demo_ctx = Some (XDP_TX, c') ∧
    array_lookup (reals demo_maps) (selected demo_env r demo_maps) = Some real ∧
    le32 (pkt c') 30 = r_addr real.
Proof.
  assert (∃ p, outcome demo_env demo_ctx = Some (XDP_TX, p)) as [p Hp]
    by (eexists; vm_compute; reflexivity).
  destruct (outcome_inv _ _ _ _ Hp) as (c' & Hx & _).
  destruct (xdp_selects demo_env demo_ctx c') as (r & real & _ & H1 & H2);
    [decide_closed | apply demo_typed | reflexivity | exact Hx |].
  exists c', r, real. split; [exact Hx | split; [exact H1 | exact H2]].
Defined.

(** The table entry a request leaves on its CPU. *)
Lemma choose_records e r m vs0 :
  uses_ct r = true → rq_may_insert r = true → ct_ok e = true →
  default (replicate (ncpus e) ct_value0) (conntrack m !! ct_key_of (rq_flow r)) = vs0 →
  (cpu e < length vs0)%nat → selected e r m ≠ PB_REAL_NONE →
  ∃ v, ct_lookup e (choose e r m).2 (ct_key_of (rq_flow r)) = Some v ∧
       cv_real_id v = selected e r m ∧ cv_last_seen_ns v = ktime e.
Proof.
  intros Hu Hi Hok Hvs Hcpu Hsel. unfold ct_lookup. destruct (choose_spec e r m) as [_ ->].
  unfold inserts. rewrite Hu, Hi. unfold selected in *. destruct (ct_entry e r m) as [ct |] eqn:Ec.
  - rewrite lookup_alter_eq. destruct (conntrack m !! _) as [vs |] eqn:Ek.
    + simpl in Hvs. subst vs0. cbn [fmap option_fmap option_map mbind option_bind].
      rewrite list_lookup_insert_eq by done. by eexists.
    + exfalso. unfold ct_entry, ct_lookup in Ec. rewrite Ek in Ec. by destruct (_ && _).
  - replace (ring_lookup _ _ _ =? PB_REAL_NONE) with false by lia. cbn [andb negb].
    unfold ct_update. rewrite Hok, Hvs. cbn [conntrack set_conntrack]. rewrite lookup_insert_eq.
    cbn [mbind option_bind]. rewrite list_lookup_insert_eq by done. by eexists.
Qed.

Lemma resolve_alive m id a mac : resolve m id = Some (a, mac) → real_alive m id = true.
Proof.
  unfold resolve, real_alive. destruct (_ <=? _); [done |].
  destruct (array_lookup (reals m) id) as [r |]; simpl; [| done]. by destruct (r_addr r =? 0).
Qed.

Lemma real_alive_lookup m m' id :
  array_lookup (reals m') id = array_lookup (reals m) id → real_alive m' id = real_alive m id.
Proof. intros H. unfold real_alive. by rewrite H. Qed.


Lemma typed_same m m' : maps_typed m → same_config m m' → maps_typed m'.
Proof. intros [H1 H2] [_ _ R N _]. split; by rewrite ?R, ?N. Qed.

(** What a packet leaves in its CPU's copy of the flow's entry: what was there,
    nothing, or the real it was given. *)
Lemma choose_lookup e r m :
  let key := ct_key_of (rq_flow r) in
  let left := ct_lookup e (choose e r m).2 key in
  left = ct_lookup e m key ∨ ct_entry e r m = None ∧ left = None ∨
  ∃ v, left = Some v ∧ cv_real_id v = selected e r m ∧ cv_last_seen_ns v = ktime e.
Proof.
  intros key left. subst left. unfold ct_lookup at 1 3 4. destruct (choose_spec e r m) as [_ ->]. fold key.
  unfold selected. destruct (ct_entry e r m) as [ct |] eqn:Ee.
  - rewrite lookup_alter_eq. unfold ct_lookup. destruct (conntrack m !! key) as [vs |]; [| by left].
    cbn [mbind option_bind fmap option_fmap option_map]. destruct (decide (cpu e < length vs)%nat).
    + rewrite list_lookup_insert_eq by done. right. right. by eexists.
    + left. by rewrite list_insert_ge by lia.
  - destruct (inserts e r m); [| by left]. unfold ct_update. fold key. destruct (ct_ok e); cbn [conntrack set_conntrack].
    + rewrite lookup_insert_eq. cbn [mbind option_bind]. set (vs := default _ _). destruct (decide (cpu e < length vs)%nat).
      * rewrite list_lookup_insert_eq by done. right. right. by eexists.
      * right. left. split; [done |]. rewrite list_insert_ge by lia. apply lookup_ge_None. lia.
    + rewrite map_lookup_filter. unfold ct_lookup. destruct (conntrack m !! key) as [vs |]; [| by left].
      cbn [mbind option_bind]. case_guard; cbn; [by left | by right; left].
Qed.

(** The choice for a flow is the same before and after one of its packets. *)
Lemma selected_after e r m m2 a mac :
  rq_bare_syn r = false → ktime e ≠ 0 → resolve m (selected e r m) = Some (a, mac) → same_config m m2 →
  ct_lookup e m2 (ct_key_of (rq_flow r)) = ct_lookup e m (ct_key_of (rq_flow r)) ∨
  ct_lookup e m2 (ct_key_of (rq_flow r)) = ct_lookup e (choose e r m).2 (ct_key_of (rq_flow r)) →
  selected e r m2 = selected e r m.
Proof.
  intros Hs Hk Hres Hsame Hct. pose proof (resolve_alive _ _ _ _ Hres) as Hal. set (key := ct_key_of (rq_flow r)) in *.
  pose proof (ring_lookup_same m m2 (vv_vip_id (rq_vip r)) (flow_hash (rq_flow r)) Hsame) as Hring.
  destruct (uses_ct r) eqn:Hu; [| unfold selected, ct_entry; by rewrite Hu, Hring].
  assert (ct_lookup e m2 key = ct_lookup e m key ∨ ct_entry e r m = None ∧ ct_lookup e m2 key = None ∨
    ∃ v, ct_lookup e m2 key = Some v ∧ cv_real_id v = selected e r m ∧ cv_last_seen_ns v = ktime e) as [E | [[E1 E2] | (v & Hv & Hid & Hts)]].
  { destruct Hct as [E | E]; [by left |]. rewrite E. apply choose_lookup. }
  - unfold selected, ct_entry. fold key. rewrite E, Hring. destruct (_ && _); [| done].
    destruct (ct_lookup e m key) as [ct |]; [| done]. cbn [mbind option_bind]. by rewrite (real_alive_same m m2).
  - unfold selected. rewrite E1. unfold ct_entry. fold key. rewrite Hu, Hs, E2. done.
  - unfold selected at 1, ct_entry. fold key. rewrite Hu, Hs, Hv. cbn [andb negb mbind option_bind].
    rewrite Hts, Hid, (real_alive_same m m2), Hal by done. by replace (ktime e =? 0) with false by lia.
Qed.

(** C26: an ICMP "fragmentation needed" that quotes a reply of a flow is sent
    to the real that serves the flow, and from the same outer source address,
    so that the real's path MTU discovery works: after (or before) a packet of
    the flow that is not a bare SYN was sent, an ICMP message that the same CPU
    handles and sends goes where that packet went, as long as the control plane
    has not changed its maps and this CPU's entry of the flow is as the packet
    found it or as it left it. *)
Theorem icmp_follows_flow (e1 e2 : Env) (c1 c1' c2 c2' : Ctx) (r1 r2 : request) :
  bytes_ok (pkt c1) → maps_typed (maps c1) → length (headroom e1) = 20%nat → ktime e1 ≠ 0 →
  bytes_ok (pkt c2) → length (headroom e2) = 20%nat → cpu e2 = cpu e1 →
  classify (maps c1) (pkt c1) = VForward r1 → rq_icmp r1 = false → rq_bare_syn r1 = false →
  classify (maps c2) (pkt c2) = VForward r2 → rq_icmp r2 = true →
  le32 (pkt c2) 54 = le32 (pkt c1) 30 → le32 (pkt c2) 58 = le32 (pkt c1) 26 →
  le16 (pkt c2) 62 = le16 (pkt c1) 36 → le16 (pkt c2) 64 = le16 (pkt c1) 34 →
  byte (pkt c2) 51 = byte (pkt c1) 23 →
  same_config (maps c1) (maps c2) →
  (let key := ct_key_of (rq_flow r1) in
   ct_lookup e1 (maps c2) key = ct_lookup e1 (maps c1) key ∨ ct_lookup e1 (maps c2) key = ct_lookup e1 (maps c1') key) →
  xdp_packetbalance e1 c1 = Some (XDP_TX, c1') → xdp_packetbalance e2 c2 = Some (XDP_TX, c2') →
  le32 (pkt c2') 30 = le32 (pkt c1') 30 ∧ le32 (pkt c2') 26 = le32 (pkt c1') 26.
Proof.
  intros Hp1 Hm1 Hh1 Hk Hp2 Hh2 Hcpu Hc1 Hi1 Hs1 Hc2 Hi2 E1 E2 E3 E4 E5 Hsame Hct.
  rewrite !xdp_run by done. intros [= H1] [= H2].
  assert (maps_typed (maps c2)) as Hm2 by (by eapply typed_same).
  destruct (run_tx_addr e1 c1 c1' r1 Hp1 Hm1 H1 Hc1) as [mac1 R1].
  destruct (run_tx_addr e2 c2 c2' r2 Hp2 Hm2 H2 Hc2) as [mac2 R2]. rewrite (resolve_same _ _ _ Hsame) in R2.
  destruct (classify_inv _ _ _ Hc1) as [(_ & Hf1 & Hv1 & _) | (? & _)]; [| congruence].
  destruct (classify_inv _ _ _ Hc2) as [(? & _) | (_ & Hf2 & Hv2 & _ & Hs2)]; [congruence |].
  destruct (classify_request _ _ _ Hc1) as (_ & _ & Hg1 & _).
  destruct (classify_request _ _ _ Hc2) as (_ & _ & Hg2 & _).
  rewrite E1, E2, E3, E4, E5 in Hf2. rewrite E1, E3, E5 in Hv2. unfold vip_of in *. rewrite (sc_vip _ _ Hsame) in Hv2.
  rewrite (sc_config _ _ Hsame) in Hg2.
  assert (rq_flow r2 = rq_flow r1) as Ef by congruence.
  assert (rq_vip r2 = rq_vip r1) as Ev by congruence.
  assert (rq_cfg r2 = rq_cfg r1) as Eg by congruence.
  apply run_tx in H1 as (r1' & id1 & a1 & m1 & Hc1' & _ & _ & _ & P1 & M1).
  apply run_tx in H2 as (r2' & id2 & a2 & m2 & Hc2' & _ & _ & _ & P2 & _).
  assert (r1' = r1) as -> by congruence. assert (r2' = r2) as -> by congruence.
  assert (selected e2 r2 (maps c2) = selected e1 r1 (maps c1)) as Es.
  { transitivity (selected e1 r1 (maps c2)).
    - unfold selected, ct_entry, uses_ct, ct_lookup. by rewrite Ef, Ev, Eg, Hs1, Hs2, Hcpu.
    - eapply selected_after; try done. cbn zeta in Hct. destruct Hct as [Hct | Hct]; [by left | right]. rewrite Hct, M1.
      apply ct_lookup_conntrack, conntrack_count_tx. }
  rewrite Es, R1 in R2. injection R2 as Ea _. split; [done |]. rewrite P1, P2, !encap_saddr, Ef, Eg. done.
Qed.

(** The flow hash spreads the outer source over the configured prefix
    and nothing else: a sent frame's outer source has the prefix's bits under the
    mask, and is a function of the configuration and of the flow alone. *)
Theorem outer_source_in_prefix (e : Env) (c c' : Ctx) :
  bytes_ok (pkt c) → length (headroom e) = 20%nat →
  xdp_packetbalance e c = Some (XDP_TX, c') →
  ∃ r, classify (maps c) (pkt c) = VForward r ∧
    let cfg := rq_cfg r in
    is_u 32 (cfg_encap_src_prefix cfg) → is_u 32 (cfg_encap_src_mask cfg) →
    le32 (pkt c') 26 = outer_saddr cfg (flow_hash (rq_flow r)) ∧
    Z.land (le32 (pkt c') 26) (cfg_encap_src_mask cfg)
    = Z.land (cfg_encap_src_prefix cfg) (cfg_encap_src_mask cfg).
Proof.
  intros Hp Hh. rewrite xdp_run by done. intros [= Hr].
  apply run_tx in Hr as (r & id & a & mac & Hc & _ & _ & _ & Hpkt & _). exists r. split; [done |].
  intros cfg Hpre Hmask. rewrite Hpkt, encap_saddr. fold cfg. set (h := flow_hash (rq_flow r)).
  assert (is_u 32 (u32 (Z.lnot (cfg_encap_src_mask cfg)))) as Hn by auto with pb.
  assert (0 <= h) as Hh0 by (pose proof (pb_flow_hash_range (f_saddr (rq_flow r)) (f_daddr (rq_flow r))
    (f_sport (rq_flow r)) (f_dport (rq_flow r)) (f_proto (rq_flow r))) as Hx; unfold h, flow_hash, is_u in *; lia).
  assert (is_u 32 (outer_saddr cfg h)) as Hs.
  { unfold outer_saddr. apply is_u_lor; [lia | |].
    - apply is_u_land_r; [lia | apply Hpre | done].
    - apply is_u_land_r; [lia | lia | done]. }
  rewrite u32_id by done. split; [done |]. unfold outer_saddr.
  apply Z.bits_inj'. intros i Hi. rewrite !Z.land_spec, Z.lor_spec, !Z.land_spec, u32_testbit, Z.lnot_spec by lia.
  destruct (Z.ltb_spec i 32); simpl.
  - destruct (Z.testbit (cfg_encap_src_prefix cfg) i), (Z.testbit (cfg_encap_src_mask cfg) i),
      (Z.testbit h i); done.
  - by rewrite (is_u_testbit_high 32 (cfg_encap_src_mask cfg) i Hmask), !andb_false_r by lia.
Qed.

(** The connection table grows only by a forwarded TCP or UDP packet that
    is not an RST, and then by the entry of its own flow. ICMP messages,
    resets, fragments, oversized packets and packets for other hosts create no
    state. *)
Theorem conntrack_growth (e : Env) (c c' : Ctx) (a : xdp_action) (key : pb_ct_key) :
  bytes_ok (pkt c) → length (headroom e) = 20%nat →
  xdp_packetbalance e c = Some (a, c') →
  key ∈ dom (conntrack (maps c')) →
  key ∈ dom (conntrack (maps c)) ∨
  ∃ r, classify (maps c) (pkt c) = VForward r ∧ key = ct_key_of (rq_flow r) ∧
       uses_ct r = true ∧ rq_icmp r = false ∧
       (byte (pkt c) 23 = IPPROTO_TCP → Z.testbit (byte (pkt c) 47) 2 = false) ∧
       be16 (pkt c) 16 + 20 <= PB_MAX_PACKET_LEN.
Proof.
  intros Hp Hh. rewrite xdp_run by done. intros [= Hr]. unfold run in Hr.
  destruct (classify (maps c) (pkt c)) as [cnt | | r] eqn:Hc.
  1, 2: injection Hr as <- <-; cbn [maps]; unfold count_global; rewrite conntrack_st_add; auto.
  unfold run_request in Hr.
  destruct (Z.ltb_spec PB_MAX_PACKET_LEN (rq_len r + PB_OUTER_LEN)).
  { injection Hr as <- <-. cbn [maps]. rewrite conntrack_st_add, conntrack_count_in. auto. }
  destruct (choose_spec e r (maps c)) as [_ Hch]. destruct (choose e r (maps c)) as [id m] eqn:Ech.
  cbn [fst snd] in Hch.
  assert (conntrack (maps c') = conntrack m) as ->.
  { destruct (resolve m id) as [[x y] |]; [destruct (head_ok e) |]; injection Hr as <- <-; cbn [maps];
      by rewrite ?conntrack_count_tx, ?conntrack_st_add. }
  rewrite Hch. destruct (ct_entry e r (maps c)) as [ct |] eqn:Ee.
  { rewrite dom_alter_L. auto. }
  destruct (inserts e r (maps c)) eqn:Ei; [| auto]. intros Hin.
  assert (key = ct_key_of (rq_flow r) ∨ key ∈ dom (conntrack (maps c))) as [-> | ?]; [| | by left].
  { unfold ct_update in Hin. destruct (ct_ok e); cbn [conntrack set_conntrack] in Hin.
    - rewrite dom_insert in Hin. apply elem_of_union in Hin as [->%elem_of_singleton | Hin]; [auto |].
      right. eapply dom_filter_subseteq, Hin.
    - right. eapply dom_filter_subseteq, Hin. }
  right. exists r. unfold inserts in Ei. rewrite !andb_true_iff in Ei. destruct Ei as ((Hu & Hi) & _).
  destruct (classify_request _ _ _ Hc) as (El & _). unfold PB_OUTER_LEN in *. rewrite El in *.
  destruct (classify_inv _ _ _ Hc) as [(E1 & _ & _ & E4 & E5) | (_ & _ & _ & ? & _)]; [| congruence].
  split_and!; try done. intros Et. destruct (Z.testbit (byte (pkt c) 47) 2); [| done].
  rewrite (proj2 E4) in Hi by done. done.
Qed.

(** ** Witnesses of the theorems on two frames *)

Definition demo_next : Ctx := (run demo_env demo_ctx).2.

(** The ring of the VIP now names real 2 everywhere. *)
Definition demo_moved : Ctx :=
  mk_ctx demo_udp (set_rings (λ _, {[ 3 := replicate (Z.to_nat PB_RING_SIZE) 2 ]}) (maps demo_next)).

Lemma run_eq e c a :
  bytes_ok (pkt c) → length (headroom e) = 20%nat → (run e c).1 = a →
  xdp_packetbalance e c = Some (a, (run e c).2).
Proof. intros Hp Hh <-. rewrite xdp_run by done. by destruct (run e c). Qed.

Lemma demo_sent : xdp_packetbalance demo_env demo_ctx = Some (XDP_TX, demo_next).
Proof. apply run_eq; [decide_closed | reflexivity | vm_compute; reflexivity]. Qed.

Lemma demo_moved_sent : xdp_packetbalance demo_env demo_moved = Some (XDP_TX, (run demo_env demo_moved).2).
Proof. apply run_eq; [decide_closed | reflexivity | vm_compute; reflexivity]. Qed.

Lemma typed_run e c f : maps_typed (maps c) → maps_typed (set_rings f (maps (run e c).2)).
Proof.
  intros [H1 H2]. pose proof (same_run e c) as Hs. split; cbn [reals neigh set_rings].
  - by rewrite (sc_reals _ _ Hs).
  - by rewrite (sc_neigh _ _ Hs).
Qed.

Lemma demo_moved_typed : maps_typed (maps demo_moved).
Proof. unfold demo_moved, demo_next. cbn [maps]. apply typed_run, demo_typed. Qed.

Definition demo_cfg : pb_config :=
  mk_pb_config (mk_pb_mac 2 0 0 0 0 1) 0x000010ac 0x0000ffff PB_CFG_F_ICMP_PMTU.
Definition demo_flow : pb_flow := mk_flow 0x0900000a 0x6400000a 0x409c 0x5000 17.
Definition demo_request : request := mk_request demo_flow (mk_vip_value 3 0) demo_cfg false true false 28 0.
Definition demo_request_icmp : request := mk_request demo_flow (mk_vip_value 3 0) demo_cfg false false true 56 0.

Lemma demo_class : classify demo_maps demo_udp = VForward demo_request.
Proof. vm_compute. reflexivity. Qed.
Lemma demo_class_moved : classify (maps demo_moved) demo_udp = VForward demo_request.
Proof. vm_compute. reflexivity. Qed.

Lemma demo_real : selected demo_env demo_request demo_maps = 1.
Proof. vm_compute. reflexivity. Qed.

Lemma demo_moved_real : array_lookup (reals (maps demo_moved)) 1 = array_lookup (reals demo_maps) 1.
Proof. vm_compute. reflexivity. Qed.

Lemma conntrack_set_rings f m : conntrack (set_rings f m) = conntrack m.
Proof. done. Qed.

Lemma demo_moved_conntrack : conntrack (maps demo_moved) = conntrack (maps demo_next).
Proof. unfold demo_moved. cbn [maps]. apply conntrack_set_rings. Qed.


(** An ICMP message right after a packet of the flow. *)
Definition demo_reply : Ctx := mk_ctx demo_icmp (maps demo_next).

Lemma maps_mk p m : maps (mk_ctx p m) = m.
Proof. done. Qed.
Lemma demo_reply_maps : maps demo_reply = maps demo_next.
Proof. unfold demo_reply. apply maps_mk. Qed.
Lemma demo_reply_class : classify (maps demo_reply) (pkt demo_reply) = VForward demo_request_icmp.
Proof. vm_compute. reflexivity. Qed.
Lemma demo_reply_sent : xdp_packetbalance demo_env demo_reply = Some (XDP_TX, (run demo_env demo_reply).2).
Proof. apply run_eq; [decide_closed | reflexivity | vm_compute; reflexivity]. Qed.
Lemma demo_reply_config : same_config (maps demo_ctx) (maps demo_reply).
Proof. rewrite demo_reply_maps. exact (same_run demo_env demo_ctx). Qed.
Lemma demo_reply_entry :
  let key := ct_key_of (rq_flow demo_request) in
  ct_lookup demo_env (maps demo_reply) key = ct_lookup demo_env (maps demo_ctx) key ∨
  ct_lookup demo_env (maps demo_reply) key = ct_lookup demo_env (maps demo_next) key.
Proof. rewrite demo_reply_maps. right. reflexivity. Qed.

Lemma icmp_follows_flow_witness :
  xdp_packetbalance demo_env demo_ctx = Some (XDP_TX, demo_next) ∧
  xdp_packetbalance demo_env demo_reply = Some (XDP_TX, (run demo_env demo_reply).2) ∧
  le32 (pkt (run demo_env demo_reply).2) 30 = le32 (pkt demo_next) 30 ∧
  le32 (pkt (run demo_env demo_reply).2) 26 = le32 (pkt demo_next) 26.
Proof.
  split; [exact demo_sent |]. split; [exact demo_reply_sent |].
  apply (icmp_follows_flow demo_env demo_env demo_ctx demo_next demo_reply (run demo_env demo_reply).2
           demo_request demo_request_icmp);
    [decide_closed | exact demo_typed | reflexivity | discriminate | decide_closed | reflexivity | reflexivity
    | exact demo_class | reflexivity | reflexivity | exact demo_reply_class | reflexivity | reflexivity | reflexivity
    | reflexivity | reflexivity | reflexivity | exact demo_reply_config | exact demo_reply_entry | exact demo_sent | exact demo_reply_sent].
Defined.

Lemma outer_source_in_prefix_witness :
  ∃ r, classify demo_maps demo_udp = VForward r ∧
    Z.land (le32 (pkt demo_next) 26) 0x0000ffff = Z.land 0x000010ac 0x0000ffff.
Proof.
  destruct (outer_source_in_prefix demo_env demo_ctx demo_next) as (r & Hc & H);
    [decide_closed | reflexivity | apply demo_sent |].
  exists r. split; [exact Hc |].
  assert (rq_cfg r = mk_pb_config (mk_pb_mac 2 0 0 0 0 1) 0x000010ac 0x0000ffff PB_CFG_F_ICMP_PMTU) as E
    by (revert Hc; vm_compute; by intros [= <-]).
  rewrite E in H. apply H; decide_closed.
Defined.

Lemma conntrack_growth_witness :
  ∃ r, classify demo_maps demo_udp = VForward r ∧ rq_icmp r = false ∧
       ct_key_of (rq_flow r) ∈ dom (conntrack (maps demo_next)).
Proof.
  pose (key := mk_ct_key 0x0900000a 0x6400000a 0x409c 0x5000 17).
  assert (key ∈ dom (conntrack (maps demo_next))) as Hk.
  { apply elem_of_dom. vm_compute. by eexists. }
  destruct (conntrack_growth demo_env demo_ctx demo_next XDP_TX key) as [Hin | (r & H1 & H2 & H3 & H4 & _)];
    [decide_closed | reflexivity | apply demo_sent | exact Hk | |].
  - apply elem_of_dom in Hin as [v Hv]. revert Hv. vm_compute. discriminate.
  - exists r. rewrite <-H2. split_and!; [exact H1 | exact H4 | exact Hk].
Defined.

(** ** Header bounds *)

(** A frame padded to the Ethernet minimum whose IPv4 total length is 20: the
    datagram is a bare header that claims UDP, and what follows is padding. *)
Definition padded_frame : list Z :=
  [2;0;0;0;0;1; 2;0;0;0;0;9; 8;0] ++
  [0x45;0; 0;20; 0;0; 0;0; 64;17; 0;0; 10;0;0;9; 10;0;0;100] ++
  [0x9c;0x40; 0;80; 0;8; 0;0] ++ replicate 18 0.

(** The transport header is bounded by the frame and not by the datagram:
    a datagram of total length 20, which has no UDP header, is sent to a real
    on the ports found in the Ethernet padding behind it, and creates a
    connection entry. *)
Theorem padding_read_as_udp :
  be16 padded_frame 16 = 20 ∧
  ∃ c', xdp_packetbalance demo_env (mk_ctx padded_frame demo_maps) = Some (XDP_TX, c') ∧
        mk_ct_key 0x0900000a 0x6400000a 0x409c 0x5000 17 ∈ dom (conntrack (maps c')).
Proof.
  split; [reflexivity |]. exists (run demo_env (mk_ctx padded_frame demo_maps)).2. split.
  - apply run_eq; [decide_closed | reflexivity | vm_compute; reflexivity].
  - apply elem_of_dom. vm_compute. by eexists.
Qed.

End DataplaneProps.
