(* ===== verification/Counters.v ===== *)
(** * The data plane's counters

    Every run of the XDP program is seen as a sequence of additions to one
    [struct pb_stats]; a weighted sum of the counters then changes by a known
    amount, which gives the accounting identities operators rely on.  Counters
    are 64-bit and the identities hold modulo 2^64. *)

From Stdlib Require Import ZArith Lia.
From S2P Require Import Prelude Abi Dataplane DataplaneProps.
Import Dataplane DataplaneProps.

Module Counters.

(** The value of a counter in a [struct pb_stats]. *)
Definition cnt (c : pb_counter) (s : list Z) : Z := default 0 (s !! counter_index c).

Definition all_counters : list pb_counter :=
  [PB_CNT_PACKETS; PB_CNT_BYTES; PB_CNT_CT_HIT; PB_CNT_CT_MISS; PB_CNT_HASH; PB_CNT_SYN; PB_CNT_TX;
   PB_CNT_PASS; PB_CNT_DROP_FRAG; PB_CNT_DROP_OPTS; PB_CNT_DROP_NO_REAL; PB_CNT_DROP_ADJ_HEAD;
   PB_CNT_DROP_MTU; PB_CNT_DROP_SHORT; PB_CNT_DROP_OTHER; PB_CNT_ICMP_PMTU_FWD].

(** A weighted sum of the counters. *)
Definition tally (wt : pb_counter → Z) (s : list Z) : Z :=
  (zsum ((λ c, wt c * cnt c s) <$> all_counters)) mod 2 ^ 64.

(** The struct of slot [i] on CPU [k]. *)
Definition slot (m : Maps) (i k : nat) : option (list Z) := l ← stats m !! i; l !! k.

Definition stats_typed (m : Maps) : Prop := ∀ i k s, slot m i k = Some s → length s = PB_CNT_MAX.

Lemma cnt_bump c c' n s :
  length s = PB_CNT_MAX →
  cnt c' (alter (λ x, u64 (x + n)) (counter_index c) s) = if decide (c' = c) then u64 (cnt c s + n) else cnt c' s.
Proof.
  intros Hl. unfold cnt. destruct (decide (c' = c)) as [-> | Hne].
  - rewrite list_lookup_alter_eq. destruct (lookup_lt_is_Some_2 s (counter_index c)) as [x ->]; [| done].
    rewrite Hl. destruct c; unfold PB_CNT_MAX; simpl; lia.
  - rewrite list_lookup_alter_ne; [done |]. by destruct c, c'.
Qed.

Lemma zsum_point (wt f g : pb_counter → Z) c d l :
  NoDup l → c ∈ l → (∀ c', c' ≠ c → g c' = f c') → g c = f c + d →
  zsum ((λ c, wt c * g c) <$> l) = zsum ((λ c, wt c * f c) <$> l) + wt c * d.
Proof.
  intros Hnd Hin Hne Hc.
  assert (∀ k, c ∉ k → zsum ((λ c, wt c * g c) <$> k) = zsum ((λ c, wt c * f c) <$> k)) as Hk.
  { induction k as [| x k IH]; intros Hx; [done |]. rewrite !fmap_cons, !zsum_cons.
    apply not_elem_of_cons in Hx as [Hx1 Hx2]. rewrite IH, Hne by done. done. }
  induction Hnd as [| x l Hx Hnd IH]; [by apply not_elem_of_nil in Hin |].
  rewrite !fmap_cons, !zsum_cons. apply elem_of_cons in Hin as [<- | Hin].
  - rewrite Hk, Hc by done. lia.
  - rewrite (IH Hin), Hne; [lia |]. by intros ->.
Qed.

Lemma tally_bump wt c n s :
  length s = PB_CNT_MAX →
  tally wt (alter (λ x, u64 (x + n)) (counter_index c) s) = (tally wt s + wt c * n) mod 2 ^ 64.
Proof.
  intros Hl. unfold tally. rewrite Z.add_mod_idemp_l by lia.
  assert (∃ q, u64 (cnt c s + n) = cnt c s + (n + q * 2 ^ 64)) as [q Hq].
  { exists (- ((cnt c s + n) / 2 ^ 64)). unfold u64. rewrite Z.mod_eq by lia. lia. }
  rewrite (zsum_point wt (λ c', cnt c' s)
             (λ c', cnt c' (alter (λ x, u64 (x + n)) (counter_index c) s)) c (n + q * 2 ^ 64)).
  - replace (zsum ((λ c0, wt c0 * cnt c0 s) <$> all_counters) + wt c * (n + q * 2 ^ 64))
      with (zsum ((λ c0, wt c0 * cnt c0 s) <$> all_counters) + wt c * n + (wt c * q) * 2 ^ 64) by lia.
    by rewrite Z.mod_add by lia.
  - apply (bool_decide_unpack _). vm_compute. done.
  - destruct c; apply (bool_decide_unpack _); vm_compute; done.
  - intros c' Hc'. by rewrite cnt_bump, decide_False.
  - by rewrite cnt_bump, decide_True.
Qed.

Lemma slot_st_add e st c n m i k :
  slot (st_add e st c n m) i k =
  (if decide (st = Some i ∧ k = cpu e) then alter (λ x, u64 (x + n)) (counter_index c) else id) <$> slot m i k.
Proof.
  unfold slot, st_add. destruct st as [j |].
  2: { rewrite decide_False by (by intros [? _]). by destruct (stats m !! i ≫= _). }
  cbn [stats set_stats]. destruct (decide (Some j = Some i ∧ k = cpu e)) as [[[= <-] Hk] | Hne].
  - subst k. rewrite list_lookup_alter_eq. destruct (stats m !! j) as [l |]; [| done]. simpl. apply list_lookup_alter_eq.
  - assert (∀ o : option (list Z), id <$> o = o) as -> by (by intros []).
    destruct (decide (j = i)) as [-> | Hji]; [| by rewrite list_lookup_alter_ne].
    rewrite list_lookup_alter_eq. destruct (stats m !! i) as [l |]; [| done]. simpl.
    apply list_lookup_alter_ne. intros Hk. apply Hne. by split.
Qed.

(** ** Shifts of a tally

    From [m] to [m'] the tally of the slot [st] on this CPU grows by [d] and
    the others stay. *)
Record shifts (wt : pb_counter → Z) (e : Env) (st : option nat) (d : Z) (m m' : Maps) : Prop := {
  sh_typed : stats_typed m → stats_typed m';
  sh_tally : stats_typed m → ∀ i k,
    tally wt <$> slot m' i k =
    (λ t, if decide (st = Some i ∧ k = cpu e) then (t + d) mod 2 ^ 64 else t) <$> (tally wt <$> slot m i k)
}.

Lemma tally_range wt s : tally wt s mod 2 ^ 64 = tally wt s.
Proof. unfold tally. by rewrite Z.mod_mod. Qed.

Lemma shifts_stats wt e st m m' : stats m' = stats m → shifts wt e st 0 m m'.
Proof.
  intros Hs. assert (∀ i k, slot m' i k = slot m i k) as E by (intros; unfold slot; by rewrite Hs).
  split; [intros Ht i k s; rewrite E; apply Ht |]. intros _ i k. rewrite E.
  destruct (slot m i k) as [s |]; [| done]. simpl. f_equal.
  destruct (decide _); [| done]. by rewrite Z.add_0_r, tally_range.
Qed.

Lemma shifts_trans wt e st d1 d2 d m1 m2 m3 :
  shifts wt e st d1 m1 m2 → shifts wt e st d2 m2 m3 → d = d1 + d2 → shifts wt e st d m1 m3.
Proof.
  intros [T1 S1] [T2 S2] ->. split; [auto |]. intros Ht i k.
  rewrite S2, S1 by auto. destruct (slot m1 i k) as [s |]; [| done]. simpl. f_equal.
  destruct (decide _); [| done]. rewrite Z.add_mod_idemp_l by lia. f_equal. lia.
Qed.

Lemma shifts_st_add wt e st c n m : shifts wt e st (wt c * n) m (st_add e st c n m).
Proof.
  split.
  - intros Ht i k s. rewrite slot_st_add. destruct (slot m i k) as [s' |] eqn:E; [| done].
    simpl. intros [= <-]. destruct (decide _); [rewrite length_alter |]; by eapply Ht.
  - intros Ht i k. rewrite slot_st_add. destruct (slot m i k) as [s |] eqn:E; [| done]. simpl. f_equal.
    destruct (decide _); [| done]. apply tally_bump. by eapply Ht.
Qed.

(** ** The tally of a run *)

Section tally.
Context (wt : pb_counter → Z) (e : Env) (r : request).

Lemma shifts_count_in st m :
  shifts wt e st (wt PB_CNT_PACKETS + wt PB_CNT_BYTES * rq_len r + if rq_bare_syn r then wt PB_CNT_SYN else 0)
    m (count_in e r st m).
Proof.
  unfold count_in. destruct (rq_bare_syn r).
  - eapply shifts_trans; [| apply shifts_st_add | rewrite Z.mul_1_r; reflexivity].
    eapply shifts_trans; [apply shifts_st_add | apply shifts_st_add | lia].
  - eapply shifts_trans; [apply shifts_st_add | apply shifts_st_add | lia].
Qed.

Lemma shifts_count_tx st id m :
  shifts wt e st (wt PB_CNT_TX + if rq_icmp r then wt PB_CNT_ICMP_PMTU_FWD else 0) m (count_tx e r st id m).
Proof.
  unfold count_tx. set (m2 := if rq_icmp r then st_add _ _ _ _ _ else _).
  apply (shifts_trans wt e st (wt PB_CNT_TX + if rq_icmp r then wt PB_CNT_ICMP_PMTU_FWD else 0) 0 _ m m2);
    [| apply shifts_stats; unfold rs_add; by destruct (array_lookup _ _) | lia].
  unfold m2. destruct (rq_icmp r).
  - eapply shifts_trans; [apply shifts_st_add | apply shifts_st_add | lia].
  - rewrite Z.add_0_r, <-(Z.mul_1_r (wt PB_CNT_TX)). apply shifts_st_add.
Qed.

(** Amount a selection adds: a hit, a hash, or a miss and a hash. *)
Definition select_amount (m : Maps) : Z :=
  match ct_entry e r m with
  | Some _ => wt PB_CNT_CT_HIT
  | None => wt PB_CNT_HASH + if uses_ct r && negb (rq_bare_syn r) then wt PB_CNT_CT_MISS else 0
  end.

Lemma shifts_ct_update st key v m : shifts wt e st 0 m (ct_update e key v m).
Proof. apply shifts_stats. unfold ct_update. by destruct (ct_ok e). Qed.

Lemma shifts_pick_by_hash key vip h ins st m :
  shifts wt e st (wt PB_CNT_HASH) m (pick_by_hash e key vip h ins st m).2.
Proof.
  unfold pick_by_hash. destruct (_ || _); cbn [snd].
  - rewrite <-(Z.mul_1_r (wt _)). apply shifts_st_add.
  - eapply shifts_trans; [apply shifts_st_add | apply shifts_ct_update | lia].
Qed.

Lemma shifts_choose m :
  let st := stats_slot m (vv_vip_id (rq_vip r)) in
  shifts wt e st (wt PB_CNT_PACKETS + wt PB_CNT_BYTES * rq_len r
                  + (if rq_bare_syn r then wt PB_CNT_SYN else 0) + select_amount m)
    m (choose e r m).2.
Proof.
  intros st. unfold choose. fold st. eapply shifts_trans; [apply shifts_count_in | | reflexivity].
  pose proof (same_count_in e r st m) as Hs. pose proof (conntrack_count_in e r st m) as Hc.
  set (m1 := count_in e r st m) in *. unfold pick_real, select_amount, ct_entry.
  destruct (uses_ct r); cbn [negb andb snd].
  2: { rewrite Z.add_0_r, <-(Z.mul_1_r (wt _)). apply shifts_st_add. }
  destruct (rq_bare_syn r); cbn [negb].
  { rewrite Z.add_0_r. apply shifts_pick_by_hash. }
  rewrite (ct_lookup_conntrack e m m1) by done. cbv zeta.
  assert (∀ key, shifts wt e st (wt PB_CNT_HASH + wt PB_CNT_CT_MISS) m1
    (pick_by_hash e key (vv_vip_id (rq_vip r)) (flow_hash (rq_flow r)) (rq_may_insert r) st
       (st_add e st PB_CNT_CT_MISS 1 m1)).2) as Hmiss.
  { intros key. eapply shifts_trans; [apply shifts_st_add | apply shifts_pick_by_hash | lia]. }
  destruct (ct_lookup e m _) as [ct |]; cbn [mbind option_bind]; [| apply Hmiss].
  rewrite (real_alive_same m m1 _ Hs). destruct (negb _ && real_alive m _); [| apply Hmiss]. cbn [snd].
  eapply (shifts_trans wt e st 0 _ _ m1 (ct_store e _ _ m1)); [by apply shifts_stats | apply shifts_st_add | lia].
Qed.

End tally.

(** The counters a frame that matched no VIP may be dropped under. *)
Lemma classify_drop m p c :
  classify m p = VDrop c →
  c = PB_CNT_DROP_SHORT ∨ c = PB_CNT_DROP_OTHER ∨ c = PB_CNT_DROP_OPTS ∨ c = PB_CNT_DROP_FRAG.
Proof.
  unfold classify. repeat (case_match; try (intros [= <-]; by auto)); try done;
    unfold classify_flow, classify_icmp; repeat (case_match; try (intros [= <-]; by auto)); done.
Qed.

(** The amount a run adds to a tally, and the slot it adds it to. *)
Definition run_slot (c : Ctx) : option nat :=
  match classify (maps c) (pkt c) with
  | VForward r => stats_slot (maps c) (vv_vip_id (rq_vip r))
  | _ => stats_slot (maps c) PB_STATS_GLOBAL
  end.

(** The outcome counter of a run: exactly one per frame. *)
Definition outcome_counter (e : Env) (c : Ctx) : pb_counter :=
  match classify (maps c) (pkt c) with
  | VDrop cnt => cnt
  | VPass => PB_CNT_PASS
  | VForward r =>
      if PB_MAX_PACKET_LEN <? rq_len r + PB_OUTER_LEN then PB_CNT_DROP_MTU
      else match resolve (maps c) (selected e r (maps c)) with
           | None => PB_CNT_DROP_NO_REAL
           | Some _ => if head_ok e then PB_CNT_TX else PB_CNT_DROP_ADJ_HEAD
           end
  end.

Definition run_amount (wt : pb_counter → Z) (e : Env) (c : Ctx) : Z :=
  wt (outcome_counter e c) +
  match classify (maps c) (pkt c) with
  | VForward r =>
      wt PB_CNT_PACKETS + wt PB_CNT_BYTES * rq_len r + (if rq_bare_syn r then wt PB_CNT_SYN else 0) +
      (if PB_MAX_PACKET_LEN <? rq_len r + PB_OUTER_LEN then 0 else select_amount wt e r (maps c)) +
      (if decide (outcome_counter e c = PB_CNT_TX ∧ rq_icmp r = true) then wt PB_CNT_ICMP_PMTU_FWD else 0)
  | _ => 0
  end.

Lemma shifts_run wt e c : shifts wt e (run_slot c) (run_amount wt e c) (maps c) (maps (run e c).2).
Proof.
  unfold run, run_slot, run_amount, outcome_counter.
  destruct (classify (maps c) (pkt c)) as [cnt | | r] eqn:Hc; cbn [snd maps].
  1, 2: rewrite Z.add_0_r, <-(Z.mul_1_r (wt _)); apply shifts_st_add.
  unfold run_request. destruct (_ <? _); cbn [snd maps].
  { rewrite decide_False by (by intros [? _]). eapply shifts_trans; [apply shifts_count_in | apply shifts_st_add | lia]. }
  pose proof (shifts_choose wt e r (maps c)) as Hch. pose proof (same_choose e r (maps c)) as Hs.
  destruct (choose_spec e r (maps c)) as [Hsel _]. destruct (choose e r (maps c)) as [id m].
  cbn [fst snd] in *. rewrite (resolve_same _ _ id Hs), Hsel.
  destruct (resolve (maps c) (selected e r (maps c))) as [[a mac] |].
  2: { rewrite decide_False by (by intros [? _]). eapply shifts_trans; [exact Hch | apply shifts_st_add | lia]. }
  destruct (head_ok e); cbn [snd maps].
  - eapply shifts_trans; [exact Hch | apply shifts_count_tx |].
    destruct (rq_icmp r); [rewrite decide_True by done | rewrite decide_False by (by intros [_ ?])]; lia.
  - rewrite decide_False by (by intros [? _]). eapply shifts_trans; [exact Hch | apply shifts_st_add | lia].
Qed.

(** ** Theorems *)

(** The identities of a [struct pb_stats]. *)
Definition balanced_stats (s : list Z) : Prop :=
  length s = PB_CNT_MAX ∧
  u64 (cnt PB_CNT_PACKETS s) =
    u64 (cnt PB_CNT_TX s + cnt PB_CNT_DROP_MTU s + cnt PB_CNT_DROP_NO_REAL s + cnt PB_CNT_DROP_ADJ_HEAD s) ∧
  u64 (cnt PB_CNT_PACKETS s) = u64 (cnt PB_CNT_DROP_MTU s + cnt PB_CNT_CT_HIT s + cnt PB_CNT_HASH s).

Definition balanced (m : Maps) : Prop := ∀ i k s, slot m i k = Some s → balanced_stats s.

(** The identities as tallies that are zero. *)
Definition wt_fate (c : pb_counter) : Z :=
  match c with
  | PB_CNT_PACKETS => 1
  | PB_CNT_TX | PB_CNT_DROP_MTU | PB_CNT_DROP_NO_REAL | PB_CNT_DROP_ADJ_HEAD => -1
  | _ => 0
  end.
Definition wt_choice (c : pb_counter) : Z :=
  match c with
  | PB_CNT_PACKETS => 1
  | PB_CNT_DROP_MTU | PB_CNT_CT_HIT | PB_CNT_HASH => -1
  | _ => 0
  end.

Lemma u64_sub_eq x y : u64 x = u64 y ↔ (x - y) mod 2 ^ 64 = 0.
Proof.
  unfold u64. split.
  - intros H. by rewrite Zminus_mod, H, Z.sub_diag.
  - intros H. apply Z.mod_divide in H as [q Hq]; [| lia]. replace x with (y + q * 2 ^ 64) by lia.
    by rewrite Z.mod_add by lia.
Qed.

Lemma balanced_tally s :
  balanced_stats s ↔ length s = PB_CNT_MAX ∧ tally wt_fate s = 0 ∧ tally wt_choice s = 0.
Proof.
  unfold balanced_stats. rewrite !u64_sub_eq. unfold tally.
  assert (zsum ((λ c, wt_fate c * cnt c s) <$> all_counters) = cnt PB_CNT_PACKETS s -
    (cnt PB_CNT_TX s + cnt PB_CNT_DROP_MTU s + cnt PB_CNT_DROP_NO_REAL s + cnt PB_CNT_DROP_ADJ_HEAD s)) as ->.
  { unfold all_counters. rewrite !fmap_cons, !zsum_cons. cbn [wt_fate fmap list_fmap zsum foldr]. lia. }
  assert (zsum ((λ c, wt_choice c * cnt c s) <$> all_counters) = cnt PB_CNT_PACKETS s -
    (cnt PB_CNT_DROP_MTU s + cnt PB_CNT_CT_HIT s + cnt PB_CNT_HASH s)) as ->.
  { unfold all_counters. rewrite !fmap_cons, !zsum_cons. cbn [wt_choice fmap list_fmap zsum foldr]. lia. }
  done.
Qed.

Lemma run_amount_zero e c : run_amount wt_fate e c = 0 ∧ run_amount wt_choice e c = 0.
Proof.
  unfold run_amount, outcome_counter, select_amount.
  destruct (classify (maps c) (pkt c)) as [cnt | | r] eqn:Hc.
  - by apply classify_drop in Hc as [-> | [-> | [-> | ->]]].
  - done.
  - repeat case_match; cbn [wt_fate wt_choice] in *; try done; lia.
Qed.

Lemma balanced_run e c : balanced (maps c) → balanced (maps (run e c).2).
Proof.
  intros Hb. assert (stats_typed (maps c)) as Ht by (intros i k s Hs; by apply Hb in Hs as [? _]).
  intros i k s Hs. apply balanced_tally. destruct (run_amount_zero e c) as [Z1 Z2].
  split_and!.
  - by eapply (sh_typed _ _ _ _ _ _ (shifts_run wt_fate e c) Ht).
  - pose proof (sh_tally _ _ _ _ _ _ (shifts_run wt_fate e c) Ht i k) as E. rewrite Hs, Z1 in E.
    destruct (slot (maps c) i k) as [s' |] eqn:E'; [| done]. injection E as ->.
    apply Hb, balanced_tally in E' as (_ & -> & _). by destruct (decide _).
  - pose proof (sh_tally _ _ _ _ _ _ (shifts_run wt_choice e c) Ht i k) as E. rewrite Hs, Z2 in E.
    destruct (slot (maps c) i k) as [s' |] eqn:E'; [| done]. injection E as ->.
    apply Hb, balanced_tally in E' as (_ & _ & ->). by destruct (decide _).
Qed.

(** The life of the maps: frames on any CPU, and control-plane writes, of
    which only the reset of a slot for a new VIP touches the stats. *)
Inductive map_step : Maps → Maps → Prop :=
| step_frame e p m a c' :
    bytes_ok p → length (headroom e) = 20%nat →
    xdp_packetbalance e (mk_ctx p m) = Some (a, c') → map_step m (maps c')
| step_control m m' : stats m' = stats m → map_step m m'
| step_reset i n m m' : stats m' = <[i := replicate n pb_stats0]> (stats m) → map_step m m'.

Lemma balanced_reachable (ncpus : nat) (m : Maps) :
  rtc map_step (fresh_maps ncpus) m → balanced m.
Proof.
  assert (∀ n k s, replicate n pb_stats0 !! k = Some s → balanced_stats s) as Hz.
  { intros n k s [-> _]%lookup_replicate. by vm_compute. }
  assert (balanced (fresh_maps ncpus)) as H0.
  { intros i k s. unfold slot, fresh_maps. cbn [stats].
    destruct (replicate _ (replicate ncpus pb_stats0) !! i) as [l |] eqn:E1; [| done].
    apply lookup_replicate in E1 as [-> _]. apply Hz. }
  intros H. revert H0. induction H as [| m1 m2 m3 Hstep _ IH]; [done |]. intros Hb. apply IH.
  destruct Hstep as [e p m a c' Hp Hh Hx | m m' Hs | j n m m' Hs].
  - rewrite xdp_run in Hx by done. injection Hx as Hx.
    replace c' with (run e (mk_ctx p m)).2 by (by rewrite Hx). by apply balanced_run.
  - intros i k s. unfold slot. rewrite Hs. apply Hb.
  - intros i k s. unfold slot. rewrite Hs. destruct (decide (j = i)) as [-> | Hne].
    + destruct (<[i := _]> (stats m) !! i) as [l |] eqn:E; [| done].
      apply list_lookup_insert_Some in E as [(_ & <- & _) | (? & _)]; [apply Hz | done].
    + rewrite list_lookup_insert_ne by done. apply Hb.
Qed.

(** In every slot, on every CPU, whatever frames arrive and whatever the
    control plane does, PACKETS is TX + DROP_MTU + DROP_NO_REAL + DROP_ADJ_HEAD
    (every packet of a VIP is sent or dropped for one counted reason) and also
    DROP_MTU + CT_HIT + HASH (every packet that was not too long was decided by
    the connection table or by the ring), modulo 2^64. *)
Theorem counters_balanced (ncpus : nat) (m : Maps) :
  rtc map_step (fresh_maps ncpus) m → balanced m.
Proof. apply balanced_reachable. Qed.

Lemma counters_balanced_witness :
  ∃ m, rtc map_step (fresh_maps 1) m ∧ m ≠ fresh_maps 1 ∧ balanced m.
Proof.
  pose (c := mk_ctx demo_udp (fresh_maps 1)). pose (e := mk_env 0 1 5000 true (replicate 20 0) true []).
  assert (is_Some (xdp_packetbalance e c)) as [[a c'] Hx] by (vm_compute; by eexists).
  assert (rtc map_step (fresh_maps 1) (maps c')) as H.
  { apply rtc_once. eapply (step_frame e demo_udp _ a); [decide_closed | reflexivity | exact Hx]. }
  exists (maps c'). split; [exact H |]. split; [| exact (counters_balanced 1 (maps c') H)].
  intros E. assert (slot (maps c') 64 0 = slot (fresh_maps 1) 64 0) as Es by (by rewrite E).
  revert Es. apply (f_equal (fmap (λ r, slot (maps r.2) 64 0))) in Hx. simpl in Hx.
  injection Hx as <-. vm_compute. discriminate.
Defined.

(** ** The counters one by one *)

(** What a frame adds to each counter: one to its outcome, and for a packet of a
    VIP the counts of what came in and of how its real was chosen. *)
Definition adds (e : Env) (c : Ctx) (k : pb_counter) : Z :=
  (if decide (outcome_counter e c = k) then 1 else 0) +
  match classify (maps c) (pkt c) with
  | VForward r =>
      let chosen := negb (PB_MAX_PACKET_LEN <? rq_len r + PB_OUTER_LEN) in
      let tracked := match ct_entry e r (maps c) with Some _ => true | None => false end in
      match k with
      | PB_CNT_PACKETS => 1
      | PB_CNT_BYTES => rq_len r
      | PB_CNT_SYN => Z.b2z (rq_bare_syn r)
      | PB_CNT_CT_HIT => Z.b2z (chosen && tracked)
      | PB_CNT_HASH => Z.b2z (chosen && negb tracked)
      | PB_CNT_CT_MISS => Z.b2z (chosen && negb tracked && uses_ct r && negb (rq_bare_syn r))
      | PB_CNT_ICMP_PMTU_FWD => Z.b2z (bool_decide (outcome_counter e c = PB_CNT_TX) && rq_icmp r)
      | _ => 0
      end
  | _ => 0
  end.

Definition wt_only (k c : pb_counter) : Z := if decide (c = k) then 1 else 0.

Lemma tally_only k s : tally (wt_only k) s = u64 (cnt k s).
Proof.
  unfold tally, u64. f_equal. unfold all_counters. rewrite !fmap_cons, !zsum_cons. cbn [fmap list_fmap zsum foldr].
  destruct k; unfold wt_only; repeat (case_decide; try done); lia.
Qed.

Lemma run_amount_only e c k : run_amount (wt_only k) e c = adds e c k.
Proof.
  unfold run_amount, adds, wt_only, select_amount. f_equal. destruct (classify _ _) as [| | r]; [done.. |].
  unfold bool_decide. destruct (PB_MAX_PACKET_LEN <? _), (ct_entry e r (maps c)), (uses_ct r), (rq_bare_syn r), (rq_icmp r); cbn [negb andb Z.b2z];
    destruct k; repeat (case_decide; try done; try tauto); lia.
Qed.

(** The stats map as the program finds it: a struct for every VIP id and the
    global one, with a copy for this CPU, and only such ids in vip_map. *)
Record stats_ready (e : Env) (m : Maps) : Prop := {
  sr_typed : stats_typed m;
  sr_length : length (stats m) = Z.to_nat (PB_MAX_VIPS + 1);
  sr_cpu : ∀ i l, stats m !! i = Some l → (cpu e < length l)%nat;
  sr_ids : ∀ k v, vip_map m !! k = Some v → 0 <= vv_vip_id v < PB_MAX_VIPS
}.

(** The index a frame is counted at. *)
Definition frame_index (c : Ctx) : Z :=
  match classify (maps c) (pkt c) with VForward r => vv_vip_id (rq_vip r) | _ => PB_STATS_GLOBAL end.

Lemma run_slot_ready e c :
  stats_ready e (maps c) →
  run_slot c = Some (Z.to_nat (frame_index c)) ∧ is_Some (slot (maps c) (Z.to_nat (frame_index c)) (cpu e)).
Proof.
  intros [_ Hl Hcpu Hids].
  assert (0 <= frame_index c < PB_MAX_VIPS + 1) as Hr.
  { unfold frame_index. destruct (classify _ _) as [| | r] eqn:Hc; [done.. |].
    destruct (classify_inv _ _ _ Hc) as [(_ & _ & Hv & _) | (_ & _ & Hv & _)]; apply Hids in Hv; unfold PB_MAX_VIPS in *; lia. }
  destruct (lookup_lt_is_Some_2 (stats (maps c)) (Z.to_nat (frame_index c))) as [l El]; [lia |].
  assert (stats_slot (maps c) (frame_index c) = Some (Z.to_nat (frame_index c))) as Hs.
  { unfold stats_slot, array_lookup. rewrite El, (proj2 (Z.leb_le _ _)), (proj2 (Z.ltb_lt _ _)) by (rewrite ?Hl; lia). done. }
  split; [unfold run_slot, frame_index in *; by destruct (classify _ _) |].
  unfold slot. rewrite El. cbn. apply lookup_lt_is_Some_2. by eapply Hcpu.
Qed.

(** The verdict of a run and its outcome counter. *)
Lemma run_outcome e c :
  ((run e c).1 = XDP_TX ↔ outcome_counter e c = PB_CNT_TX) ∧ ((run e c).1 = XDP_PASS ↔ outcome_counter e c = PB_CNT_PASS).
Proof.
  unfold run, outcome_counter. destruct (classify (maps c) (pkt c)) as [cnt | | r] eqn:Hc.
  - by apply classify_drop in Hc as [-> | [-> | [-> | ->]]].
  - done.
  - unfold run_request. destruct (_ <? _); [done |].
    pose proof (same_choose e r (maps c)) as Hsc. destruct (choose_spec e r (maps c)) as [Hsel _].
    destruct (choose e r (maps c)) as [id m]. cbn [fst snd] in *. rewrite (resolve_same _ _ id Hsc), Hsel.
    by destruct (resolve _ _) as [[x y] |]; [destruct (head_ok e) |].
Qed.

(** C27: every frame is counted, once and under its own outcome. The frame adds
    one to exactly one outcome counter, the one of its verdict (TX exactly when
    it is sent, PASS exactly when it is passed on, otherwise the counter of the
    reason it is dropped for), in the struct of its VIP, or in the global one
    when it matched none, on the CPU that handled it; there a packet of a VIP
    also adds to PACKETS, BYTES, SYN, CT_HIT, CT_MISS, HASH and ICMP_PMTU_FWD
    what [adds] says, every other counter stays, and so does every other struct
    and CPU. Counters are taken modulo 2^64. *)
Theorem every_frame_counted (e : Env) (c c' : Ctx) (a : xdp_action) :
  bytes_ok (pkt c) → length (headroom e) = 20%nat → stats_ready e (maps c) →
  xdp_packetbalance e c = Some (a, c') →
  let i := Z.to_nat (frame_index c) in
  is_Some (slot (maps c) i (cpu e)) ∧
  (∀ j k s, slot (maps c) j k = Some s → ∃ s', slot (maps c') j k = Some s' ∧
     ∀ n, u64 (cnt n s') = u64 (cnt n s + if decide (j = i ∧ k = cpu e) then adds e c n else 0)) ∧
  (a = XDP_TX ↔ outcome_counter e c = PB_CNT_TX) ∧ (a = XDP_PASS ↔ outcome_counter e c = PB_CNT_PASS).
Proof.
  intros Hp Hh Hready. rewrite xdp_run by done. intros [= Hr] i. destruct (run_slot_ready e c Hready) as [Hslot Hsome].
  split; [exact Hsome |]. pose proof (run_outcome e c) as Ho. rewrite Hr in Ho. split; [| exact Ho].
  intros j k s Hs. pose proof (sr_typed _ _ Hready) as Ht.
  assert (∀ n, tally (wt_only n) <$> slot (maps c') j k =
    Some (if decide (run_slot c = Some j ∧ k = cpu e) then (tally (wt_only n) s + adds e c n) mod 2 ^ 64 else tally (wt_only n) s)) as Hall.
  { intros n. pose proof (shifts_run (wt_only n) e c) as Hsh. rewrite Hr, run_amount_only in Hsh. cbn [snd] in Hsh.
    rewrite (sh_tally _ _ _ _ _ _ Hsh Ht j k), Hs. done. }
  destruct (slot (maps c') j k) as [s' |] eqn:Es'; [| by specialize (Hall PB_CNT_TX)]. exists s'. split; [done |].
  intros n. specialize (Hall n). injection Hall as Hn. rewrite !tally_only, Hslot in Hn.
  assert (∀ x, u64 (cnt n s + x) = (u64 (cnt n s) + x) mod 2 ^ 64) as Hu by (intros x; unfold u64; by rewrite Z.add_mod_idemp_l).
  rewrite Hu, Hn. clear Hn Hu. destruct (decide (j = i ∧ k = cpu e)) as [[-> ->] | Hne].
  - by rewrite decide_True.
  - rewrite decide_False by (intros [[= <-] ?]; by apply Hne). unfold u64. by rewrite Z.add_0_r, Z.mod_mod.
Qed.

Lemma demo_adds :
  adds demo_env demo_ctx PB_CNT_TX = 1 ∧ adds demo_env demo_ctx PB_CNT_BYTES = 28 ∧ adds demo_env demo_ctx PB_CNT_DROP_MTU = 0.
Proof. vm_compute. done. Qed.

(** The UDP packet of the demonstration: one more TX, and no drop. *)
Lemma every_frame_counted_witness :
  ∃ c' s s', xdp_packetbalance demo_env demo_ctx = Some (XDP_TX, c') ∧
    slot demo_maps 3 (cpu demo_env) = Some s ∧ slot (maps c') 3 (cpu demo_env) = Some s' ∧
    u64 (cnt PB_CNT_TX s') = u64 (cnt PB_CNT_TX s + 1) ∧ u64 (cnt PB_CNT_BYTES s') = u64 (cnt PB_CNT_BYTES s + 28) ∧
    u64 (cnt PB_CNT_DROP_MTU s') = u64 (cnt PB_CNT_DROP_MTU s).
Proof.
  assert (stats_ready demo_env demo_maps) as Hready.
  { split.
    - intros i k s. unfold slot. cbn [demo_maps stats].
      destruct (replicate 65 _ !! i) as [l |] eqn:E; [| discriminate].
      apply lookup_replicate in E as [-> _]. destruct k as [| [| k]]; [by intros [= <-].. | discriminate].
    - reflexivity.
    - intros i l [-> _]%lookup_replicate. cbn. lia.
    - intros k v H. cbn [demo_maps vip_map] in H. apply lookup_singleton_Some in H as [_ <-]. done. }
  destruct (every_frame_counted demo_env demo_ctx demo_next XDP_TX) as ([s Hs] & Hall & _);
    [decide_closed | reflexivity | exact Hready | exact demo_sent |].
  assert (Z.to_nat (frame_index demo_ctx) = 3%nat) as Ei by (vm_compute; reflexivity). rewrite Ei in *.
  destruct (Hall 3%nat (cpu demo_env) s Hs) as (s' & Hs' & Hn).
  exists demo_next, s, s'. split; [exact demo_sent |]. split; [exact Hs |]. split; [exact Hs' |].
  assert (∀ n, u64 (cnt n s') = u64 (cnt n s + adds demo_env demo_ctx n)) as Ha.
  { intros n. rewrite (Hn n). destruct (decide _) as [_ | Hne]; [reflexivity |]. destruct Hne. split; reflexivity. }
  destruct demo_adds as (E1 & E2 & E3). rewrite (Ha PB_CNT_TX), (Ha PB_CNT_BYTES), (Ha PB_CNT_DROP_MTU), E1, E2, E3, Z.add_0_r.
  split; [| split]; reflexivity.
Defined.
End Counters.
