(* ===== verification/Control.v ===== *)
(** * The control plane's effects

    The daemon's methods run under one mutex, mutate an object, issue bpf(2)
    calls and may throw, keeping what they changed up to the throw.  [M S A] is
    such a method on an object of type [S]: it returns a value or an exception
    together with the world it leaves.  Every successful map write is recorded
    in [hist], so that theorems can speak of each state of the kernel maps a
    packet can meet while a method is running.  The outcome of each bpf call is
    the next element of [sys]: 0 (also when the list is empty) or an error. *)

From Stdlib Require Import ZArith Lia.
From S2P Require Import Prelude Abi.

(** What the process reads from its surroundings during one method call. *)
Record CEnv := mk_cenv {
  strerror : Z → str;                        (* libc *)
  epoch_ms : Z;                              (* the wall clock *)
  mac_lookup : option (Z → option pb_mac);   (* the kernel's neighbour table *)
  if_address : str;                          (* /sys/class/net/<interface>/address *)
  possible_cpus : nat                        (* libbpf_num_possible_cpus() *)
}.

Record World (S : Type) := mk_world {
  obj : S;
  km : Maps;
  hist : list Maps;
  sys : list Z
}.
Arguments mk_world {S}.
Arguments obj {S}.
Arguments km {S}.
Arguments hist {S}.
Arguments sys {S}.

Definition M (S A : Type) : Type := World S → result A * World S.

#[global] Instance M_ret S : MRet (M S) := λ A a w, (Ok a, w).
#[global] Instance M_bind S : MBind (M S) := λ A B k p w,
  match p w with
  | (Ok a, w) => k a w
  | (Throw e, w) => (Throw e, w)
  end.

Definition throw {S A} (e : exn) : M S A := λ w, (Throw e, w).
Definition get {S} : M S S := λ w, (Ok (obj w), w).
Definition modify {S} (f : S → S) : M S unit := λ w, (Ok (), mk_world (f (obj w)) (km w) (hist w) (sys w)).
Definition get_km {S} : M S Maps := λ w, (Ok (km w), w).
Definition lift {S A} (r : result A) : M S A := λ w, (r, w).

(** The result of the next bpf call. *)
Definition bpf_result {S} : M S Z := λ w,
  (Ok (hd 0 (sys w)), mk_world (obj w) (km w) (hist w) (tl (sys w))).

(** The maps change, and packets see it. *)
Definition commit {S} (f : Maps → Maps) : M S unit := λ w,
  (Ok (), mk_world (obj w) (f (km w)) (hist w ++ [f (km w)]) (sys w)).

(** A bpf call that writes the maps when it succeeds. *)
Definition map_write {S} (f : Maps → Maps) : M S Z :=
  err ← bpf_result;
  if err =? 0 then _ ← commit f; mret err else mret err.

(** if (int err = bpf_map_update_elem(...)) throw std::runtime_error(msg); *)
Definition checked_write {S} (f : Maps → Maps) (msg : Z → str) : M S unit :=
  err ← map_write f;
  if err =? 0 then mret () else throw (runtime_error (msg err)).

(** for (x : l) body(x); *)
Fixpoint m_for {S A} (l : list A) (body : A → M S unit) : M S unit :=
  match l with
  | [] => mret ()
  | x :: l => _ ← body x; m_for l body
  end.

(** Run a method of a member object. *)
Definition on {S T A} (proj : S → T) (upd : T → S → S) (p : M T A) : M S A := λ w,
  let '(r, w') := p (mk_world (proj (obj w)) (km w) (hist w) (sys w)) in
  (r, mk_world (upd (obj w') (obj w)) (km w') (hist w') (sys w')).

(** std::strerror(err < 0 ? -err : err) *)
Definition errstr (e : CEnv) (err : Z) : str := strerror e (if err <? 0 then - err else err).

(** MapReader::reset_counters and reset_real_counters: zeroes on every CPU;
    errors are ignored. *)
Definition reset_counters {S} (e : CEnv) (index : Z) : M S unit :=
  _ ← map_write (set_stats (λ l, <[Z.to_nat index := replicate (possible_cpus e) pb_stats0]> l)); mret ().
Definition reset_real_counters {S} (e : CEnv) (real_id : Z) : M S unit :=
  _ ← map_write (set_real_stats (λ l, <[Z.to_nat real_id := replicate (possible_cpus e) real_stats0]> l)); mret ().

(** ** Partial correctness with exceptions

    [triple P p Q E]: run from a world in [P], [p] returns a value in a world
    in [Q] or throws in a world in [E]. *)
Definition triple {S A} (P : World S → Prop) (p : M S A) (Q : A → World S → Prop) (E : exn → World S → Prop) : Prop :=
  ∀ w, P w → match p w with (Ok a, w') => Q a w' | (Throw e, w') => E e w' end.

Section triple.
Context {S : Type}.
Implicit Types (P : World S → Prop) (E : exn → World S → Prop).

Lemma triple_ret {A} P (a : A) (Q : A → World S → Prop) E : (∀ w, P w → Q a w) → triple P (mret a) Q E.
Proof. intros H w Hw. by apply H. Qed.

Lemma triple_throw {A} P e (Q : A → World S → Prop) E : (∀ w, P w → E e w) → triple P (throw e) Q E.
Proof. intros H w Hw. by apply H. Qed.

Lemma triple_bind {A B} P (p : M S A) (k : A → M S B) (R : A → World S → Prop) Q E :
  triple P p R E → (∀ a, triple (R a) (k a) Q E) → triple P (p ≫= k) Q E.
Proof.
  intros Hp Hk w Hw. specialize (Hp w Hw). unfold mbind, M_bind.
  destruct (p w) as [[a | e] w']; [by apply Hk | done].
Qed.

Lemma triple_conseq {A} P P' (p : M S A) (Q Q' : A → World S → Prop) E E' :
  triple P' p Q' E' → (∀ w, P w → P' w) → (∀ a w, Q' a w → Q a w) → (∀ e w, E' e w → E e w) → triple P p Q E.
Proof.
  intros H HP HQ HE w Hw. specialize (H w (HP w Hw)). destruct (p w) as [[a | e] w']; auto.
Qed.

Lemma triple_for {A} (Inv : World S → Prop) (l : list A) (body : A → M S unit) E :
  (∀ x, x ∈ l → triple Inv (body x) (λ _, Inv) E) → triple Inv (m_for l body) (λ _, Inv) E.
Proof.
  induction l as [| x l IH]; intros H; cbn [m_for]; [by apply triple_ret |].
  eapply triple_bind; [apply H, list_elem_of_here |]. intros []. apply IH.
  intros y Hy. by apply H, list_elem_of_further.
Qed.

End triple.

(** ** Runs in which no bpf call fails *)

Definition calm {S} (w : World S) : Prop := Forall (λ err, err = 0) (sys w).

Lemma map_write_run {S} (f : Maps → Maps) (w : World S) :
  ∃ err w', map_write f w = (Ok err, w') ∧ obj w' = obj w ∧
    (err = 0 ∧ km w' = f (km w) ∧ hist w' = hist w ++ [f (km w)] ∨
     err ≠ 0 ∧ km w' = km w ∧ hist w' = hist w) ∧
    (calm w → err = 0 ∧ calm w').
Proof.
  destruct w as [o m h s]. unfold map_write, bpf_result, commit, mbind, M_bind, calm. cbn [sys].
  destruct s as [| x s]; cbn [hd tl].
  - simpl. do 2 eexists. split; [reflexivity |]. cbn. split_and!; [done | by left | done].
  - destruct (Z.eqb_spec x 0) as [-> | Hx]; do 2 eexists; (split; [reflexivity |]); cbn; split_and!; try done.
    + by left.
    + by intros [_ ?]%Forall_cons.
    + by right.
    + by intros [? ?]%Forall_cons.
Qed.

Lemma checked_write_run {S} (f : Maps → Maps) msg (w : World S) :
  ∃ r w', checked_write f msg w = (r, w') ∧ obj w' = obj w ∧
    match r with
    | Ok _ => km w' = f (km w) ∧ hist w' = hist w ++ [f (km w)]
    | Throw ex => (∃ m, ex = runtime_error m) ∧ km w' = km w ∧ hist w' = hist w
    end ∧ (calm w → r = Ok () ∧ calm w').
Proof.
  destruct (map_write_run f w) as (err & w1 & H & O & [(-> & K & Hh) | (Hne & K & Hh)] & C);
    unfold checked_write, mbind, M_bind; rewrite H.
  - do 2 eexists. split; [reflexivity |]. split_and!; try done. by intros [_ ?]%C.
  - destruct (Z.eqb_spec err 0); [done |]. do 2 eexists. split; [reflexivity |].
    split_and!; eauto. by intros [? _]%C.
Qed.

Lemma bpf_result_run {S} (w : World S) :
  ∃ err w', bpf_result w = (Ok err, w') ∧ obj w' = obj w ∧ km w' = km w ∧ hist w' = hist w ∧
            (calm w → err = 0 ∧ calm w').
Proof.
  destruct w as [o m h s]. unfold bpf_result, calm. cbn [obj km hist sys]. do 2 eexists. split; [reflexivity |].
  cbn [obj km hist sys]. split_and!; try done. destruct s; cbn [hd tl]; [done | by intros [? ?]%Forall_cons].
Qed.

(** Sequencing of runs. *)
Lemma bind_run {S A B} (p : M S A) (k : A → M S B) w a w' : p w = (Ok a, w') → (p ≫= k) w = k a w'.
Proof. intros H. unfold mbind, M_bind. by rewrite H. Qed.

Lemma bind_throw {S A B} (p : M S A) (k : A → M S B) w e w' : p w = (Throw e, w') → (p ≫= k) w = (Throw e, w').
Proof. intros H. unfold mbind, M_bind. by rewrite H. Qed.

Lemma bind_get {S B} (k : S → M S B) w : (get ≫= k) w = k (obj w) w.
Proof. done. Qed.
Lemma bind_get_km {S B} (k : Maps → M S B) w : (get_km ≫= k) w = k (km w) w.
Proof. done. Qed.
Lemma bind_modify {S B} f (k : unit → M S B) w :
  (modify f ≫= k) w = k () (mk_world (f (obj w)) (km w) (hist w) (sys w)).
Proof. done. Qed.

(** A world with another object. *)
Definition with_obj {S} (o : S) (w : World S) : World S := mk_world o (km w) (hist w) (sys w).
