(* ===== verification/RealTable.v ===== *)
(** * Real ids and MACs (src/daemon/real_table.{h,cpp})

    [Mac] and the [RealTable] that owns the [reals] and [neigh] arrays: one id
    per address with a reference count, ids handed out by a cursor that walks
    around the array, and map writes in the order the data plane needs. *)

From Stdlib Require Import ZArith Lia Ascii String.
From S2P Require Import Prelude Abi VipSpec Control.

(** ** Mac *)

Module Mac.

Definition hex_val (c : ascii) : option Z :=
  let n := Z.of_nat (nat_of_ascii c) in
  if (48 <=? n) && (n <=? 57) then Some (n - 48)
  else if (97 <=? n) && (n <=? 102) then Some (n - 87)
  else if (65 <=? n) && (n <=? 70) then Some (n - 55)
  else None.

Definition isspace (c : ascii) : bool :=
  let n := Z.of_nat (nat_of_ascii c) in (n =? 32) || ((9 <=? n) && (n <=? 13)).

Fixpoint skip_space (s : str) : str :=
  match s with
  | c :: s' => if isspace c then skip_space s' else s
  | [] => []
  end.

(** The longest run of hex digits: their value and what follows. *)
Fixpoint hex_run (s : str) (acc : Z) : Z * str :=
  match s with
  | c :: s' => match hex_val c with Some d => hex_run s' (16 * acc + d) | None => (acc, s) end
  | [] => (acc, [])
  end.

(** sscanf's %x: white space, an optional sign, an optional 0x, hex digits; the
    value saturates at unsigned long and is stored as unsigned. *)
Definition scan_x (s : str) : option (Z * str) :=
  let s := skip_space s in
  let '(neg, s) := match s with
                   | "-"%char :: s => (true, s)
                   | "+"%char :: s => (false, s)
                   | _ => (false, s)
                   end in
  let s := match s with
           | "0"%char :: "x"%char :: s => s
           | "0"%char :: "X"%char :: s => s
           | _ => s
           end in
  match s with
  | c :: _ =>
      match hex_val c with
      | None => None
      | Some _ =>
          let '(v, rest) := hex_run s 0 in
          let v := Z.min v (2 ^ 64 - 1) in
          Some (u32 (if neg : bool then u64 (- v) else v), rest)
      end
  | [] => None
  end.

Definition lit (c : ascii) (s : str) : option str :=
  match s with
  | d :: s => if bool_decide (c = d) then Some s else None
  | [] => None
  end.

(** The C string in a std::string: up to the first NUL. *)
Fixpoint c_str (s : str) : str :=
  match s with
  | c :: s => if bool_decide (c = zero) then [] else c :: c_str s
  | [] => []
  end.

Definition parse (s : str) : option pb_mac :=
  '(b0, s) ← scan_x (c_str s); s ← lit ":" s;
  '(b1, s) ← scan_x s; s ← lit ":" s;
  '(b2, s) ← scan_x s; s ← lit ":" s;
  '(b3, s) ← scan_x s; s ← lit ":" s;
  '(b4, s) ← scan_x s; s ← lit ":" s;
  '(b5, s) ← scan_x s;
  match s with
  | [] => if forallb (λ b, b <=? 0xff) [b0; b1; b2; b3; b4; b5]
          then Some (mk_pb_mac b0 b1 b2 b3 b4 b5) else None
  | _ => None                           (* %c matched: a seventh conversion *)
  end.

Definition hex_char (d : Z) : ascii := ascii_of_nat (Z.to_nat (if d <? 10 then 48 + d else 87 + d)).

(** %02x of a byte. *)
Definition hex2 (b : Z) : str := [hex_char (b / 16); hex_char (b mod 16)].

Definition to_str (m : pb_mac) : str :=
  hex2 (mac0 m) ++ ":"%char :: hex2 (mac1 m) ++ ":"%char :: hex2 (mac2 m) ++ ":"%char ::
  hex2 (mac3 m) ++ ":"%char :: hex2 (mac4 m) ++ ":"%char :: hex2 (mac5 m).

Definition is_zero (m : pb_mac) : bool :=
  forallb (λ b, b =? 0) [mac0 m; mac1 m; mac2 m; mac3 m; mac4 m; mac5 m].

Definition valid (m : pb_mac) : Prop :=
  Forall (is_u 8) [mac0 m; mac1 m; mac2 m; mac3 m; mac4 m; mac5 m].

(** A printed byte scans back, before a colon and at the end. *)
Lemma scan_hex2 b rest :
  is_u 8 b →
  scan_x (hex2 b ++ ":"%char :: rest) = Some (b, ":"%char :: rest) ∧ scan_x (hex2 b) = Some (b, []).
Proof.
  intros Hb. unfold is_u in Hb. rewrite <-(Z2Nat.id b) by lia.
  assert (Z.to_nat b < 256)%nat as Hn by lia. generalize dependent (Z.to_nat b). clear b Hb. intros n Hn.
  do 256 (destruct n as [| n]; [split; reflexivity |]). lia.
Qed.

Lemma c_str_id s : zero ∉ s → c_str s = s.
Proof.
  induction s as [| c s IH]; intros Hz; [done |]. apply not_elem_of_cons in Hz as [H1 H2]. cbn [c_str].
  rewrite bool_decide_eq_false_2 by done. by rewrite IH.
Qed.

Lemma hex2_not_nul b : is_u 8 b → zero ∉ hex2 b.
Proof.
  intros Hb. unfold is_u in Hb. rewrite <-(Z2Nat.id b) by lia.
  assert (Z.to_nat b < 256)%nat as Hn by lia. generalize dependent (Z.to_nat b). clear b Hb. intros n Hn.
  do 256 (destruct n as [| n]; [decide_closed |]). lia.
Qed.

Lemma lit_colon s : lit ":" (":"%char :: s) = Some s.
Proof. done. Qed.

Lemma mac_parse_to_str m : valid m → parse (to_str m) = Some m.
Proof.
  destruct m as [b0 b1 b2 b3 b4 b5]. unfold valid. cbn [mac0 mac1 mac2 mac3 mac4 mac5].
  rewrite !Forall_cons. intros (H0 & H1 & H2 & H3 & H4 & H5 & _). unfold parse, to_str.
  cbn [mac0 mac1 mac2 mac3 mac4 mac5]. rewrite c_str_id.
  2: { repeat (rewrite not_elem_of_app || rewrite not_elem_of_cons).
       split_and!; done || by apply hex2_not_nul. }
  rewrite (proj1 (scan_hex2 b0 _ H0)). cbn [mbind option_bind]. rewrite lit_colon. cbn [mbind option_bind].
  rewrite (proj1 (scan_hex2 b1 _ H1)). cbn [mbind option_bind]. rewrite lit_colon. cbn [mbind option_bind].
  rewrite (proj1 (scan_hex2 b2 _ H2)). cbn [mbind option_bind]. rewrite lit_colon. cbn [mbind option_bind].
  rewrite (proj1 (scan_hex2 b3 _ H3)). cbn [mbind option_bind]. rewrite lit_colon. cbn [mbind option_bind].
  rewrite (proj1 (scan_hex2 b4 _ H4)). cbn [mbind option_bind]. rewrite lit_colon. cbn [mbind option_bind].
  rewrite (proj2 (scan_hex2 b5 [] H5)). cbn [mbind option_bind forallb].
  unfold is_u in *. by rewrite !(proj2 (Z.leb_le _ _)) by lia.
Qed.

(** A MAC address printed as aa:bb:cc:dd:ee:ff parses back to itself. *)
Theorem mac_roundtrip (m : pb_mac) :
  Forall (is_u 8) [mac0 m; mac1 m; mac2 m; mac3 m; mac4 m; mac5 m] → parse (to_str m) = Some m.
Proof. apply mac_parse_to_str. Qed.

Lemma mac_roundtrip_witness :
  parse (to_str (mk_pb_mac 2 0x42 0xac 0x11 0 0xff)) = Some (mk_pb_mac 2 0x42 0xac 0x11 0 0xff).
Proof. apply mac_roundtrip. decide_closed. Defined.

End Mac.

(** ** RealTable *)

Module RealTable.

(** addr = 0: free. *)
Record Slot := mk_slot {
  s_addr : Z;
  s_refs : Z;
  s_mac : option pb_mac
}.

#[global] Instance Slot_eq_dec : EqDecision Slot.
Proof. solve_decision. Defined.

Definition Slot0 : Slot := mk_slot 0 0 None.

Record t := mk {
  slots : list Slot;
  by_addr : gmap Z Z;
  cursor : Z
}.

(** slots_[id]; ids are in range, which [inv] shows. *)
Definition slot (tb : t) (id : Z) : Slot := default Slot0 (slots tb !! Z.to_nat id).
Definition set_slot (id : Z) (s : Slot) (tb : t) : t :=
  mk (<[Z.to_nat id := s]> (slots tb)) (by_addr tb) (cursor tb).
Definition set_by_addr (f : gmap Z Z → gmap Z Z) (tb : t) : t := mk (slots tb) (f (by_addr tb)) (cursor tb).
Definition set_cursor (c : Z) (tb : t) : t := mk (slots tb) (by_addr tb) c.

Definition fresh : t := mk (replicate (Z.to_nat PB_MAX_REALS) Slot0) ∅ 1.

Definition idx_str (id : Z) : str := VipSpec.to_string id.

Definition write_neigh (e : CEnv) (id : Z) (m : pb_mac) : M t unit :=
  checked_write (set_neigh (λ l, <[Z.to_nat id := m]> l))
    (λ err, §"write neigh[" ++ idx_str id ++ §"]: " ++ strerror e (- err)).

Definition write_real (e : CEnv) (id : Z) (r : pb_real) : M t unit :=
  checked_write (set_reals (λ l, <[Z.to_nat id := r]> l))
    (λ err, §"write reals[" ++ idx_str id ++ §"]: " ++ strerror e (- err)).

Definition write_slot (e : CEnv) (id : Z) : M t unit :=
  tb ← get;
  let s := slot tb id in
  let m := default mac_zero (s_mac s) in
  let r := mk_pb_real (s_addr s) 0 in
  if negb (s_addr s =? 0) then
    _ ← write_neigh e id m; write_real e id r
  else
    _ ← write_real e id r; write_neigh e id m.

Definition ids : list Z := seqZ 1 (PB_MAX_REALS - 1).

(** One id of adopt's loop; the accumulator is [highest]. *)
Definition adopt_one (highest id : Z) : M t Z :=
  err ← bpf_result;
  m ← get_km;
  let r := default real0 (reals m !! Z.to_nat id) in
  if negb (err =? 0) || (r_addr r =? 0) then mret highest else
  err ← bpf_result;
  let mac := default mac_zero (neigh m !! Z.to_nat id) in
  tb ← get;
  let old := s_mac (slot tb id) in
  let new := if (err =? 0) && negb (Mac.is_zero mac) then Some mac else old in
  _ ← modify (set_slot id (mk_slot (r_addr r) (s_refs (slot tb id)) new));
  _ ← modify (set_by_addr <[r_addr r := id]>);
  mret id.

Fixpoint adopt_loop (l : list Z) (highest : Z) : M t Z :=
  match l with
  | [] => mret highest
  | id :: l => h ← adopt_one highest id; adopt_loop l h
  end.

Definition adopt : M t unit :=
  highest ← adopt_loop ids 0;
  modify (set_cursor (if highest + 1 <? PB_MAX_REALS then highest + 1 else 1)).

Definition drop_unreferenced (e : CEnv) : M t unit :=
  m_for ids (λ id,
    tb ← get;
    let s := slot tb id in
    if (s_addr s =? 0) || (0 <? s_refs s) then mret () else
    _ ← modify (set_by_addr (delete (s_addr s)));
    _ ← modify (set_slot id Slot0);
    write_slot e id).

Definition too_many_reals : exn :=
  runtime_error (§"too many reals (max " ++ VipSpec.to_string (PB_MAX_REALS - 1) ++ §")").

(** The search for a free slot, [n] more probes. *)
Fixpoint acquire_loop (e : CEnv) (n : nat) (addr : Z) : M t Z :=
  match n with
  | O => throw too_many_reals
  | S n =>
      tb ← get;
      let id := cursor tb in
      _ ← modify (set_cursor (if id + 1 <? PB_MAX_REALS then id + 1 else 1));
      if negb (s_addr (slot tb id) =? 0) then acquire_loop e n addr else
      _ ← modify (set_slot id (mk_slot addr 1 None));
      _ ← modify (set_by_addr <[addr := id]>);
      _ ← reset_real_counters e id;
      _ ← write_slot e id;
      mret id
  end.

Definition acquire (e : CEnv) (addr : Z) : M t Z :=
  if addr =? 0 then throw (invalid_argument §"real address 0.0.0.0 marks a free slot") else
  tb ← get;
  match by_addr tb !! addr with
  | Some id =>
      let s := slot tb id in
      _ ← modify (set_slot id (mk_slot (s_addr s) (u32 (s_refs s + 1)) (s_mac s)));
      mret id
  | None => acquire_loop e (Z.to_nat (PB_MAX_REALS - 1)) addr
  end.

Definition release (e : CEnv) (addr : Z) : M t unit :=
  tb ← get;
  match by_addr tb !! addr with
  | None => mret ()
  | Some id =>
      let s := slot tb id in
      let refs := if 0 <? s_refs s then u32 (s_refs s - 1) else s_refs s in
      if (0 <? s_refs s) && (0 <? refs)
      then modify (set_slot id (mk_slot (s_addr s) refs (s_mac s)))
      else
        _ ← modify (set_by_addr (delete addr));
        _ ← modify (set_slot id Slot0);
        write_slot e id
  end.

Definition id_of (tb : t) (addr : Z) : option Z := by_addr tb !! addr.

Definition addr_of (tb : t) (real_id : Z) : option Z :=
  if (real_id =? 0) || (PB_MAX_REALS <=? real_id) || (s_addr (slot tb real_id) =? 0)
  then None else Some (s_addr (slot tb real_id)).

(** The keys of [by_addr_], ascending. *)
Definition addrs (tb : t) : list Z := merge_sort Z.le (map_to_list (by_addr tb)).*1.

Definition mac_of (tb : t) (addr : Z) : option pb_mac :=
  id ← id_of tb addr; s_mac (slot tb id).

(** The MAC changed (including first set). *)
Definition set_mac (e : CEnv) (addr : Z) (mac : pb_mac) : M t bool :=
  tb ← get;
  match id_of tb addr with
  | None => mret false
  | Some id =>
      let s := slot tb id in
      if bool_decide (s_mac s = Some mac) then mret false else
      _ ← modify (set_slot id (mk_slot (s_addr s) (s_refs s) (Some mac)));
      _ ← write_slot e id;
      mret true
  end.

(** ** Invariants *)

(** The table: ids 1..511, one per address, free slots empty. *)
Record inv (tb : t) : Prop := {
  inv_len : length (slots tb) = Z.to_nat PB_MAX_REALS;
  inv_cursor : 1 <= cursor tb < PB_MAX_REALS;
  inv_zero : slot tb 0 = Slot0;
  inv_ids : ∀ a id, by_addr tb !! a = Some id ↔ 1 <= id < PB_MAX_REALS ∧ a ≠ 0 ∧ s_addr (slot tb id) = a;
  inv_free : ∀ id, s_addr (slot tb id) = 0 → slot tb id = Slot0;
  inv_refs : ∀ id, is_u 32 (s_refs (slot tb id))
}.

(** The kernel arrays hold what the table says. *)
Definition real_of_slot (s : Slot) : pb_real := mk_pb_real (s_addr s) 0.
Definition mac_of_slot (s : Slot) : pb_mac := default mac_zero (s_mac s).

Record mirror (tb : t) (m : Maps) : Prop := {
  mir_reals : reals m = real_of_slot <$> slots tb;
  mir_neigh : neigh m = mac_of_slot <$> slots tb
}.

(** ** Lemmas: slots *)

Lemma slot_set_eq tb id s : 0 <= id < Z.of_nat (length (slots tb)) → slot (set_slot id s tb) id = s.
Proof. intros Hid. unfold slot, set_slot. cbn [slots]. by rewrite list_lookup_insert_eq by lia. Qed.

Lemma slot_set_ne tb id id' s : 0 <= id → 0 <= id' → id ≠ id' → slot (set_slot id s tb) id' = slot tb id'.
Proof. intros H1 H2 Hne. unfold slot, set_slot. cbn [slots]. by rewrite list_lookup_insert_ne by lia. Qed.

Lemma slot_set tb id id' s :
  0 <= id < Z.of_nat (length (slots tb)) → 0 <= id' →
  slot (set_slot id s tb) id' = if decide (id = id') then s else slot tb id'.
Proof.
  intros H1 H2. destruct (decide (id = id')) as [<- | Hne]; [by apply slot_set_eq | apply slot_set_ne; lia].
Qed.

Lemma slot_neg tb id : id < 0 → slot tb id = slot tb 0.
Proof. intros H. unfold slot. by replace (Z.to_nat id) with (Z.to_nat 0) by lia. Qed.

(** Two ids of the table are different iff their addresses are. *)
Lemma inv_inj tb id id' :
  inv tb → 1 <= id < PB_MAX_REALS → 1 <= id' < PB_MAX_REALS → s_addr (slot tb id) ≠ 0 →
  s_addr (slot tb id) = s_addr (slot tb id') → id = id'.
Proof.
  intros Hi H1 H2 H0 E.
  assert (by_addr tb !! s_addr (slot tb id) = Some id) as E1 by (by apply (inv_ids _ Hi)).
  assert (by_addr tb !! s_addr (slot tb id) = Some id') as E2
    by (apply (inv_ids _ Hi); split_and!; congruence || lia).
  congruence.
Qed.

Lemma inv_id tb a id : inv tb → by_addr tb !! a = Some id → 1 <= id < PB_MAX_REALS ∧ a ≠ 0 ∧ s_addr (slot tb id) = a.
Proof. intros Hi. apply (inv_ids _ Hi). Qed.

Lemma inv_fresh : inv fresh.
Proof.
  assert (∀ id, slot fresh id = Slot0) as Hs.
  { intros id. unfold slot, fresh. cbn [slots].
    destruct (replicate _ Slot0 !! Z.to_nat id) eqn:E; [| done]. by apply lookup_replicate in E as [-> _]. }
  split; try done.
  - intros a id. rewrite Hs. cbn. rewrite lookup_empty. split; [done |]. intros (_ & H0 & E). by destruct H0.
  - intros id. rewrite Hs. by vm_compute.
Qed.

(** Filling a free slot. *)
Lemma inv_fill tb a id mac refs :
  inv tb → 1 <= id < PB_MAX_REALS → a ≠ 0 → by_addr tb !! a = None → slot tb id = Slot0 → is_u 32 refs →
  inv (set_by_addr <[a := id]> (set_slot id (mk_slot a refs mac) tb)).
Proof.
  intros Hi Hid Ha Hno Hfree Hrefs. pose proof (inv_len _ Hi) as Hl. unfold PB_MAX_REALS in *.
  assert (∀ id', 0 <= id' → slot (set_by_addr <[a := id]> (set_slot id (mk_slot a refs mac) tb)) id'
                 = if decide (id = id') then mk_slot a refs mac else slot tb id') as Hs.
  { intros id' Hid'. change (slot (set_slot id (mk_slot a refs mac) tb) id' = if decide (id = id') then mk_slot a refs mac else slot tb id').
    apply slot_set; lia. }
  split.
  - cbn. by rewrite length_insert.
  - apply (inv_cursor _ Hi).
  - rewrite Hs by lia. rewrite decide_False by lia. apply (inv_zero _ Hi).
  - intros a' id'. cbn [by_addr set_by_addr set_slot]. rewrite lookup_insert.
    destruct (decide (a = a')) as [<- | Hne].
    + split.
      * intros [= <-]. rewrite Hs, decide_True by lia. done.
      * intros (H1 & H2 & H3). rewrite Hs in H3 by lia. destruct (decide (id = id')); [congruence |].
        assert (by_addr tb !! a = Some id') by (by apply (inv_ids _ Hi)). congruence.
    + rewrite (inv_ids _ Hi). split; intros (H1 & H2 & H3); split_and!; try done; try lia.
      * rewrite Hs by lia. rewrite decide_False; [done |]. intros <-. rewrite Hfree in H3. cbn in H3. congruence.
      * rewrite Hs in H3 by lia. destruct (decide (id = id')); [cbn in H3; congruence | done].
  - intros id'. destruct (decide (0 <= id')); [| rewrite (slot_neg _ id'), (Hs 0), decide_False by lia; apply (inv_free _ Hi)].
    rewrite Hs by lia. destruct (decide (id = id')); [done | apply (inv_free _ Hi)].
  - intros id'. destruct (decide (0 <= id')); [| rewrite (slot_neg _ id'), (Hs 0), decide_False by lia; apply (inv_refs _ Hi)].
    rewrite Hs by lia. destruct (decide (id = id')); [done | apply (inv_refs _ Hi)].
Qed.

(** Changing the references or the MAC of a slot in use. *)
Lemma inv_update tb id refs mac :
  inv tb → 1 <= id < PB_MAX_REALS → s_addr (slot tb id) ≠ 0 → is_u 32 refs →
  inv (set_slot id (mk_slot (s_addr (slot tb id)) refs mac) tb).
Proof.
  intros Hi Hid Ha Hrefs. pose proof (inv_len _ Hi) as Hl. unfold PB_MAX_REALS in *.
  assert (∀ id', 0 <= id' → slot (set_slot id (mk_slot (s_addr (slot tb id)) refs mac) tb) id'
                 = if decide (id = id') then mk_slot (s_addr (slot tb id)) refs mac else slot tb id') as Hs.
  { intros id' Hid'. apply slot_set; lia. }
  split.
  - cbn. by rewrite length_insert.
  - apply (inv_cursor _ Hi).
  - rewrite Hs, decide_False by lia. apply (inv_zero _ Hi).
  - intros a' id'. cbn [by_addr set_slot]. rewrite (inv_ids _ Hi).
    split; intros (H1 & H2 & H3); split_and!; try done; try lia.
    + rewrite Hs by lia. destruct (decide (id = id')) as [<- | ]; done.
    + rewrite Hs in H3 by lia. destruct (decide (id = id')) as [<- | ]; done.
  - intros id'. destruct (decide (0 <= id')); [| rewrite (slot_neg _ id'), (Hs 0), decide_False by lia; apply (inv_free _ Hi)].
    rewrite Hs by lia. destruct (decide (id = id')); [done | apply (inv_free _ Hi)].
  - intros id'. destruct (decide (0 <= id')); [| rewrite (slot_neg _ id'), (Hs 0), decide_False by lia; apply (inv_refs _ Hi)].
    rewrite Hs by lia. destruct (decide (id = id')); [done | apply (inv_refs _ Hi)].
Qed.

(** Freeing a slot. *)
Lemma inv_clear tb a id :
  inv tb → by_addr tb !! a = Some id → inv (set_slot id Slot0 (set_by_addr (delete a) tb)).
Proof.
  intros Hi Ha. destruct (inv_id _ _ _ Hi Ha) as (Hid & Ha0 & Hs0). pose proof (inv_len _ Hi) as Hl.
  unfold PB_MAX_REALS in *.
  assert (∀ id', 0 <= id' → slot (set_slot id Slot0 (set_by_addr (delete a) tb)) id'
                 = if decide (id = id') then Slot0 else slot tb id') as Hs.
  { intros id' Hid'. apply (slot_set (set_by_addr (delete a) tb)); [cbn; lia | lia]. }
  split.
  - cbn. by rewrite length_insert.
  - apply (inv_cursor _ Hi).
  - rewrite Hs by lia. destruct (decide (id = 0)); [done | apply (inv_zero _ Hi)].
  - intros a' id'. cbn [by_addr set_slot set_by_addr]. rewrite lookup_delete_Some, (inv_ids _ Hi).
    split.
    + intros (Hne & H1 & H2 & H3). rewrite Hs by lia. rewrite decide_False by congruence. done.
    + intros (H1 & H2 & H3). rewrite Hs in H3 by lia. destruct (decide (id = id')) as [E | E]; [cbn in H3; congruence |].
      split_and!; try done; try lia. intros <-. apply E, (inv_inj tb); try done; congruence.
  - intros id'. destruct (decide (0 <= id')).
    + rewrite Hs by lia. destruct (decide (id = id')); [done | apply (inv_free _ Hi)].
    + rewrite (slot_neg _ id'), (Hs 0), decide_False by lia. apply (inv_free _ Hi).
  - intros id'. destruct (decide (0 <= id')).
    + rewrite Hs by lia. destruct (decide (id = id')); [by vm_compute | apply (inv_refs _ Hi)].
    + rewrite (slot_neg _ id'), (Hs 0), decide_False by lia. apply (inv_refs _ Hi).
Qed.

Lemma inv_set_cursor tb c : inv tb → 1 <= c < PB_MAX_REALS → inv (set_cursor c tb).
Proof. intros [] Hc. by split. Qed.

(** ** Lemmas: map writes *)

(** The maps after the first and after the second write of write_slot. *)
Definition first_write (s : Slot) (id : Z) (m : Maps) : Maps :=
  if s_addr s =? 0 then set_reals (λ l, <[Z.to_nat id := real_of_slot s]> l) m
  else set_neigh (λ l, <[Z.to_nat id := mac_of_slot s]> l) m.
Definition both_writes (s : Slot) (id : Z) (m : Maps) : Maps :=
  set_reals (λ l, <[Z.to_nat id := real_of_slot s]> l) (set_neigh (λ l, <[Z.to_nat id := mac_of_slot s]> l) m).

Lemma write_slot_run e id w :
  ∃ r w', write_slot e id w = (r, w') ∧ obj w' = obj w ∧
    let s := slot (obj w) id in
    match r with
    | Ok _ => hist w' = hist w ++ [first_write s id (km w); both_writes s id (km w)] ∧
              km w' = both_writes s id (km w)
    | Throw ex => (∃ msg, ex = runtime_error msg) ∧
        (hist w' = hist w ∧ km w' = km w ∨
         hist w' = hist w ++ [first_write s id (km w)] ∧ km w' = first_write s id (km w))
    end ∧ (calm w → r = Ok () ∧ calm w').
Proof.
  unfold write_slot. rewrite bind_get. set (s := slot (obj w) id).
  assert (∀ f g mf mg, f (g (km w)) = both_writes s id (km w) → g (km w) = first_write s id (km w) →
    ∃ r w', (_ ← checked_write g mg; checked_write f mf) w = (r, w') ∧ obj w' = obj w ∧
    match r with
    | Ok _ => hist w' = hist w ++ [first_write s id (km w); both_writes s id (km w)] ∧
              km w' = both_writes s id (km w)
    | Throw ex => (∃ msg, ex = runtime_error msg) ∧
        (hist w' = hist w ∧ km w' = km w ∨
         hist w' = hist w ++ [first_write s id (km w)] ∧ km w' = first_write s id (km w))
    end ∧ (calm w → r = Ok () ∧ calm w')) as H.
  { intros f g mf mg <- <-.
    destruct (checked_write_run g mg w) as ([[] | ex] & w1 & H1 & O1 & P1 & C1).
    2: { erewrite bind_throw by exact H1. do 2 eexists. split; [reflexivity |]. destruct P1 as (? & ? & ?).
         split_and!; [done | done | by left | by intros [? _]%C1]. }
    destruct P1 as [K1 S1]. erewrite bind_run by exact H1.
    destruct (checked_write_run f mf w1) as ([[] | ex] & w2 & H2 & O2 & P2 & C2); rewrite H2;
      do 2 eexists; (split; [reflexivity |]); rewrite O2, O1, K1, S1 in *.
    - destruct P2 as [K2 S2]. rewrite S2, <-app_assoc. split_and!; try done. by intros [_ [_ ?]%C2]%C1.
    - destruct P2 as (? & K2 & S2). split_and!; [done | done | by right | by intros [_ [? _]%C2]%C1]. }
  unfold write_real, write_neigh, first_write in *.
  destruct (s_addr s =? 0); cbn [negb]; by apply H.
Qed.

(** ** What packets see of a slot *)

(** The arrays show exactly this slot at this id. *)
Definition shows (m : Maps) (s : Slot) (id : Z) : Prop :=
  reals m !! Z.to_nat id = Some (real_of_slot s) ∧ neigh m !! Z.to_nat id = Some (mac_of_slot s).

(** While a table changes from [tb] to [tb'], a packet that looks an id up
    sees the old slot or the new one, whole, or an empty one where the address
    changes. *)
Definition between (tb tb' : t) (m : Maps) : Prop :=
  ∀ id, 0 <= id < PB_MAX_REALS →
    shows m (slot tb id) id ∨ shows m (slot tb' id) id ∨
    (s_addr (slot tb id) ≠ s_addr (slot tb' id) ∧ reals m !! Z.to_nat id = Some real0).

Lemma mirror_shows tb m :
  length (slots tb) = Z.to_nat PB_MAX_REALS →
  mirror tb m ↔
  length (reals m) = Z.to_nat PB_MAX_REALS ∧ length (neigh m) = Z.to_nat PB_MAX_REALS ∧
  ∀ id, 0 <= id < PB_MAX_REALS → shows m (slot tb id) id.
Proof.
  intros Hl. assert (∀ i, (i < Z.to_nat PB_MAX_REALS)%nat → slots tb !! i = Some (slot tb (Z.of_nat i))) as Hs.
  { intros i Hi. unfold slot. rewrite Nat2Z.id. destruct (lookup_lt_is_Some_2 (slots tb) i) as [x ->]; [lia | done]. }
  split.
  - intros [E1 E2]. rewrite E1, E2, !length_fmap. split_and!; try done. intros id Hid.
    unfold shows. rewrite E1, E2, !list_lookup_fmap, Hs by lia. by rewrite Z2Nat.id by lia.
  - intros (L1 & L2 & H). split; apply list_eq; intros i; rewrite list_lookup_fmap;
      (destruct (decide (i < Z.to_nat PB_MAX_REALS)%nat) as [Hi | Hi];
       [rewrite Hs by done; destruct (H (Z.of_nat i)) as [E1 E2]; [unfold PB_MAX_REALS in *; lia |];
        rewrite Nat2Z.id in *; done
       | rewrite !(proj2 (lookup_ge_None _ _)) by lia; done]).
Qed.

(** A change of one slot that write_slot publishes safely. *)
Definition safe_change (s s' : Slot) : Prop :=
  s = Slot0 ∨ s' = Slot0 ∨ s_addr s = s_addr s'.

Lemma shows_both s id m : 0 <= id → (Z.to_nat id < length (reals m))%nat → (Z.to_nat id < length (neigh m))%nat →
  shows (both_writes s id m) s id.
Proof.
  intros H0 H1 H2. unfold shows, both_writes. cbn [reals neigh set_reals set_neigh].
  by rewrite !list_lookup_insert_eq.
Qed.

Lemma shows_other s s' id id' m :
  0 <= id → 0 <= id' → id ≠ id' → shows m s' id' → shows (first_write s id m) s' id' ∧ shows (both_writes s id m) s' id'.
Proof.
  intros H0 H1 Hne [E1 E2]. unfold shows, first_write, both_writes.
  destruct (s_addr s =? 0); cbn [reals neigh set_reals set_neigh]; rewrite ?list_lookup_insert_ne by lia; done.
Qed.

(** Both states write_slot leaves in the maps are between the two tables. *)
Lemma write_between tb tb' id m :
  length (slots tb) = Z.to_nat PB_MAX_REALS → mirror tb m → 0 <= id < PB_MAX_REALS →
  (∀ id', 0 <= id' < PB_MAX_REALS → id' ≠ id → slot tb' id' = slot tb id') →
  safe_change (slot tb id) (slot tb' id) →
  between tb tb' (first_write (slot tb' id) id m) ∧ between tb tb' (both_writes (slot tb' id) id m).
Proof.
  intros Hl Hm Hid Hoth Hsafe. apply mirror_shows in Hm as (L1 & L2 & Hm); [| done].
  assert (0 <= id ∧ (Z.to_nat id < length (reals m))%nat ∧ (Z.to_nat id < length (neigh m))%nat) as (B0 & B1 & B2)
    by (unfold PB_MAX_REALS in *; lia).
  split; intros id' Hid'; (destruct (decide (id = id')) as [<- | Hne];
    [| left; apply shows_other; [done | apply Hid' | done | by apply Hm]]).
  2: { right. left. by apply shows_both. }
  destruct (Hm id Hid) as [E1 E2]. unfold first_write.
  destruct (Z.eqb_spec (s_addr (slot tb' id)) 0) as [Z0 | Z0].
  - destruct (decide (s_addr (slot tb id) = s_addr (slot tb' id))) as [E | E].
    + left. unfold shows. cbn [reals neigh set_reals]. rewrite list_lookup_insert_eq by done.
      unfold real_of_slot. by rewrite E2, E.
    + right. right. split; [done |]. cbn [reals set_reals]. rewrite list_lookup_insert_eq by done.
      unfold real_of_slot, real0. by rewrite Z0.
  - unfold shows. cbn [reals neigh set_neigh]. rewrite list_lookup_insert_eq by done. rewrite E1.
    destruct Hsafe as [E | [E | E]].
    + right. right. split; [rewrite E; intros E'; by rewrite <-E' in Z0 |]. by rewrite E.
    + by rewrite E in Z0.
    + right. left. unfold real_of_slot. by rewrite E.
Qed.

(** The maps the table does not write are the same. *)
Definition same_rest (m m' : Maps) : Prop :=
  vip_map m' = vip_map m ∧ rings m' = rings m ∧ conntrack m' = conntrack m ∧ stats m' = stats m ∧ config m' = config m.

#[global] Instance same_rest_po : PreOrder same_rest.
Proof.
  split; [done |]. intros m1 m2 m3 (? & ? & ? & ? & ?) (? & ? & ? & ? & ?). unfold same_rest. split_and!; congruence.
Qed.

Lemma same_rest_write s id m : same_rest m (first_write s id m) ∧ same_rest m (both_writes s id m).
Proof. unfold first_write, both_writes. by destruct (_ =? 0). Qed.

(** What a method of the table does to the rest of the world. *)
Record step_ok {A} (w : World t) (r : result A) (w' : World t) : Prop := {
  so_inv : inv (obj w');
  so_hist : ∃ ms, hist w' = hist w ++ ms ∧ Forall (λ m, between (obj w) (obj w') m ∧ same_rest (km w) m) ms;
  so_mirror : is_ok r = true → mirror (obj w') (km w');
  so_rest : same_rest (km w) (km w')
}.

Lemma mirror_both tb tb' id m :
  length (slots tb) = Z.to_nat PB_MAX_REALS → length (slots tb') = Z.to_nat PB_MAX_REALS →
  mirror tb m → 0 <= id < PB_MAX_REALS →
  (∀ id', 0 <= id' < PB_MAX_REALS → id' ≠ id → slot tb' id' = slot tb id') →
  mirror tb' (both_writes (slot tb' id) id m).
Proof.
  intros Hl Hl' Hm Hid Hoth. apply mirror_shows in Hm as (L1 & L2 & Hm); [| done].
  apply mirror_shows; [done |]. unfold both_writes. cbn [reals neigh set_reals set_neigh].
  rewrite !length_insert. split_and!; try done. intros id' Hid'. fold (both_writes (slot tb' id) id m).
  destruct (decide (id = id')) as [<- | Hne].
  - apply shows_both; [lia | |]; unfold PB_MAX_REALS in *; lia.
  - rewrite (Hoth id') by (done || congruence). eapply shows_other; [lia | lia | done | by apply Hm].
Qed.

(** A method that changes one slot and publishes it. *)
Lemma publish_step tb e id w :
  length (slots tb) = Z.to_nat PB_MAX_REALS → inv (obj w) → mirror tb (km w) → 0 <= id < PB_MAX_REALS →
  (∀ id', 0 <= id' < PB_MAX_REALS → id' ≠ id → slot (obj w) id' = slot tb id') →
  safe_change (slot tb id) (slot (obj w) id) →
  ∃ r w', write_slot e id w = (r, w') ∧ obj w' = obj w ∧ step_ok (with_obj tb w) r w' ∧
          (calm w → r = Ok () ∧ calm w') ∧ real_stats (km w') = real_stats (km w).
Proof.
  intros Hl Hi Hm Hid Hoth Hsafe.
  destruct (write_slot_run e id w) as (r & w' & H & O & P & C).
  destruct (write_between tb (obj w) id (km w)) as [B1 B2]; try done.
  exists r, w'. split_and!; try done.
  - split; rewrite ?O; try done.
    + destruct r as [[] | ex].
      * destruct P as [Hh _]. eexists. split; [exact Hh |]. rewrite !Forall_cons.
        by split_and!; try apply same_rest_write.
      * destruct P as (_ & [[Hh _] | [Hh _]]); rewrite Hh; [exists [] | eexists]; cbn [hist with_obj].
        -- by rewrite app_nil_r.
        -- split; [done |]. rewrite Forall_cons. by split_and!; try apply same_rest_write.
    + destruct r as [[] | ex]; [| done]. intros _. destruct P as [_ ->]. apply (mirror_both tb); try done.
      by apply inv_len.
    + destruct r as [[] | ex]; [destruct P as [_ ->] | destruct P as (_ & [[_ ->] | [_ ->]])]; try done;
        unfold first_write; by destruct (_ =? 0).
  - destruct r as [[] | ex]; [destruct P as [_ ->] | destruct P as (_ & [[_ ->] | [_ ->]])]; try done;
      unfold first_write; by destruct (_ =? 0).
Qed.

(** ** The methods as functions of the table *)

Definition tb_set_mac (addr : Z) (mac : pb_mac) (tb : t) : t :=
  match by_addr tb !! addr with
  | None => tb
  | Some id => set_slot id (mk_slot (s_addr (slot tb id)) (s_refs (slot tb id)) (Some mac)) tb
  end.

Definition tb_release (addr : Z) (tb : t) : t :=
  match by_addr tb !! addr with
  | None => tb
  | Some id =>
      let s := slot tb id in
      if 1 <? s_refs s then set_slot id (mk_slot (s_addr s) (s_refs s - 1) (s_mac s)) tb
      else set_slot id Slot0 (set_by_addr (delete addr) tb)
  end.

Definition succ_id (id : Z) : Z := if id + 1 <? PB_MAX_REALS then id + 1 else 1.

(** The ids the cursor visits. *)
Fixpoint orbit (n : nat) (c : Z) : list Z :=
  match n with O => [] | S n => c :: orbit n (succ_id c) end.

(** The first free id from the cursor on. *)
Definition next_free (tb : t) : option Z :=
  head (filter (λ id, s_addr (slot tb id) = 0) (orbit (Z.to_nat (PB_MAX_REALS - 1)) (cursor tb))).

Definition tb_fill (addr id : Z) (tb : t) : t :=
  set_by_addr <[addr := id]> (set_slot id (mk_slot addr 1 None) (set_cursor (succ_id id) tb)).

Lemma step_refl {A} w (a : A) tb :
  inv tb → mirror tb (km w) → step_ok w (Ok a) (with_obj tb w).
Proof.
  intros Hi Hm. split; try done. exists []. by rewrite app_nil_r.
Qed.

Lemma mirror_slots tb tb' m :
  real_of_slot <$> slots tb' = real_of_slot <$> slots tb → mac_of_slot <$> slots tb' = mac_of_slot <$> slots tb →
  mirror tb m → mirror tb' m.
Proof. intros E1 E2 [H1 H2]. split; congruence. Qed.

Lemma mirror_refs tb id refs m :
  inv tb → 1 <= id < PB_MAX_REALS → mirror tb m →
  mirror (set_slot id (mk_slot (s_addr (slot tb id)) refs (s_mac (slot tb id))) tb) m.
Proof.
  intros Hi Hid. pose proof (inv_len _ Hi) as Hl. unfold PB_MAX_REALS in *.
  destruct (lookup_lt_is_Some_2 (slots tb) (Z.to_nat id)) as [s Hs]; [lia |].
  assert (slot tb id = s) as E by (unfold slot; by rewrite Hs).
  apply mirror_slots; cbn [slots set_slot]; rewrite list_fmap_insert; apply list_insert_id;
    rewrite list_lookup_fmap, Hs, E; done.
Qed.

Lemma set_mac_run e addr mac w :
  inv (obj w) → mirror (obj w) (km w) →
  ∃ r w', set_mac e addr mac w = (r, w') ∧ obj w' = tb_set_mac addr mac (obj w) ∧ step_ok w r w' ∧
    (∀ b, r = Ok b → b = true ↔ is_Some (by_addr (obj w) !! addr) ∧ mac_of (obj w) addr ≠ Some mac) ∧
    (calm w → is_ok r = true ∧ calm w').
Proof.
  intros Hi Hm. unfold set_mac, tb_set_mac, mac_of, id_of. rewrite bind_get.
  destruct (by_addr (obj w) !! addr) as [id |] eqn:Ea.
  2: { do 2 eexists. split; [reflexivity |]. split_and!; try done.
       - replace w with (with_obj (obj w) w) at 2 by (by destruct w). by apply step_refl.
       - intros b [= <-]. split; [done | by intros [[? ?] _]]. }
  destruct (inv_id _ _ _ Hi Ea) as (Hid & Ha & Hs). set (s := slot (obj w) id) in *.
  case_bool_decide as Hmac.
  { do 2 eexists. split; [reflexivity |]. split_and!; try done.
    - destruct w as [[sl ba cu] m h sy]. cbn in *. unfold set_slot. cbn. f_equal.
      symmetry. apply list_insert_id. unfold s, slot in *. cbn in *. pose proof (inv_len _ Hi) as Hl. cbn in Hl.
      unfold PB_MAX_REALS in *. destruct (lookup_lt_is_Some_2 sl (Z.to_nat id)) as [[a r0 mm] E]; [lia |].
      rewrite E in *. cbn in *. by subst.
    - replace w with (with_obj (obj w) w) at 2 by (by destruct w). by apply step_refl.
    - intros b [= <-]. split; [done | by intros [_ ?]]. }
  rewrite bind_modify. cbn [obj]. set (tb' := set_slot id _ (obj w)). set (w1 := mk_world tb' _ _ _).
  assert (inv tb') as Hi'
    by (apply inv_update; [done | done | by fold s; rewrite Hs | apply (inv_refs _ Hi)]).
  assert (∀ id', 0 <= id' → slot tb' id' = if decide (id = id') then mk_slot (s_addr s) (s_refs s) (Some mac) else slot (obj w) id') as Hsl.
  { intros id' H'. apply slot_set; [rewrite (inv_len _ Hi); unfold PB_MAX_REALS in *; lia | done]. }
  destruct (publish_step (obj w) e id w1) as (r & w2 & H & O & Hstep & C & _); try done.
  - by apply inv_len.
  - lia.
  - intros id' H' Hne. cbn [obj w1]. rewrite Hsl, decide_False by (lia || done). done.
  - right. right. cbn [obj w1]. rewrite Hsl, decide_True by lia. done.
  - destruct r as [[] | ex].
    + erewrite bind_run by exact H. do 2 eexists. split; [reflexivity |]. split_and!; try done.
      * destruct Hstep as [S1 S2 S3 S4]. by split.
      * intros b [= <-]. split; [| done]. eauto.
      * intros Hc. by destruct (C Hc).
    + erewrite bind_throw by exact H. do 2 eexists. split; [reflexivity |]. split_and!; try done.
      * destruct Hstep as [S1 S2 S3 S4]. by split.
      * intros Hc. by destruct (C Hc).
Qed.

Lemma release_run e addr w :
  inv (obj w) → mirror (obj w) (km w) →
  ∃ r w', release e addr w = (r, w') ∧ obj w' = tb_release addr (obj w) ∧ step_ok w r w' ∧
    (calm w → r = Ok () ∧ calm w').
Proof.
  intros Hi Hm. unfold release, tb_release. rewrite bind_get.
  destruct (by_addr (obj w) !! addr) as [id |] eqn:Ea.
  2: { do 2 eexists. split; [reflexivity |]. split_and!; try done.
       replace w with (with_obj (obj w) w) at 2 by (by destruct w). by apply step_refl. }
  destruct (inv_id _ _ _ Hi Ea) as (Hid & Ha & Hs). pose proof (inv_refs _ Hi id) as Hr.
  set (s := slot (obj w) id) in *. unfold is_u in Hr.
  assert ((0 <? s_refs s) && (0 <? (if 0 <? s_refs s then u32 (s_refs s - 1) else s_refs s)) = (1 <? s_refs s)) as ->.
  { destruct (Z.ltb_spec 0 (s_refs s)); cbn [andb]; [rewrite u32_id by (unfold is_u; lia) |]; lia. }
  destruct (Z.ltb_spec 1 (s_refs s)) as [H1 | H1].
  { do 2 eexists. split; [reflexivity |]. cbn [obj]. replace (0 <? s_refs s) with true by lia.
    rewrite u32_id by (unfold is_u; lia). split_and!; try done.
    apply step_refl; [apply inv_update; [done.. | by fold s; rewrite Hs | unfold is_u; lia] | by apply mirror_refs]. }
  rewrite !bind_modify. cbn [obj]. set (tb' := set_slot id Slot0 _). set (w1 := mk_world tb' _ _ _).
  assert (inv tb') as Hi' by (by apply inv_clear).
  assert (∀ id', 0 <= id' → slot tb' id' = if decide (id = id') then Slot0 else slot (obj w) id') as Hsl.
  { intros id' H'. apply (slot_set (set_by_addr (delete addr) (obj w))); [| done]. cbn [slots set_by_addr].
    rewrite (inv_len _ Hi). unfold PB_MAX_REALS in *. lia. }
  destruct (publish_step (obj w) e id w1) as (r & w2 & H & O & Hstep & C & _); try done.
  - by apply inv_len.
  - lia.
  - intros id' H' Hne. cbn [obj w1]. rewrite Hsl, decide_False by (lia || done). done.
  - right. left. cbn [obj w1]. rewrite Hsl, decide_True by lia. done.
  - exists r, w2. split_and!; try done. destruct Hstep as [S1 S2 S3 S4]. by split.
Qed.

(** ** Lemmas: the cursor *)

Definition succ_iter (n : nat) (c : Z) : Z := Nat.iter n succ_id c.

Lemma orbit_app n k c : orbit (n + k) c = orbit n c ++ orbit k (succ_iter n c).
Proof.
  revert c. induction n as [| n IH]; intros c; [done |]. cbn [Nat.add orbit app]. rewrite IH. unfold succ_iter.
  by rewrite Nat.iter_succ_r.
Qed.

Lemma orbit_run n c :
  1 <= c → c + Z.of_nat n <= PB_MAX_REALS →
  orbit n c = seqZ c (Z.of_nat n) ∧
  (0 < Z.of_nat n → succ_iter n c = if decide (c + Z.of_nat n = PB_MAX_REALS) then 1 else c + Z.of_nat n).
Proof.
  revert c. induction n as [| n IH]; intros c Hc Hn; [done |].
  rewrite (seqZ_cons c) by lia. cbn [orbit]. unfold succ_iter. rewrite Nat.iter_succ_r. fold (succ_iter n (succ_id c)).
  unfold succ_id. destruct (Z.ltb_spec (c + 1) PB_MAX_REALS) as [H | H].
  - destruct (IH (c + 1)) as [E1 E2]; [lia | lia |]. rewrite E1. split.
    + f_equal. rewrite Z.add_1_r. f_equal. lia.
    + intros _. destruct n as [| n].
      * unfold succ_iter. simpl. rewrite decide_False by lia. lia.
      * rewrite E2 by lia. repeat case_decide; lia.
  - assert (n = 0%nat) as -> by lia. split.
    + done.
    + intros _. unfold succ_iter. simpl. by rewrite decide_True by lia.
Qed.

(** The cursor visits every id once and comes back. *)
Lemma orbit_full c :
  1 <= c < PB_MAX_REALS →
  orbit (Z.to_nat (PB_MAX_REALS - 1)) c = seqZ c (PB_MAX_REALS - c) ++ seqZ 1 (c - 1) ∧
  succ_iter (Z.to_nat (PB_MAX_REALS - 1)) c = c.
Proof.
  intros Hc. unfold PB_MAX_REALS in *.
  replace (Z.to_nat (512 - 1)) with (Z.to_nat (512 - c) + Z.to_nat (c - 1))%nat by lia.
  destruct (orbit_run (Z.to_nat (512 - c)) c) as [E1 E2]; [unfold PB_MAX_REALS; lia.. |].
  rewrite Z2Nat.id in * by lia. unfold PB_MAX_REALS in *. rewrite decide_True in E2 by lia.
  rewrite orbit_app, E1, E2 by lia.
  destruct (orbit_run (Z.to_nat (c - 1)) 1) as [E3 E4]; [unfold PB_MAX_REALS; lia.. |].
  rewrite Z2Nat.id in * by lia. rewrite E3. split; [done |].
  unfold succ_iter in *. rewrite Nat.add_comm, Nat.iter_add, E2 by lia. unfold PB_MAX_REALS in *.
  destruct (decide (c = 1)) as [-> | Hne]; [done |]. rewrite E4 by lia. rewrite decide_False by lia. lia.
Qed.

Lemma orbit_ids c : 1 <= c < PB_MAX_REALS → orbit (Z.to_nat (PB_MAX_REALS - 1)) c ≡ₚ ids.
Proof.
  intros Hc. destruct (orbit_full c Hc) as [-> _]. unfold ids.
  replace (PB_MAX_REALS - 1) with ((c - 1) + (PB_MAX_REALS - c)) by lia. rewrite (seqZ_app _ (c - 1)) by lia.
  replace (1 + (c - 1)) with c by lia. apply Permutation_app_comm.
Qed.

(** ** Lemmas: acquire *)

Lemma slot_cursor c tb id : slot (set_cursor c tb) id = slot tb id.
Proof. done. Qed.

Lemma slot_fill addr id id' tb :
  0 <= id < Z.of_nat (length (slots tb)) → 0 <= id' →
  slot (tb_fill addr id tb) id' = if decide (id = id') then mk_slot addr 1 None else slot tb id'.
Proof. intros H1 H2. apply (slot_set (set_cursor (succ_id id) tb)); done. Qed.

Lemma inv_tb_fill addr id tb :
  inv tb → 1 <= id < PB_MAX_REALS → addr ≠ 0 → by_addr tb !! addr = None → s_addr (slot tb id) = 0 →
  inv (tb_fill addr id tb).
Proof.
  intros Hi Hid Ha Hno Hfree. unfold tb_fill. apply inv_fill; try done.
  - apply inv_set_cursor; [done |]. unfold succ_id, PB_MAX_REALS in *. destruct (Z.ltb_spec (id + 1) 512); lia.
  - rewrite slot_cursor. by apply inv_free.
Qed.

(** Allocation of a known free id. *)
Lemma alloc_run e addr id w :
  inv (obj w) → mirror (obj w) (km w) → addr ≠ 0 → by_addr (obj w) !! addr = None →
  1 <= id < PB_MAX_REALS → s_addr (slot (obj w) id) = 0 →
  ∃ r w',
    (_ ← modify (set_slot id (mk_slot addr 1 None)); _ ← modify (set_by_addr <[addr := id]>);
     _ ← reset_real_counters e id; _ ← write_slot e id; mret id)
      (with_obj (set_cursor (succ_id id) (obj w)) w) = (r, w') ∧
    obj w' = tb_fill addr id (obj w) ∧ step_ok w r w' ∧ (∀ x, r = Ok x → x = id) ∧
    (calm w → r = Ok id ∧ calm w').
Proof.
  intros Hi Hm Ha Hno Hid Hfree. pose proof (inv_tb_fill addr id (obj w) Hi Hid Ha Hno Hfree) as Hi'.
  pose proof (inv_len _ Hi) as Hl. pose proof (inv_free _ Hi id Hfree) as Hs0.
  assert (∀ id', 0 <= id' → slot (tb_fill addr id (obj w)) id' = if decide (id = id') then mk_slot addr 1 None else slot (obj w) id') as Hsl.
  { intros id' H'. apply slot_fill; [rewrite Hl; unfold PB_MAX_REALS in *; lia | done]. }
  rewrite !bind_modify. cbn [obj with_obj]. fold (tb_fill addr id (obj w)).
  set (w1 := mk_world (tb_fill addr id (obj w)) _ _ _).
  unfold reset_real_counters.
  set (g := set_real_stats (λ l, <[Z.to_nat id := replicate (possible_cpus e) real_stats0]> l)).
  assert (∀ m, reals (g m) = reals m ∧ neigh (g m) = neigh m) as Hg by done.
  destruct (map_write_run g w1) as (err & w2 & H2 & O2 & P2 & C2).
  erewrite bind_run by (erewrite bind_run by exact H2; reflexivity).
  assert (mirror (obj w) (km w2)) as Hm2.
  { destruct Hm as [R1 R2]. destruct P2 as [(_ & K & _) | (_ & K & _)]; rewrite K; by split. }
  destruct (publish_step (obj w) e id w2) as (r & w3 & H3 & O3 & [S1 S2 S3 S4] & C3 & _); rewrite ?O2; try done.
  - lia.
  - intros id' H' Hne. cbn [obj w1]. rewrite Hsl, decide_False by (lia || congruence). done.
  - left. done.
  - assert (step_ok w ((λ _, id) <$> r) w3 ∧ obj w3 = tb_fill addr id (obj w)) as [Hstep Hobj].
    { split; [| by rewrite O3, O2]. split; rewrite ?O3, ?O2 in *; try done.
      - destruct S2 as (ms & E & F). cbn [obj with_obj hist] in *.
        destruct P2 as [(_ & K & Hh) | (_ & K & Hh)]; rewrite Hh in E; cbn [hist w1 with_obj] in E.
        + exists (g (km w1) :: ms). split; [by rewrite E, <-app_assoc |]. apply Forall_cons. split.
          { split; [| done]. intros id' Hid'. left. apply mirror_shows in Hm as (_ & _ & Hm'); [| done].
            destruct (Hm' id' Hid') as [A1 A2]. by split. }
          eapply Forall_impl; [exact F |]. intros m [? Hr]. split; [done |].
          cbn [km with_obj] in Hr. rewrite K in Hr. by etrans; [| exact Hr].
        + exists ms. split; [done |]. cbn [km with_obj] in F. by rewrite K in F.
      - intros Hok. apply S3. by destruct r.
      - cbn [km with_obj] in *. destruct P2 as [(_ & K & _) | (_ & K & _)]; rewrite K in *; by etrans; [| exact S4]. }
    destruct r as [[] | ex].
    + erewrite bind_run by exact H3. do 2 eexists. split; [reflexivity |]. split_and!; try done.
      * by intros x [= <-].
      * intros Hc. split; [done |]. apply C3. by apply C2.
    + erewrite bind_throw by exact H3. do 2 eexists. split; [reflexivity |]. split_and!; try done.
      intros Hc. by destruct (C3 (proj2 (C2 Hc))).
Qed.

Lemma step_ok_cursor {A} c w (r : result A) w' :
  step_ok (with_obj (set_cursor c (obj w)) w) r w' → step_ok w r w'.
Proof. intros [S1 S2 S3 S4]. by split. Qed.

Definition is_free (tb : t) (id : Z) : Prop := s_addr (slot tb id) = 0.

#[global] Instance is_free_dec tb id : Decision (is_free tb id).
Proof. unfold is_free. apply _. Defined.

Lemma acquire_loop_run e n addr w :
  inv (obj w) → mirror (obj w) (km w) → addr ≠ 0 → by_addr (obj w) !! addr = None →
  match head (filter (is_free (obj w)) (orbit n (cursor (obj w)))) with
  | None => acquire_loop e n addr w =
              (Throw too_many_reals, with_obj (set_cursor (succ_iter n (cursor (obj w))) (obj w)) w)
  | Some id =>
      ∃ r w', acquire_loop e n addr w = (r, w') ∧ obj w' = tb_fill addr id (obj w) ∧ step_ok w r w' ∧
              (∀ x, r = Ok x → x = id) ∧ (calm w → r = Ok id ∧ calm w')
  end.
Proof.
  revert w. induction n as [| n IH]; intros w Hi Hm Ha Hno.
  { simpl. unfold throw, with_obj, succ_iter, set_cursor. simpl. destruct w as [[]]. done. }
  pose proof (inv_cursor _ Hi) as Hc. set (c := cursor (obj w)) in *. cbn [orbit acquire_loop]. rewrite bind_get.
  fold c. rewrite bind_modify. fold (succ_id c). fold (with_obj (set_cursor (succ_id c) (obj w)) w).
  rewrite filter_cons. destruct (decide (is_free (obj w) c)) as [Hf | Hf]; unfold is_free in Hf.
  - cbn [head]. rewrite Hf. cbn [Z.eqb negb]. by apply alloc_run.
  - destruct (Z.eqb_spec (s_addr (slot (obj w) c)) 0); [done |]. cbn [negb].
    set (w1 := with_obj (set_cursor (succ_id c) (obj w)) w).
    assert (inv (obj w1)) as Hi1.
    { apply inv_set_cursor; [done |]. unfold succ_id, PB_MAX_REALS in *. destruct (Z.ltb_spec (c + 1) 512); lia. }
    specialize (IH w1 Hi1 ltac:(by destruct Hm; split) Ha Hno). cbn [cursor obj w1 set_cursor with_obj] in IH.
    change (is_free (set_cursor (succ_id c) (obj w))) with (is_free (obj w)) in IH.
    destruct (head _) as [id |].
    + destruct IH as (r & w' & H & O & Hst & Hx & C). exists r, w'. split_and!; try done.
      by apply step_ok_cursor in Hst.
    + rewrite IH. unfold succ_iter. by rewrite Nat.iter_succ_r.
Qed.

(** acquire of an address without an id. *)
Lemma acquire_fresh_run e addr w :
  inv (obj w) → mirror (obj w) (km w) → addr ≠ 0 → by_addr (obj w) !! addr = None →
  match next_free (obj w) with
  | None => acquire e addr w = (Throw too_many_reals, w)
  | Some id =>
      ∃ r w', acquire e addr w = (r, w') ∧ obj w' = tb_fill addr id (obj w) ∧ step_ok w r w' ∧
              (∀ x, r = Ok x → x = id) ∧ (calm w → r = Ok id ∧ calm w')
  end.
Proof.
  intros Hi Hm Ha Hno. unfold acquire. destruct (Z.eqb_spec addr 0); [done |]. rewrite bind_get, Hno.
  pose proof (acquire_loop_run e (Z.to_nat (PB_MAX_REALS - 1)) addr w Hi Hm Ha Hno) as H.
  unfold next_free. change (λ id, s_addr (slot (obj w) id) = 0) with (is_free (obj w)).
  destruct (head _) as [id |]; [done |]. rewrite H. f_equal.
  destruct (orbit_full (cursor (obj w)) (inv_cursor _ Hi)) as [_ ->].
  by destruct w as [[]].
Qed.

Definition tb_ref (id : Z) (tb : t) : t :=
  set_slot id (mk_slot (s_addr (slot tb id)) (u32 (s_refs (slot tb id) + 1)) (s_mac (slot tb id))) tb.

(** acquire of an address that has an id. *)
Lemma acquire_known_run e addr id w :
  inv (obj w) → mirror (obj w) (km w) → by_addr (obj w) !! addr = Some id →
  acquire e addr w = (Ok id, with_obj (tb_ref id (obj w)) w) ∧
  step_ok w (Ok id) (with_obj (tb_ref id (obj w)) w).
Proof.
  intros Hi Hm Hid. destruct (inv_id _ _ _ Hi Hid) as (H1 & H2 & H3). unfold acquire.
  destruct (Z.eqb_spec addr 0); [done |]. rewrite bind_get, Hid. split; [done |].
  apply step_refl; [apply inv_update; [done.. | by rewrite H3 | auto with pb] | by apply mirror_refs].
Qed.

Lemma next_free_spec tb id :
  inv tb → next_free tb = Some id →
  1 <= id < PB_MAX_REALS ∧ s_addr (slot tb id) = 0.
Proof.
  intros Hi H. unfold next_free in H.
  assert (id ∈ filter (λ id, s_addr (slot tb id) = 0) (orbit (Z.to_nat (PB_MAX_REALS - 1)) (cursor tb))) as Hin.
  { destruct (filter _ _); [done |]. injection H as ->. apply list_elem_of_here. }
  apply list_elem_of_filter in Hin as [Hf Hin]. split; [| done].
  rewrite (orbit_ids _ (inv_cursor _ Hi)) in Hin. unfold ids in Hin. apply elem_of_seqZ in Hin. lia.
Qed.

Lemma next_free_None tb :
  inv tb → next_free tb = None ↔ ∀ id, 1 <= id < PB_MAX_REALS → s_addr (slot tb id) ≠ 0.
Proof.
  intros Hi. unfold next_free. split.
  - intros H id Hid Hf.
    assert (id ∈ filter (λ id, s_addr (slot tb id) = 0) (orbit (Z.to_nat (PB_MAX_REALS - 1)) (cursor tb))) as Hin.
    { apply list_elem_of_filter. split; [done |]. rewrite (orbit_ids _ (inv_cursor _ Hi)).
      unfold ids. apply elem_of_seqZ. lia. }
    destruct (filter _ _); [by apply not_elem_of_nil in Hin | done].
  - intros H. rewrite filter_none; [done |]. intros id Hin. apply H.
    rewrite (orbit_ids _ (inv_cursor _ Hi)) in Hin. unfold ids in Hin. apply elem_of_seqZ in Hin. lia.
Qed.

(** ** Lemmas: sequences of changes *)

(** No slot changes twice. *)
Definition once (tb0 tb1 tb2 : t) : Prop :=
  ∀ id, 0 <= id < PB_MAX_REALS → slot tb1 id = slot tb0 id ∨ slot tb2 id = slot tb1 id.

Lemma between_extend_r tb0 tb1 tb2 m : once tb0 tb1 tb2 → between tb0 tb1 m → between tb0 tb2 m.
Proof.
  intros Ho Hb id Hid. destruct (Ho id Hid) as [E | E]; [| by rewrite E; apply Hb].
  specialize (Hb id Hid). rewrite E in Hb. by destruct Hb as [? | [? | [? _]]]; [left | left |].
Qed.

Lemma between_extend_l tb0 tb1 tb2 m : once tb0 tb1 tb2 → between tb1 tb2 m → between tb0 tb2 m.
Proof.
  intros Ho Hb id Hid. destruct (Ho id Hid) as [E | E]; [by rewrite <-E; apply Hb |].
  specialize (Hb id Hid). rewrite E in *. by destruct Hb as [? | [? | [? _]]]; [right; left | right; left |].
Qed.

Lemma step_ok_trans {A B} w0 w1 w2 (a : A) (r : result B) :
  step_ok w0 (Ok a) w1 → step_ok w1 r w2 → once (obj w0) (obj w1) (obj w2) → step_ok w0 r w2.
Proof.
  intros [_ (ms1 & E1 & F1) _ R1] [I2 (ms2 & E2 & F2) M2 R2] Ho. split; try done.
  - exists (ms1 ++ ms2). split; [by rewrite E2, E1, app_assoc |]. apply Forall_app. split.
    + eapply Forall_impl; [exact F1 |]. intros m [? ?]. split; [by eapply between_extend_r | done].
    + eapply Forall_impl; [exact F2 |]. intros m [? ?]. split; [by eapply between_extend_l | by etrans].
  - by etrans.
Qed.

(** One iteration of drop_unreferenced. *)
Definition drop_one (e : CEnv) (id : Z) : M t unit :=
  tb ← get;
  let s := slot tb id in
  if (s_addr s =? 0) || (0 <? s_refs s) then mret () else
  _ ← modify (set_by_addr (delete (s_addr s)));
  _ ← modify (set_slot id Slot0);
  write_slot e id.

(** The slot after it. *)
Definition kept (s : Slot) : Slot := if 0 <? s_refs s then s else Slot0.

Lemma drop_one_run e id w :
  inv (obj w) → mirror (obj w) (km w) → 1 <= id < PB_MAX_REALS →
  ∃ r w', drop_one e id w = (r, w') ∧ step_ok w r w' ∧ (calm w → r = Ok () ∧ calm w') ∧
    cursor (obj w') = cursor (obj w) ∧
    (∀ id', 0 <= id' < PB_MAX_REALS → slot (obj w') id' = if decide (id = id') then kept (slot (obj w) id') else slot (obj w) id').
Proof.
  intros Hi Hm Hid. unfold drop_one. rewrite bind_get. set (s := slot (obj w) id).
  pose proof (inv_refs _ Hi id) as Hr. fold s in Hr. unfold is_u in Hr.
  assert (kept s = s → ∃ r w', (Ok (), w) = (r, w') ∧ step_ok w r w' ∧ (calm w → r = Ok () ∧ calm w') ∧
    cursor (obj w') = cursor (obj w) ∧ (∀ id', 0 <= id' < PB_MAX_REALS →
      slot (obj w') id' = if decide (id = id') then kept (slot (obj w) id') else slot (obj w) id')) as Hkeep.
  { intros Hk. do 2 eexists. split; [reflexivity |]. split_and!; try done.
    - replace w with (with_obj (obj w) w) at 2 by (by destruct w). by apply step_refl.
    - intros id' _. destruct (decide (id = id')) as [<- | ]; [by symmetry | done]. }
  destruct (Z.eqb_spec (s_addr s) 0) as [Hz | Hz]; [| destruct (Z.ltb_spec 0 (s_refs s)) as [Hp | Hp]]; cbn [orb].
  { apply Hkeep. pose proof (inv_free _ Hi id Hz) as E. fold s in E. by rewrite E. }
  { apply Hkeep. unfold kept. by replace (0 <? s_refs s) with true by lia. }
  assert (by_addr (obj w) !! s_addr s = Some id) as Ha by (by apply (inv_ids _ Hi)).
  rewrite !bind_modify. cbn [obj]. set (tb' := set_slot id Slot0 _). set (w1 := mk_world tb' _ _ _).
  assert (inv tb') as Hi' by (by apply inv_clear).
  assert (∀ id', 0 <= id' → slot tb' id' = if decide (id = id') then Slot0 else slot (obj w) id') as Hsl.
  { intros id' H'. apply (slot_set (set_by_addr (delete (s_addr s)) (obj w))); [| done]. cbn [slots set_by_addr].
    rewrite (inv_len _ Hi). unfold PB_MAX_REALS in *. lia. }
  destruct (publish_step (obj w) e id w1) as (r & w2 & H & O & [S1 S2 S3 S4] & C & _); try done.
  - by apply inv_len.
  - lia.
  - intros id' H' Hne. cbn [obj w1]. rewrite Hsl, decide_False by (lia || done). done.
  - right. left. cbn [obj w1]. rewrite Hsl, decide_True by lia. done.
  - exists r, w2. split; [done |]. split; [by split |]. rewrite O. split_and!; try done.
    intros id' H'. cbn [obj w1]. rewrite Hsl by lia. destruct (decide (id = id')) as [<- | ]; [| done].
    fold s. unfold kept. by replace (0 <? s_refs s) with false by lia.
Qed.

(** drop_unreferenced frees exactly the slots without references. *)
Lemma drop_run e l w :
  inv (obj w) → mirror (obj w) (km w) → NoDup l → Forall (λ id, 1 <= id < PB_MAX_REALS) l →
  ∃ r w', m_for l (drop_one e) w = (r, w') ∧ step_ok w r w' ∧ (calm w → r = Ok () ∧ calm w') ∧
    (∀ id', 0 <= id' < PB_MAX_REALS → slot (obj w') id' = slot (obj w) id' ∨ (id' ∈ l ∧ slot (obj w') id' = kept (slot (obj w) id'))) ∧
    (is_ok r = true → ∀ id', id' ∈ l → slot (obj w') id' = kept (slot (obj w) id')).
Proof.
  intros Hi Hm Hnd Hl. revert w Hi Hm. induction Hl as [| id l Hid Hl IH]; intros w Hi Hm; cbn [m_for].
  { do 2 eexists. split; [reflexivity |]. split_and!; try done; [| by left | by intros _ ? ?%not_elem_of_nil].
    replace w with (with_obj (obj w) w) at 2 by (by destruct w). by apply step_refl. }
  apply NoDup_cons in Hnd as [Hnin Hnd].
  destruct (drop_one_run e id w Hi Hm Hid) as (r1 & w1 & H1 & S1 & C1 & _ & Hs1).
  destruct r1 as [[] | ex].
  2: { erewrite bind_throw by exact H1. do 2 eexists. split; [reflexivity |]. split_and!; try done.
       - intros id' Hid'. rewrite Hs1 by done. destruct (decide (id = id')) as [<- | ]; [right | by left].
         split; [apply list_elem_of_here | done]. }
  erewrite bind_run by exact H1.
  destruct (IH Hnd w1 (so_inv _ _ _ S1) (so_mirror _ _ _ S1 eq_refl)) as (r & w2 & H2 & S2 & C2 & Hs2 & Hk2).
  exists r, w2. split_and!; try done.
  - eapply step_ok_trans; [exact S1 | exact S2 |]. intros id' Hid'. rewrite Hs1 by done.
    destruct (decide (id = id')) as [<- | ]; [| by left]. right.
    destruct (Hs2 id Hid') as [E | [? _]]; [| done]. rewrite E, Hs1, decide_True by done. done.
  - intros Hc. apply C2. by apply C1.
  - intros id' Hid'. destruct (Hs2 id' Hid') as [E | [Hin E]]; rewrite E, Hs1 by done.
    + destruct (decide (id = id')) as [<- | ]; [right | by left]. split; [apply list_elem_of_here | done].
    + destruct (decide (id = id')) as [<- | ]; [done |]. right. split; [by apply list_elem_of_further | done].
  - intros Hok id' Hin. assert (0 <= id' < PB_MAX_REALS) as Hid'.
    { apply elem_of_cons in Hin as [-> | Hin]; [lia |]. rewrite Forall_forall in Hl. specialize (Hl id' Hin). simpl in Hl. lia. }
    apply elem_of_cons in Hin as [-> | Hin].
    + destruct (Hs2 id Hid') as [E | [? _]]; [| done]. rewrite E, Hs1, decide_True by done. done.
    + rewrite (Hk2 Hok id' Hin), Hs1 by done. rewrite decide_False by congruence. done.
Qed.

Lemma ids_range : NoDup ids ∧ Forall (λ id, 1 <= id < PB_MAX_REALS) ids.
Proof.
  split; [apply NoDup_seqZ |]. apply Forall_forall. intros id Hin. unfold ids in Hin. apply elem_of_seqZ in Hin. lia.
Qed.

(** ** Lemmas: adopt *)

(** What a new daemon keeps of a slot of the old one. *)
Definition adopted (s : Slot) : Slot :=
  if s_addr s =? 0 then Slot0
  else mk_slot (s_addr s) 0 (if Mac.is_zero (mac_of_slot s) then None else Some (mac_of_slot s)).

(** After the ids up to [k]. *)
Record adopt_inv (old : t) (k : Z) (tb : t) : Prop := {
  ai_len : length (slots tb) = Z.to_nat PB_MAX_REALS;
  ai_slot : ∀ id, 0 <= id < PB_MAX_REALS → slot tb id = if decide (1 <= id <= k) then adopted (slot old id) else Slot0;
  ai_by : ∀ a id, by_addr tb !! a = Some id ↔ by_addr old !! a = Some id ∧ id <= k;
  ai_cursor : cursor tb = 1
}.

Lemma adopt_one_run old k h w :
  inv old → mirror old (km w) → 0 <= k → k + 1 < PB_MAX_REALS → adopt_inv old k (obj w) → calm w →
  ∃ w', adopt_one h (k + 1) w = (Ok (if s_addr (slot old (k + 1)) =? 0 then h else k + 1), w') ∧
        adopt_inv old (k + 1) (obj w') ∧ km w' = km w ∧ hist w' = hist w ∧ calm w'.
Proof.
  intros Hi Hm Hk Hk1 Ha Hc. pose proof (proj1 (mirror_shows old (km w) (inv_len _ Hi)) Hm) as (_ & _ & Hsh).
  destruct (Hsh (k + 1)) as [Er En]; [lia |]. unfold adopt_one.
  destruct (bpf_result_run w) as (err & w1 & H1 & O1 & K1 & S1 & C1). destruct (C1 Hc) as [-> Hc1].
  erewrite bind_run by exact H1. rewrite bind_get_km, K1, Er. cbv zeta. cbn [negb orb Z.eqb].
  change (default real0 (Some (real_of_slot (slot old (k + 1))))) with (real_of_slot (slot old (k + 1))).
  change (r_addr (real_of_slot ?s)) with (s_addr s).
  destruct (Z.eqb_spec (s_addr (slot old (k + 1))) 0) as [Z0 | Z0].
  { exists w1. split; [done |]. split_and!; try done. rewrite O1. destruct Ha as [A1 A2 A3 A4]. split; try done.
    - intros id Hid. rewrite A2 by done. destruct (decide (id = k + 1)) as [-> | Hne].
      + rewrite decide_False, decide_True by lia. unfold adopted. by rewrite Z0.
      + repeat case_decide; done || lia.
    - intros a id. rewrite A3. split; intros [? ?]; (split; [done |]); [lia |].
      destruct (decide (id = k + 1)) as [-> | ]; [| lia]. apply (inv_ids _ Hi) in H as (_ & ? & ?). congruence. }
  destruct (bpf_result_run w1) as (err & w2 & H2 & O2 & K2 & S2 & C2). destruct (C2 Hc1) as [-> Hc2].
  erewrite bind_run by exact H2. rewrite En. change (default mac_zero (Some ?x)) with x. cbv zeta. rewrite bind_get, !bind_modify. cbn [obj].
  do 1 eexists. split; [reflexivity |]. cbn [obj km hist]. rewrite O2, O1, K2, S2. split_and!; try done.
  destruct Ha as [A1 A2 A3 A4]. set (s := slot old (k + 1)) in *.
  assert (slot (obj w) (k + 1) = Slot0) as Es by (rewrite A2, decide_False by lia; done).
  split.
  - cbn. by rewrite length_insert.
  - intros id Hid. change (slot (set_by_addr ?f ?x) id) with (slot x id).
    rewrite slot_set by (rewrite ?A1; unfold PB_MAX_REALS in *; lia).
    destruct (decide (k + 1 = id)) as [<- | Hne].
    + rewrite decide_True by lia. rewrite Es. unfold adopted. fold s. destruct (Z.eqb_spec (s_addr s) 0); [done |].
      destruct (Mac.is_zero (mac_of_slot s)); done.
    + rewrite A2 by done. repeat case_decide; done || lia.
  - intros a id. cbn [by_addr set_by_addr set_slot].
    assert (by_addr old !! s_addr s = Some (k + 1)) as Eo by (apply (inv_ids _ Hi); split_and!; done || lia).
    rewrite lookup_insert. destruct (decide (s_addr s = a)) as [<- | Hne].
    + rewrite Eo. split; [intros [= <-]; split; [done | lia] | by intros [? _]].
    + rewrite A3. split; intros [? ?]; (split; [done |]); [lia |].
      destruct (decide (id = k + 1)) as [-> | ]; [| lia]. apply (inv_ids _ Hi) in H as (_ & _ & ?). by destruct Hne.
  - done.
Qed.

Lemma adopt_loop_run old n k h w :
  inv old → mirror old (km w) → 0 <= k → k + Z.of_nat n < PB_MAX_REALS → adopt_inv old k (obj w) → calm w →
  0 <= h <= k →
  ∃ h' w', adopt_loop (seqZ (k + 1) (Z.of_nat n)) h w = (Ok h', w') ∧ adopt_inv old (k + Z.of_nat n) (obj w') ∧
           0 <= h' <= k + Z.of_nat n ∧ km w' = km w ∧ hist w' = hist w ∧ calm w'.
Proof.
  revert k h w. induction n as [| n IH]; intros k h w Hi Hm Hk Hn Ha Hc Hh.
  { exists h, w. rewrite Z.add_0_r. split_and!; try done; lia. }
  rewrite (seqZ_cons (k + 1)) by lia. cbn [adopt_loop].
  destruct (adopt_one_run old k h w) as (w1 & H1 & A1 & K1 & S1 & C1); try done; [lia |].
  erewrite bind_run by exact H1. set (h1 := if _ =? 0 then h else k + 1).
  destruct (IH (k + 1) h1 w1) as (h' & w' & H2 & A2 & Hh' & K2 & S2 & C2); try done; try lia.
  - by rewrite K1.
  - unfold h1. destruct (_ =? 0); lia.
  - exists h', w'. replace (Z.succ (k + 1)) with (k + 1 + 1) by lia.
    replace (Z.pred (Z.of_nat (S n))) with (Z.of_nat n) by lia.
    replace (k + Z.of_nat (S n)) with (k + 1 + Z.of_nat n) by lia. split_and!; try done; try lia; congruence.
Qed.

Lemma adopt_run old w :
  inv old → mirror old (km w) → obj w = fresh → calm w →
  ∃ w', adopt w = (Ok (), w') ∧ km w' = km w ∧ hist w' = hist w ∧ calm w' ∧ inv (obj w') ∧
    by_addr (obj w') = by_addr old ∧ ∀ id, 0 <= id < PB_MAX_REALS → slot (obj w') id = adopted (slot old id).
Proof.
  intros Hi Hm Hf Hc. unfold adopt, ids.
  destruct (adopt_loop_run old (Z.to_nat (PB_MAX_REALS - 1)) 0 0 w) as (h & w1 & H1 & [A1 A2 A3 A4] & Hh & K1 & S1 & C1);
    try done; try (unfold PB_MAX_REALS; lia).
  { rewrite Hf. split; try done.
    - intros id Hid. rewrite decide_False by lia. unfold slot, fresh. cbn [slots].
      destruct (replicate _ Slot0 !! Z.to_nat id) eqn:E; [| done]. by apply lookup_replicate in E as [-> _].
    - intros a id. cbn. rewrite lookup_empty. split; [done |]. intros [Ha%(inv_id _ _ _ Hi) ?]. lia. }
  rewrite Z2Nat.id in * by (unfold PB_MAX_REALS; lia). change (0 + 1) with 1 in H1.
  erewrite bind_run by exact H1. eexists. split; [reflexivity |]. cbn [km hist obj].
  assert (∀ id, 0 <= id < PB_MAX_REALS → slot (obj w1) id = adopted (slot old id)) as Hs.
  { intros id Hid. rewrite A2 by done. destruct (decide (id = 0)) as [-> | ].
    - rewrite decide_False by lia. by rewrite (inv_zero _ Hi).
    - by rewrite decide_True by lia. }
  assert (∀ s, s_addr (adopted s) = s_addr s) as Hsa.
  { intros s. unfold adopted. by destruct (Z.eqb_spec (s_addr s) 0). }
  assert (∀ a id, by_addr (obj w1) !! a = Some id ↔ by_addr old !! a = Some id) as Hby.
  { intros a id. rewrite A3. split; [by intros [? _] |]. intros Ho. split; [done |].
    apply (inv_id _ _ _ Hi) in Ho. lia. }
  split_and!; try done.
  - apply inv_set_cursor; [| unfold PB_MAX_REALS in *; destruct (Z.ltb_spec (h + 1) 512); lia]. split; try done.
    + by rewrite A4.
    + by rewrite Hs, (inv_zero _ Hi).
    + intros a id. rewrite Hby, (inv_ids _ Hi).
      split; intros (H2 & H3 & H4); split_and!; try done; try lia; [rewrite Hs, Hsa by lia | rewrite Hs, Hsa in H4 by lia]; done.
    + intros id. destruct (decide (0 <= id < PB_MAX_REALS)) as [Hid | Hid].
      * rewrite Hs by done. unfold adopted. destruct (Z.eqb_spec (s_addr (slot old id)) 0); [done |]. by intros ?.
      * intros _. unfold slot in *. destruct (decide (id < 0)).
        -- replace (Z.to_nat id) with (Z.to_nat 0) by lia. specialize (Hs 0 ltac:(done)). rewrite Hs.
           pose proof (inv_zero _ Hi) as Hz. unfold slot in Hz. by rewrite Hz.
        -- rewrite (proj2 (lookup_ge_None _ _)); [done |]. rewrite A1. lia.
    + intros id. destruct (decide (0 <= id < PB_MAX_REALS)) as [Hid | Hid].
      * rewrite Hs by done. unfold adopted. by destruct (_ =? 0).
      * unfold slot in *. destruct (decide (id < 0)).
        -- replace (Z.to_nat id) with (Z.to_nat 0) by lia. specialize (Hs 0 ltac:(done)). rewrite Hs.
           unfold adopted. by destruct (_ =? 0).
        -- rewrite (proj2 (lookup_ge_None _ _)); [done |]. rewrite A1. lia.
  - apply map_eq. intros a. apply option_eq. intros id. apply Hby.
Qed.

(** ** Theorems *)

(** The calls LbState makes. *)
Inductive call : Type :=
| CAcquire (addr : Z)
| CRelease (addr : Z)
| CSetMac (addr : Z) (mac : pb_mac)
| CDropUnreferenced.

Definition run_call (e : CEnv) (c : call) : M t unit :=
  match c with
  | CAcquire a => _ ← acquire e a; mret ()
  | CRelease a => release e a
  | CSetMac a mac => _ ← set_mac e a mac; mret ()
  | CDropUnreferenced => drop_unreferenced e
  end.

Lemma fmap_unit_run {A} (p : M t A) w r w' :
  p w = (r, w') → (_ ← p; mret ()) w = ((λ _, ()) <$> r, w').
Proof. intros H. unfold mbind, M_bind. rewrite H. by destruct r. Qed.

Lemma step_ok_unit {A} w (r : result A) w' : step_ok w r w' → step_ok w ((λ _, ()) <$> r) w'.
Proof. intros [S1 S2 S3 S4]. split; try done. intros H. apply S3. by destruct r. Qed.

(** C15: whatever the bpf calls return, a method of the table keeps its
    invariant (ids 1..511, one address per id and one id per address, id 0
    never used, free slots empty), keeps the reals and neigh arrays equal to
    the table when it succeeds, touches no other map the data plane reads, and
    at every moment in between shows a packet each slot whole as it was, whole
    as it will be, or, where the address changes, empty: never an address with another real's MAC, and
    never a disturbance of a slot that does not change. *)
Theorem table_methods_safe (e : CEnv) (c : call) (w : World t) :
  inv (obj w) → mirror (obj w) (km w) →
  let '(r, w') := run_call e c w in
  inv (obj w') ∧ (is_ok r = true → mirror (obj w') (km w')) ∧
  (∃ ms, hist w' = hist w ++ ms ∧ Forall (λ m, between (obj w) (obj w') m ∧ same_rest (km w) m) ms) ∧
  same_rest (km w) (km w').
Proof.
  intros Hi Hm. assert (∃ r w', run_call e c w = (r, w') ∧ step_ok w r w') as (r & w' & -> & [S1 S2 S3 S4]);
    [| split; [done | split; [done | split; done]]].
  destruct c as [a | a | a mac |]; cbn [run_call].
  - destruct (decide (a = 0)) as [-> | Ha].
    + do 2 eexists. split; [reflexivity |]. split; try done. exists []. by rewrite app_nil_r.
    + destruct (by_addr (obj w) !! a) as [id |] eqn:E.
      * destruct (acquire_known_run e a id w Hi Hm E) as [H Hst]. rewrite (fmap_unit_run _ _ _ _ H).
        do 2 eexists. split; [reflexivity |]. by apply step_ok_unit.
      * pose proof (acquire_fresh_run e a w Hi Hm Ha E) as H. destruct (next_free (obj w)) as [id |].
        -- destruct H as (r & w' & H & _ & Hst & _). rewrite (fmap_unit_run _ _ _ _ H).
           do 2 eexists. split; [reflexivity |]. by apply step_ok_unit.
        -- rewrite (fmap_unit_run _ _ _ _ H). do 2 eexists. split; [reflexivity |].
           split; try done. exists []. by rewrite app_nil_r.
  - destruct (release_run e a w Hi Hm) as (r & w' & H & _ & Hst & _). eauto.
  - destruct (set_mac_run e a mac w Hi Hm) as (r & w' & H & _ & Hst & _). rewrite (fmap_unit_run _ _ _ _ H).
    do 2 eexists. split; [reflexivity |]. by apply step_ok_unit.
  - destruct (drop_run e ids w Hi Hm (proj1 ids_range) (proj2 ids_range)) as (r & w' & H & Hst & _). eauto.
Qed.

Definition demo_cenv : CEnv := mk_cenv (λ _, []) 0 None [] 1.
Definition demo_world : World t := mk_world fresh (fresh_maps 1) [] [0; 0; 0; 22].

Lemma mirror_fresh : mirror fresh (fresh_maps 1).
Proof. split; vm_compute; reflexivity. Qed.

Lemma table_methods_safe_witness :
  let '(r, w') := run_call demo_cenv (CAcquire 0x0700000a) demo_world in
  inv (obj w') ∧ length (hist w') = 3%nat.
Proof.
  pose proof (table_methods_safe demo_cenv (CAcquire 0x0700000a) demo_world inv_fresh mirror_fresh) as H.
  destruct (run_call demo_cenv (CAcquire 0x0700000a) demo_world) as [r w'] eqn:E. split; [apply H |].
  change w' with (r, w').2. rewrite <-E. vm_compute. reflexivity.
Defined.

(** Acquire returns the id an address already has, adding a reference; a
    new address gets the first free id in cursor order, and the only other
    outcome, when no bpf call fails, is "too many reals" with nothing changed,
    exactly when all 511 ids are taken. *)
Theorem acquire_spec (e : CEnv) (addr : Z) (w : World t) :
  inv (obj w) → mirror (obj w) (km w) → addr ≠ 0 → calm w →
  match by_addr (obj w) !! addr with
  | Some id => acquire e addr w = (Ok id, with_obj (tb_ref id (obj w)) w)
  | None =>
      match next_free (obj w) with
      | Some id => ∃ w', acquire e addr w = (Ok id, w') ∧ obj w' = tb_fill addr id (obj w) ∧
                         s_addr (slot (obj w) id) = 0 ∧ 1 <= id < PB_MAX_REALS
      | None => acquire e addr w = (Throw too_many_reals, w) ∧
                ∀ id, 1 <= id < PB_MAX_REALS → s_addr (slot (obj w) id) ≠ 0
      end
  end.
Proof.
  intros Hi Hm Ha Hc. destruct (by_addr (obj w) !! addr) as [id |] eqn:E.
  - by apply acquire_known_run.
  - pose proof (acquire_fresh_run e addr w Hi Hm Ha E) as H. destruct (next_free (obj w)) as [id |] eqn:En.
    + destruct H as (r & w' & H & O & _ & _ & C). destruct (C Hc) as [-> _]. exists w'.
      destruct (next_free_spec _ _ Hi En) as [[? ?] ?]. by split_and!.
    + split; [done |]. by apply next_free_None.
Qed.

Lemma acquire_spec_witness :
  ∃ w', acquire demo_cenv 0x0700000a (mk_world fresh (fresh_maps 1) [] []) = (Ok 1, w').
Proof.
  pose proof (acquire_spec demo_cenv 0x0700000a (mk_world fresh (fresh_maps 1) [] []) inv_fresh mirror_fresh
    ltac:(discriminate) ltac:(constructor)) as H.
  change (by_addr (obj (mk_world fresh (fresh_maps 1) [] [])) !! 0x0700000a) with (@None Z) in H.
  assert (next_free (obj (mk_world fresh (fresh_maps 1) [] [])) = Some 1) as E by (vm_compute; reflexivity).
  rewrite E in H. destruct H as (w' & H & _). exists w'. exact H.
Defined.

(** The cursor just after [id] reaches [id] last. *)
Lemma next_free_last tb id :
  inv tb → cursor tb = succ_id id → 1 <= id < PB_MAX_REALS → next_free tb = Some id →
  ∀ id', 1 <= id' < PB_MAX_REALS → id' ≠ id → s_addr (slot tb id') ≠ 0.
Proof.
  intros Hi Hc Hid Hn id' Hid' Hne Hf.
  assert (orbit (Z.to_nat (PB_MAX_REALS - 1)) (succ_id id)
          = orbit (Z.to_nat (PB_MAX_REALS - 2)) (succ_id id) ++ [id]) as Eo.
  { assert (Z.to_nat (PB_MAX_REALS - 1) = S (Z.to_nat (PB_MAX_REALS - 2))) as En by (unfold PB_MAX_REALS; lia).
    destruct (orbit_full id Hid) as [_ E]. rewrite En in *. generalize dependent (Z.to_nat (PB_MAX_REALS - 2)).
    intros n _ E. rewrite <-Nat.add_1_r, orbit_app. cbn [orbit]. do 2 f_equal.
    unfold succ_iter in *. by rewrite <-Nat.iter_succ_r. }
  pose proof (orbit_ids (succ_id id)) as Hp. rewrite <-Hc in Hp. specialize (Hp (inv_cursor _ Hi)).
  assert (id' ∈ orbit (Z.to_nat (PB_MAX_REALS - 1)) (cursor tb)) as Hin.
  { rewrite Hp. unfold ids. apply elem_of_seqZ. lia. }
  assert (NoDup (orbit (Z.to_nat (PB_MAX_REALS - 1)) (cursor tb))) as Hnd by (rewrite Hp; apply ids_range).
  unfold next_free in Hn. rewrite Hc, Eo in *. generalize dependent (orbit (Z.to_nat (PB_MAX_REALS - 2)) (succ_id id)).
  intros l0 Hn Eo Hp Hin Hnd. apply elem_of_app in Hin as [Hin | ->%list_elem_of_singleton]; [| done].
  apply NoDup_app in Hnd as (_ & Hdis & _). rewrite filter_app in Hn.
  destruct (filter _ l0) as [| x l] eqn:Ef.
  - assert (id' ∈ []) as Hi' by (rewrite <-Ef; by apply list_elem_of_filter). by apply not_elem_of_nil in Hi'.
  - injection Hn as ->. assert (id ∈ id :: l) as Hx by apply list_elem_of_here. rewrite <-Ef in Hx.
    apply list_elem_of_filter in Hx as [_ Hx]. apply (Hdis id Hx). apply list_elem_of_here.
Qed.

(** An id that was freed is the last to be handed out again: when a real
    is added and removed and another address is added, it gets the same id only
    if every other id is in use, so a connection entry that still names the old
    id does not silently start to mean the new real. *)
Theorem freed_id_reused_last (e : CEnv) (a b id id' : Z) (w w1 w2 w3 : World t) :
  inv (obj w) → mirror (obj w) (km w) → a ≠ 0 → b ≠ 0 →
  by_addr (obj w) !! a = None → by_addr (obj w) !! b = None →
  acquire e a w = (Ok id, w1) → release e a w1 = (Ok (), w2) → acquire e b w2 = (Ok id', w3) →
  id' = id → ∀ id'', 1 <= id'' < PB_MAX_REALS → id'' ≠ id → s_addr (slot (obj w) id'') ≠ 0.
Proof.
  intros Hi Hm Ha Hb Hna Hnb H1 H2 H3 ->.
  pose proof (acquire_fresh_run e a w Hi Hm Ha Hna) as A1. destruct (next_free (obj w)) as [x |] eqn:En; [| congruence].
  destruct A1 as (r & w' & E1 & O1 & S1 & X1 & _). rewrite E1 in H1. injection H1 as -> ->.
  assert (x = id) as -> by (symmetry; by apply X1). destruct (next_free_spec _ _ Hi En) as [Hid Hf]. pose proof (inv_len _ Hi) as Hl.
  pose proof (so_inv _ _ _ S1) as Hi1. pose proof (so_mirror _ _ _ S1 eq_refl) as Hm1.
  destruct (release_run e a w1 Hi1 Hm1) as (r2 & w2' & E2 & O2 & S2 & _). rewrite E2 in H2. injection H2 as -> ->.
  pose proof (so_inv _ _ _ S2) as Hi2. pose proof (so_mirror _ _ _ S2 eq_refl) as Hm2.
  assert (by_addr (obj w1) !! a = Some id) as Ea by (rewrite O1; apply lookup_insert_eq).
  assert (obj w2 = set_slot id Slot0 (set_by_addr (delete a) (obj w1))) as O2'.
  { rewrite O2. unfold tb_release. rewrite Ea. rewrite O1 at 1.
    rewrite slot_fill, decide_True by (rewrite ?Hl; unfold PB_MAX_REALS in *; lia). done. }
  assert (∀ i, 0 <= i → slot (obj w2) i = slot (obj w) i) as Hs2.
  { intros i Hi'. rewrite O2'. rewrite slot_set; [| cbn; rewrite O1; cbn; rewrite length_insert, Hl; unfold PB_MAX_REALS in *; lia | done].
    destruct (decide (id = i)) as [<- | Hne]; [symmetry; by apply inv_free |].
    change (slot (obj w1) i = slot (obj w) i). rewrite O1, slot_fill by (rewrite ?Hl; unfold PB_MAX_REALS in *; lia).
    by rewrite decide_False. }
  assert (by_addr (obj w2) !! b = None) as Hnb2.
  { rewrite O2'. cbn [by_addr set_slot set_by_addr]. apply lookup_delete_None. rewrite O1. unfold tb_fill.
    cbn [by_addr set_slot set_by_addr]. destruct (decide (a = b)); [by left | right]. by rewrite lookup_insert_ne. }
  pose proof (acquire_fresh_run e b w2 Hi2 Hm2 Hb Hnb2) as A3.
  destruct (next_free (obj w2)) as [y |] eqn:En2; [| congruence].
  destruct A3 as (r3 & w3' & E3 & _ & _ & X3 & _). rewrite E3 in H3. injection H3 as -> ->.
  rewrite <-(X3 id eq_refl) in En2. intros id'' Hid'' Hne. rewrite <-Hs2 by lia.
  apply (next_free_last (obj w2) id); try done. by rewrite O2', O1.
Qed.

Lemma freed_id_reused_last_witness :
  let w := mk_world fresh (fresh_maps 1) [] [] in
  ∃ w1 w2 w3, acquire demo_cenv 7 w = (Ok 1, w1) ∧ release demo_cenv 7 w1 = (Ok (), w2) ∧
    acquire demo_cenv 8 w2 = (Ok 2, w3) ∧
    (2 = 1 → ∀ id, 1 <= id < PB_MAX_REALS → id ≠ 1 → s_addr (slot (obj w) id) ≠ 0).
Proof.
  intros w. do 3 eexists. do 3 (split; [vm_compute; reflexivity |]).
  eapply (freed_id_reused_last demo_cenv 7 8 1 2 w _ _ _ inv_fresh mirror_fresh);
    [discriminate | discriminate | reflexivity | reflexivity | vm_compute; reflexivity.. ].
Defined.

(** A restarted daemon keeps every id: adopting maps that an earlier
    table left restores each address with its id and its MAC, without
    references, and writes nothing. *)
Theorem adopt_restores (old : t) (w : World t) :
  inv old → mirror old (km w) → obj w = fresh → calm w →
  ∃ w', adopt w = (Ok (), w') ∧ km w' = km w ∧ hist w' = hist w ∧ inv (obj w') ∧
    by_addr (obj w') = by_addr old ∧
    ∀ id, 0 <= id < PB_MAX_REALS →
      s_addr (slot (obj w') id) = s_addr (slot old id) ∧
      mac_of_slot (slot (obj w') id) = (if s_addr (slot old id) =? 0 then mac_zero else mac_of_slot (slot old id)) ∧
      s_refs (slot (obj w') id) = 0.
Proof.
  intros Hi Hm Hf Hc. destruct (adopt_run old w Hi Hm Hf Hc) as (w' & H & K & S & _ & Hi' & B & Hs).
  exists w'. split_and!; try done. intros id Hid. rewrite Hs by done. unfold adopted.
  destruct (Z.eqb_spec (s_addr (slot old id)) 0) as [E | E]; [by rewrite E |].
  split_and!; try done. unfold mac_of_slot at 1. cbn [s_mac].
  destruct (Mac.is_zero (mac_of_slot (slot old id))) eqn:Z0; [| done]. cbn.
  destruct (mac_of_slot (slot old id)) as [b0 b1 b2 b3 b4 b5]. unfold Mac.is_zero in Z0. cbn in Z0.
  rewrite !andb_true_iff, !Z.eqb_eq in Z0. by destruct Z0 as (-> & -> & -> & -> & -> & -> & _).
Qed.

Definition demo_table : t := tb_set_mac 7 (mk_pb_mac 2 0 0 0 0 7) (tb_fill 7 1 fresh).
Definition demo_kept : Maps :=
  mk_maps ∅ ∅ (real_of_slot <$> slots demo_table) (mac_of_slot <$> slots demo_table) ∅ [] [] [].

Lemma demo_table_inv : inv demo_table.
Proof.
  assert (inv (tb_fill 7 1 fresh)) as H by (by apply inv_tb_fill; [apply inv_fresh | ..]).
  unfold demo_table, tb_set_mac. change (by_addr (tb_fill 7 1 fresh) !! 7) with (Some 1).
  apply inv_update; [exact H | done | done | apply (inv_refs _ H)].
Qed.

Lemma adopt_restores_witness :
  ∃ w', adopt (mk_world fresh demo_kept [] []) = (Ok (), w') ∧ by_addr (obj w') = by_addr demo_table.
Proof.
  destruct (adopt_restores demo_table (mk_world fresh demo_kept [] []) demo_table_inv)
    as (w' & H & _ & _ & _ & B & _); [split; reflexivity | reflexivity | constructor |].
  exists w'. split; [exact H | exact B].
Defined.

End RealTable.
