(* ===== verification/Config.v ===== *)
(** * The daemon's configuration (src/core/config.cpp, include/packetbalance/config.h)

    The configuration structs, CIDR parsing and the semantic checks the parser
    and the daemon share. *)

From Stdlib Require Import ZArith Lia Ascii String.
From S2P Require Import Prelude Abi VipSpec Maglev.

#[local] Set Warnings "-clear-no-such-hyp".

Module Config.

Inductive XdpMode : Type := Native | Generic | Auto.

#[global] Instance XdpMode_eq_dec : EqDecision XdpMode.
Proof. solve_decision. Defined.

Definition parse_xdp_mode (s : str) : result XdpMode :=
  if bool_decide (s = §"native") then Ok Native
  else if bool_decide (s = §"generic") then Ok Generic
  else if bool_decide (s = §"auto") then Ok Auto
  else Throw (invalid_argument (§"bad xdp_mode (native|generic|auto): " ++ s)).

Definition xdp_mode_name (m : XdpMode) : str :=
  match m with Native => §"native" | Generic => §"generic" | Auto => §"auto" end.

Record Cidr := mk_cidr {
  prefix_be : Z;
  mask_be : Z;
  len : Z
}.

#[global] Instance Cidr_eq_dec : EqDecision Cidr.
Proof. solve_decision. Defined.

Record RealConfig := mk_real_config {
  rc_addr : Z;
  rc_weight : Z
}.

Record VipConfig := mk_vip_config {
  vc_spec : VipSpec.t;
  vc_no_conntrack : bool;
  vc_reals : list RealConfig
}.

Record HealthCheckConfig := mk_health {
  hc_enabled : bool;
  hc_interval_ms : Z;
  hc_timeout_ms : Z;
  hc_fall : Z;
  hc_rise : Z
}.

Record t := mk {
  interface : str;
  xdp_mode : XdpMode;
  hash : Maglev.HashMode;
  encap_src : Cidr;
  next_hop : option Z;
  conntrack_enabled : bool;
  conntrack_size : Z;
  icmp_pmtu : bool;
  socket : str;
  pin_path : str;
  metrics_listen : str;
  health : HealthCheckConfig;
  vips : list VipConfig
}.

Definition kMaxRealWeight : Z := 1000.

Definition default_health : HealthCheckConfig := mk_health true 1000 500 3 2.

(** ** CIDR prefixes *)

(** [std::string::find] of a character. *)
Fixpoint find (c : ascii) (s : str) : option nat :=
  match s with
  | [] => None
  | d :: s => if bool_decide (d = c) then Some 0%nat else S <$> find c s
  end.

Definition cidr_str (c : Cidr) : str := VipSpec.ipv4_to_string (prefix_be c) ++ §"/" ++ VipSpec.to_string (len c).

Definition bad_len (s : str) : exn := invalid_argument (§"bad CIDR prefix length: " ++ s).

(** The network-order mask of a prefix length. *)
Definition mask_of (len : Z) : Z :=
  let host_mask := if len =? 0 then 0 else u32 (Z.shiftl (u32 (Z.lnot 0)) (32 - len)) in
  VipSpec.le32 (u8 (Z.shiftr host_mask 24)) (u8 (Z.shiftr host_mask 16)) (u8 (Z.shiftr host_mask 8)) (u8 host_mask).

Definition parse_cidr (s : str) : result Cidr :=
  match find "/"%char s with
  | None => Throw (invalid_argument (§"bad CIDR, want ADDR/LEN: " ++ s))
  | Some slash =>
      let len_str := drop (slash + 1) s in
      if bool_decide (len_str = []) || (2 <? length len_str)%nat || negb (forallb VipSpec.isdigit len_str)
      then Throw (bad_len s) else
      match VipSpec.scan_port len_str 0 with       (* std::stoi of at most two digits *)
      | None => Throw (bad_len s)
      | Some len =>
          if 32 <? len then Throw (bad_len s) else
          addr ← VipSpec.parse_ipv4 (take slash s);
          Ok (mk_cidr (Z.land addr (mask_of len)) (mask_of len) (u8 len))
      end
  end.

(** ** Validation *)

Definition fail {A} (s : str) : result A := Throw (runtime_error s).

(** The reals of one VIP: the addresses seen on it and on all VIPs. *)
Fixpoint validate_reals (spec : VipSpec.t) (l : list RealConfig) (seen all : gset Z) : result (gset Z) :=
  match l with
  | [] => Ok all
  | r :: l =>
      if rc_addr r =? 0 then fail (§"config: real 0.0.0.0 on " ++ VipSpec.to_str spec) else
      if bool_decide (rc_addr r ∈ seen)
      then fail (§"config: duplicate real " ++ VipSpec.ipv4_to_string (rc_addr r) ++ §" on " ++ VipSpec.to_str spec) else
      if kMaxRealWeight <? rc_weight r
      then fail (§"config: weight of " ++ VipSpec.ipv4_to_string (rc_addr r) ++ §" exceeds " ++ VipSpec.to_string kMaxRealWeight) else
      validate_reals spec l ({[rc_addr r]} ∪ seen) ({[rc_addr r]} ∪ all)
  end.

Fixpoint validate_vips (l : list VipConfig) (seen : gset VipSpec.t) (all : gset Z) : result (gset Z) :=
  match l with
  | [] => Ok all
  | v :: l =>
      if bool_decide (vc_spec v ∈ seen) then fail (§"config: duplicate vip " ++ VipSpec.to_str (vc_spec v)) else
      all ← validate_reals (vc_spec v) (vc_reals v) ∅ all;
      validate_vips l ({[vc_spec v]} ∪ seen) all
  end.

Definition validate_config (cfg : t) : result unit :=
  if bool_decide (interface cfg = []) then fail §"config: `interface` is required" else
  if len (encap_src cfg) =? 0 then fail §"config: `encap_src_prefix` is required and must not be /0" else
  if conntrack_size cfg =? 0 then fail §"config: conntrack.size must be > 0" else
  let h := health cfg in
  if (hc_interval_ms h =? 0) || (hc_timeout_ms h =? 0) || (hc_fall h =? 0) || (hc_rise h =? 0)
  then fail §"config: health_check values must be > 0" else
  if hc_interval_ms h <? hc_timeout_ms h
  then fail §"config: health_check.timeout_ms must be <= interval_ms" else
  if PB_MAX_VIPS <? Z.of_nat (length (vips cfg))
  then fail (§"config: too many vips (max " ++ VipSpec.to_string PB_MAX_VIPS ++ §")") else
  all ← validate_vips (vips cfg) ∅ ∅;
  if PB_MAX_REALS - 1 <? Z.of_nat (size all)
  then fail (§"config: too many distinct reals (max " ++ VipSpec.to_string (PB_MAX_REALS - 1) ++ §")")
  else Ok ().

(** ** Specification-level definitions *)

(** All real addresses of a configuration. *)
Definition all_addrs (l : list VipConfig) : gset Z := list_to_set (l ≫= λ v, rc_addr <$> vc_reals v).

Record vip_valid (v : VipConfig) : Prop := {
  vv_addrs : Forall (λ r, rc_addr r ≠ 0) (vc_reals v);
  vv_nodup : NoDup (rc_addr <$> vc_reals v);
  vv_weights : Forall (λ r, rc_weight r <= kMaxRealWeight) (vc_reals v)
}.

Record valid (cfg : t) : Prop := {
  va_interface : interface cfg ≠ [];
  va_prefix : len (encap_src cfg) ≠ 0;
  va_size : conntrack_size cfg ≠ 0;
  va_health : hc_interval_ms (health cfg) ≠ 0 ∧ hc_timeout_ms (health cfg) ≠ 0 ∧
              hc_fall (health cfg) ≠ 0 ∧ hc_rise (health cfg) ≠ 0;
  va_timeout : hc_timeout_ms (health cfg) <= hc_interval_ms (health cfg);
  va_count : Z.of_nat (length (vips cfg)) <= PB_MAX_VIPS;
  va_nodup : NoDup (vc_spec <$> vips cfg);
  va_vips : Forall vip_valid (vips cfg);
  va_reals : Z.of_nat (size (all_addrs (vips cfg))) <= PB_MAX_REALS - 1
}.

(** ** Lemmas *)

Lemma union_rotate {A} `{Countable A} (X Y Z : gset A) : X ∪ (Y ∪ Z) = Y ∪ X ∪ Z.
Proof. by rewrite (assoc_L (∪)), (comm_L (∪) X Y). Qed.

Lemma validate_reals_ok spec l seen all all' :
  validate_reals spec l seen all = Ok all' ↔
  Forall (λ r, rc_addr r ≠ 0) l ∧ NoDup (rc_addr <$> l) ∧ Forall (λ r, rc_weight r <= kMaxRealWeight) l ∧
  Forall (λ r, rc_addr r ∉ seen) l ∧ all' = list_to_set (rc_addr <$> l) ∪ all.
Proof.
  revert seen all. induction l as [| r l IH]; intros seen all; cbn [validate_reals].
  { rewrite !Forall_nil, fmap_nil, NoDup_nil. split.
    - intros [= <-]. split_and!; try done. clear; set_solver.
    - intros (_ & _ & _ & _ & ->). f_equal. clear; set_solver. }
  rewrite !Forall_cons, fmap_cons, NoDup_cons. destruct (Z.eqb_spec (rc_addr r) 0) as [E | E].
  { split; [done | by intros ((? & _) & _)]. }
  case_bool_decide as Es. { split; [done | intros (_ & _ & _ & (? & _) & _); done]. }
  destruct (Z.ltb_spec kMaxRealWeight (rc_weight r)). { split; [done | intros (_ & _ & (? & _) & _); lia]. }
  rewrite IH. split.
  - intros (H1 & H2 & H3 & H4 & ->). split_and!; try done.
    + intros (x & Ex & Hx)%list_elem_of_fmap. rewrite Forall_forall in H4. apply (H4 x Hx). rewrite <-Ex. by apply elem_of_union_l, elem_of_singleton.
    + eapply Forall_impl; [exact H4 |]. clear; set_solver.
    + rewrite list_to_set_cons. by rewrite union_rotate.
  - intros ([_ H1] & [Hn H2] & [_ H3] & [_ H4] & ->). split_and!; try done.
    + apply Forall_forall. intros x Hx Hin. apply elem_of_union in Hin as [E'%elem_of_singleton | Hin].
      * apply Hn. rewrite <-E'. by apply (list_elem_of_fmap_2 rc_addr).
      * rewrite Forall_forall in H4. by apply (H4 x Hx).
    + rewrite list_to_set_cons. by rewrite union_rotate.
Qed.

Lemma all_addrs_cons v l : all_addrs (v :: l) = list_to_set (rc_addr <$> vc_reals v) ∪ all_addrs l.
Proof. unfold all_addrs. rewrite bind_cons, list_to_set_app_L. done. Qed.

Lemma validate_vips_ok l seen all all' :
  validate_vips l seen all = Ok all' ↔
  NoDup (vc_spec <$> l) ∧ Forall vip_valid l ∧ Forall (λ v, vc_spec v ∉ seen) l ∧ all' = all_addrs l ∪ all.
Proof.
  revert seen all. induction l as [| v l IH]; intros seen all; cbn [validate_vips].
  { rewrite !Forall_nil, fmap_nil, NoDup_nil. split.
    - intros [= <-]. split_and!; try done. clear; set_solver.
    - intros (_ & _ & _ & ->). f_equal. clear; set_solver. }
  rewrite !Forall_cons, fmap_cons, NoDup_cons.
  case_bool_decide as Es. { split; [done | intros (_ & _ & (? & _) & _); done]. }
  destruct (validate_reals (vc_spec v) (vc_reals v) ∅ all) as [all1 | ex] eqn:Er; cbn [mbind result_bind].
  2: { split; [done |]. intros (_ & ([V1 V2 V3] & _) & _).
       assert (validate_reals (vc_spec v) (vc_reals v) ∅ all = Ok (list_to_set (rc_addr <$> vc_reals v) ∪ all)) as E.
       { apply validate_reals_ok. split_and!; try done. apply Forall_forall. set_solver. }
       congruence. }
  apply validate_reals_ok in Er as (R1 & R2 & R3 & _ & ->). rewrite IH, all_addrs_cons. split.
  - intros (H1 & H2 & H3 & ->). split_and!; try done.
    + intros (x & Ex & Hx)%list_elem_of_fmap. rewrite Forall_forall in H3. apply (H3 x Hx). rewrite <-Ex. by apply elem_of_union_l, elem_of_singleton.
    + eapply Forall_impl; [exact H3 |]. clear; set_solver.
    + by rewrite union_rotate.
  - intros ([Hn H1] & [_ H2] & [_ H3] & ->). split_and!; try done.
    + apply Forall_forall. intros x Hx Hin. apply elem_of_union in Hin as [E'%elem_of_singleton | Hin].
      * apply Hn. rewrite <-E'. by apply (list_elem_of_fmap_2 vc_spec).
      * rewrite Forall_forall in H3. by apply (H3 x Hx).
    + by rewrite union_rotate.
Qed.

Lemma validate_iff (cfg : t) : validate_config cfg = Ok () ↔ valid cfg.
Proof.
  unfold validate_config.
  case_bool_decide as H1. { split; [done | by intros []]. }
  destruct (Z.eqb_spec (len (encap_src cfg)) 0) as [H2 | H2]. { split; [done | by intros []]. }
  destruct (Z.eqb_spec (conntrack_size cfg) 0) as [H3 | H3]. { split; [done | by intros []]. }
  destruct (Z.eqb_spec (hc_interval_ms (health cfg)) 0) as [H4 | H4]. { split; [done | by intros [_ _ _ (? & _)]]. }
  destruct (Z.eqb_spec (hc_timeout_ms (health cfg)) 0) as [H5 | H5]. { split; [done | by intros [_ _ _ (_ & ? & _)]]. }
  destruct (Z.eqb_spec (hc_fall (health cfg)) 0) as [H6 | H6]. { split; [done | by intros [_ _ _ (_ & _ & ? & _)]]. }
  destruct (Z.eqb_spec (hc_rise (health cfg)) 0) as [H7 | H7]. { split; [done | by intros [_ _ _ (_ & _ & _ & ?)]]. }
  cbn [orb].
  destruct (Z.ltb_spec (hc_interval_ms (health cfg)) (hc_timeout_ms (health cfg))) as [H8 | H8].
  { split; [done | intros [_ _ _ _ ? _ _ _ _]; lia]. }
  destruct (Z.ltb_spec PB_MAX_VIPS (Z.of_nat (length (vips cfg)))) as [H9 | H9].
  { split; [done | intros [_ _ _ _ _ ? _ _ _]; lia]. }
  destruct (validate_vips (vips cfg) ∅ ∅) as [all | ex] eqn:Ev; cbn [mbind result_bind].
  - apply validate_vips_ok in Ev as (V1 & V2 & _ & ->). rewrite union_empty_r_L.
    destruct (Z.ltb_spec (PB_MAX_REALS - 1) (Z.of_nat (size (all_addrs (vips cfg))))).
    + split; [done | intros [_ _ _ _ _ _ _ _ ?]; lia].
    + split; [| done]. intros _. by split.
  - split; [done |]. intros [_ _ _ _ _ _ V1 V2 _].
    assert (validate_vips (vips cfg) ∅ ∅ = Ok (all_addrs (vips cfg) ∪ ∅)) as E.
    { apply validate_vips_ok. split_and!; try done. apply Forall_forall. set_solver. }
    congruence.
Qed.

(** Validate_config accepts exactly the configurations that have an
    interface, a non-empty prefix, a conntrack size, positive health-check
    values with the timeout within the interval, at most 64 distinct VIPs, and
    on each VIP distinct non-zero reals of weight at most 1000, with at most
    511 distinct reals in all; every other one throws. *)
Theorem validate_config_iff (cfg : t) : validate_config cfg = Ok () ↔ valid cfg.
Proof. apply validate_iff. Qed.

(** Bit [k] of an address as it is written, most significant first, in the
    integer a little-endian host holds. *)
Definition net_bit (x k : Z) : bool := Z.testbit x (8 * (k / 8) + 7 - k mod 8).

Lemma mask_of_bits n k : 0 <= n <= 32 → 0 <= k < 32 → net_bit (mask_of n) k = (k <? n).
Proof.
  intros Hn Hk.
  assert (forallb (λ n, forallb (λ k, eqb (net_bit (mask_of n) k) (k <? n)) (seqZ 0 32)) (seqZ 0 33) = true) as H
    by (vm_compute; reflexivity).
  rewrite forallb_forall in H. specialize (H n ltac:(apply list_elem_of_In, elem_of_seqZ; lia)).
  rewrite forallb_forall in H. specialize (H k ltac:(apply list_elem_of_In, elem_of_seqZ; lia)).
  by apply eqb_prop in H.
Qed.

Lemma scan_port_two d n : VipSpec.scan_port d 0 = Some n → (length d <= 2)%nat → 0 <= n <= 99.
Proof.
  intros H Hl. destruct d as [| c1 [| c2 [| c3 d]]]; cbn [VipSpec.scan_port] in H; [| | | simpl in Hl; lia].
  - injection H as <-. lia.
  - destruct (VipSpec.isdigit c1) eqn:E; [| done]. apply VipSpec.isdigit_range in E. injection H as <-.
    rewrite u32_id by (unfold is_u; lia). lia.
  - destruct (VipSpec.isdigit c1) eqn:E; [| done]. apply VipSpec.isdigit_range in E.
    destruct (VipSpec.isdigit c2) eqn:E2; [| done]. apply VipSpec.isdigit_range in E2. injection H as <-.
    rewrite (u32_id (0 * 10 + _)), u32_id by (unfold is_u; lia). lia.
Qed.

(** A CIDR as the parser makes it. *)
Record cidr_ok (c : Cidr) : Prop := {
  ck_len : 0 <= len c <= 32;
  ck_mask : mask_be c = mask_of (len c);
  ck_prefix : is_u 32 (prefix_be c) ∧ Z.land (prefix_be c) (mask_be c) = prefix_be c
}.

Lemma find_app c s r : c ∉ s → find c (s ++ c :: r) = Some (length s).
Proof.
  induction s as [| d s IH]; cbn; [by rewrite bool_decide_eq_true_2 |]. intros [Hne Hs]%not_elem_of_cons.
  rewrite bool_decide_eq_false_2 by congruence. by rewrite IH.
Qed.

Lemma slash_not_in_ipv4 a : "/"%char ∉ VipSpec.ipv4_to_string a.
Proof.
  assert (∀ i, 0 <= i → "/"%char ∉ VipSpec.to_string (VipSpec.byte_of a i)) as H.
  { intros i Hi. destruct (VipSpec.to_string_octet (VipSpec.byte_of a i)) as (_ & Hd & _); [by apply VipSpec.byte_of_range |].
    by apply VipSpec.digits_not_elem. }
  unfold VipSpec.ipv4_to_string. rewrite !elem_of_app. cbn [list_ascii_of_string]. rewrite !list_elem_of_singleton.
  intros [E | [E | [E | [E | [E | [E | E]]]]]]; try done; revert E; apply H; lia.
Qed.

Lemma mask_of_range n : is_u 32 (mask_of n).
Proof. unfold mask_of. apply VipSpec.le32_range; pose proof (is_u_u8) as H; unfold is_u in H; split; try apply H; apply Z.lt_succ_r, H. Qed.

Lemma parse_cidr_str c : cidr_ok c → parse_cidr (cidr_str c) = Ok c.
Proof.
  destruct c as [p m n]. intros [Hl Hm [Hp Hk]]. cbn [len mask_be prefix_be] in *. subst m. unfold parse_cidr, cidr_str.
  cbn [prefix_be len]. change (§"/" ++ ?x) with ("/"%char :: x). rewrite find_app by apply slash_not_in_ipv4.
  replace (drop (length (VipSpec.ipv4_to_string p) + 1) _) with (VipSpec.to_string n)
    by (by rewrite drop_app_add).
  rewrite take_app_length.
  destruct (VipSpec.to_string_spec n 2) as (Hd & Hne & Hv & Hlen); [cbn; lia | lia |].
  rewrite bool_decide_eq_false_2 by done. replace (2 <? length (VipSpec.to_string n))%nat with false by (symmetry; by apply Nat.ltb_ge).
  assert (forallb VipSpec.isdigit (VipSpec.to_string n) = true) as ->
    by (apply Is_true_eq_true, forallb_True; eapply Forall_impl; [exact Hd | by intros ? ->]).
  cbn [orb negb].
  rewrite VipSpec.scan_port_value, Hv by (done || lia). replace (32 <? n) with false by lia.
  rewrite VipSpec.parse_ipv4_ipv4_to_string by done. cbn [mbind result_bind]. rewrite Hk.
  unfold u8. by rewrite Z.mod_small by lia.
Qed.

Lemma parse_cidr_inv s c :
  parse_cidr s = Ok c → ∃ slash n a, VipSpec.parse_ipv4 (take slash s) = Ok a ∧ 0 <= n <= 32 ∧
    c = mk_cidr (Z.land a (mask_of n)) (mask_of n) n.
Proof.
  unfold parse_cidr. destruct (find "/" s) as [slash |]; [| done].
  destruct (bool_decide _); [done |]. destruct (2 <? length (drop (slash + 1) s))%nat eqn:El; [done |].
  destruct (negb _); [done |]. cbn [orb].
  destruct (VipSpec.scan_port (drop (slash + 1) s) 0) as [n |] eqn:En; [| done].
  apply Nat.ltb_ge in El. apply scan_port_two in En; [| done].
  destruct (Z.ltb_spec 32 n); [done |].
  destruct (VipSpec.parse_ipv4 (take slash s)) as [a |] eqn:Ea; [| done]. cbn [mbind result_bind].
  intros [= <-]. assert (u8 n = n) as -> by (apply Z.mod_small; lia). exists slash, n, a. split_and!; try done; lia.
Qed.

Lemma parse_cidr_ok s c : parse_cidr s = Ok c → cidr_ok c.
Proof.
  intros (slash & n & a & Ha & Hn & ->)%parse_cidr_inv. apply VipSpec.parse_ipv4_range in Ha. split; cbn [len mask_be prefix_be]; try done.
  split; [apply is_u_land_r; [lia | apply Ha | apply mask_of_range] |]. by rewrite <-Z.land_assoc, Z.land_diag.
Qed.

(** A parsed CIDR has a length of at most 32, a mask whose first len bits
    in network order are the ones that are set, and a prefix that is the parsed
    address with exactly those bits kept, so the prefix is always masked. *)
Theorem parse_cidr_spec (s : str) (c : Cidr) :
  parse_cidr s = Ok c →
  0 <= len c <= 32 ∧
  (∀ k, 0 <= k < 32 → net_bit (mask_be c) k = (k <? len c)) ∧
  ∃ slash a, VipSpec.parse_ipv4 (take slash s) = Ok a ∧
    ∀ k, 0 <= k < 32 → net_bit (prefix_be c) k = net_bit a k && (k <? len c).
Proof.
  intros (slash & n & a & Ha & Hn & ->)%parse_cidr_inv. cbn [len mask_be prefix_be]. split_and!; try lia.
  - intros k Hk. apply mask_of_bits; lia.
  - exists slash, a. split; [done |]. intros k Hk. unfold net_bit at 1. rewrite Z.land_spec.
    by rewrite <-(mask_of_bits n k) by lia.
Qed.

Lemma parse_cidr_spec_witness :
  ∃ c, parse_cidr §"10.99.0.7/24" = Ok c ∧ 0 <= len c <= 32 ∧ prefix_be c = 0x0000630a.
Proof.
  eexists. split; [vm_compute; reflexivity |]. split; [| reflexivity].
  eapply (parse_cidr_spec §"10.99.0.7/24"). vm_compute. reflexivity.
Defined.

End Config.
