(* ===== verification/ConfigFile.v ===== *)
(** * The configuration file (src/core/config.cpp)

    How the daemon reads its YAML file: the schema checks, the typed accessors
    and [parse_config]. The YAML library is the class [Yaml]; what the theorems
    rely on of it is the class [YamlLaws]. *)

From Stdlib Require Import ZArith Lia Ascii String.
From S2P Require Import Prelude Abi VipSpec Maglev Config.

#[local] Set Warnings "-clear-no-such-hyp,-register-all".

(** ** The YAML library

    [Load] returns the text of a syntax error or the root node. A conversion
    [as_...] returns the text of a YAML::Exception or the value. *)
Class Yaml := {
  Node : Type;
  Load : str → str + Node;
  pairs : Node → option (list (Node * Node));    (* IsMap(), and the iteration over it *)
  items : Node → option (list Node);             (* IsSequence(), and its elements *)
  IsNull : Node → bool;
  at_key : Node → str → option Node;             (* node[key], None when it is not defined *)
  as_string : Node → str + str;                  (* as<std::string>() *)
  as_bool : Node → str + bool;                   (* as<bool>() *)
  as_int : Node → str + Z;                       (* as<int>() *)
  as_long_long : Node → str + Z;                 (* as<long long>() *)
  as_uint32 : Node → str + Z                     (* as<uint32_t>() *)
}.

Module ConfigFile.
Import Config.

(** A YAML::Exception that nothing catches: it is a std::runtime_error. *)
Definition or_throw {A} (x : str + A) : result A :=
  match x with inl what => Throw (runtime_error what) | inr a => Ok a end.

(** A list of elements handled in order, each with its index. *)
Fixpoint each_from {A B} (f : nat → A → result B) (i : nat) (l : list A) : result (list B) :=
  match l with
  | [] => Ok []
  | x :: l => y ← f i x; ys ← each_from f (S i) l; Ok (y :: ys)
  end.

Section parse.
Context `{Y : Yaml}.

(** ** Accessors *)

Fixpoint known_keys (where_ : str) (allowed : list str) (l : list (Node * Node)) : result unit :=
  match l with
  | [] => Ok ()
  | kv :: l =>
      key ← or_throw (as_string kv.1);
      if bool_decide (key ∈ allowed) then known_keys where_ allowed l
      else fail (§"config: unknown key `" ++ where_ ++ key ++ §"`")
  end.

Definition check_keys (node : Node) (where_ : str) (allowed : list str) : result unit :=
  match pairs node with
  | None => fail (§"config: `" ++ where_ ++ §"` must be a mapping")
  | Some l => known_keys where_ allowed l
  end.

Definition get_as {A} (as_ : Node → str + A) (node : Node) (key where_ : str) (fallback : A) : result A :=
  match at_key node key with
  | None => Ok fallback
  | Some v => match as_ v with
              | inl _ => fail (§"config: bad value for `" ++ where_ ++ key ++ §"`")
              | inr a => Ok a
              end
  end.

Definition require {A} (as_ : Node → str + A) (node : Node) (key where_ : str) (zero : A) : result A :=
  match at_key node key with
  | None => fail (§"config: `" ++ where_ ++ key ++ §"` is required")
  | Some _ => get_as as_ node key where_ zero
  end.

Definition with_key {A} (key : str) (r : result A) : result A :=
  match r with
  | Throw (invalid_argument what) => fail (§"config: `" ++ key ++ §"`: " ++ what)
  | r => r
  end.

Definition parse_proto (s where_ : str) : result Z :=
  if bool_decide (s = §"tcp") then Ok 6 else
  if bool_decide (s = §"udp") then Ok 17 else
  fail (§"config: `" ++ where_ ++ §"proto` must be tcp or udp, got " ++ s).

(** ** VIPs *)

Definition parse_real (where_ : str) (i : nat) (n : Node) : result RealConfig :=
  let rwhere := where_ ++ §"reals[" ++ VipSpec.to_string (Z.of_nat i) ++ §"]." in
  _ ← check_keys n rwhere [§"address"; §"weight"];
  addr ← with_key (rwhere ++ §"address") (s ← require as_string n §"address" rwhere []; VipSpec.parse_ipv4 s);
  w ← get_as as_int n §"weight" rwhere 1;
  if w <? 0 then fail (§"config: `" ++ rwhere ++ §"weight` must be >= 0") else
  Ok (mk_real_config addr (u32 w)).

Definition parse_vip (index : nat) (n : Node) : result VipConfig :=
  let where_ := §"vips[" ++ VipSpec.to_string (Z.of_nat index) ++ §"]." in
  _ ← check_keys n where_ [§"address"; §"port"; §"proto"; §"no_conntrack"; §"reals"];
  addr ← with_key (where_ ++ §"address") (s ← require as_string n §"address" where_ []; VipSpec.parse_ipv4 s);
  port ← require as_int n §"port" where_ 0;
  if (port <? 1) || (65535 <? port) then fail (§"config: `" ++ where_ ++ §"port` out of range") else
  p ← require as_string n §"proto" where_ [];
  proto ← parse_proto p where_;
  no_ct ← get_as as_bool n §"no_conntrack" where_ false;
  rs ← match at_key n §"reals" with
       | None => Ok []
       | Some reals =>
           if IsNull reals then Ok [] else
           match items reals with
           | None => fail (§"config: `" ++ where_ ++ §"reals` must be a list")
           | Some l => each_from (parse_real where_) 0 l
           end
       end;
  Ok (mk_vip_config (VipSpec.mk addr (VipSpec.port_to_be (u16 port)) proto) no_ct rs).

(** ** The document *)

Definition root_keys : list str :=
  [§"interface"; §"xdp_mode"; §"hash"; §"encap_src_prefix"; §"next_hop"; §"icmp_pmtu"; §"conntrack"; §"socket";
   §"pin_path"; §"metrics"; §"health_check"; §"vips"].

Definition parse_next_hop (root : Node) : result (option Z) :=
  match at_key root §"next_hop" with
  | None => Ok None
  | Some n => if IsNull n then Ok None else
              a ← with_key §"next_hop" (s ← or_throw (as_string n); VipSpec.parse_ipv4 s); Ok (Some a)
  end.

Definition parse_conntrack (root : Node) : result (bool * Z) :=
  match at_key root §"conntrack" with
  | None => Ok (true, PB_CT_DEFAULT_SIZE)
  | Some ct =>
      _ ← check_keys ct §"conntrack." [§"enabled"; §"size"];
      enabled ← get_as as_bool ct §"enabled" §"conntrack." true;
      size ← get_as as_long_long ct §"size" §"conntrack." PB_CT_DEFAULT_SIZE;
      if (size <=? 0) || (Z.shiftl 1 27 <? size) then fail §"config: `conntrack.size` must be in 1..134217728" else
      Ok (enabled, u32 size)
  end.

Definition parse_metrics (root : Node) : result str :=
  match at_key root §"metrics" with
  | None => Ok §"127.0.0.1:9101"
  | Some m => _ ← check_keys m §"metrics." [§"listen"]; get_as as_string m §"listen" §"metrics." §"127.0.0.1:9101"
  end.

Definition parse_health (root : Node) : result HealthCheckConfig :=
  let d := default_health in
  match at_key root §"health_check" with
  | None => Ok d
  | Some h =>
      _ ← check_keys h §"health_check." [§"enabled"; §"interval_ms"; §"timeout_ms"; §"fall"; §"rise"];
      enabled ← get_as as_bool h §"enabled" §"health_check." true;
      interval_ms ← get_as as_uint32 h §"interval_ms" §"health_check." (hc_interval_ms d);
      timeout_ms ← get_as as_uint32 h §"timeout_ms" §"health_check." (hc_timeout_ms d);
      fall ← get_as as_uint32 h §"fall" §"health_check." (hc_fall d);
      rise ← get_as as_uint32 h §"rise" §"health_check." (hc_rise d);
      Ok (mk_health enabled interval_ms timeout_ms fall rise)
  end.

Definition parse_vips (root : Node) : result (list VipConfig) :=
  match at_key root §"vips" with
  | None => Ok []
  | Some vips => if IsNull vips then Ok [] else
                 match items vips with
                 | None => fail §"config: `vips` must be a list"
                 | Some l => each_from parse_vip 0 l
                 end
  end.

Definition parse_root (root : Node) : result Config.t :=
  _ ← check_keys root [] root_keys;
  interface ← require as_string root §"interface" [] [];
  xdp_mode ← with_key §"xdp_mode" (s ← get_as as_string root §"xdp_mode" [] §"auto"; parse_xdp_mode s);
  hash ← with_key §"hash" (s ← get_as as_string root §"hash" [] §"maglev"; Maglev.parse_hash_mode s);
  encap_src ← with_key §"encap_src_prefix" (s ← require as_string root §"encap_src_prefix" [] []; parse_cidr s);
  next_hop ← parse_next_hop root;
  icmp_pmtu ← get_as as_bool root §"icmp_pmtu" [] false;
  ct ← parse_conntrack root;
  socket ← get_as as_string root §"socket" [] §"/run/packetbalance.sock";
  pin_path ← get_as as_string root §"pin_path" [] PB_PIN_DIR;
  metrics_listen ← parse_metrics root;
  health ← parse_health root;
  vips ← parse_vips root;
  let c := Config.mk interface xdp_mode hash encap_src next_hop ct.1 ct.2 icmp_pmtu socket pin_path metrics_listen health vips in
  _ ← validate_config c;
  Ok c.

Definition parse_config (yaml_text : str) : result Config.t :=
  match Load yaml_text with
  | inl what => fail (§"config: YAML syntax: " ++ what)
  | inr root => parse_root root
  end.

(** The contents of the file, None when it cannot be opened. *)
Definition load_config_file (read : str → option str) (path : str) : result Config.t :=
  match read path with
  | None => fail (§"config: cannot open " ++ path)
  | Some text => parse_config text
  end.

End parse.

(** ** What is relied on of the library *)

Fixpoint assoc {A} (k : str) (l : list (str * A)) : option A :=
  match l with
  | [] => None
  | kv :: l => if bool_decide (kv.1 = k) then Some kv.2 else assoc k l
  end.

(** The nodes of documents: scalars, mappings with scalar keys, sequences. *)
Class YamlLaws (Y : Yaml) := {
  scalar : str → Node;
  mapping : list (str * Node) → Node;
  sequence : list Node → Node;
  pairs_mapping l : pairs (mapping l) = Some ((λ kv, (scalar kv.1, kv.2)) <$> l);
  at_key_mapping l k : at_key (mapping l) k = assoc k l;
  items_sequence l : items (sequence l) = Some l;
  scalar_not_null s : IsNull (scalar s) = false;
  sequence_not_null l : IsNull (sequence l) = false;
  as_string_scalar s : as_string (scalar s) = inr s;
  as_bool_scalar (b : bool) : as_bool (scalar (if b then §"true" else §"false")) = inr b;
  as_int_scalar z : 0 <= z < 2 ^ 31 → as_int (scalar (VipSpec.to_string z)) = inr z;
  as_long_long_scalar z : 0 <= z < 2 ^ 63 → as_long_long (scalar (VipSpec.to_string z)) = inr z;
  as_uint32_scalar z : is_u 32 z → as_uint32 (scalar (VipSpec.to_string z)) = inr z;
  as_uint32_range n z : as_uint32 n = inr z → is_u 32 z
}.

(** ** Specification-level definitions *)

(** The configurations a file can express. *)
Record vip_typed (v : VipConfig) : Prop := {
  vt_spec : VipSpec.valid (vc_spec v);
  vt_reals : Forall (λ r, is_u 32 (rc_addr r) ∧ 0 <= rc_weight r) (vc_reals v)
}.

Record health_typed (h : HealthCheckConfig) : Prop := {
  ht_interval : is_u 32 (hc_interval_ms h);
  ht_timeout : is_u 32 (hc_timeout_ms h);
  ht_fall : is_u 32 (hc_fall h);
  ht_rise : is_u 32 (hc_rise h)
}.

Record typed (c : Config.t) : Prop := {
  ty_prefix : cidr_ok (encap_src c);
  ty_next_hop : ∀ a, next_hop c = Some a → is_u 32 a;
  ty_size : 0 < conntrack_size c <= 2 ^ 27;
  ty_health : health_typed (health c);
  ty_vips : Forall vip_typed (vips c)
}.

(** The tree of a configuration. *)
Section tree.
Context `{L : YamlLaws}.

Definition num (z : Z) : Node := scalar (VipSpec.to_string z).
Definition flag (b : bool) : Node := scalar (if b then §"true" else §"false").

Definition real_node (r : RealConfig) : Node :=
  mapping [(§"address", scalar (VipSpec.ipv4_to_string (rc_addr r))); (§"weight", num (rc_weight r))].

Definition vip_node (v : VipConfig) : Node :=
  mapping [(§"address", scalar (VipSpec.ipv4_to_string (VipSpec.addr_be (vc_spec v))));
           (§"port", num (VipSpec.port_from_be (VipSpec.port_be (vc_spec v))));
           (§"proto", scalar (if VipSpec.proto (vc_spec v) =? 6 then §"tcp" else §"udp"));
           (§"no_conntrack", flag (vc_no_conntrack v));
           (§"reals", sequence (real_node <$> vc_reals v))].

Definition health_node (h : HealthCheckConfig) : Node :=
  mapping [(§"enabled", flag (hc_enabled h)); (§"interval_ms", num (hc_interval_ms h)); (§"timeout_ms", num (hc_timeout_ms h));
           (§"fall", num (hc_fall h)); (§"rise", num (hc_rise h))].

Definition config_node (c : Config.t) : Node :=
  mapping ([(§"interface", scalar (interface c)); (§"xdp_mode", scalar (xdp_mode_name (xdp_mode c)));
            (§"hash", scalar (Maglev.hash_mode_name (hash c))); (§"encap_src_prefix", scalar (cidr_str (encap_src c)));
            (§"icmp_pmtu", flag (icmp_pmtu c));
            (§"conntrack", mapping [(§"enabled", flag (conntrack_enabled c)); (§"size", num (conntrack_size c))]);
            (§"socket", scalar (socket c)); (§"pin_path", scalar (pin_path c));
            (§"metrics", mapping [(§"listen", scalar (metrics_listen c))]); (§"health_check", health_node (health c));
            (§"vips", sequence (vip_node <$> vips c))] ++
           match next_hop c with None => [] | Some a => [(§"next_hop", scalar (VipSpec.ipv4_to_string a))] end).

End tree.

(** The document respects the schema: every mapping has only keys it knows. *)
Section schema.
Context `{Y : Yaml}.

Definition only_keys (n : Node) (allowed : list str) : Prop :=
  ∃ l, pairs n = Some l ∧ Forall (λ kv, ∃ k, as_string kv.1 = inr k ∧ k ∈ allowed) l.

Definition list_of (n : Node) (key : str) (P : Node → Prop) : Prop :=
  ∀ v, at_key n key = Some v → IsNull v = true ∨ ∃ l, items v = Some l ∧ Forall P l.

Record vip_schema (n : Node) : Prop := {
  vs_keys : only_keys n [§"address"; §"port"; §"proto"; §"no_conntrack"; §"reals"];
  vs_reals : list_of n §"reals" (λ r, only_keys r [§"address"; §"weight"])
}.

Record schema (root : Node) : Prop := {
  sc_root : only_keys root root_keys;
  sc_conntrack : ∀ n, at_key root §"conntrack" = Some n → only_keys n [§"enabled"; §"size"];
  sc_metrics : ∀ n, at_key root §"metrics" = Some n → only_keys n [§"listen"];
  sc_health : ∀ n, at_key root §"health_check" = Some n →
                only_keys n [§"enabled"; §"interval_ms"; §"timeout_ms"; §"fall"; §"rise"];
  sc_vips : list_of root §"vips" vip_schema
}.

End schema.

(** ** Lemmas *)

Lemma bind_Ok {A B} (r : result A) (k : A → result B) b : r ≫= k = Ok b → ∃ a, r = Ok a ∧ k a = Ok b.
Proof. destruct r; [eauto | discriminate]. Qed.

Lemma with_key_Ok {A} key (r : result A) a : with_key key r = Ok a → r = Ok a.
Proof. destruct r as [| []]; done. Qed.

Lemma each_from_Ok {A B} (P : A → Prop) (Q : B → Prop) (f : nat → A → result B) i l ys :
  (∀ j x y, f j x = Ok y → P x ∧ Q y) → each_from f i l = Ok ys → Forall P l ∧ Forall Q ys.
Proof.
  intros Hf. revert i ys. induction l as [| x l IH]; intros i ys; cbn [each_from]; [intros [= <-]; split; constructor |].
  intros (y & Hy & (ys' & Hys & [= <-])%bind_Ok)%bind_Ok. apply Hf in Hy as [Hx Hy]. apply IH in Hys as [H1 H2]. by split; constructor.
Qed.

Lemma each_from_all {A B} (f : nat → A → result B) (g : B → A) i ys :
  Forall (λ y, ∀ j, f j (g y) = Ok y) ys → each_from f i (g <$> ys) = Ok ys.
Proof.
  intros H. revert i. induction H as [| y ys Hy _ IH]; intros i; [done |]. cbn [fmap list_fmap each_from].
  rewrite Hy. cbn [mbind result_bind]. by rewrite IH.
Qed.

(** Take a successful computation apart. *)
Ltac inv_ok :=
  repeat match goal with
  | H : (_ ≫= _) = Ok _ |- _ => apply bind_Ok in H as (? & ? & ?)
  | H : with_key _ _ = Ok _ |- _ => apply with_key_Ok in H
  | H : fail _ = Ok _ |- _ => discriminate H
  | H : Ok _ = Ok _ |- _ => injection H as <-
  end.

Section sound.
Context `{L : YamlLaws}.

Lemma check_keys_Ok n w allowed : check_keys n w allowed = Ok () → only_keys n allowed.
Proof.
  unfold check_keys. destruct (pairs n) as [l |] eqn:E; [| discriminate]. intros H. exists l. split; [done |]. clear E.
  induction l as [| kv l IH]; [constructor |]. cbn [known_keys] in H. destruct (as_string kv.1) as [? | k] eqn:Ek; [discriminate |].
  cbn [or_throw mbind result_bind] in H. case_bool_decide; [| discriminate]. constructor; [eauto | by apply IH].
Qed.

Lemma parse_real_Ok w i n r :
  parse_real w i n = Ok r → only_keys n [§"address"; §"weight"] ∧ is_u 32 (rc_addr r) ∧ 0 <= rc_weight r.
Proof.
  unfold parse_real. cbv zeta. intros H. inv_ok. case_match; inv_ok. destruct x. cbn [rc_addr rc_weight].
  split_and!; [by eapply check_keys_Ok | by eapply VipSpec.parse_ipv4_range | apply is_u_u32].
Qed.

Lemma port_be_valid p : 1 <= p <= 65535 → is_u 16 (VipSpec.port_to_be (u16 p)) ∧ VipSpec.port_to_be (u16 p) ≠ 0.
Proof.
  intros Hp. assert (is_u 16 p) as H16 by (unfold is_u; lia). rewrite (u16_id p H16).
  destruct (VipSpec.port_be_inverse p H16) as (H1 & _ & H3 & _). split; [done |]. intros E. rewrite E in H1. vm_compute in H1. lia.
Qed.

Lemma parse_vip_Ok i n v : parse_vip i n = Ok v → vip_schema n ∧ vip_typed v.
Proof.
  unfold parse_vip. cbv zeta. intros H. inv_ok. destruct x.
  match goal with H : (if ?b then _ else _) = _ |- _ => destruct b eqn:Ep end; inv_ok.
  apply orb_false_iff in Ep as [Ep1 Ep2]. apply Z.ltb_ge in Ep1, Ep2.
  match goal with H : match at_key n §"reals" with _ => _ end = Ok ?l |- _ => rename l into rs; rename H into Hrs end.
  assert (list_of n §"reals" (λ r, only_keys r [§"address"; §"weight"]) ∧
          Forall (λ r, is_u 32 (rc_addr r) ∧ 0 <= rc_weight r) rs) as [Hs Hr].
  { unfold list_of. destruct (at_key n §"reals") as [m |]; [| injection Hrs as <-; split; [discriminate | constructor]].
    destruct (IsNull m) eqn:En; [injection Hrs as <-; split; [intros ? [= <-]; by left | constructor] |].
    destruct (items m) as [l |] eqn:El; [| discriminate].
    eapply each_from_Ok in Hrs as [H7 H8]; [| intros; by eapply parse_real_Ok]. split; [| exact H8].
    intros ? [= <-]. eauto. }
  split; [split; [by eapply check_keys_Ok | done] |]. split; cbn [vc_spec vc_reals]; [| done].
  split_and!; cbn [VipSpec.addr_be VipSpec.port_be VipSpec.proto].
  - by eapply VipSpec.parse_ipv4_range.
  - by apply port_be_valid.
  - by apply port_be_valid.
  - match goal with H : parse_proto _ _ = Ok _ |- _ => unfold parse_proto in H; repeat case_bool_decide; inv_ok; auto end.
Qed.

Lemma get_as_Ok {A} (as_ : Node → str + A) n k w d a : get_as as_ n k w d = Ok a → a = d ∨ ∃ v, as_ v = inr a.
Proof.
  unfold get_as. destruct (at_key n k) as [v |]; [| intros [= <-]; by left].
  destruct (as_ v) as [| b] eqn:E; [discriminate |]. intros [= <-]. eauto.
Qed.

Lemma get_u32 n k w d a : is_u 32 d → get_as as_uint32 n k w d = Ok a → is_u 32 a.
Proof. intros Hd [-> | (v & Hv)]%get_as_Ok; [done | by eapply as_uint32_range]. Qed.

Lemma parse_health_Ok root h :
  parse_health root = Ok h → health_typed h ∧
  ∀ n, at_key root §"health_check" = Some n → only_keys n [§"enabled"; §"interval_ms"; §"timeout_ms"; §"fall"; §"rise"].
Proof.
  unfold parse_health. cbv zeta. destruct (at_key root §"health_check") as [n |].
  - intros H. inv_ok. destruct x. split; [| intros ? [= <-]; by eapply check_keys_Ok].
    split; cbn [hc_interval_ms hc_timeout_ms hc_fall hc_rise]; (eapply get_u32; [| eassumption]; done).
  - intros [= <-]. split; [done | discriminate].
Qed.

Lemma parse_conntrack_Ok root ct :
  parse_conntrack root = Ok ct → 0 < ct.2 <= 2 ^ 27 ∧ ∀ n, at_key root §"conntrack" = Some n → only_keys n [§"enabled"; §"size"].
Proof.
  unfold parse_conntrack. destruct (at_key root §"conntrack") as [n |]; [| intros [= <-]; split; [done | discriminate]].
  intros H. inv_ok. destruct x. case_match eqn:E; inv_ok. apply orb_false_iff in E as [E1 E2]. cbn [snd].
  change (Z.shiftl 1 27) with (2 ^ 27) in E2. rewrite u32_id by (unfold is_u; lia). split; [lia |]. intros ? [= <-]. by eapply check_keys_Ok.
Qed.

Lemma parse_metrics_Ok root m :
  parse_metrics root = Ok m → ∀ n, at_key root §"metrics" = Some n → only_keys n [§"listen"].
Proof.
  unfold parse_metrics. destruct (at_key root §"metrics") as [n |]; [| discriminate]. intros H. inv_ok. destruct x.
  intros ? [= <-]. by eapply check_keys_Ok.
Qed.

Lemma parse_vips_Ok root vs : parse_vips root = Ok vs → list_of root §"vips" vip_schema ∧ Forall vip_typed vs.
Proof.
  unfold parse_vips, list_of. destruct (at_key root §"vips") as [m |]; [| intros [= <-]; split; [discriminate | constructor]].
  destruct (IsNull m) eqn:En; [intros [= <-]; split; [intros ? [= <-]; by left | constructor] |].
  destruct (items m) as [l |] eqn:El; [| discriminate]. intros Hrs.
  eapply each_from_Ok in Hrs as [H1 H2]; [| intros; by eapply parse_vip_Ok]. split; [| exact H2].
  intros ? [= <-]. eauto.
Qed.

Lemma parse_next_hop_Ok root nh : parse_next_hop root = Ok nh → ∀ a, nh = Some a → is_u 32 a.
Proof.
  unfold parse_next_hop. destruct (at_key root §"next_hop") as [n |]; [| by intros [= <-]].
  destruct (IsNull n); [by intros [= <-] |]. intros H. inv_ok. intros ? [= <-]. by eapply VipSpec.parse_ipv4_range.
Qed.

Lemma parse_root_Ok root c : parse_root root = Ok c → schema root ∧ typed c ∧ Config.valid c.
Proof.
  unfold parse_root. cbv zeta. intros H. inv_ok.
  repeat match goal with x : unit |- _ => destruct x end.
  match goal with H : parse_health _ = _ |- _ => apply parse_health_Ok in H as [? ?] end.
  match goal with H : parse_conntrack _ = _ |- _ => apply parse_conntrack_Ok in H as [? ?] end.
  match goal with H : parse_vips _ = _ |- _ => apply parse_vips_Ok in H as [? ?] end.
  split_and!.
  - split; try done; [by eapply check_keys_Ok | by eapply parse_metrics_Ok].
  - split; cbn [encap_src next_hop conntrack_size health vips]; try done; [by eapply parse_cidr_ok | by eapply parse_next_hop_Ok].
  - by apply validate_iff.
Qed.

End sound.

Section roundtrip.
Context `{L : YamlLaws}.

Lemma check_keys_mapping l w allowed :
  Forall (λ kv : str * Node, kv.1 ∈ allowed) l → check_keys (mapping l) w allowed = Ok ().
Proof.
  intros H. unfold check_keys. rewrite pairs_mapping. induction H as [| kv l Hk _ IH]; [done |].
  cbn [fmap list_fmap known_keys fst]. rewrite as_string_scalar. cbn [or_throw mbind result_bind].
  by rewrite bool_decide_eq_true_2.
Qed.

Lemma get_as_mapping {A} (as_ : Node → str + A) l k w d v a :
  assoc k l = Some v → as_ v = inr a → get_as as_ (mapping l) k w d = Ok a.
Proof. intros H1 H2. unfold get_as. by rewrite at_key_mapping, H1, H2. Qed.

Lemma require_mapping {A} (as_ : Node → str + A) l k w z v a :
  assoc k l = Some v → as_ v = inr a → require as_ (mapping l) k w z = Ok a.
Proof. intros H1 H2. unfold require. rewrite at_key_mapping, H1. by eapply get_as_mapping. Qed.

Lemma parse_real_node w i r :
  is_u 32 (rc_addr r) → 0 <= rc_weight r <= kMaxRealWeight → parse_real w i (real_node r) = Ok r.
Proof.
  destruct r as [a wt]. cbn [rc_addr rc_weight]. intros Ha Hw. unfold kMaxRealWeight in Hw. unfold parse_real, real_node. cbv zeta.
  rewrite check_keys_mapping by (repeat constructor; decide_closed). cbn [mbind result_bind].
  erewrite require_mapping; [| reflexivity | apply as_string_scalar]. cbn [mbind result_bind rc_addr].
  rewrite VipSpec.parse_ipv4_ipv4_to_string by done. cbn [with_key mbind result_bind].
  erewrite get_as_mapping; [| reflexivity | apply as_int_scalar; cbn [rc_weight]; lia]. cbn [mbind result_bind rc_weight].
  replace (wt <? 0) with false by lia. by rewrite u32_id by (unfold is_u; lia).
Qed.

Lemma parse_vip_node i v : vip_typed v → vip_valid v → parse_vip i (vip_node v) = Ok v.
Proof.
  destruct v as [[a p q] nc rs]. intros [(Ha & Hp & Hp0 & Hq) Hr] [_ _ Hw].
  cbn [vc_spec vc_reals VipSpec.addr_be VipSpec.port_be VipSpec.proto] in *. unfold parse_vip, vip_node. cbv zeta.
  rewrite check_keys_mapping by (repeat constructor; decide_closed). cbn [mbind result_bind].
  erewrite (require_mapping _ _ §"address"); [| reflexivity | apply as_string_scalar]. cbn [mbind result_bind vc_spec VipSpec.addr_be].
  rewrite VipSpec.parse_ipv4_ipv4_to_string by done. cbn [with_key mbind result_bind].
  destruct (VipSpec.port_be_inverse p Hp) as (_ & Hinv & _ & Hpr).
  assert (1 <= VipSpec.port_from_be p <= 65535) as Hport.
  { unfold is_u in Hpr. assert (VipSpec.port_from_be p ≠ 0); [| lia]. intros E. rewrite E in Hinv. by vm_compute in Hinv. }
  erewrite (require_mapping _ _ §"port"); [| reflexivity | apply as_int_scalar; cbn [vc_spec VipSpec.port_be]; lia].
  cbn [mbind result_bind vc_spec VipSpec.port_be]. rewrite (proj2 (Z.ltb_ge _ 1)), (proj2 (Z.ltb_ge 65535 _)) by lia. cbn [orb].
  erewrite (require_mapping _ _ §"proto"); [| reflexivity | apply as_string_scalar]. cbn [mbind result_bind vc_spec VipSpec.proto].
  replace (parse_proto _ _) with (Ok q) by (destruct Hq as [-> | ->]; reflexivity). cbn [mbind result_bind].
  erewrite get_as_mapping; [| reflexivity | apply as_bool_scalar]. cbn [mbind result_bind vc_no_conntrack].
  rewrite at_key_mapping. change (assoc §"reals" _) with (Some (sequence (real_node <$> rs))). cbv beta iota.
  rewrite sequence_not_null, items_sequence, each_from_all.
  2: { apply Forall_forall. intros r Hin j. rewrite Forall_forall in Hr, Hw. destruct (Hr r Hin). by apply parse_real_node; auto. }
  cbn [mbind result_bind]. by rewrite u16_id, Hinv by done.
Qed.

Lemma parse_health_node l h :
  assoc §"health_check" l = Some (health_node h) → health_typed h → parse_health (mapping l) = Ok h.
Proof.
  destruct h as [en iv tm fa ri]. intros Hl [H1 H2 H3 H4]. cbn in H1, H2, H3, H4. unfold parse_health. cbv zeta.
  rewrite at_key_mapping, Hl. unfold health_node. rewrite check_keys_mapping by (repeat constructor; decide_closed). cbn [mbind result_bind].
  do 5 (erewrite get_as_mapping; [| reflexivity | (apply as_bool_scalar || apply as_uint32_scalar; done)]; cbn [mbind result_bind]).
  done.
Qed.

Lemma parse_vips_node l vs :
  assoc §"vips" l = Some (sequence (vip_node <$> vs)) → Forall vip_typed vs → Forall vip_valid vs → parse_vips (mapping l) = Ok vs.
Proof.
  intros Hl Ht Hv. unfold parse_vips. rewrite at_key_mapping, Hl, sequence_not_null, items_sequence. apply each_from_all, Forall_forall.
  intros v Hin j. rewrite Forall_forall in Ht, Hv. by apply parse_vip_node; auto.
Qed.

Lemma parse_next_hop_node l nh :
  assoc §"next_hop" l = (λ a, scalar (VipSpec.ipv4_to_string a)) <$> nh → (∀ a, nh = Some a → is_u 32 a) →
  parse_next_hop (mapping l) = Ok nh.
Proof.
  intros Hl Ha. unfold parse_next_hop. rewrite at_key_mapping, Hl. destruct nh as [a |]; [| done]. cbn [fmap option_fmap option_map].
  rewrite scalar_not_null, as_string_scalar. cbn [or_throw mbind result_bind].
  by rewrite VipSpec.parse_ipv4_ipv4_to_string by auto.
Qed.

Lemma parse_conntrack_node l en sz :
  assoc §"conntrack" l = Some (mapping [(§"enabled", flag en); (§"size", num sz)]) → 0 < sz <= 2 ^ 27 →
  parse_conntrack (mapping l) = Ok (en, sz).
Proof.
  intros Hl Hs. unfold parse_conntrack. rewrite at_key_mapping, Hl.
  rewrite check_keys_mapping by (repeat constructor; decide_closed). cbn [mbind result_bind].
  do 2 (erewrite get_as_mapping; [| reflexivity | (apply as_bool_scalar || apply as_long_long_scalar; lia)]; cbn [mbind result_bind]).
  change (Z.shiftl 1 27) with (2 ^ 27). rewrite (proj2 (Z.leb_gt _ 0)), (proj2 (Z.ltb_ge _ sz)) by lia. cbn [orb].
  by rewrite u32_id by (unfold is_u; lia).
Qed.

Lemma parse_metrics_node l m :
  assoc §"metrics" l = Some (mapping [(§"listen", scalar m)]) → parse_metrics (mapping l) = Ok m.
Proof.
  intros Hl. unfold parse_metrics. rewrite at_key_mapping, Hl.
  rewrite check_keys_mapping by (repeat constructor; decide_closed). cbn [mbind result_bind].
  erewrite get_as_mapping; [reflexivity | reflexivity | apply as_string_scalar].
Qed.

(** The tree of a configuration is read as that configuration. *)
Lemma parse_root_node c : typed c → Config.valid c → parse_root (config_node c) = Ok c.
Proof.
  intros [T1 T2 T3 T4 T5] Hv. pose proof (va_vips _ Hv) as V1. apply validate_iff in Hv.
  destruct c as [ifc xm hs es nh cte cts ip sk pp ml h vs].
  unfold parse_root, config_node. cbn [encap_src next_hop conntrack_size health vips interface xdp_mode hash conntrack_enabled icmp_pmtu socket pin_path metrics_listen] in *.
  set (l := _ ++ _). cbv zeta.
  rewrite check_keys_mapping by (destruct nh; repeat constructor; decide_closed). cbn [mbind result_bind].
  erewrite (require_mapping _ _ §"interface"); [| reflexivity | apply as_string_scalar]. cbn [mbind result_bind].
  erewrite (get_as_mapping _ _ §"xdp_mode"); [| reflexivity | apply as_string_scalar]. cbn [mbind result_bind].
  replace (parse_xdp_mode (xdp_mode_name xm)) with (Ok xm) by (by destruct xm). cbn [with_key mbind result_bind].
  erewrite (get_as_mapping _ _ §"hash"); [| reflexivity | apply as_string_scalar]. cbn [mbind result_bind].
  replace (Maglev.parse_hash_mode (Maglev.hash_mode_name hs)) with (Ok hs) by (by destruct hs). cbn [with_key mbind result_bind].
  erewrite (require_mapping _ _ §"encap_src_prefix"); [| reflexivity | apply as_string_scalar]. cbn [mbind result_bind].
  rewrite parse_cidr_str by done. cbn [with_key mbind result_bind].
  rewrite (parse_next_hop_node l nh) by (done || by destruct nh). cbn [mbind result_bind].
  erewrite (get_as_mapping _ _ §"icmp_pmtu"); [| reflexivity | apply as_bool_scalar]. cbn [mbind result_bind].
  rewrite (parse_conntrack_node l cte cts) by done. cbn [mbind result_bind fst snd].
  erewrite (get_as_mapping _ _ §"socket"); [| reflexivity | apply as_string_scalar]. cbn [mbind result_bind].
  erewrite (get_as_mapping _ _ §"pin_path"); [| reflexivity | apply as_string_scalar]. cbn [mbind result_bind].
  rewrite (parse_metrics_node l ml) by done. cbn [mbind result_bind].
  rewrite (parse_health_node l h) by done. cbn [mbind result_bind].
  rewrite (parse_vips_node l vs) by done. cbn [mbind result_bind].
  by rewrite Hv.
Qed.

End roundtrip.

(** ** A library of trees

    Documents as trees, with decimal numbers and the plain booleans: an instance
    of the interface that satisfies its laws. *)

Inductive tree : Type :=
| TNull
| TScalar (s : str)
| TSeq (l : list tree)
| TMap (l : list (str * tree)).

Definition bad_conversion : str := §"bad conversion".

Definition tree_string (n : tree) : str + str := match n with TScalar s => inr s | _ => inl bad_conversion end.
Definition tree_bool (n : tree) : str + bool :=
  match n with
  | TScalar s => if bool_decide (s = §"true") then inr true else if bool_decide (s = §"false") then inr false else inl bad_conversion
  | _ => inl bad_conversion
  end.
Definition tree_num (bound : Z) (n : tree) : str + Z :=
  match n with
  | TScalar s =>
      let v := foldl (λ acc c, acc * 10 + VipSpec.digit_val c) 0 s in
      if forallb VipSpec.isdigit s && (v <? bound) then inr v else inl bad_conversion
  | _ => inl bad_conversion
  end.

Definition tree_yaml (load : str → str + tree) : Yaml := {|
  Node := tree;
  Load := load;
  pairs n := match n with TMap l => Some ((λ kv, (TScalar kv.1, kv.2)) <$> l) | _ => None end;
  items n := match n with TSeq l => Some l | _ => None end;
  IsNull n := match n with TNull => true | _ => false end;
  at_key n k := match n with TMap l => assoc k l | _ => None end;
  as_string := tree_string;
  as_bool := tree_bool;
  as_int := tree_num (2 ^ 31);
  as_long_long := tree_num (2 ^ 63);
  as_uint32 := tree_num (2 ^ 32)
|}.

Lemma tree_num_scalar bound z :
  0 <= z < bound → bound <= 2 ^ 64 → tree_num bound (TScalar (VipSpec.to_string z)) = inr z.
Proof.
  intros Hz Hb. destruct (VipSpec.to_string_spec z 20) as (Hd & _ & Hv & _); [lia | lia |].
  unfold tree_num. cbv zeta. rewrite Hv. rewrite (proj2 (Z.ltb_lt z bound)) by lia.
  by rewrite (Is_true_eq_true (forallb _ _))
    by (apply forallb_True; eapply Forall_impl; [exact Hd | by intros ? ->]).
Qed.

Lemma tree_num_range bound n z : tree_num bound n = inr z → 0 <= z < bound.
Proof.
  destruct n as [| s | |]; try discriminate. unfold tree_num. cbv zeta.
  destruct (forallb _ s) eqn:Ed; [| discriminate]. destruct (Z.ltb_spec (foldl (λ acc c, acc * 10 + VipSpec.digit_val c) 0 s) bound); [| discriminate].
  intros [= <-]. split; [| done]. apply VipSpec.dec_value_mono; [done |].
  apply Is_true_eq_left, forallb_True in Ed. eapply Forall_impl; [exact Ed | by intros ? ?%Is_true_eq_true].
Qed.

#[refine] Definition tree_laws load : YamlLaws (tree_yaml load) := {|
  scalar := TScalar : str → @Node (tree_yaml load);
  mapping := TMap : list (str * @Node (tree_yaml load)) → @Node (tree_yaml load);
  sequence := TSeq : list (@Node (tree_yaml load)) → @Node (tree_yaml load)
|}.
Proof.
  - done.
  - done.
  - done.
  - done.
  - done.
  - done.
  - by intros [].
  - intros z Hz. by apply tree_num_scalar.
  - intros z Hz. by apply tree_num_scalar.
  - intros z Hz. by apply tree_num_scalar.
  - intros n z. apply tree_num_range.
Defined.

(** ** Theorems *)

(** C29: a file that is accepted respects the schema (every mapping has only the
    keys that are allowed there, so a typo is never silently ignored), and the
    configuration read from it is in range and valid: addresses, ports and
    protocols are those of a VIP, the prefix is masked, the table size is within
    2^27, and every check of validate_config holds. *)
Theorem parse_config_sound `{L : YamlLaws} (text : str) (c : Config.t) :
  parse_config text = Ok c →
  ∃ root, Load text = inr root ∧ schema root ∧ typed c ∧ Config.valid c.
Proof.
  unfold parse_config. destruct (Load text) as [| root]; [discriminate |]. intros H%parse_root_Ok. by exists root.
Qed.

(** C30: every valid configuration in range can be written down: a file that
    loads as the tree of the configuration is read back as exactly it, optional
    keys, health-check settings, VIPs, reals and their order included. *)
Theorem config_roundtrip `{L : YamlLaws} (text : str) (c : Config.t) :
  typed c → Config.valid c → Load text = inr (config_node c) → parse_config text = Ok c.
Proof. intros Ht Hv Hl. unfold parse_config. rewrite Hl. by apply parse_root_node. Qed.

Definition demo_config : Config.t :=
  Config.mk §"eth0" Native Maglev.ModeMaglev (mk_cidr 0x000010ac 0x0000ffff 16) (Some 0x0100000a) true 1024 false
    §"/run/pb.sock" §"/sys/fs/bpf/pb" §"0.0.0.0:9101" (mk_health true 1000 500 3 2)
    [mk_vip_config (VipSpec.mk 0x6400000a 0x5000 6) true [mk_real_config 0x0700000a 1; mk_real_config 0x0800000a 5]].

Definition demo_load : str → str + tree := λ _, inr (@config_node _ (tree_laws (λ _, inl [])) demo_config).

Lemma demo_config_typed : typed demo_config.
Proof.
  split; [by split | by intros a [= <-] | done | by split |].
  repeat constructor; cbn; (decide_closed || auto).
Qed.

Lemma demo_config_valid : Config.valid demo_config.
Proof. apply validate_iff. vm_compute. reflexivity. Qed.

Lemma config_roundtrip_witness : @parse_config (tree_yaml demo_load) [] = Ok demo_config.
Proof. apply (@config_roundtrip _ (tree_laws demo_load) [] demo_config demo_config_typed demo_config_valid). reflexivity. Defined.

Lemma parse_config_sound_witness :
  ∃ root, @Load (tree_yaml demo_load) [] = inr root ∧ @schema (tree_yaml demo_load) root ∧ Config.valid demo_config.
Proof.
  destruct (@parse_config_sound _ (tree_laws demo_load) [] demo_config) as (root & H1 & H2 & _ & H4); [vm_compute; reflexivity |].
  exists root. split; [exact H1 |]. split; [exact H2 | exact H4].
Defined.

(** A value of next_hop that is not a scalar is reported with the YAML
    library's own text, which does not name the key, unlike a bad value of any
    other key. *)
Theorem next_hop_error_unnamed :
  let doc := TMap [(§"interface", TScalar §"eth0"); (§"encap_src_prefix", TScalar §"172.16.0.0/16"); (§"next_hop", TSeq [])] in
  let bad_socket := TMap [(§"interface", TScalar §"eth0"); (§"encap_src_prefix", TScalar §"172.16.0.0/16"); (§"socket", TSeq [])] in
  @parse_config (tree_yaml (λ _, inr doc)) [] = Throw (runtime_error bad_conversion) ∧
  @parse_config (tree_yaml (λ _, inr bad_socket)) [] = fail §"config: bad value for `socket`".
Proof. split; vm_compute; reflexivity. Qed.

End ConfigFile.
