(* ===== verification/ApiServer.v ===== *)
(** * The API server's framing (src/daemon/api_server.cpp)

    Newline-delimited requests over a stream socket: [serve] cuts the bytes it
    receives into lines, hands each to the handler and writes the answer. The
    socket is two lists of outcomes, one per recv and one per send. *)

From Stdlib Require Import ZArith Lia Ascii String.
From S2P Require Import Prelude Config.

Module ApiServer.

Definition kMaxRequestBytes : nat := Z.to_nat (Z.shiftl 1 20).

Definition nl : ascii := ascii_of_nat 10.
Definition cr : ascii := ascii_of_nat 13.

(** ** Sending *)

(** What send does: it is interrupted, fails, or takes that many bytes. *)
Inductive send_result : Type :=
| SendIntr
| SendFail
| Sent (n : nat).

(** Whether everything was written, the bytes that were, and the outcomes left;
    after the last outcome the peer is gone. *)
Fixpoint write_all (sends : list send_result) (data : str) : bool * str * list send_result :=
  match data with
  | [] => (true, [], sends)
  | _ =>
      match sends with
      | [] => (false, [], [])
      | SendIntr :: sends => write_all sends data
      | SendFail :: sends | Sent O :: sends => (false, [], sends)
      | Sent n :: sends =>
          let '(ok, out, sends) := write_all sends (drop n data) in (ok, take n data ++ out, sends)
      end
  end.

(** ** Serving a connection *)

Inductive recv_result : Type :=
| RecvIntr
| RecvEnd                       (* closed, or an error *)
| Recv (chunk : str).           (* at least one byte *)

Definition too_large : str :=
  let q := [ascii_of_nat 34] in
  §"{" ++ q ++ §"ok" ++ q ++ §":false," ++ q ++ §"error" ++ q ++ §":" ++ q ++ §"request too large" ++ q ++ §"}" ++ [nl].

(** if (!line.empty() && line.back() == '\r') line.pop_back(); *)
Definition strip_cr (line : str) : str :=
  match last line with
  | Some c => if bool_decide (c = cr) then take (length line - 1) line else line
  | None => line
  end.

Section serve.
Context {S : Type} (handler : str → S → str * S).

(** The connection: the handler's state, the bytes written, the sends left. *)
Record Conn := mk_conn {
  cn_state : S;
  cn_out : str;
  cn_sends : list send_result
}.

Definition send (data : str) (c : Conn) : bool * Conn :=
  let '(ok, out, sends) := write_all (cn_sends c) data in
  (ok, mk_conn (cn_state c) (cn_out c ++ out) sends).

Definition handle (line : str) (c : Conn) : bool * Conn :=
  let '(resp, s) := handler line (cn_state c) in
  send (resp ++ [nl]) (mk_conn s (cn_out c) (cn_sends c)).

(** The lines that are complete in the buffer; each turn removes a newline. *)
Fixpoint drain (fuel : nat) (buf : str) (c : Conn) : bool * str * Conn :=
  match fuel with
  | O => (true, buf, c)
  | Datatypes.S fuel =>
      match Config.find nl buf with
      | None => (true, buf, c)
      | Some i =>
          let line := strip_cr (take i buf) in
          let buf := drop (i + 1) buf in
          if bool_decide (line = []) then drain fuel buf c else
          let '(ok, c) := handle line c in
          if ok then drain fuel buf c else (false, buf, c)
      end
  end.

Fixpoint serve (recvs : list recv_result) (buf : str) (c : Conn) : Conn :=
  match recvs with
  | [] | RecvEnd :: _ => c
  | RecvIntr :: recvs => serve recvs buf c
  | Recv chunk :: recvs =>
      let '(ok, buf, c) := drain (length (buf ++ chunk)) (buf ++ chunk) c in
      if negb ok then c else
      if (kMaxRequestBytes <? length buf)%nat then (send too_large c).2 else
      serve recvs buf c
  end.

(** ** The specification *)

(** The complete lines of a byte string, and what follows the last of them. *)
Fixpoint split_lines (s line : str) : list str * str :=
  match s with
  | [] => ([], line)
  | ch :: s =>
      if bool_decide (ch = nl) then let '(ls, r) := split_lines s [] in (line :: ls, r)
      else split_lines s (line ++ [ch])
  end.

(** The requests in a byte string. *)
Definition requests (s : str) : list str := filter (λ line, line ≠ []) (strip_cr <$> (split_lines s []).1).

(** Every request answered in order, one line each. *)
Fixpoint answer_all (ls : list str) (s : S) : str * S :=
  match ls with
  | [] => ([], s)
  | line :: ls =>
      let '(resp, s) := handler line s in
      let '(out, s) := answer_all ls s in
      (resp ++ [nl] ++ out, s)
  end.

(** No line is too long, wherever the chunks end. *)
Fixpoint bounded (chunks : list str) (buf : str) : Prop :=
  match chunks with
  | [] => True
  | chunk :: chunks =>
      let rest := (split_lines (buf ++ chunk) []).2 in
      (length rest <= kMaxRequestBytes)%nat ∧ bounded chunks rest
  end.

End serve.

(** ** Lemmas *)

(** Sends that succeed, each with at least one byte. *)
Definition takes (x : send_result) : bool := match x with Sent (Datatypes.S _) => true | _ => false end.
Definition room (sends : list send_result) : nat := length (filter (λ x, takes x = true) sends).
Definition reliable (sends : list send_result) : Prop := Forall (λ x, (x = SendIntr) ∨ (takes x = true)) sends.

Lemma write_all_ok sends data :
  reliable sends → (length data <= room sends)%nat →
  ∃ sends', write_all sends data = (true, data, sends') ∧ reliable sends' ∧ (room sends <= room sends' + length data)%nat.
Proof.
  intros H. revert data. induction H as [| x sends Hx H IH]; intros data Hr.
  - destruct data; [| cbn in Hr; lia]. exists []. split; [done | split; [constructor | done]].
  - destruct data as [| ch data]; [exists (x :: sends); split; [done | split; [by constructor | cbn; lia]] |]. destruct Hx as [-> | Hx].
    + apply IH. exact Hr.
    + destruct x as [| | [| n]]; try discriminate. unfold room in Hr. rewrite filter_cons_True in Hr by done. cbn [length] in Hr.
      destruct (IH (drop (Datatypes.S n) (ch :: data))) as (sends' & E & Hrel & Hroom).
      { rewrite length_drop. unfold room. cbn [length]. lia. }
      exists sends'. cbn [write_all]. rewrite E. split; [by rewrite take_drop |]. split; [done |].
      unfold room at 1. rewrite filter_cons_True by done. cbn [length]. rewrite length_drop in Hroom. unfold room in *. cbn [length] in Hroom. lia.
Qed.

Lemma find_None c s : Config.find c s = None → c ∉ s.
Proof.
  induction s as [| d s IH]; cbn; [intros _; apply not_elem_of_nil |]. case_bool_decide as E; [done |].
  destruct (Config.find c s); [done |]. intros _. apply not_elem_of_cons. split; [congruence | by apply IH].
Qed.

Lemma find_Some c s i : Config.find c s = Some i → (c ∉ take i s) ∧ s = take i s ++ c :: drop (i + 1) s.
Proof.
  revert i. induction s as [| d s IH]; intros i; cbn; [done |]. case_bool_decide as E.
  - intros [= <-]. subst d. split; [by apply not_elem_of_nil | done].
  - destruct (Config.find c s) as [j |]; [| done]. intros [= <-]. destruct (IH j eq_refl) as [H1 H2]. cbn. split.
    + apply not_elem_of_cons. split; [congruence | done].
    + by f_equal.
Qed.

Lemma split_none s line : nl ∉ s → split_lines s line = ([], line ++ s).
Proof.
  revert line. induction s as [| ch s IH]; intros line; cbn; [by rewrite app_nil_r |]. intros [Hne Hs]%not_elem_of_cons.
  rewrite bool_decide_eq_false_2, IH by congruence. by rewrite <-app_assoc.
Qed.

Lemma split_app s1 s2 line :
  split_lines (s1 ++ s2) line =
  ((split_lines s1 line).1 ++ (split_lines s2 (split_lines s1 line).2).1, (split_lines s2 (split_lines s1 line).2).2).
Proof.
  revert line. induction s1 as [| ch s1 IH]; intros line; cbn [app split_lines fst snd]; [apply surjective_pairing |].
  case_bool_decide; rewrite IH; [| done]. by destruct (split_lines s1 []).
Qed.

Lemma rest_clean s line : nl ∉ line → nl ∉ (split_lines s line).2.
Proof.
  revert line. induction s as [| ch s IH]; intros line H; cbn [split_lines]; [done |]. case_bool_decide as E.
  - specialize (IH [] (not_elem_of_nil _)). by destruct (split_lines s []).
  - apply IH. rewrite elem_of_app, list_elem_of_singleton. intros [? | E']; [done | congruence].
Qed.

Section framing.
Context {S : Type} (handler : str → S → str * S).
Abbreviation answer_all := (answer_all handler).

(** The connection after answering some requests. *)
Definition answered (ls : list str) (c c' : Conn) : Prop :=
  cn_out c' = cn_out c ++ (answer_all ls (cn_state c)).1 ∧ cn_state c' = (answer_all ls (cn_state c)).2 ∧
  reliable (cn_sends c') ∧ (room (cn_sends c) <= room (cn_sends c') + length (answer_all ls (cn_state c)).1)%nat.

Lemma answer_app l1 l2 s :
  answer_all (l1 ++ l2) s =
  ((answer_all l1 s).1 ++ (answer_all l2 (answer_all l1 s).2).1, (answer_all l2 (answer_all l1 s).2).2).
Proof.
  revert s. induction l1 as [| x l1 IH]; intros s; cbn [app ApiServer.answer_all fst snd]; [apply surjective_pairing |].
  destruct (handler x s) as [resp s1]. rewrite IH. destruct (answer_all l1 s1) as [o1 s2]. cbn [fst snd]. by rewrite <-!app_assoc.
Qed.

Lemma answered_app l1 l2 c c1 c2 : answered l1 c c1 → answered l2 c1 c2 → answered (l1 ++ l2) c c2.
Proof.
  intros (A1 & A2 & A3 & A4) (B1 & B2 & B3 & B4). unfold answered. rewrite answer_app. cbn [fst snd]. rewrite A2 in *.
  split_and!; [by rewrite B1, A1, app_assoc | done | done | rewrite length_app; lia].
Qed.

Lemma answered_nil c : reliable (cn_sends c) → answered [] c c.
Proof. intros H. split_and!; try done; [by rewrite app_nil_r | cbn; lia]. Qed.

Lemma handle_ok line c :
  reliable (cn_sends c) → (length (answer_all [line] (cn_state c)).1 <= room (cn_sends c))%nat →
  ∃ c', handle handler line c = (true, c') ∧ answered [line] c c'.
Proof.
  unfold handle, send, answered. cbn [ApiServer.answer_all]. destruct (handler line (cn_state c)) as [resp s] eqn:Eh. cbn [fst snd cn_sends cn_state cn_out].
  intros Hrel Hroom. rewrite app_nil_r in *. destruct (write_all_ok (cn_sends c) (resp ++ [nl]) Hrel Hroom) as (sends' & -> & H1 & H2).
  eexists. split; [reflexivity |]. cbn [fst snd cn_sends cn_state cn_out]. split_and!; done.
Qed.

Definition reqs (ls : list str) : list str := filter (λ line, line ≠ []) (strip_cr <$> ls).

Lemma reqs_app l1 l2 : reqs (l1 ++ l2) = reqs l1 ++ reqs l2.
Proof. unfold reqs. by rewrite fmap_app, filter_app. Qed.

Lemma reqs_cons line ls :
  reqs (line :: ls) = (if bool_decide (strip_cr line = []) then [] else [strip_cr line]) ++ reqs ls.
Proof.
  unfold reqs. rewrite fmap_cons, filter_cons. case_bool_decide as E.
  - by rewrite decide_False by (intros H; by apply H).
  - by rewrite decide_True.
Qed.

Lemma drain_ok fuel buf c :
  (length buf <= fuel)%nat → reliable (cn_sends c) →
  (length (answer_all (reqs (split_lines buf []).1) (cn_state c)).1 <= room (cn_sends c))%nat →
  ∃ c', drain handler fuel buf c = (true, (split_lines buf []).2, c') ∧ answered (reqs (split_lines buf []).1) c c'.
Proof.
  revert buf c. induction fuel as [| fuel IH]; intros buf c Hf Hrel Hroom.
  { destruct buf; [| cbn in Hf; lia]. exists c. split; [done | by apply answered_nil]. }
  cbn [drain]. destruct (Config.find nl buf) as [i |] eqn:Ei.
  2: { apply find_None in Ei. rewrite (split_none buf []) by done. exists c. split; [done | by apply answered_nil]. }
  destruct (find_Some _ _ _ Ei) as [Hi Eb].
  assert (split_lines buf [] = (take i buf :: (split_lines (drop (i + 1) buf) []).1, (split_lines (drop (i + 1) buf) []).2)) as Es.
  { rewrite Eb at 1. rewrite split_app, (split_none (take i buf) []) by done. cbn [fst snd app split_lines].
    rewrite bool_decide_eq_true_2 by done. by destruct (split_lines (drop (i + 1) buf) []). }
  rewrite Es in *. cbn [fst snd] in *. assert (length (drop (i + 1) buf) <= fuel)%nat as Hf'.
  { rewrite Eb in Hf. rewrite length_app in Hf. cbn in Hf. lia. }
  rewrite reqs_cons in *. case_bool_decide as El; cbn [app] in *; [by apply IH |].
  change (?x :: reqs ?l) with ([x] ++ reqs l) in *. rewrite answer_app in Hroom. cbn [fst] in Hroom.
  rewrite length_app in Hroom. destruct (handle_ok (strip_cr (take i buf)) c Hrel) as (c1 & -> & Ha); [lia |].
  pose proof Ha as (_ & A2 & A3 & A4). destruct (IH (drop (i + 1) buf) c1 Hf' A3) as (c' & -> & Hb); [rewrite A2; lia |].
  exists c'. split; [done |]. by eapply answered_app.
Qed.

(** The chunks that are received. *)
Definition chunks_of (recvs : list recv_result) : list str :=
  omap (λ r, match r with Recv chunk => Some chunk | _ => None end) recvs.

Lemma serve_ok recvs buf c :
  nl ∉ buf → Forall (λ r, r ≠ RecvEnd) recvs → bounded (chunks_of recvs) buf → reliable (cn_sends c) →
  (length (answer_all (reqs (split_lines (mjoin (chunks_of recvs)) buf).1) (cn_state c)).1 <= room (cn_sends c))%nat →
  answered (reqs (split_lines (mjoin (chunks_of recvs)) buf).1) c (serve handler recvs buf c).
Proof.
  intros Hbuf Hr. revert buf c Hbuf. induction Hr as [| r recvs Hr _ IH]; intros buf c Hbuf Hb Hrel Hroom.
  { by apply answered_nil. }
  destruct r as [| | chunk]; [by apply IH | done |].
  change (chunks_of (Recv chunk :: recvs)) with (chunk :: chunks_of recvs) in *. cbn [bounded] in Hb. destruct Hb as [Hlen Hb].
  change (mjoin (chunk :: ?l)) with (chunk ++ mjoin l) in *. rewrite split_app in Hroom |- *. cbn [fst] in *. rewrite reqs_app in *.
  assert (split_lines (buf ++ chunk) [] = split_lines chunk buf) as Es.
  { rewrite split_app, (split_none buf []) by done. cbn [fst snd app]. symmetry. apply surjective_pairing. }
  rewrite answer_app in Hroom. cbn [fst] in Hroom. rewrite length_app in Hroom. cbn [serve].
  destruct (drain_ok (length (buf ++ chunk)) (buf ++ chunk) c) as (c1 & -> & Ha); [done | done | rewrite Es; lia |].
  cbn [negb]. rewrite Es in *. rewrite (proj2 (Nat.ltb_ge _ _) Hlen). pose proof Ha as (_ & A2 & A3 & A4).
  eapply answered_app; [exact Ha |]. apply IH; [by apply rest_clean | done | done | rewrite A2; lia].
Qed.

End framing.

(** ** Theorems *)

(** C31: however the kernel cuts the byte stream into chunks and however it
    splits or interrupts the sends, the connection answers exactly the non-empty
    lines of the stream, in order, one answer line each, and nothing of an
    incomplete last line; the handler sees them in that order. (The peer stays,
    and no line is longer than 1 MiB.) *)
Theorem serve_framing {S : Type} (handler : str → S → str * S) (recvs : list recv_result) (c : Conn) :
  Forall (λ r, r ≠ RecvEnd) recvs → bounded (chunks_of recvs) [] → reliable (cn_sends c) →
  let '(out, s) := answer_all handler (requests (mjoin (chunks_of recvs))) (cn_state c) in
  (length out <= room (cn_sends c))%nat →
  cn_out (serve handler recvs [] c) = cn_out c ++ out ∧ cn_state (serve handler recvs [] c) = s.
Proof.
  intros Hr Hb Hrel. destruct (answer_all handler (requests (mjoin (chunks_of recvs))) (cn_state c)) as [out s] eqn:E.
  intros Hroom. destruct (serve_ok handler recvs [] c (not_elem_of_nil _) Hr Hb Hrel) as (H1 & H2 & _).
  - unfold requests in E. unfold reqs. by rewrite E.
  - unfold requests in E. unfold reqs in H1, H2. rewrite E in H1, H2. by split.
Qed.

Lemma short_enough n : Z.of_nat n <= 2 ^ 20 → (n <= kMaxRequestBytes)%nat.
Proof. intros H. apply Nat2Z.inj_le. unfold kMaxRequestBytes. by rewrite Z2Nat.id. Qed.

Lemma serve_framing_witness :
  let recvs := [Recv §"pi"; RecvIntr; Recv (§"ng" ++ [cr; nl; nl] ++ §"x" ++ [nl] ++ §"rest")] in
  let c := mk_conn 0%nat [] (replicate 9 (Sent 1)) in
  let echo := λ (line : str) (n : nat), (line, Datatypes.S n) in
  cn_out (serve echo recvs [] c) = §"ping" ++ [nl] ++ §"x" ++ [nl] ∧ cn_state (serve echo recvs [] c) = 2%nat.
Proof.
  intros recvs c echo. apply (serve_framing echo recvs c).
  - repeat constructor; discriminate.
  - split; [apply short_enough; vm_compute; discriminate |]. split; [apply short_enough; vm_compute; discriminate | exact I].
  - repeat constructor; right; reflexivity.
  - vm_compute. lia.
Defined.

End ApiServer.
