(* ===== verification/ApiThreads.v ===== *)
(** * The threads of the API server (src/daemon/api_server.cpp)

    The acceptor, one thread per connection and the caller of stop(), interleaved
    at their system calls and at the mutex [clients_mu_]. What a connection's
    thread does with the bytes is [ApiServer.serve]; here it is where it waits. *)

From Stdlib Require Import ZArith Lia.
From S2P Require Import Prelude.

#[local] Set Warnings "-clear-no-such-hyp".

Module ApiThreads.

(** ** State *)

(** Where the thread of a connection is. *)
Inductive cpc : Type :=
| CTop                  (* while (!stopping_) *)
| CRecv                 (* in recv *)
| CLines (n : nat)      (* that many complete lines of the buffer are left *)
| CEnd                  (* serve has returned *)
| CLocked               (* holds the mutex *)
| CClosed               (* close(c.fd) has returned *)
| CReturn               (* the mutex is given up *)
| COver.

Record Client := mk_client { fd : Z; done : bool; at_ : cpc }.

Inductive apc : Type :=
| ATop                  (* while (!stopping_) *)
| APoll
| AAccept
| ALock (x : Z)         (* a connection, the mutex not yet taken *)
| AReap (x : Z) (i : nat)  (* the loop over clients_, at the i-th *)
| AOver
| ACrashed.             (* std::thread threw: std::terminate *)

Inductive spc : Type :=
| SIdle                 (* stop() is not called *)
| SJoin                 (* acceptor_.join() *)
| SLock
| SShut (i : nat)       (* the loop of shutdown calls, with the mutex *)
| SJoins (i : nat)      (* the loop of joins *)
| SOver.

(** Whose a descriptor of the process is: a connection of the server, or of any
    other part of the daemon. *)
Inductive owner : Type := Mine | Other.

#[export] Instance owner_eq_dec : EqDecision owner.
Proof. solve_decision. Defined.

Record t := mk {
  stopping_ : bool;
  acceptor_ : apc;
  clients_ : list Client;
  clients_mu_ : bool;           (* taken *)
  listen_fd_ : bool;            (* open *)
  stopper : spc;
  fds : gmap Z owner;
  shut : gset Z;                (* the connections after shutdown *)
  alien : bool                  (* a close or shutdown met somebody else's descriptor, or none *)
}.

Definition set_stopping (s : t) : t := mk true (acceptor_ s) (clients_ s) (clients_mu_ s) (listen_fd_ s) SJoin (fds s) (shut s) (alien s).
Definition set_acceptor (a : apc) (s : t) : t := mk (stopping_ s) a (clients_ s) (clients_mu_ s) (listen_fd_ s) (stopper s) (fds s) (shut s) (alien s).
Definition set_clients (l : list Client) (s : t) : t := mk (stopping_ s) (acceptor_ s) l (clients_mu_ s) (listen_fd_ s) (stopper s) (fds s) (shut s) (alien s).
Definition set_mu (b : bool) (s : t) : t := mk (stopping_ s) (acceptor_ s) (clients_ s) b (listen_fd_ s) (stopper s) (fds s) (shut s) (alien s).
Definition set_stopper (p : spc) (s : t) : t := mk (stopping_ s) (acceptor_ s) (clients_ s) (clients_mu_ s) (listen_fd_ s) p (fds s) (shut s) (alien s).
Definition set_fds (f : gmap Z owner → gmap Z owner) (s : t) : t := mk (stopping_ s) (acceptor_ s) (clients_ s) (clients_mu_ s) (listen_fd_ s) (stopper s) (f (fds s)) (shut s) (alien s).

(** After start(), which has made the listening socket and the acceptor. *)
Definition started (others : gset Z) : t := mk false ATop [] false true SIdle (gset_to_gmap Other others) ∅ false.

(** ** System calls on a descriptor *)

Definition mine (s : t) (x : Z) : bool := bool_decide (fds s !! x = Some Mine).

Definition accept (x : Z) (s : t) : t :=
  mk (stopping_ s) (acceptor_ s) (clients_ s) (clients_mu_ s) (listen_fd_ s) (stopper s) (<[x := Mine]> (fds s)) (shut s ∖ {[x]}) (alien s).

Definition close (x : Z) (s : t) : t :=
  mk (stopping_ s) (acceptor_ s) (clients_ s) (clients_mu_ s) (listen_fd_ s) (stopper s) (delete x (fds s)) (shut s) (alien s || negb (mine s x)).

(** shutdown(-1, ...) fails and does nothing. *)
Definition shutdown (x : Z) (s : t) : t :=
  mk (stopping_ s) (acceptor_ s) (clients_ s) (clients_mu_ s) (listen_fd_ s) (stopper s) (fds s)
    (if mine s x then {[x]} ∪ shut s else shut s) (alien s || negb (x =? -1) && negb (mine s x)).

(** ** Moves *)

(** The most lines one recv can complete: the chunk's size. *)
Definition kChunk : nat := Z.to_nat 4096.

Definition goto (p : cpc) (c : Client) : Client := mk_client (fd c) (done c) p.

(** What the thread of a connection does next, up to its own state. [true]: the
    move needs the peer (bytes, the end of its stream, room to send) or a signal. *)
Inductive serving (s : t) (c : Client) : bool → cpc → cpc → Prop :=
| v_stop : stopping_ s = true → serving s c false CTop CEnd
| v_top : stopping_ s = false → serving s c false CTop CRecv
| v_data n : (n <= kChunk)%nat → serving s c true CRecv (CLines n)
| v_intr : serving s c true CRecv CTop
| v_end : serving s c true CRecv CEnd
| v_recv_shut : fd c ∈ shut s → serving s c false CRecv CEnd
| v_line n : serving s c true (CLines (S n)) (CLines n)
| v_send_fails n : serving s c true (CLines (S n)) CEnd
| v_send_shut n : fd c ∈ shut s → serving s c false (CLines (S n)) CEnd
| v_next : serving s c false (CLines 0) CTop
| v_too_large : serving s c false (CLines 0) CEnd.

(** The client after its move, and the rest of the server. *)
Inductive client_move (s : t) (c : Client) : bool → Client → t → Prop :=
| c_serve b p : serving s c b (at_ c) p → client_move s c b (goto p c) s
| c_lock : at_ c = CEnd → clients_mu_ s = false → client_move s c false (goto CLocked c) (set_mu true s)
| c_close : at_ c = CLocked → client_move s c false (goto CClosed c) (close (fd c) s)
| c_done : at_ c = CClosed → client_move s c false (mk_client (-1) true CReturn) (set_mu false s)
| c_over : at_ c = CReturn → client_move s c false (goto COver c) s.

Inductive acceptor_move (s : t) : bool → t → Prop :=
| a_stop : acceptor_ s = ATop → stopping_ s = true → acceptor_move s false (set_acceptor AOver s)
| a_top : acceptor_ s = ATop → stopping_ s = false → acceptor_move s false (set_acceptor APoll s)
| a_idle : acceptor_ s = APoll → acceptor_move s false (set_acceptor ATop s)
| a_ready : acceptor_ s = APoll → acceptor_move s true (set_acceptor AAccept s)
| a_fail : acceptor_ s = AAccept → acceptor_move s false (set_acceptor ATop s)
| a_accept x : acceptor_ s = AAccept → 0 <= x → fds s !! x = None →
    acceptor_move s true (set_acceptor (ALock x) (accept x s))
| a_lock x : acceptor_ s = ALock x → clients_mu_ s = false → acceptor_move s false (set_mu true (set_acceptor (AReap x 0) s))
| a_skip x i c : acceptor_ s = AReap x i → clients_ s !! i = Some c → done c = false →
    acceptor_move s false (set_acceptor (AReap x (S i)) s)
| a_join x l1 c l2 : acceptor_ s = AReap x (length l1) → clients_ s = l1 ++ c :: l2 → done c = true → at_ c = COver →
    acceptor_move s false (set_clients (l1 ++ l2) s)
| a_spawn x i : acceptor_ s = AReap x i → clients_ s !! i = None →
    acceptor_move s false (set_mu false (set_acceptor ATop (set_clients (clients_ s ++ [mk_client x false CTop]) s)))
| a_throw x i : acceptor_ s = AReap x i → clients_ s !! i = None → acceptor_move s true (set_acceptor ACrashed s).

(** stop(), once it has set [stopping_]; a second call returns at once. *)
Inductive stop_move (s : t) : bool → t → Prop :=
| s_joined : stopper s = SJoin → acceptor_ s = AOver → stop_move s false (set_stopper SLock s)
| s_lock : stopper s = SLock → clients_mu_ s = false → stop_move s false (set_mu true (set_stopper (SShut 0) s))
| s_shut i c : stopper s = SShut i → clients_ s !! i = Some c → stop_move s false (shutdown (fd c) (set_stopper (SShut (S i)) s))
| s_unlock i : stopper s = SShut i → clients_ s !! i = None → stop_move s false (set_mu false (set_stopper (SJoins 0) s))
| s_join i c : stopper s = SJoins i → clients_ s !! i = Some c → at_ c = COver → stop_move s false (set_stopper (SJoins (S i)) s)
| s_clear i : stopper s = SJoins i → clients_ s !! i = None →
    stop_move s false (mk (stopping_ s) (acceptor_ s) [] (clients_mu_ s) false SOver (fds s) (shut s) (alien s)).

(** A move of one of the server's threads, as long as the process lives. *)
Inductive move (b : bool) (s s' : t) : Prop :=
| m_client l1 c l2 c' s1 :
    clients_ s = l1 ++ c :: l2 → client_move s c b c' s1 → acceptor_ s ≠ ACrashed →
    s' = set_clients (l1 ++ c' :: l2) s1 → move b s s'
| m_acceptor : acceptor_move s b s' → move b s s'
| m_stop : stop_move s b s' → acceptor_ s ≠ ACrashed → move b s s'.

(** What happens around it: stop() is called, the daemon opens and closes other
    descriptors, among them ones with the numbers of closed connections. *)
Inductive around (s : t) : t → Prop :=
| r_stop : stopper s = SIdle → around s (set_stopping s)
| r_open x : 0 <= x → fds s !! x = None → around s (set_fds <[x := Other]> s)
| r_close x : fds s !! x = Some Other → around s (set_fds (delete x) s).

(** [n] moves of the server, among anything around it. *)
Inductive exec : nat → t → t → Prop :=
| x_none s : exec 0 s s
| x_around n s1 s2 s3 : around s1 s2 → exec n s2 s3 → exec n s1 s3
| x_move b n s1 s2 s3 : move b s1 s2 → exec n s2 s3 → exec (S n) s1 s3.

(** ** The invariant *)

(** The descriptor is the server's and not yet closed. *)
Definition is_open (c : Client) : bool := match at_ c with CClosed | CReturn | COver => false | _ => true end.

Definition open_fds (l : list Client) : list Z := omap (λ c, if is_open c then Some (fd c) else None) l.
Definition pending (a : apc) : list Z := match a with ALock x | AReap x _ => [x] | _ => [] end.
Definition owned (s : t) : list Z := pending (acceptor_ s) ++ open_fds (clients_ s).

(** Who has the mutex. *)
Definition c_holds (c : Client) : nat := match at_ c with CLocked | CClosed => 1 | _ => 0 end.
Definition a_holds (a : apc) : nat := match a with AReap _ _ => 1 | _ => 0 end.
Definition s_holds (p : spc) : nat := match p with SShut _ => 1 | _ => 0 end.
Definition holders (s : t) : nat := a_holds (acceptor_ s) + s_holds (stopper s) + sum_list (c_holds <$> clients_ s).

Definition client_ok (c : Client) : Prop :=
  match at_ c with CReturn | COver => fd c = -1 ∧ done c = true | _ => done c = false end.

Definition unblocked (s : t) (c : Client) : Prop := is_open c = true → fd c ∈ shut s.

Definition upto (i : nat) (P : Client → Prop) (l : list Client) : Prop := ∀ j c, (j < i)%nat → l !! j = Some c → P c.

Definition stop_ok (s : t) : Prop :=
  (stopper s ≠ SIdle → stopping_ s = true) ∧
  match stopper s with
  | SIdle | SJoin => True
  | SLock => acceptor_ s = AOver
  | SShut i => acceptor_ s = AOver ∧ upto i (unblocked s) (clients_ s)
  | SJoins i => acceptor_ s = AOver ∧ Forall (unblocked s) (clients_ s) ∧ upto i (λ c, at_ c = COver) (clients_ s)
  | SOver => acceptor_ s = AOver ∧ clients_ s = [] ∧ listen_fd_ s = false
  end.

Record inv (s : t) : Prop := {
  i_mu : holders s = (if clients_mu_ s then 1 else 0)%nat;
  i_clients : Forall client_ok (clients_ s);
  i_fds : ∀ x, fds s !! x = Some Mine ↔ x ∈ owned s;
  i_once : NoDup (owned s);
  i_pos : ∀ x, is_Some (fds s !! x) → 0 <= x;
  i_alien : alien s = false;
  i_stop : stop_ok s
}.

(** ** Its preservation *)

Lemma open_fds_app l1 l2 : open_fds (l1 ++ l2) = open_fds l1 ++ open_fds l2.
Proof. apply omap_app. Qed.

Lemma open_fds_cons c (l : list Client) : open_fds (c :: l) = (if is_open c then [fd c] else []) ++ open_fds l.
Proof. unfold open_fds. cbn. by destruct (is_open c). Qed.

Lemma holders_app (l1 : list Client) c l2 : sum_list (c_holds <$> l1 ++ c :: l2) = (c_holds c + sum_list (c_holds <$> l1 ++ l2))%nat.
Proof. rewrite !fmap_app, fmap_cons, !sum_list_with_app. cbn. unfold sum_list. cbn. lia. Qed.

Lemma upto_upd i (P Q : Client → Prop) l1 c c' l2 :
  upto i P (l1 ++ c :: l2) → (P c → Q c') → (∀ d, P d → Q d) → upto i Q (l1 ++ c' :: l2).
Proof.
  intros H Hc Hd j d Hj. destruct (decide (j = length l1)) as [-> | Hne].
  - rewrite list_lookup_middle by done. intros [= <-]. apply Hc, (H (length l1)); [done |]. by apply list_lookup_middle.
  - intros E. apply Hd, (H j); [done |]. rewrite <-E. destruct (decide (j < length l1)%nat); [by rewrite !lookup_app_l |].
    rewrite !lookup_app_r by lia. by destruct (j - length l1)%nat eqn:Ej; [lia |].
Qed.

(** A client moves: it does not reopen its descriptor, and gives it up by closing it. *)
Lemma inv_client_upd s l1 c c' l2 (mu : bool) f :
  inv s → clients_ s = l1 ++ c :: l2 → at_ c ≠ COver →
  (is_open c' = true → is_open c = true ∧ fd c' = fd c) → client_ok c' →
  (c_holds c' + (if clients_mu_ s then 1 else 0) = c_holds c + (if mu then 1 else 0))%nat →
  f = (if is_open c && negb (is_open c') then delete (fd c) (fds s) else fds s) →
  inv (mk (stopping_ s) (acceptor_ s) (l1 ++ c' :: l2) mu (listen_fd_ s) (stopper s) f (shut s) false).
Proof.
  intros [I1 I2 I3 I4 I5 I6 [I7 I8]] El Hat Hop Hok Hmu ->.
  set (own := pending (acceptor_ s) ++ open_fds l1 ++ open_fds l2).
  assert (owned s ≡ₚ (if is_open c then [fd c] else []) ++ own) as Ho.
  { unfold owned, own. rewrite El, open_fds_app, open_fds_cons. destruct (is_open c); cbn; [| done]. by rewrite !Permutation_middle. }
  rewrite El in I2. apply Forall_app in I2 as [F1 [F2 F3]%Forall_cons].
  set (s1 := mk _ _ _ _ _ _ _ _ _).
  assert (owned s1 ≡ₚ (if is_open c' then [fd c'] else []) ++ own) as Ho1.
  { unfold owned, own, s1. cbn [acceptor_ clients_]. rewrite open_fds_app, open_fds_cons. destruct (is_open c'); cbn; [| done]. by rewrite !Permutation_middle. }
  rewrite Ho in I4. split; cbn [s1 fds alien clients_].
  - unfold holders in *. cbn [s1 acceptor_ stopper clients_ clients_mu_]. rewrite El, holders_app in I1. rewrite holders_app. destruct mu, (clients_mu_ s); lia.
  - apply Forall_app; split; [done | by constructor].
  - intros x. rewrite Ho1. destruct (is_open c') eqn:E'.
    + destruct (Hop eq_refl) as [-> ->]. cbn. rewrite I3, Ho. destruct (is_open c) eqn:Ec; [done |]. destruct (Hop eq_refl). congruence.
    + destruct (is_open c) eqn:Ec; cbn [andb negb app]; [| by rewrite I3, Ho]. cbn in I4. apply NoDup_cons in I4 as [I4 _].
      rewrite lookup_delete_Some, I3, Ho. cbn. rewrite elem_of_cons. split; [naive_solver |]. intros Hx. split; [| by right]. by intros <-.
  - rewrite Ho1. destruct (is_open c') eqn:E'; [| by apply NoDup_app in I4 as (_ & _ & I4)]. destruct (Hop eq_refl) as [Ec ->]. by rewrite Ec in I4.
  - intros x. destruct (_ && _); [| apply I5]. intros [y [_ Hy]%lookup_delete_Some]. apply I5. eauto.
  - done.
  - split; [exact I7 |]. cbn [s1 stopper acceptor_ clients_ listen_fd_].
    assert (unblocked s c → unblocked s1 c') as Hu by (intros H E; destruct (Hop E) as [E1 ->]; by apply H).
    rewrite El in I8. destruct (stopper s); try done.
    + split; [apply I8 |]. eapply upto_upd; [apply I8 | done | done].
    + destruct I8 as (A & B & C). split_and!; [done | |].
      * apply Forall_app in B as [B1 [B2 B3]%Forall_cons]. apply Forall_app. split; [done |]. constructor; auto.
      * eapply upto_upd; [apply C | done | done].
    + destruct I8 as (_ & B & _). by destruct l1.
Qed.

Lemma serving_ok s c b p :
  serving s c b (at_ c) p → client_ok c →
  is_open c = true ∧ is_open (goto p c) = true ∧ client_ok (goto p c) ∧ c_holds (goto p c) = c_holds c.
Proof.
  unfold client_ok, is_open, c_holds. cbn [at_ goto fd done]. intros H. destruct (at_ c); by inversion H.
Qed.

Lemma inv_client s l1 c l2 b c' s1 :
  inv s → clients_ s = l1 ++ c :: l2 → client_move s c b c' s1 → inv (set_clients (l1 ++ c' :: l2) s1).
Proof.
  intros Hi El Hm. pose proof (i_alien s Hi) as Ha. assert (client_ok c) as Hok.
  { pose proof (i_clients s Hi) as F. rewrite El in F. by apply Forall_app in F as [_ [? _]%Forall_cons]. }
  assert (∀ f, f = (if is_open c && negb (is_open c') then delete (fd c) (fds s) else fds s) → at_ c ≠ COver →
    (is_open c' = true → is_open c = true ∧ fd c' = fd c) → client_ok c' → c_holds c' = c_holds c →
    inv (mk (stopping_ s) (acceptor_ s) (l1 ++ c' :: l2) (clients_mu_ s) (listen_fd_ s) (stopper s) f (shut s) false)) as Hq.
  { intros f -> ? ? ? Eh. by eapply inv_client_upd; eauto; rewrite Eh. }
  destruct Hm as [b p H | E Hmu | E | E | E]; unfold set_clients; cbn; rewrite ?Ha.
  - destruct (serving_ok _ _ _ _ H Hok) as (O1 & O2 & O3 & O4). apply Hq; try done.
    + by rewrite O1, O2.
    + intros E. unfold is_open in O1. by rewrite E in O1.
  - eapply (inv_client_upd s l1 c); eauto; unfold is_open, c_holds, client_ok in *; cbn; rewrite ?E, ?Hmu in *; done.
  - assert (mine s (fd c) = true) as ->.
    { apply bool_decide_eq_true. apply (i_fds s Hi). unfold owned. rewrite El, open_fds_app, open_fds_cons. unfold is_open at 1. rewrite E. cbn.
      rewrite !elem_of_app, elem_of_cons. auto. }
    cbn [negb orb]. apply Hq; unfold is_open, c_holds, client_ok in *; cbn; rewrite ?E in *; done.
  - assert (clients_mu_ s = true) as Hmu.
    { pose proof (i_mu s Hi) as I. unfold holders in I. rewrite El, holders_app in I. unfold c_holds at 1 in I. rewrite E in I. destruct (clients_mu_ s); [done | lia]. }
    eapply (inv_client_upd s l1 c); eauto; unfold is_open, c_holds, client_ok in *; cbn; rewrite ?E, ?Hmu in *; done.
  - apply Hq; unfold is_open, c_holds, client_ok in *; cbn; rewrite ?E in *; done.
Qed.

(** stop() waits for the acceptor first. *)
Lemma acceptor_runs s : inv s → acceptor_ s ≠ AOver → stopper s = SIdle ∨ stopper s = SJoin.
Proof. intros Hi Ha. destruct (i_stop s Hi) as [_ H]. destruct (stopper s); auto; tauto. Qed.

Lemma stop_ok_early s s' :
  stopper s = SIdle ∨ stopper s = SJoin → stopper s' = stopper s → stopping_ s' = stopping_ s → stop_ok s → stop_ok s'.
Proof. intros [E | E] E1 E2 [H _]; split; rewrite E1, ?E2; try done; by rewrite E. Qed.

(** The acceptor moves among its own descriptors. *)
Lemma inv_acc s a l (mu : bool) :
  inv s → acceptor_ s ≠ AOver → Forall client_ok l → pending a ++ open_fds l ≡ₚ owned s →
  (a_holds a + sum_list (c_holds <$> l) + (if clients_mu_ s then 1 else 0) =
   a_holds (acceptor_ s) + sum_list (c_holds <$> clients_ s) + (if mu then 1 else 0))%nat →
  inv (mk (stopping_ s) a l mu (listen_fd_ s) (stopper s) (fds s) (shut s) (alien s)).
Proof.
  intros Hi Ha Hl Ho Hh. pose proof (acceptor_runs s Hi Ha) as Hs. destruct Hi as [I1 I2 I3 I4 I5 I6 I7].
  split; try done.
  - unfold holders in *. cbn [acceptor_ stopper clients_ clients_mu_]. destruct mu, (clients_mu_ s); lia.
  - intros x. rewrite I3. unfold owned at 2. cbn [acceptor_ clients_]. by rewrite Ho.
  - unfold owned. cbn [acceptor_ clients_]. by rewrite Ho.
  - by eapply stop_ok_early; [exact Hs | ..].
Qed.

Lemma inv_goto s a :
  inv s → acceptor_ s ≠ AOver → pending a = pending (acceptor_ s) → a_holds a = a_holds (acceptor_ s) → inv (set_acceptor a s).
Proof. intros Hi Ha Ep Eh. apply inv_acc; [done | done | apply Hi | by rewrite Ep | by rewrite Eh]. Qed.

Lemma inv_accept s x : inv s → acceptor_ s = AAccept → 0 <= x → fds s !! x = None → inv (set_acceptor (ALock x) (accept x s)).
Proof.
  intros Hi Ha Hx Hn. assert (stopper s = SIdle ∨ stopper s = SJoin) as Hs by (apply acceptor_runs; [done | by rewrite Ha]).
  destruct Hi as [I1 I2 I3 I4 I5 I6 I7].
  assert (owned (set_acceptor (ALock x) (accept x s)) = x :: owned s) as Eo by (unfold owned; by rewrite Ha).
  split; rewrite ?Eo; cbn [set_acceptor accept fds alien clients_]; try done.
  - unfold holders in *. cbn. by rewrite Ha in I1.
  - intros y. rewrite lookup_insert_Some, elem_of_cons, <-I3. destruct (decide (x = y)) as [<- | ?]; naive_solver.
  - apply NoDup_cons. split; [| done]. rewrite <-I3. by rewrite Hn.
  - intros y [o [[<- _] | [_ H]]%lookup_insert_Some]; [done | eauto].
  - by eapply stop_ok_early; [exact Hs | ..].
Qed.

(** The server is as it should be, or the process has been ended. *)
Definition good (s : t) : Prop := acceptor_ s = ACrashed ∨ inv s.

Lemma inv_acceptor s b s' : inv s → acceptor_move s b s' → good s'.
Proof.
  intros Hi Hm. pose proof (i_mu s Hi) as Hmu. unfold holders in Hmu. pose proof (i_clients s Hi) as Hc.
  assert (∀ x i, acceptor_ s = AReap x i → clients_mu_ s = true) as Hheld.
  { intros x i E. rewrite E in Hmu. cbn in Hmu. destruct (clients_mu_ s); [done | lia]. }
  destruct Hm as [E _ | E _ | E | E | E | x E Hx Hn | x E Hm | x i c E El Hd | x l1 c l2 E El Hd Hat | x i E El | x i E El]; [right .. | by left].
  1-5: apply (inv_goto s); rewrite ?E; done.
  - by apply inv_accept.
  - apply (inv_acc s); rewrite ?E; try done; [unfold owned; by rewrite E |]. rewrite Hm. cbn. lia.
  - apply (inv_goto s); rewrite ?E; done.
  - rewrite El in Hc. apply Forall_app in Hc as [F1 [_ F2]%Forall_cons]. apply (inv_acc s); rewrite ?E; try done.
    + by apply Forall_app.
    + unfold owned. rewrite E, El, !open_fds_app, open_fds_cons. unfold is_open. by rewrite Hat.
    + rewrite El, holders_app. assert (c_holds c = 0%nat) as -> by (unfold c_holds; by rewrite Hat). done.
  - apply (inv_acc s); rewrite ?E; try done.
    + apply Forall_app; split; [done |]. by repeat constructor.
    + unfold owned. rewrite E. cbn [clients_ set_clients set_acceptor]. rewrite open_fds_app. cbn. by rewrite Permutation_app_comm.
    + cbn [clients_ set_clients set_acceptor]. rewrite (Hheld _ _ E), fmap_app, sum_list_with_app. cbn. lia.
Qed.

Lemma inv_stop s b s' : inv s → stop_move s b s' → inv s'.
Proof.
  intros Hi Hm. pose proof (i_stop s Hi) as [Hs Hp]. pose proof Hi as [I1 I2 I3 I4 I5 I6 _]. unfold holders in I1.
  assert (stopper s ≠ SIdle → stopping_ s = true) as Hst by done.
  destruct Hm as [E Ea | E Hmu | i c E El | i E El | i c E El Hat | i E El]; rewrite E in Hp, I1; cbn in I1.
  - split; try done; try (unfold holders; cbn; lia). split; [intros _; cbn; apply Hst; by rewrite E | done].
  - split; try done; try (unfold holders; cbn; rewrite Hmu in I1; lia). split; [intros _; cbn; apply Hst; by rewrite E |].
    cbn. split; [done |]. intros j d Hj. lia.
  - destruct Hp as [Ha Hu]. assert (client_ok c) as Hok by (by apply (Forall_lookup_1 _ _ _ _ I2 El)).
    assert (is_open c = true → mine s (fd c) = true) as Hmine.
    { intros Ho. apply bool_decide_eq_true, I3. unfold owned. apply elem_of_app. right. apply list_elem_of_omap. exists c.
      split; [by eapply list_elem_of_lookup_2 | by rewrite Ho]. }
    split; try done; cbn [shutdown set_stopper fds alien clients_].
    + rewrite I6. cbn. change (mine (set_stopper (SShut (S i)) s) (fd c)) with (mine s (fd c)). destruct (is_open c) eqn:Ho; [by rewrite (Hmine eq_refl), andb_false_r |].
      assert (fd c = -1) as ->; [| done]. pose proof Hi as Hi'. unfold client_ok, is_open in *. destruct (at_ c) eqn:Eat; try done; try apply Hok.
      exfalso. destruct (list_elem_of_split_length _ _ _ El) as (l1 & l2 & E2 & _). rewrite E2, holders_app in I1. unfold c_holds at 1 in I1. rewrite Eat in I1.
      destruct (clients_mu_ s); lia.
    + split; [intros _; cbn; apply Hst; by rewrite E |]. split; [done |]. intros j d Hj Hd Hod.
      cbn [shut shutdown set_stopper]. change (mine (set_stopper (SShut (S i)) s) (fd c)) with (mine s (fd c)). destruct (decide (j = i)) as [-> | Hne].
      * assert (d = c) as -> by (cbn in Hd; congruence). rewrite (Hmine Hod). set_solver.
      * assert (fd d ∈ shut s) by (apply (Hu j d); [lia | done..]). destruct (mine s (fd c)); set_solver.
  - destruct Hp as [Ha Hu]. assert (clients_mu_ s = true) as Hmu by (destruct (clients_mu_ s); [done | lia]). rewrite Hmu in I1.
    split; try done; try (unfold holders; cbn; lia). split; [intros _; cbn; apply Hst; by rewrite E |]. cbn. split_and!; [done | | intros j d Hj; lia].
    apply Forall_lookup. intros j d Hd Hod. apply (Hu j d); [| done..]. apply lookup_ge_None in El. apply lookup_lt_Some in Hd. cbn in Hd. lia.
  - destruct Hp as (Ha & Hu & Hj). split; try done. split; [intros _; cbn; apply Hst; by rewrite E |]. cbn. split_and!; [done | done |].
    intros j d Hjd Hd. destruct (decide (j = i)) as [-> | Hne]; [cbn in Hd; congruence |]. apply (Hj j d); [lia | done].
  - destruct Hp as (Ha & Hu & Hj). assert (Forall (λ c, at_ c = COver) (clients_ s)) as Hall.
    { apply Forall_lookup. intros j d Hd. apply (Hj j d); [| done]. apply lookup_ge_None in El. apply lookup_lt_Some in Hd. lia. }
    assert (open_fds (clients_ s) = [] ∧ sum_list (c_holds <$> clients_ s) = 0%nat) as [Eo Eh].
    { clear -Hall. induction Hall as [| c l E _ [IH1 IH2]]; [done |]. rewrite open_fds_cons, IH1. unfold is_open, c_holds in *. cbn. by rewrite E. }
    unfold owned in I3, I4. rewrite Eo in I3, I4. rewrite Eh in I1. split; try done; try (unfold holders; cbn; lia).
    split; [intros _; cbn; apply Hst; by rewrite E | done].
Qed.

Lemma inv_around s s' : inv s → around s s' → inv s'.
Proof.
  intros [I1 I2 I3 I4 I5 I6 I7] Hr. destruct Hr as [E | x Hx Hn | x Hx].
  - split; try done. unfold holders in *. cbn. by rewrite E in I1.
  - split; try done; cbn [set_fds fds].
    + intros y. rewrite <-(I3 y), lookup_insert_Some. destruct (decide (x = y)) as [<- | ?]; naive_solver.
    + intros y [o [[<- _] | [_ H]]%lookup_insert_Some]; [done | eauto].
  - split; try done; cbn [set_fds fds].
    + intros y. rewrite <-(I3 y), lookup_delete_Some. destruct (decide (x = y)) as [<- | ?]; naive_solver.
    + intros y [o [_ H]%lookup_delete_Some]. eauto.
Qed.

Lemma good_move b s s' : good s → move b s s' → good s'.
Proof.
  intros [Hc | Hi] Hm.
  - exfalso. destruct Hm as [? ? ? ? ? _ _ H _ | H | _ H]; [done | | done]. destruct H; congruence.
  - destruct Hm as [l1 c l2 c' s1 El Hm _ -> | Hm | Hm _].
    + right. by eapply inv_client.
    + by eapply inv_acceptor.
    + right. by eapply inv_stop.
Qed.

Lemma good_exec n s s' : exec n s s' → good s → good s'.
Proof.
  induction 1 as [s | n s1 s2 s3 Hr _ IH | b n s1 s2 s3 Hm _ IH]; intros Hg; [done | |]; apply IH.
  - destruct Hg as [Hc | Hi]; [left; by destruct Hr | right; by eapply inv_around].
  - by eapply good_move.
Qed.

Lemma inv_started others : Forall (λ x, 0 <= x) (elements others) → inv (started others).
Proof.
  intros Hpos. split; try done; cbn [started fds]; try (by constructor).
  - intros x. rewrite lookup_gset_to_gmap_Some. split; [by intros [_ ?] |]. intros []%not_elem_of_nil.
  - intros x [o [Hx _]%lookup_gset_to_gmap_Some]. rewrite Forall_forall in Hpos. by apply Hpos, elem_of_elements.
Qed.

(** ** The moves that are left after a stop *)

Definition c_left (c : Client) : nat :=
  match at_ c with
  | CRecv => kChunk + 7 | CLines n => n + 6 | CTop => 5 | CEnd => 4 | CLocked => 3 | CClosed => 2 | CReturn => 1 | COver => 0
  end.
Definition a_left (n : nat) (a : apc) : nat :=
  match a with
  | APoll => n + 13 | AAccept => n + 12 | ALock _ => n + 11 | AReap _ i => (n - i) + 10 | ATop => 1 | AOver | ACrashed => 0
  end.
Definition s_left (n : nat) (p : spc) : nat :=
  match p with
  | SIdle | SJoin => n + n + 5 | SLock => n + n + 4 | SShut i => (n - i) + n + 3 | SJoins i => (n - i) + 1 | SOver => 0
  end.
Definition moves_left (s : t) : nat :=
  a_left (length (clients_ s)) (acceptor_ s) + s_left (length (clients_ s)) (stopper s) + sum_list (c_left <$> clients_ s).

Lemma left_app (l1 : list Client) c l2 : sum_list (c_left <$> l1 ++ c :: l2) = (c_left c + sum_list (c_left <$> l1 ++ l2))%nat.
Proof. rewrite !fmap_app, fmap_cons, !sum_list_with_app. cbn. lia. Qed.

Lemma serving_left s c b p : serving s c b (at_ c) p → stopping_ s = true → (c_left (goto p c) < c_left c)%nat.
Proof. unfold c_left. cbn [at_ goto]. intros H Hs. destruct (at_ c); inversion H; subst; try congruence; lia. Qed.

Lemma client_left s c b c' s1 :
  client_move s c b c' s1 → stopping_ s = true →
  (c_left c' < c_left c)%nat ∧ acceptor_ s1 = acceptor_ s ∧ stopper s1 = stopper s ∧ stopping_ s1 = stopping_ s.
Proof.
  intros H Hs. destruct H as [b p H | E _ | E | E | E]; split_and!; try done; [by eapply serving_left | unfold c_left; cbn; rewrite E; lia ..].
Qed.

Lemma move_left_ b s s' :
  move b s s' → stopping_ s = true → (moves_left s' < moves_left s)%nat ∧ stopping_ s' = true.
Proof.
  intros Hm Hs. unfold moves_left. destruct Hm as [l1 c l2 c' s1 El Hm _ -> | Hm | Hm _].
  - destruct (client_left _ _ _ _ _ Hm Hs) as (Hc & E1 & E2 & E3). cbn [set_clients clients_ acceptor_ stopper stopping_].
    rewrite E1, E2, E3, El, !left_app, !length_app. cbn [length]. split; [lia | done].
  - destruct Hm as [E _ | E ? | E | E | E | x E _ _ | x E _ | x i c E El _ | x l1 c l2 E El _ Hat | x i E El | x i E El];
      cbn [set_acceptor set_mu set_clients accept clients_ acceptor_ stopper stopping_]; rewrite E; cbn [a_left]; (split; [| done]); try congruence; try lia.
    + apply lookup_lt_Some in El. lia.
    + rewrite El, left_app, !length_app. cbn [length]. destruct (stopper s); cbn; lia.
    + rewrite fmap_app, sum_list_with_app, length_app. cbn. destruct (stopper s); cbn; lia.
  - destruct Hm as [E _ | E _ | i c E El | i E El | i c E El _ | i E El];
      cbn [set_stopper set_mu shutdown clients_ acceptor_ stopper stopping_]; rewrite E; cbn [s_left]; (split; [| done]); try lia.
    + apply lookup_lt_Some in El. lia.
    + apply lookup_lt_Some in El. lia.
    + cbn. assert (a_left 0 (acceptor_ s) <= a_left (length (clients_ s)) (acceptor_ s))%nat by (destruct (acceptor_ s); cbn; lia). lia.
Qed.

(** Once stop() is called. *)
Definition called (s : t) : Prop := stopper s ≠ SIdle ∧ stopping_ s = true.

Lemma called_move b s s' : move b s s' → called s → called s' ∧ (moves_left s' < moves_left s)%nat.
Proof.
  intros Hm [H1 H2]. destruct (move_left_ b s s' Hm H2) as [H3 H4]. split; [| done]. split; [| done].
  destruct Hm as [l1 c l2 c' s1 El Hm _ -> | Hm | Hm _].
  - destruct (client_left _ _ _ _ _ Hm H2) as (_ & _ & E & _). cbn. by rewrite E.
  - by destruct Hm.
  - by destruct Hm.
Qed.

Lemma called_exec n s s' : exec n s s' → called s → called s' ∧ (n <= moves_left s)%nat.
Proof.
  induction 1 as [s | n s1 s2 s3 Hr _ IH | b n s1 s2 s3 Hm _ IH]; intros Hc.
  - split; [done | lia].
  - destruct Hc as [H1 H2]. destruct Hr; [done | by apply IH ..].
  - destruct (called_move b s1 s2 Hm Hc) as [Hc2 H2]. destruct (IH Hc2). split; [done | lia].
Qed.

Lemma stopping_move b s s' : move b s s' → stopping_ s' = stopping_ s ∧ (stopper s = SIdle → stopper s' = SIdle).
Proof.
  intros Hm. destruct Hm as [l1 c l2 c' s1 El Hm _ -> | Hm | Hm _]; destruct Hm; (split; [done |]); cbn; congruence.
Qed.

Lemma stopping_exec n s s' : exec n s s' → (stopper s ≠ SIdle → called s) → stopper s' ≠ SIdle → called s'.
Proof.
  induction 1 as [s | n s1 s2 s3 Hr _ IH | b n s1 s2 s3 Hm _ IH]; intros Hc Hs; [by apply Hc | |]; apply IH; try done; intros H2; split; try done.
  - destruct Hr; [done | by apply Hc ..].
  - destruct (stopping_move b s1 s2 Hm) as [-> Hi]. apply Hc. by intros ?%Hi.
Qed.

(** ** No deadlock *)

Lemma client_can s c c' s1 :
  c ∈ clients_ s → acceptor_ s ≠ ACrashed → client_move s c false c' s1 → ∃ s', move false s s'.
Proof. intros (l1 & l2 & E)%list_elem_of_split Ha Hm. eexists. by eapply m_client. Qed.

(** Whoever has the mutex does not wait for it, nor for the peer. *)
Lemma holder_moves s : inv s → acceptor_ s ≠ ACrashed → clients_mu_ s = true → ∃ s', move false s s'.
Proof.
  intros Hi Ha Hmu. pose proof (i_mu s Hi) as H. unfold holders in H. rewrite Hmu in H. pose proof (i_clients s Hi) as Hok.
  rewrite Forall_forall in Hok. destruct (acceptor_ s) as [| | | | x i | |] eqn:Ea; try done.
  5: { destruct (clients_ s !! i) as [c |] eqn:El; [| eexists; by apply m_acceptor, (a_spawn s x i)].
    pose proof (list_elem_of_lookup_2 _ _ _ El) as Hin. specialize (Hok c Hin). destruct (done c) eqn:Ed; [| eexists; by apply m_acceptor, (a_skip s x i c)].
    unfold client_ok in Hok. destruct (at_ c) eqn:Eat; try congruence.
    - eapply client_can; [exact Hin | by rewrite Ea | by apply c_over].
    - apply list_elem_of_split_length in El as (l1 & l2 & E & ->). eexists. by apply m_acceptor, (a_join s x l1 c l2). }
  all: destruct (stopper s) as [| | | i | |] eqn:Es; cbn in H.
  all: try (destruct (clients_ s !! i) as [c |] eqn:El; eexists; (apply m_stop; [| by rewrite Ea]); [by apply (s_shut s i c) | by apply (s_unlock s i)]).
  all: assert (∃ c, c ∈ clients_ s ∧ c_holds c ≠ 0%nat) as (c & Hin & Hc)
    by (revert H; clear; induction (clients_ s) as [| c l IH]; cbn; [done |]; intros H; destruct (c_holds c) eqn:E;
        [destruct IH as (d & ? & ?); [done |]; exists d; split; [by right | done] | exists c; split; [by left | by rewrite E]]).
  all: unfold c_holds in Hc; destruct (at_ c) eqn:Eat; try done; eapply client_can; [exact Hin | by rewrite Ea | by apply c_close | exact Hin | by rewrite Ea | by apply c_done].
Qed.

(** While stop() is not over, some thread can move without the help of a peer. *)
Lemma progress s :
  inv s → acceptor_ s ≠ ACrashed → stopper s ≠ SIdle → stopper s ≠ SOver → ∃ s', move false s s'.
Proof.
  intros Hi Ha Hs1 Hs2. destruct (clients_mu_ s) eqn:Hmu; [by apply holder_moves |]. destruct (i_stop s Hi) as [Hst Hp]. specialize (Hst Hs1).
  pose proof (i_mu s Hi) as H. unfold holders in H. rewrite Hmu in H.
  destruct (stopper s) as [| | | i | i |] eqn:Es; try done; cbn in H.
  - destruct (acceptor_ s) as [| | | x | x j | |] eqn:Ea; try done; eexists;
      [apply m_acceptor; by apply a_stop | apply m_acceptor; by apply a_idle | apply m_acceptor; by apply a_fail
      | apply m_acceptor; by apply (a_lock s x) | apply m_stop; [by apply s_joined | by rewrite Ea]].
  - eexists. apply m_stop; [by apply s_lock | done].
  - lia.
  - destruct (clients_ s !! i) as [c |] eqn:El; [| eexists; apply m_stop; [by apply (s_clear s i) | done]].
    pose proof (list_elem_of_lookup_2 _ _ _ El) as Hin. destruct Hp as (_ & Hu & _). rewrite Forall_forall in Hu. specialize (Hu c Hin).
    unfold unblocked, is_open in Hu. destruct (at_ c) as [| | [| n] | | | | |] eqn:Eat.
    9: { eexists. apply m_stop; [by apply (s_join s i c) | done]. }
    all: eapply client_can; [exact Hin | done |].
    + apply (c_serve s c false CEnd). rewrite Eat. by apply v_stop.
    + apply (c_serve s c false CEnd). rewrite Eat. apply v_recv_shut. by apply Hu.
    + apply (c_serve s c false CTop). rewrite Eat. apply v_next.
    + apply (c_serve s c false CEnd). rewrite Eat. apply v_send_shut. by apply Hu.
    + by apply c_lock.
    + by apply c_close.
    + by apply c_done.
    + by apply c_over.
Qed.

(** ** Theorems *)

(** C20: the server closes and shuts down only its own connections, whatever
    the interleaving of its threads, of stop() and of the rest of the daemon, which
    may get the numbers of descriptors the server has closed: a connection is open
    exactly as long as the acceptor or its thread has it, no two threads have the
    same, and each is closed once. When stop() returns, no thread and no
    descriptor of the server is left. *)
Theorem descriptors_once (others : gset Z) (n : nat) (s : t) :
  Forall (λ x, 0 <= x) (elements others) → exec n (started others) s → acceptor_ s ≠ ACrashed →
  alien s = false ∧ NoDup (owned s) ∧ (∀ x, fds s !! x = Some Mine ↔ x ∈ owned s) ∧
  (stopper s = SOver → acceptor_ s = AOver ∧ clients_ s = [] ∧ owned s = [] ∧ listen_fd_ s = false).
Proof.
  intros Hpos Hx Hc. destruct (good_exec _ _ _ Hx) as [? | Hi]; [right; by apply inv_started | done |].
  destruct Hi as [I1 I2 I3 I4 I5 I6 [I7 I8]]. split_and!; try done. intros E. rewrite E in I8. destruct I8 as (A & B & C).
  split_and!; try done. unfold owned. by rewrite A, B.
Qed.

(** C21: stop() ends. Once it is called, the threads of the server make only
    so many more moves, however the peers behave, and until it returns some thread
    can make its next move without waiting for a peer: neither the mutex nor a
    recv or send that blocks nor a join can hold it up. *)
Theorem api_stop_ends (others : gset Z) (k n : nat) (s s' : t) :
  Forall (λ x, 0 <= x) (elements others) → exec k (started others) s → stopper s ≠ SIdle → exec n s s' →
  (n <= moves_left s)%nat ∧ (stopper s' = SOver ∨ acceptor_ s' = ACrashed ∨ ∃ s'', move false s' s'').
Proof.
  intros Hpos Hk Hs Hx. assert (good s') as Hg.
  { eapply good_exec; [exact Hx |]. eapply good_exec; [exact Hk | right; by apply inv_started]. }
  assert (called s) as Hc by (eapply stopping_exec; [exact Hk | by intros [] | done]).
  destruct (called_exec n s s' Hx Hc) as [[Hs' _] Hn]. split; [done |]. destruct Hg as [? | Hi]; [auto |].
  destruct (acceptor_ s') eqn:Ea; auto; destruct (stopper s') eqn:Es; auto; right; right; apply progress; by rewrite ?Es, ?Ea.
Qed.

(** A connection whose peer goes away, whose number another part of the daemon
    gets at once, and a stop. *)
Lemma demo_run : ∃ s, exec 18 (started {[3]}) s ∧ stopper s = SOver ∧ acceptor_ s = AOver ∧ fds s !! 5 = Some Other.
Proof.
  eexists. split.
  - eapply x_move; [by apply m_acceptor, a_top |]. eapply x_move; [by apply m_acceptor, a_ready |].
    eapply x_move; [by apply m_acceptor, (a_accept _ 5) |]. eapply x_move; [by apply m_acceptor, (a_lock _ 5) |].
    eapply x_move; [by apply m_acceptor, (a_spawn _ 5 0) |].
    eapply x_move; [eapply (m_client _ _ _ []); [done | by apply c_serve, v_top | done | reflexivity] |].
    eapply x_move; [eapply (m_client _ _ _ []); [done | apply c_serve, v_end | done | reflexivity] |].
    eapply x_move; [eapply (m_client _ _ _ []); [done | by apply c_lock | done | reflexivity] |].
    eapply x_move; [eapply (m_client _ _ _ []); [done | by apply c_close | done | reflexivity] |].
    eapply x_around; [by apply (r_open _ 5) |].
    eapply x_move; [eapply (m_client _ _ _ []); [done | by apply c_done | done | reflexivity] |].
    eapply x_around; [by apply r_stop |]. eapply x_move; [by apply m_acceptor, a_stop |].
    eapply x_move; [apply m_stop; [by apply s_joined | done] |]. eapply x_move; [apply m_stop; [by apply s_lock | done] |].
    eapply x_move; [apply m_stop; [by eapply (s_shut _ 0) | done] |]. eapply x_move; [apply m_stop; [by apply (s_unlock _ 1) | done] |].
    eapply x_move; [eapply (m_client _ _ _ []); [done | by apply c_over | done | reflexivity] |].
    eapply x_move; [apply m_stop; [by eapply (s_join _ 0) | done] |]. eapply x_move; [apply m_stop; [by apply (s_clear _ 1) | done] |].
    apply x_none.
  - split_and!; [reflexivity | reflexivity | vm_compute; reflexivity].
Qed.

Lemma descriptors_once_witness :
  ∃ s, exec 18 (started {[3]}) s ∧ alien s = false ∧ owned s = [] ∧ clients_ s = [] ∧ fds s !! 5 = Some Other.
Proof.
  destruct demo_run as (s & Hx & Es & Ea & E5).
  destruct (descriptors_once {[3]} 18 s) as (A & _ & _ & B).
  - vm_compute. repeat constructor; discriminate.
  - exact Hx.
  - rewrite Ea. discriminate.
  - destruct (B Es) as (_ & B1 & B2 & _). exists s. auto.
Defined.

(** stop() while a client does not say anything. *)
Lemma api_stop_ends_witness :
  ∃ s s', exec 6 (started {[3]}) s ∧ (at_ <$> clients_ s) = [CRecv] ∧ exec 1 s s' ∧ moves_left s = 4111%nat ∧ ∃ s'', move false s' s''.
Proof.
  assert (∃ s s', exec 6 (started {[3]}) s ∧ (at_ <$> clients_ s) = [CRecv] ∧ exec 1 s s' ∧ stopper s = SJoin ∧
    stopper s' = SJoin ∧ acceptor_ s' = AOver ∧ moves_left s = 4111%nat) as (s & s' & H1 & H2 & H3 & H4 & H5 & H6 & H7).
  { eexists _, _. split_and!.
    - eapply x_move; [by apply m_acceptor, a_top |]. eapply x_move; [by apply m_acceptor, a_ready |].
      eapply x_move; [by apply m_acceptor, (a_accept _ 5) |]. eapply x_move; [by apply m_acceptor, (a_lock _ 5) |].
      eapply x_move; [by apply m_acceptor, (a_spawn _ 5 0) |].
      eapply x_move; [eapply (m_client _ _ _ []); [done | by apply c_serve, v_top | done | reflexivity] |].
      eapply x_around; [by apply r_stop |]. apply x_none.
    - reflexivity.
    - eapply x_move; [by apply m_acceptor, a_stop | apply x_none].
    - reflexivity.
    - reflexivity.
    - reflexivity.
    - vm_compute. reflexivity. }
  destruct (api_stop_ends {[3]} 6 1 s s') as [_ [E | [E | E]]].
  - vm_compute. repeat constructor; discriminate.
  - exact H1.
  - rewrite H4. discriminate.
  - exact H3.
  - congruence.
  - congruence.
  - exists s, s'. auto.
Defined.

(** ** A thread per connection *)

Lemma exec_app n m s1 s2 s3 : exec n s1 s2 → exec m s2 s3 → exec (n + m) s1 s3.
Proof. induction 1; intros H3; [done | by eapply x_around; eauto | eapply x_move; eauto]. Qed.

(** The acceptor finds no connection that is over. *)
Lemma reap_all x s :
  acceptor_ s = AReap x 0 → Forall (λ c, done c = false) (clients_ s) →
  exec (length (clients_ s)) s (set_acceptor (AReap x (length (clients_ s))) s).
Proof.
  intros Ea Hd. assert (∀ k, (k <= length (clients_ s))%nat → exec k s (set_acceptor (AReap x k) s)) as H; [| by apply H].
  induction k as [| k IH]; intros Hk.
  - assert (set_acceptor (AReap x 0) s = s) as -> by (destruct s; cbn in *; by rewrite Ea). apply x_none.
  - replace (S k) with (k + 1)%nat by lia. eapply exec_app; [apply IH; lia |].
    destruct (lookup_lt_is_Some_2 (clients_ s) k) as [c Hc]; [lia |]. eapply x_move; [| apply x_none].
    rewrite Nat.add_1_r. apply m_acceptor. apply (a_skip (set_acceptor (AReap x k) s) x k c eq_refl Hc).
    by apply (Forall_lookup_1 _ _ _ _ Hd Hc).
Qed.

(** The acceptor at rest with [k] connections, whose threads all run. *)
Definition busy (k : nat) (s : t) : Prop :=
  acceptor_ s = ATop ∧ stopping_ s = false ∧ clients_mu_ s = false ∧ length (clients_ s) = k ∧
  Forall (λ c, done c = false) (clients_ s) ∧ ∀ x, Z.of_nat k <= x → fds s !! x = None.

Lemma busy_reaps k s : busy k s → ∃ n s', exec n s s' ∧ acceptor_ s' = AReap (Z.of_nat k) k ∧ clients_ s' = clients_ s ∧
  stopping_ s' = false ∧ fds s' = <[Z.of_nat k := Mine]> (fds s).
Proof.
  intros (E1 & E2 & E3 & E4 & E5 & E6).
  set (s' := set_mu true (set_acceptor (AReap (Z.of_nat k) 0) (set_acceptor (ALock (Z.of_nat k)) (accept (Z.of_nat k) (set_acceptor AAccept (set_acceptor APoll s)))))).
  pose proof (reap_all (Z.of_nat k) s' eq_refl E5) as Hr. eexists _, _. split.
  - eapply x_move; [by apply m_acceptor, a_top |]. eapply x_move; [by apply m_acceptor, a_ready |].
    eapply x_move; [apply m_acceptor, (a_accept _ (Z.of_nat k)); [done | lia | by apply E6] |].
    eapply x_move; [by apply m_acceptor, (a_lock _ (Z.of_nat k)) |]. exact Hr.
  - cbn. by rewrite E4.
Qed.

(** Nothing bounds the connections and their threads, and a thread that cannot
    be made ends the daemon: for every [k] the server gets to [k] connections whose
    threads all run, and if std::thread throws for the next one, nobody catches it. *)
Theorem thread_failure_ends_daemon (k : nat) :
  ∃ n s m s', exec n (started ∅) s ∧ busy k s ∧ exec m s s' ∧ acceptor_ s' = ACrashed ∧ stopping_ s' = false.
Proof.
  assert (∃ n s, exec n (started ∅) s ∧ busy k s) as (n & s & Hx & Hb).
  { induction k as [| k (n & s & Hx & Hb)]; [exists 0%nat, (started ∅); split; [apply x_none | by split_and!] |].
    destruct (busy_reaps k s Hb) as (m & s' & Hm & E1 & E2 & E3 & E4). destruct Hb as (_ & _ & _ & E5 & E6 & E7).
    exists (n + (m + 1))%nat. eexists. split.
    - eapply exec_app; [exact Hx |]. eapply exec_app; [exact Hm |]. eapply x_move; [| apply x_none].
      apply m_acceptor, (a_spawn s' (Z.of_nat k) k); [done |]. rewrite E2. apply lookup_ge_None. lia.
    - unfold busy. cbn. rewrite E2, E3, E4. split_and!; try done.
      + rewrite length_app. cbn. lia.
      + apply Forall_app. split; [done | by repeat constructor].
      + intros x Hx'. rewrite lookup_insert_ne by lia. apply E7. lia. }
  destruct (busy_reaps k s Hb) as (m & s' & Hm & E1 & E2 & E3 & _).
  exists n, s, (m + 1)%nat, (set_acceptor ACrashed s'). split_and!; try done. eapply exec_app; [exact Hm |]. eapply x_move; [| apply x_none].
  apply m_acceptor, (a_throw s' (Z.of_nat k) k); [done |]. rewrite E2. apply lookup_ge_None. destruct Hb as (_ & _ & _ & <- & _). done.
Qed.

End ApiThreads.
