(* ===== verification/LbState.v ===== *)
(** * The control plane's model (src/daemon/lb_state.{h,cpp}, src/daemon/ring_map.cpp)

    [LbState]: VIPs with their members, the table of reals, and the only code
    that writes vip_map, rings, reals, neigh and config.  A [Vip&] of the source
    is the VIP's key here, so that a method that keeps a reference across other
    calls sees the current value.  [std::map]s are finite maps, iterated in
    ascending key order. *)

From Stdlib Require Import ZArith Lia.
From S2P Require Import Prelude Abi VipSpec Maglev Control RealTable Config.

Module LbState.

(** ** Data *)

Record Member := mk_member {
  m_weight : Z;
  m_draining : bool;
  m_up : bool;
  m_consecutive_ok : Z;
  m_consecutive_fail : Z;
  m_last_change_ms : Z;
  m_last_rtt_us : Z;
  m_in_ring : bool;
  m_incarnation : Z
}.

Record Vip := mk_vip {
  v_spec : VipSpec.t;
  v_id : Z;
  v_flags : Z;
  v_generation : Z;
  v_members : gmap Z Member
}.

Record HealthTarget := mk_target {
  ht_vip : VipSpec.t;
  ht_addr : Z;
  ht_incarnation : Z
}.

Record ProbeResult := mk_probe {
  pr_ok : bool;
  pr_rtt_us : Z;
  pr_detail : str;
  pr_local_error : bool
}.

Record RealView := mk_real_view {
  rv_addr : Z;
  rv_real_id : Z;
  rv_weight : Z;
  rv_up : bool;
  rv_draining : bool;
  rv_checked : bool;
  rv_in_ring : bool;
  rv_mac : option pb_mac;
  rv_consecutive_ok : Z;
  rv_consecutive_fail : Z;
  rv_last_change_ms : Z;
  rv_last_rtt_us : Z
}.

Record VipView := mk_vip_view {
  vw_spec : VipSpec.t;
  vw_vip_id : Z;
  vw_flags : Z;
  vw_generation : Z;
  vw_reals : list RealView
}.

Record t := mk {
  interface_ : str;
  reals_ : RealTable.t;
  vips_ : gmap VipSpec.t Vip;
  adopted_vip_ids_ : gmap VipSpec.t Z;
  hash_ : Maglev.HashMode;
  next_hop_ : option Z;
  health_enabled_ : bool;
  initialized_ : bool;
  next_incarnation_ : Z
}.

(** The constructor. *)
Definition fresh (interface : str) : t :=
  mk interface RealTable.fresh ∅ ∅ Maglev.ModeMaglev None true false 1.

(** Field updates. *)
Definition set_reals_ (x : RealTable.t) (s : t) : t :=
  mk (interface_ s) x (vips_ s) (adopted_vip_ids_ s) (hash_ s) (next_hop_ s) (health_enabled_ s) (initialized_ s) (next_incarnation_ s).
Definition set_vips (f : gmap VipSpec.t Vip → gmap VipSpec.t Vip) (s : t) : t :=
  mk (interface_ s) (reals_ s) (f (vips_ s)) (adopted_vip_ids_ s) (hash_ s) (next_hop_ s) (health_enabled_ s) (initialized_ s) (next_incarnation_ s).
Definition set_adopted (f : gmap VipSpec.t Z → gmap VipSpec.t Z) (s : t) : t :=
  mk (interface_ s) (reals_ s) (vips_ s) (f (adopted_vip_ids_ s)) (hash_ s) (next_hop_ s) (health_enabled_ s) (initialized_ s) (next_incarnation_ s).
Definition set_mode (h : Maglev.HashMode) (nh : option Z) (he : bool) (s : t) : t :=
  mk (interface_ s) (reals_ s) (vips_ s) (adopted_vip_ids_ s) h nh he (initialized_ s) (next_incarnation_ s).
Definition set_initialized (b : bool) (s : t) : t :=
  mk (interface_ s) (reals_ s) (vips_ s) (adopted_vip_ids_ s) (hash_ s) (next_hop_ s) (health_enabled_ s) b (next_incarnation_ s).
Definition set_next_incarnation (n : Z) (s : t) : t :=
  mk (interface_ s) (reals_ s) (vips_ s) (adopted_vip_ids_ s) (hash_ s) (next_hop_ s) (health_enabled_ s) (initialized_ s) n.

Definition set_members (f : gmap Z Member → gmap Z Member) (v : Vip) : Vip :=
  mk_vip (v_spec v) (v_id v) (v_flags v) (v_generation v) (f (v_members v)).
Definition set_flags (flags : Z) (v : Vip) : Vip :=
  mk_vip (v_spec v) (v_id v) flags (v_generation v) (v_members v).
Definition bump_generation (v : Vip) : Vip :=
  mk_vip (v_spec v) (v_id v) (v_flags v) (u64 (v_generation v + 1)) (v_members v).

Definition set_weight_of (w : Z) (m : Member) : Member :=
  mk_member w (m_draining m) (m_up m) (m_consecutive_ok m) (m_consecutive_fail m) (m_last_change_ms m) (m_last_rtt_us m) (m_in_ring m) (m_incarnation m).
Definition set_draining_of (d : bool) (m : Member) : Member :=
  mk_member (m_weight m) d (m_up m) (m_consecutive_ok m) (m_consecutive_fail m) (m_last_change_ms m) (m_last_rtt_us m) (m_in_ring m) (m_incarnation m).
Definition set_in_ring (b : bool) (m : Member) : Member :=
  mk_member (m_weight m) (m_draining m) (m_up m) (m_consecutive_ok m) (m_consecutive_fail m) (m_last_change_ms m) (m_last_rtt_us m) b (m_incarnation m).
Definition set_up (b : bool) (now : Z) (m : Member) : Member :=
  mk_member (m_weight m) (m_draining m) b (m_consecutive_ok m) (m_consecutive_fail m) now (m_last_rtt_us m) (m_in_ring m) (m_incarnation m).

(** [std::map]: iteration order, and emplace, which keeps an existing entry. *)
Definition addr_keys {A} (m : gmap Z A) : list Z := merge_sort Z.le (map_to_list m).*1.
Definition spec_le (x y : VipSpec.t) : Prop := VipSpec.ltb y x = false.
#[global] Instance spec_le_dec : RelDecision spec_le.
Proof. intros x y. unfold spec_le. apply _. Defined.
Definition spec_keys {A} (m : gmap VipSpec.t A) : list VipSpec.t := merge_sort spec_le (map_to_list m).*1.
Definition emplace {K A} `{Countable K} (k : K) (a : A) (m : gmap K A) : gmap K A :=
  match m !! k with Some _ => m | None => <[k := a]> m end.

Definition real_op {A} (p : M RealTable.t A) : M t A := on reals_ set_reals_ p.
Definition upd_vip (spec : VipSpec.t) (f : Vip → Vip) : M t unit := modify (set_vips (alter f spec)).
Definition upd_member (spec : VipSpec.t) (a : Z) (f : Member → Member) : M t unit :=
  upd_vip spec (set_members (alter f a)).

(** ** Rings in the kernel (ring_map.cpp) *)

(** bpf_map_create, one batched fill, and the swap: packets see only the swap. *)
Definition install_ring {S} (e : CEnv) (vip_id : Z) (ring : list Z) : M S unit :=
  if negb (Z.of_nat (length ring) =? PB_RING_SIZE) then throw (logic_error §"ring has the wrong size") else
  err ← bpf_result;
  if negb (err =? 0) then throw (runtime_error (§"create ring map: " ++ errstr e err)) else
  err ← bpf_result;
  if negb (err =? 0) then
    count ← bpf_result;   (* as the failed call leaves it *)
    throw (runtime_error (§"fill ring map: " ++ errstr e err ++ §" after " ++ VipSpec.to_string count ++ §" slots"))
  else
  checked_write (set_rings <[vip_id := ring]>)
    (λ err, §"swap ring for vip_id " ++ VipSpec.to_string vip_id ++ §": " ++ errstr e err).

Definition ENOENT : Z := 2.

Definition remove_ring {S} (e : CEnv) (vip_id : Z) : M S unit :=
  err ← map_write (set_rings (delete vip_id));
  if negb (err =? 0) && negb (err =? - ENOENT)
  then throw (runtime_error (§"remove ring for vip_id " ++ VipSpec.to_string vip_id ++ §": " ++ errstr e err))
  else mret ().

(** ** Rings of the model *)

Definition eligible (tb : RealTable.t) (a : Z) (m : Member) : bool :=
  (0 <? m_weight m) && negb (m_draining m) && m_up m && bool_decide (is_Some (RealTable.mac_of tb a)).

(** The first loop of rebuild_locked. *)
Definition mark_in_ring (tb : RealTable.t) (ms : gmap Z Member) : gmap Z Member :=
  map_imap (λ a m, Some (set_in_ring (eligible tb a m) m)) ms.

(** The backends it collects; every member has an id, which [inv] shows. *)
Definition backend_of (tb : RealTable.t) (a : Z) (m : Member) : Maglev.Backend :=
  Maglev.mk_backend (default 0 (RealTable.id_of tb a)) a (if m_in_ring m then m_weight m else 0).
Definition backends_of (tb : RealTable.t) (ms : gmap Z Member) : list Maglev.Backend :=
  omap (λ a, backend_of tb a <$> ms !! a) (addr_keys ms).

(** build_ring with its default ring size; it always returns
    ([Maglev.build_ring_total]). *)
Definition ring_of (bs : list Maglev.Backend) (mode : Maglev.HashMode) : result (list Z) :=
  default (Ok []) (Maglev.build_ring bs mode PB_RING_SIZE).

Definition vip_default (spec : VipSpec.t) : Vip := mk_vip spec 0 0 0 ∅.
Definition vip_at (s : t) (spec : VipSpec.t) : Vip := default (vip_default spec) (vips_ s !! spec).

Definition rebuild_locked (e : CEnv) (spec : VipSpec.t) : M t unit :=
  s ← get;
  _ ← upd_vip spec (set_members (mark_in_ring (reals_ s)));
  s ← get;
  let v := vip_at s spec in
  ring ← lift (ring_of (backends_of (reals_ s) (v_members v)) (hash_ s));
  _ ← install_ring e (v_id v) ring;
  upd_vip spec bump_generation.

(** ** VIPs *)

Definition too_many_vips : exn := api_error (§"too many vips (max " ++ VipSpec.to_string PB_MAX_VIPS ++ §")").

Definition used_vip_ids (s : t) : gset Z :=
  list_to_set ((v_id ∘ snd <$> map_to_list (vips_ s)) ++ (snd <$> map_to_list (adopted_vip_ids_ s))).

Definition allocate_vip_id (s : t) : result Z :=
  match head (filter (λ id, id ∉ used_vip_ids s) (seqZ 0 PB_MAX_VIPS)) with
  | Some id => Ok id
  | None => Throw too_many_vips
  end.

Definition write_vip_entry (e : CEnv) (spec : VipSpec.t) : M t unit :=
  s ← get;
  let v := vip_at s spec in
  checked_write (set_vip_map <[VipSpec.key (v_spec v) := mk_vip_value (v_id v) (v_flags v)]>)
    (λ err, §"write vip_map for " ++ VipSpec.to_str (v_spec v) ++ §": " ++ errstr e err).

Definition new_member (e : CEnv) (weight incarnation : Z) : Member :=
  mk_member weight false true 0 0 (epoch_ms e) 0 false incarnation.

(** The kernel's neighbour table is asked for the MAC of a real that has none. *)
Definition ask_mac (e : CEnv) (a : Z) : M t unit :=
  s ← get;
  match RealTable.mac_of (reals_ s) a, mac_lookup e with
  | None, Some lookup =>
      match lookup (default a (next_hop_ s)) with
      | Some mac => _ ← real_op (RealTable.set_mac e a mac); mret ()
      | None => mret ()
      end
  | _, _ => mret ()
  end.

Definition add_member_locked (e : CEnv) (spec : VipSpec.t) (a weight : Z) : M t unit :=
  _ ← real_op (RealTable.acquire e a);
  _ ← ask_mac e a;
  s ← get;
  _ ← modify (set_next_incarnation (u64 (next_incarnation_ s + 1)));
  upd_vip spec (set_members (emplace a (new_member e weight (next_incarnation_ s)))).

Definition remove_member_locked (spec : VipSpec.t) (a : Z) : M t unit :=
  upd_vip spec (set_members (delete a)).

(** The id of a VIP to create: the one a previous daemon left, or a fresh one
    with its counters reset. *)
Definition take_vip_id (e : CEnv) (spec : VipSpec.t) : M t Z :=
  s ← get;
  match adopted_vip_ids_ s !! spec with
  | Some id => _ ← modify (set_adopted (delete spec)); mret id
  | None => id ← lift (allocate_vip_id s); _ ← reset_counters e id; mret id
  end.

Definition create_vip_locked (e : CEnv) (spec : VipSpec.t) (flags : Z) (reals : gmap Z Z) : M t Z :=
  id ← take_vip_id e spec;
  _ ← modify (set_vips (emplace spec (mk_vip spec id flags 0 ∅)));
  _ ← m_for (addr_keys reals) (λ a, add_member_locked e spec a (default 0 (reals !! a)));
  _ ← rebuild_locked e spec;
  _ ← write_vip_entry e spec;
  mret id.

Definition delete_vip_locked (e : CEnv) (spec : VipSpec.t) : M t unit :=
  s ← get;
  match vips_ s !! spec with
  | None => mret ()
  | Some v =>
      _ ← map_write (set_vip_map (delete (VipSpec.key spec)));
      _ ← remove_ring e (v_id v);
      _ ← m_for (addr_keys (v_members v)) (λ a, real_op (RealTable.release e a));
      modify (set_vips (delete spec))
  end.

Definition unknown_vip (spec : VipSpec.t) : exn := api_error (§"unknown vip " ++ VipSpec.to_str spec).
Definition unknown_real (spec : VipSpec.t) (a : Z) : exn :=
  api_error (§"unknown real " ++ VipSpec.ipv4_to_string a ++ §" on vip " ++ VipSpec.to_str spec).
Definition bad_weight : exn := api_error (§"weight must be 0.." ++ VipSpec.to_string Config.kMaxRealWeight).

Definition vip_or_throw (spec : VipSpec.t) : M t Vip :=
  s ← get;
  match vips_ s !! spec with Some v => mret v | None => throw (unknown_vip spec) end.

Definition member_or_throw (v : Vip) (a : Z) : M t Member :=
  match v_members v !! a with Some m => mret m | None => throw (unknown_real (v_spec v) a) end.

Definition add_vip (e : CEnv) (vip : VipSpec.t) (no_conntrack : bool) : M t Z :=
  s ← get;
  if bool_decide (is_Some (vips_ s !! vip)) then throw (api_error §"vip already exists") else
  create_vip_locked e vip (if no_conntrack then PB_VIP_F_NO_CONNTRACK else 0) ∅.

Definition del_vip (e : CEnv) (vip : VipSpec.t) : M t unit :=
  _ ← vip_or_throw vip;
  delete_vip_locked e vip.

(** ** Reals *)

Definition add_real (e : CEnv) (vip : VipSpec.t) (a weight : Z) : M t Z :=
  v ← vip_or_throw vip;
  if a =? 0 then throw (api_error §"bad real address 0.0.0.0") else
  if bool_decide (is_Some (v_members v !! a)) then throw (api_error §"real already exists") else
  if Config.kMaxRealWeight <? weight then throw bad_weight else
  _ ← add_member_locked e vip a weight;
  _ ← rebuild_locked e vip;
  s ← get;
  mret (default 0 (RealTable.id_of (reals_ s) a)).

Definition del_real (e : CEnv) (vip : VipSpec.t) (a : Z) : M t unit :=
  v ← vip_or_throw vip;
  _ ← member_or_throw v a;
  _ ← remove_member_locked vip a;
  _ ← rebuild_locked e vip;
  real_op (RealTable.release e a).

Definition set_weight (e : CEnv) (vip : VipSpec.t) (a weight : Z) : M t unit :=
  if Config.kMaxRealWeight <? weight then throw bad_weight else
  v ← vip_or_throw vip;
  m ← member_or_throw v a;
  if m_weight m =? weight then mret () else
  _ ← upd_member vip a (set_weight_of weight);
  rebuild_locked e vip.

Definition set_draining (e : CEnv) (vip : VipSpec.t) (a : Z) (draining : bool) : M t unit :=
  v ← vip_or_throw vip;
  m ← member_or_throw v a;
  if eqb (m_draining m) draining then mret () else
  _ ← upd_member vip a (set_draining_of draining);
  rebuild_locked e vip.

(** ** Health *)

Definition health_targets (s : t) : list HealthTarget :=
  if negb (health_enabled_ s) then [] else
  spec_keys (vips_ s) ≫= λ spec,
    if negb (VipSpec.proto spec =? 6) then [] else
    let v := vip_at s spec in
    omap (λ a, (λ m, mk_target spec a (m_incarnation m)) <$> v_members v !! a) (addr_keys (v_members v)).

Definition count_ok (rtt : Z) (m : Member) : Member :=
  mk_member (m_weight m) (m_draining m) (m_up m) (u32 (m_consecutive_ok m + 1)) 0 (m_last_change_ms m) rtt (m_in_ring m) (m_incarnation m).
Definition count_fail (m : Member) : Member :=
  mk_member (m_weight m) (m_draining m) (m_up m) 0 (u32 (m_consecutive_fail m + 1)) (m_last_change_ms m) (m_last_rtt_us m) (m_in_ring m) (m_incarnation m).

Definition report_health (e : CEnv) (h : HealthTarget) (r : ProbeResult) (rise fall : Z) : M t unit :=
  s ← get;
  match (v ← vips_ s !! ht_vip h; v_members v !! ht_addr h) with
  | None => mret ()
  | Some m =>
      if negb (m_incarnation m =? ht_incarnation h) then mret () else
      if pr_local_error r then mret () else
      if pr_ok r then
        let m := count_ok (pr_rtt_us r) m in
        _ ← upd_member (ht_vip h) (ht_addr h) (λ _, m);
        if negb (m_up m) && (rise <=? m_consecutive_ok m) then
          _ ← upd_member (ht_vip h) (ht_addr h) (set_up true (epoch_ms e));
          rebuild_locked e (ht_vip h)
        else mret ()
      else
        let m := count_fail m in
        _ ← upd_member (ht_vip h) (ht_addr h) (λ _, m);
        if m_up m && (fall <=? m_consecutive_fail m) then
          _ ← upd_member (ht_vip h) (ht_addr h) (set_up false (epoch_ms e));
          rebuild_locked e (ht_vip h)
        else mret ()
  end.

(** ** Neighbours *)

Definition neighbor_targets (s : t) : list Z :=
  match next_hop_ s with Some nh => [nh] | None => RealTable.addrs (reals_ s) end.

Definition unresolved_neighbors (s : t) : list Z :=
  let missing := filter (λ a, RealTable.mac_of (reals_ s) a = None) (RealTable.addrs (reals_ s)) in
  match next_hop_ s with
  | Some nh => match missing with [] => [] | _ :: _ => [nh] end
  | None => missing
  end.

(** set_one over a list; the result is [newly_usable]. *)
Fixpoint set_each (e : CEnv) (mac : pb_mac) (l : list Z) (acc : gset Z) : M t (gset Z) :=
  match l with
  | [] => mret acc
  | a :: l =>
      s ← get;
      let was_known := bool_decide (is_Some (RealTable.mac_of (reals_ s) a)) in
      changed ← real_op (RealTable.set_mac e a mac);
      set_each e mac l (if changed && negb was_known then {[a]} ∪ acc else acc)
  end.

Definition rebuild_usable (e : CEnv) (usable : gset Z) (spec : VipSpec.t) : M t unit :=
  s ← get;
  if existsb (λ a, bool_decide (a ∈ usable)) (addr_keys (v_members (vip_at s spec)))
  then rebuild_locked e spec else mret ().

Definition neighbor_resolved (e : CEnv) (ip : Z) (mac : pb_mac) : M t unit :=
  s ← get;
  let targets := match next_hop_ s with
                 | Some nh => if negb (ip =? nh) then None else Some (RealTable.addrs (reals_ s))
                 | None => Some [ip]
                 end in
  match targets with
  | None => mret ()
  | Some l =>
      usable ← set_each e mac l ∅;
      if bool_decide (usable = ∅) then mret () else
      s ← get;
      m_for (spec_keys (vips_ s)) (rebuild_usable e usable)
  end.

(** ** Configuration *)

(** The walk over the keys of the pinned vip_map; a failed get_next_key ends
    it, a failed lookup skips the key. *)
Fixpoint adopt_vips (l : list (pb_vip_key * pb_vip_value)) : M t unit :=
  match l with
  | [] => mret ()
  | (k, v) :: l =>
      err ← bpf_result;
      if negb (err =? 0) then mret () else
      err ← bpf_result;
      if negb (err =? 0) then adopt_vips l else
      _ ← modify (set_adopted <[VipSpec.mk (vk_addr k) (vk_port k) (vk_proto k) := vv_vip_id v]>);
      adopt_vips l
  end.

Definition adopt_locked : M t unit :=
  _ ← real_op RealTable.adopt;
  m ← get_km;
  adopt_vips (map_to_list (vip_map m)).

(** [if_address]: the first word of the interface's address file. *)
Definition read_interface_mac (e : CEnv) (ifname : str) : result pb_mac :=
  match Mac.parse (if_address e) with
  | Some mac => Ok mac
  | None => Throw (runtime_error (§"cannot read MAC of " ++ ifname))
  end.

Definition config_value (mac : pb_mac) (cfg : Config.t) : pb_config :=
  mk_pb_config mac (Config.prefix_be (Config.encap_src cfg)) (Config.mask_be (Config.encap_src cfg))
    (Z.lor (if Config.conntrack_enabled cfg then 0 else PB_CFG_F_NO_CONNTRACK)
           (if Config.icmp_pmtu cfg then PB_CFG_F_ICMP_PMTU else 0)).

Definition write_config_map (e : CEnv) (cfg : Config.t) : M t unit :=
  s ← get;
  mac ← lift (read_interface_mac e (interface_ s));
  checked_write (set_config (λ l, <[0%nat := config_value mac cfg]> l)) (λ err, §"write config map: " ++ errstr e err).

Definition vip_flags (vc : Config.VipConfig) : Z := if Config.vc_no_conntrack vc then PB_VIP_F_NO_CONNTRACK else 0.

(** want[r.addr_be] = r.weight *)
Definition want_of (vc : Config.VipConfig) : gmap Z Z :=
  foldl (λ want r, <[Config.rc_addr r := Config.rc_weight r]> want) ∅ (Config.vc_reals vc).

(** The loop over [want]; the result is [changed]. *)
Fixpoint apply_reals (e : CEnv) (spec : VipSpec.t) (want : list (Z * Z)) (changed : bool) : M t bool :=
  match want with
  | [] => mret changed
  | (a, weight) :: want =>
      s ← get;
      match v_members (vip_at s spec) !! a with
      | None => _ ← add_member_locked e spec a weight; apply_reals e spec want true
      | Some m =>
          if negb (m_weight m =? weight)
          then _ ← upd_member spec a (set_weight_of weight); apply_reals e spec want true
          else apply_reals e spec want changed
      end
  end.

Definition apply_vip (e : CEnv) (hash_changed : bool) (vc : Config.VipConfig) : M t unit :=
  let spec := Config.vc_spec vc in
  let flags := vip_flags vc in
  let want := want_of vc in
  s ← get;
  match vips_ s !! spec with
  | None => _ ← create_vip_locked e spec flags want; mret ()
  | Some v =>
      _ ← (if negb (v_flags v =? flags) then _ ← upd_vip spec (set_flags flags); write_vip_entry e spec else mret ());
      let removed := filter (λ a, want !! a = None) (addr_keys (v_members v)) in
      _ ← m_for removed (remove_member_locked spec);
      changed ← apply_reals e spec (omap (λ a, (λ w, (a, w)) <$> want !! a) (addr_keys want))
                  (hash_changed || negb (bool_decide (removed = [])));
      _ ← (if (changed : bool) then rebuild_locked e spec else mret ());
      m_for removed (λ a, real_op (RealTable.release e a))
  end.

(** Pinned VIPs the configuration does not have. *)
Definition drop_pinned (e : CEnv) (spec : VipSpec.t) : M t unit :=
  s ← get;
  match vips_ s !! spec, adopted_vip_ids_ s !! spec with
  | None, Some id =>
      _ ← map_write (set_vip_map (delete (VipSpec.key spec)));
      remove_ring e id
  | _, _ => mret ()
  end.

Definition apply (e : CEnv) (cfg : Config.t) : M t unit :=
  s ← get;
  let first := negb (initialized_ s) in
  _ ← (if first then adopt_locked else mret ());
  _ ← write_config_map e cfg;
  let hash_changed := negb (bool_decide (hash_ s = Config.hash cfg)) in
  _ ← modify (set_mode (Config.hash cfg) (Config.next_hop cfg) (Config.hc_enabled (Config.health cfg)));
  let wanted : gset VipSpec.t := list_to_set (Config.vc_spec <$> Config.vips cfg) in
  s ← get;
  _ ← m_for (spec_keys (vips_ s)) (λ spec,
        if bool_decide (spec ∈ wanted) then mret () else delete_vip_locked e spec);
  _ ← m_for (Config.vips cfg) (apply_vip e hash_changed);
  if first then
    s ← get;
    _ ← m_for (spec_keys (adopted_vip_ids_ s)) (drop_pinned e);
    _ ← modify (set_adopted (λ _, ∅));
    _ ← real_op (RealTable.drop_unreferenced e);
    modify (set_initialized true)
  else mret ().

(** ** Views *)

Definition view_of (s : t) (spec : VipSpec.t) (a : Z) (m : Member) : RealView :=
  mk_real_view a (default 0 (RealTable.id_of (reals_ s) a)) (m_weight m) (m_up m) (m_draining m)
    (health_enabled_ s && (VipSpec.proto spec =? 6)) (m_in_ring m) (RealTable.mac_of (reals_ s) a)
    (m_consecutive_ok m) (m_consecutive_fail m) (m_last_change_ms m) (m_last_rtt_us m).

Definition vip_view (s : t) (spec : VipSpec.t) (v : Vip) : VipView :=
  mk_vip_view spec (v_id v) (v_flags v) (v_generation v)
    (omap (λ a, view_of s (v_spec v) a <$> v_members v !! a) (addr_keys (v_members v))).

Definition view_le (x y : VipView) : Prop := vw_vip_id x <= vw_vip_id y.
#[global] Instance view_le_dec : RelDecision view_le.
Proof. intros x y. unfold view_le. apply _. Defined.

(** Sorted by vip_id; ids are distinct, so any sort gives this list. *)
Definition snapshot (s : t) : list VipView :=
  merge_sort view_le (omap (λ spec, vip_view s spec <$> vips_ s !! spec) (spec_keys (vips_ s))).

Definition find (s : t) (vip : VipSpec.t) : option VipView :=
  head (filter (λ v, vw_spec v = vip) (snapshot s)).

Definition real_addrs (s : t) : gmap Z Z :=
  foldl (λ out a, <[default 0 (RealTable.id_of (reals_ s) a) := a]> out) ∅ (RealTable.addrs (reals_ s)).

Definition real_id_of (s : t) (a : Z) : option Z := RealTable.id_of (reals_ s) a.

Definition hash_mode (s : t) : Maglev.HashMode := hash_ s.

End LbState.
