(* ===== verification/LbInv.v ===== *)
(** * The invariant of the control plane, and safety of every map state

    What ties [LbState]'s model to the kernel maps, and the lemmas that each
    building block of its methods keeps it. *)

From Stdlib Require Import ZArith Lia.
From S2P Require Import Prelude Abi VipSpec Maglev Control RealTable Config LbState.

#[local] Set Warnings "-clear-no-such-hyp".

Module LbInv.
Import RealTable LbState.

(** ** Counting the VIPs a real serves *)

Definition uses (a : Z) (kv : VipSpec.t * Vip) : Prop := is_Some (v_members (snd kv) !! a).
#[global] Instance uses_dec a kv : Decision (uses a kv).
Proof. unfold uses. apply _. Defined.

Definition count (a : Z) (vs : gmap VipSpec.t Vip) : nat := size (filter (uses a) vs).
Definition ind (a : Z) (v : Vip) : nat := if decide (is_Some (v_members v !! a)) then 1 else 0.

Lemma count_insert_new a spec v vs :
  vs !! spec = None → count a (<[spec := v]> vs) = (count a vs + ind a v)%nat.
Proof.
  intros H. unfold count, ind. rewrite map_filter_insert.
  destruct (decide (uses a (spec, v))) as [Hu | Hu].
  - rewrite decide_True by exact Hu. rewrite map_size_insert_None; [lia |].
    apply map_lookup_filter_None. by left.
  - rewrite decide_False by exact Hu. rewrite delete_id by done. lia.
Qed.

Lemma count_delete a spec v vs :
  vs !! spec = Some v → count a vs = (count a (delete spec vs) + ind a v)%nat.
Proof.
  intros H. rewrite <-(insert_delete_id vs spec v H) at 1. apply count_insert_new. apply lookup_delete_eq.
Qed.

Lemma count_insert a spec v v' vs :
  vs !! spec = Some v → (count a (<[spec := v']> vs) + ind a v = count a vs + ind a v')%nat.
Proof.
  intros H. rewrite <-insert_delete_eq, count_insert_new by apply lookup_delete_eq.
  rewrite (count_delete a spec v vs H). lia.
Qed.

Lemma count_pos a spec v vs : vs !! spec = Some v → is_Some (v_members v !! a) → (1 <= count a vs)%nat.
Proof. intros H Hm. rewrite (count_delete a spec v vs H). unfold ind. rewrite decide_True by done. lia. Qed.

Lemma count_size a vs : (count a vs <= size vs)%nat.
Proof.
  induction vs as [| spec v vs Hn IH] using map_ind; [done |].
  rewrite count_insert_new, map_size_insert_None by done. unfold ind. destruct (decide _); lia.
Qed.

Lemma alter_Some {K A} `{Countable K} (f : A → A) (k : K) (m : gmap K A) x :
  m !! k = Some x → alter f k m = <[k := f x]> m.
Proof.
  intros Hx. apply map_eq. intros j. destruct (decide (k = j)) as [<- | Hne].
  - by rewrite lookup_alter_eq, lookup_insert_eq, Hx.
  - by rewrite lookup_alter_ne, lookup_insert_ne.
Qed.

(** ** Iteration order *)

Lemma elem_of_addr_keys {A} (m : gmap Z A) a : a ∈ addr_keys m ↔ is_Some (m !! a).
Proof.
  unfold addr_keys. rewrite merge_sort_Permutation, list_elem_of_fmap. split.
  - intros ([k x] & -> & Hx%elem_of_map_to_list). by exists x.
  - intros [x Hx]. exists (a, x). split; [done |]. by apply elem_of_map_to_list.
Qed.

Lemma NoDup_addr_keys {A} (m : gmap Z A) : NoDup (addr_keys m).
Proof. unfold addr_keys. rewrite merge_sort_Permutation. apply NoDup_fst_map_to_list. Qed.

Lemma elem_of_spec_keys {A} (m : gmap VipSpec.t A) k : k ∈ spec_keys m ↔ is_Some (m !! k).
Proof.
  unfold spec_keys. rewrite merge_sort_Permutation, list_elem_of_fmap. split.
  - intros ([k' x] & -> & Hx%elem_of_map_to_list). by exists x.
  - intros [x Hx]. exists (k, x). split; [done |]. by apply elem_of_map_to_list.
Qed.

Lemma NoDup_spec_keys {A} (m : gmap VipSpec.t A) : NoDup (spec_keys m).
Proof. unfold spec_keys. rewrite merge_sort_Permutation. apply NoDup_fst_map_to_list. Qed.

(** The backends of a ring: one per member, by address. *)
Lemma elem_of_backends tb ms b :
  b ∈ backends_of tb ms ↔ ∃ a m, ms !! a = Some m ∧ b = backend_of tb a m.
Proof.
  unfold backends_of. rewrite list_elem_of_omap. split.
  - intros (a & _ & H). destruct (ms !! a) as [m |] eqn:E; [| done]. injection H as <-. eauto.
  - intros (a & m & E & ->). exists a. split; [apply elem_of_addr_keys; eauto | by rewrite E].
Qed.

Lemma addrs_of_backends tb ms : Maglev.addr <$> backends_of tb ms = addr_keys ms.
Proof.
  unfold backends_of.
  assert (∀ l, Forall (λ a, is_Some (ms !! a)) l →
    Maglev.addr <$> omap (λ a, backend_of tb a <$> ms !! a) l = l) as H.
  { induction 1 as [| a l [m Hm] _ IH]; [done |]. cbn [omap list_omap]. rewrite Hm. cbn. by rewrite IH. }
  apply H, Forall_forall. intros a. apply elem_of_addr_keys.
Qed.

Lemma NoDup_active (l : list Maglev.Backend) : NoDup (Maglev.addr <$> l) → NoDup (Maglev.addr <$> Maglev.active l).
Proof.
  unfold Maglev.active. induction l as [| b l IH]; [done |]. rewrite fmap_cons, NoDup_cons, filter_cons.
  intros [Hn Hd]. destruct (decide _); [| by apply IH]. rewrite fmap_cons, NoDup_cons. split; [| by apply IH].
  intros (x & E & Hx)%list_elem_of_fmap. apply Hn. rewrite E. apply list_elem_of_fmap_2.
  by apply list_elem_of_filter in Hx as [_ ?].
Qed.

(** A ring of a VIP always builds, and names only members in the ring. *)
Lemma ring_built tb ms mode :
  ∃ r, Maglev.build_ring (backends_of tb ms) mode PB_RING_SIZE = Some (Ok r) ∧
       length r = Z.to_nat PB_RING_SIZE ∧
       ∀ x, x ∈ r → x = PB_REAL_NONE ∨
         ∃ a m, ms !! a = Some m ∧ m_in_ring m = true ∧ x = default 0 (id_of tb a).
Proof.
  destruct (Maglev.build_ring_ok (backends_of tb ms) mode PB_RING_SIZE) as (r & H1 & H2 & H3 & H4).
  { apply Maglev.prime_PB_RING_SIZE. }
  { done. }
  { apply NoDup_active. rewrite addrs_of_backends. apply NoDup_addr_keys. }
  exists r. split_and!; try done. intros x Hx.
  destruct (decide (Maglev.active (backends_of tb ms) = [])) as [E | E].
  - left. rewrite (H3 E) in Hx. by apply elem_of_replicate in Hx as [? _].
  - right. specialize (H4 E). rewrite Forall_forall in H4. specialize (H4 x Hx).
    apply list_elem_of_fmap in H4 as (b & -> & Hb). unfold Maglev.active in Hb.
    apply list_elem_of_filter in Hb as [Hw Hb]. apply elem_of_backends in Hb as (a & m & Hm & ->).
    exists a, m. cbn [backend_of Maglev.weight Maglev.real_id] in *. destruct (m_in_ring m); [done | lia].
Qed.

Lemma ring_of_built tb ms mode r :
  Maglev.build_ring (backends_of tb ms) mode PB_RING_SIZE = Some (Ok r) → ring_of (backends_of tb ms) mode = Ok r.
Proof. intros H. unfold ring_of. by rewrite H. Qed.

#[global] Opaque Maglev.build_ring.

(** ** The invariant *)

Definition refs_of (tb : RealTable.t) (a : Z) : Z :=
  match by_addr tb !! a with Some id => s_refs (slot tb id) | None => 0 end.

(** References to reals held outside the members' maps, each for a VIP. *)
Abbreviation held := (list (VipSpec.t * Z)).

(** The ring [r] of VIP [v] names only ids that the VIP's members, or the
    references in [L] held for it, keep alive. *)
Definition names (tb : RealTable.t) (L : held) (spec : VipSpec.t) (v : Vip) (r : list Z) : Prop :=
  length r = Z.to_nat PB_RING_SIZE ∧
  ∀ x, x ∈ r → x = PB_REAL_NONE ∨
    ∃ a, by_addr tb !! a = Some x ∧ (is_Some (v_members v !! a) ∨ (spec, a) ∈ L).

(** [L]: references held while a method is between two steps.  [X]: VIPs whose
    ring is not the one of the model yet.  [Y]: VIPs not in vip_map yet. *)
Record inv_in (L : held) (X Y : gset VipSpec.t) (s : LbState.t) (m : Maps) : Prop := {
  i_tb : RealTable.inv (reals_ s);
  i_mirror : mirror (reals_ s) m;
  i_adopted : adopted_vip_ids_ s = ∅;
  i_spec : ∀ spec v, vips_ s !! spec = Some v → v_spec v = spec;
  i_id : ∀ spec v, vips_ s !! spec = Some v → 0 <= v_id v < PB_MAX_VIPS;
  i_inj : ∀ spec spec' v v',
    vips_ s !! spec = Some v → vips_ s !! spec' = Some v' → v_id v = v_id v' → spec = spec';
  i_refs : ∀ a, refs_of (reals_ s) a = Z.of_nat (count a (vips_ s)) + Z.of_nat (occ a L.*2);
  i_live : ∀ a id, by_addr (reals_ s) !! a = Some id → 0 < s_refs (slot (reals_ s) id);
  i_in_ring : ∀ spec v a mb, vips_ s !! spec = Some v → spec ∉ X → v_members v !! a = Some mb →
    m_in_ring mb = true → eligible (reals_ s) a mb = true;
  i_map : ∀ k val, vip_map m !! k = Some val ↔
    (∃ spec v, vips_ s !! spec = Some v ∧ (spec ∉ Y) ∧ k = VipSpec.key spec ∧ val = mk_vip_value (v_id v) (v_flags v));
  i_names : ∀ spec v, vips_ s !! spec = Some v → spec ∉ Y → ∃ r, rings m !! v_id v = Some r ∧ names (reals_ s) L spec v r;
  i_ring : ∀ spec v, vips_ s !! spec = Some v → spec ∉ X →
    ∃ r, rings m !! v_id v = Some r ∧
         Maglev.build_ring (backends_of (reals_ s) (v_members v)) (hash_ s) PB_RING_SIZE = Some (Ok r)
}.

(** Between calls. *)
Definition inv (s : LbState.t) (m : Maps) : Prop := inv_in [] ∅ ∅ s m.

(** What packets need of the maps: every VIP they can match has a ring, of the
    size they index, and every slot of it is empty or the id of a real that is
    there. *)
Definition safe (m : Maps) : Prop :=
  ∀ k val, vip_map m !! k = Some val →
    0 <= vv_vip_id val < PB_MAX_VIPS ∧
    ∃ r, rings m !! vv_vip_id val = Some r ∧ length r = Z.to_nat PB_RING_SIZE ∧
      ∀ x, x ∈ r → x = PB_REAL_NONE ∨
        1 <= x < PB_MAX_REALS ∧ ∃ a, a ≠ 0 ∧ reals m !! Z.to_nat x = Some (mk_pb_real a 0).

Lemma member_id L X Y s m spec v a :
  inv_in L X Y s m → vips_ s !! spec = Some v → is_Some (v_members v !! a) → is_Some (by_addr (reals_ s) !! a).
Proof.
  intros Hi Hv Ha. pose proof (i_refs _ _ _ _ _ Hi a) as Hr. pose proof (count_pos a spec v _ Hv Ha).
  unfold refs_of in Hr. destruct (by_addr (reals_ s) !! a); [eauto | lia].
Qed.

Lemma held_id L X Y s m a : inv_in L X Y s m → a ∈ L.*2 → is_Some (by_addr (reals_ s) !! a).
Proof.
  intros Hi Ha. pose proof (i_refs _ _ _ _ _ Hi a) as Hr. unfold refs_of in Hr.
  assert (occ a L.*2 ≠ 0%nat) by (by rewrite occ_zero; intros ?).
  destruct (by_addr (reals_ s) !! a); [eauto | lia].
Qed.

(** A ring that is the model's names members only. *)
Lemma ring_names L X Y s m spec v r :
  inv_in L X Y s m → vips_ s !! spec = Some v →
  Maglev.build_ring (backends_of (reals_ s) (v_members v)) (hash_ s) PB_RING_SIZE = Some (Ok r) →
  names (reals_ s) [] spec v r.
Proof.
  intros Hi Hv Hr. destruct (ring_built (reals_ s) (v_members v) (hash_ s)) as (r' & H1 & H2 & H3).
  rewrite H1 in Hr. injection Hr as <-. split; [done |]. intros x Hx.
  destruct (H3 x Hx) as [-> | (a & mb & Ha & _ & ->)]; [by left | right].
  assert (is_Some (v_members v !! a)) as Hs by eauto.
  destruct (member_id _ _ _ _ _ _ _ _ Hi Hv Hs) as [id Hid]. exists a. unfold id_of. rewrite Hid. split; [done | by left].
Qed.

Lemma names_weaken tb L spec v r : names tb [] spec v r → names tb L spec v r.
Proof.
  intros [H1 H2]. split; [done |]. intros x Hx.
  destruct (H2 x Hx) as [-> | (a & Ha & [Hm | Hm%not_elem_of_nil])]; [by left | eauto | done].
Qed.

(** The references held for VIPs whose ring may be out of date are kept. *)
Definition keeps_for (X : gset VipSpec.t) (L L' : held) : Prop := ∀ sp a, sp ∈ X → (sp, a) ∈ L → (sp, a) ∈ L'.

(** Rings name held ids, whatever else holds them. *)
Lemma inv_names L L' X Y s m spec v :
  inv_in L X Y s m → keeps_for X L L' → vips_ s !! spec = Some v → spec ∉ Y →
  ∃ r, rings m !! v_id v = Some r ∧ names (reals_ s) L' spec v r.
Proof.
  intros Hi HL Hv HY. destruct (decide (spec ∈ X)) as [HX | HX].
  2: { destruct (i_ring _ _ _ _ _ Hi spec v Hv HX) as (r & Hr & Hb). exists r.
       split; [done |]. apply names_weaken. by eapply ring_names. }
  - destruct (i_names _ _ _ _ _ Hi spec v Hv HY) as (r & Hr & Hl & Hn). exists r. split; [done |]. split; [done |].
    intros x Hx. destruct (Hn x Hx) as [-> | (a & Ha & [Hm | Hm])]; [by left | right; exists a; auto..].
Qed.

(** A map state whose arrays show the table's reals where rings name them. *)
Lemma names_safe L L' X Y s m m1 :
  inv_in L X Y s m → keeps_for X L L' → vip_map m1 = vip_map m → rings m1 = rings m →
  (∀ a id, by_addr (reals_ s) !! a = Some id → (0 < count a (vips_ s))%nat ∨ a ∈ L'.*2 →
     reals m1 !! Z.to_nat id = Some (mk_pb_real a 0)) →
  safe m1.
Proof.
  intros Hi HL Ev Er Hshow k val Hk. rewrite Ev in Hk.
  apply (i_map _ _ _ _ _ Hi) in Hk as (spec & v & Hv & HY & -> & ->). cbn [vv_vip_id].
  split; [by apply (i_id _ _ _ _ _ Hi spec) |].
  destruct (inv_names _ _ _ _ _ _ _ _ Hi HL Hv HY) as (r & Hr & Hl & Hn). exists r. rewrite Er. split_and!; try done.
  intros x Hx. destruct (Hn x Hx) as [-> | (a & Ha & Hheld)]; [by left | right].
  destruct (RealTable.inv_id _ _ _ (i_tb _ _ _ _ _ Hi) Ha) as (H1 & H2 & H3). split; [done |].
  exists a. split; [done |]. apply Hshow; [done |]. destruct Hheld as [Hm | Hm].
  - left. pose proof (count_pos a spec v _ Hv Hm). lia.
  - right. by apply (list_elem_of_fmap_2 snd) in Hm.
Qed.

Lemma mirror_real tb m a id :
  RealTable.inv tb → mirror tb m → by_addr tb !! a = Some id → reals m !! Z.to_nat id = Some (mk_pb_real a 0).
Proof.
  intros Hi Hm Ha. destruct (RealTable.inv_id _ _ _ Hi Ha) as (H1 & H2 & H3).
  apply mirror_shows in Hm as (_ & _ & Hs); [| by apply inv_len].
  destruct (Hs id) as [E _]; [lia |]. rewrite E. unfold real_of_slot. by rewrite H3.
Qed.

Lemma inv_safe L X Y s m : inv_in L X Y s m → safe m.
Proof.
  intros Hi. apply (names_safe L L X Y s m m Hi); [by intros sp a | done | done |].
  intros a id Ha _. eapply mirror_real; [apply Hi | apply Hi | done].
Qed.

(** ** Changes of the table of reals *)

(** The reals that members or [L] hold keep their id and do not lose their MAC. *)
Definition keeps (s : LbState.t) (L : held) (tb' : RealTable.t) : Prop :=
  ∀ a id, by_addr (reals_ s) !! a = Some id → (0 < count a (vips_ s))%nat ∨ a ∈ L.*2 →
    by_addr tb' !! a = Some id ∧ (is_Some (s_mac (slot (reals_ s) id)) → is_Some (s_mac (slot tb' id))).

Lemma backends_ext tb tb' ms :
  (∀ a, is_Some (ms !! a) → id_of tb' a = id_of tb a) → backends_of tb' ms = backends_of tb ms.
Proof.
  intros H. unfold backends_of.
  assert (∀ l, Forall (λ a, is_Some (ms !! a)) l →
    omap (λ a, backend_of tb' a <$> ms !! a) l = omap (λ a, backend_of tb a <$> ms !! a) l) as Hl.
  { induction 1 as [| a l [m Hm] _ IH]; [done |]. cbn [omap list_omap]. rewrite Hm. cbn. rewrite IH.
    unfold backend_of. by rewrite H by eauto. }
  apply Hl, Forall_forall. intros a. apply elem_of_addr_keys.
Qed.

Lemma inv_table L L' X Y s m tb' m' :
  inv_in L X Y s m → keeps_for X L L' → keeps s L' tb' →
  RealTable.inv tb' → mirror tb' m' → vip_map m' = vip_map m → rings m' = rings m →
  (∀ a, refs_of tb' a + Z.of_nat (occ a L.*2) = refs_of (reals_ s) a + Z.of_nat (occ a L'.*2)) →
  (∀ a id, by_addr tb' !! a = Some id → 0 < s_refs (slot tb' id)) →
  inv_in L' X Y (set_reals_ tb' s) m'.
Proof.
  intros Hi HL Hk Htb Hm Ev Er Hrefs Hlive.
  assert (∀ spec v a, vips_ s !! spec = Some v → is_Some (v_members v !! a) →
    ∃ id, by_addr (reals_ s) !! a = Some id ∧ by_addr tb' !! a = Some id ∧
          (is_Some (s_mac (slot (reals_ s) id)) → is_Some (s_mac (slot tb' id)))) as Hmem.
  { intros spec v a Hv Ha. destruct (member_id _ _ _ _ _ _ _ _ Hi Hv Ha) as [id Hid]. exists id. split; [done |].
    apply Hk; [done |]. left. pose proof (count_pos a spec v _ Hv Ha). lia. }
  split; cbn [reals_ set_reals_ vips_ adopted_vip_ids_ hash_]; try apply Hi; try done.
  - intros a. pose proof (i_refs _ _ _ _ _ Hi a). specialize (Hrefs a). lia.
  - intros spec v a mb Hv HX Ha Hin. pose proof (i_in_ring _ _ _ _ _ Hi spec v a mb Hv HX Ha Hin) as He.
    destruct (Hmem spec v a Hv ltac:(eauto)) as (id & H1 & H2 & H3). unfold eligible, mac_of, id_of in *.
    rewrite H1 in He. rewrite H2. cbn in *. rewrite !andb_true_iff in *. destruct He as [He1 He2].
    split; [done |]. apply bool_decide_eq_true in He2. by apply bool_decide_eq_true, H3.
  - rewrite Ev. apply Hi.
  - intros spec v Hv HY. destruct (inv_names _ _ _ _ _ _ _ _ Hi HL Hv HY) as (r & Hr & Hl & Hn).
    exists r. rewrite Er. split; [done |]. split; [done |]. intros x Hx.
    destruct (Hn x Hx) as [-> | (a & Ha & Hh)]; [by left | right]. exists a. split; [| done].
    apply Hk; [done |]. destruct Hh as [Hh | Hh]; [left | right; by apply (list_elem_of_fmap_2 snd) in Hh]. pose proof (count_pos a spec v _ Hv Hh). lia.
  - intros spec v Hv HX. destruct (i_ring _ _ _ _ _ Hi spec v Hv HX) as (r & Hr & Hb). exists r. rewrite Er.
    split; [done |]. rewrite (backends_ext (reals_ s)); [done |]. intros a Ha.
    destruct (Hmem spec v a Hv Ha) as (id & H1 & H2 & _). unfold id_of. congruence.
Qed.

(** Every map state on the way is safe. *)
Lemma table_safe L L' X Y s m tb' m1 :
  inv_in L X Y s m → keeps_for X L L' → keeps s L' tb' → RealTable.inv tb' →
  between (reals_ s) tb' m1 → same_rest m m1 → safe m1.
Proof.
  intros Hi HL Hk Htb Hb (Ev & Er & _). apply (names_safe L L' X Y s m m1 Hi HL Ev Er).
  intros a id Ha Hh. destruct (Hk a id Ha Hh) as [Ha' _].
  destruct (RealTable.inv_id _ _ _ (i_tb _ _ _ _ _ Hi) Ha) as (H1 & H2 & H3).
  destruct (RealTable.inv_id _ _ _ Htb Ha') as (_ & _ & H4).
  destruct (Hb id) as [[E _] | [[E _] | [E _]]]; [lia | | | congruence];
    rewrite E; unfold real_of_slot; congruence.
Qed.

(** References and MACs by address, under the changes of the table. *)
Lemma fill_views a id tb b :
  RealTable.inv tb → by_addr tb !! a = None → 1 <= id < PB_MAX_REALS → s_addr (slot tb id) = 0 →
  refs_of (tb_fill a id tb) b = refs_of tb b + (if decide (a = b) then 1 else 0) ∧
  mac_of (tb_fill a id tb) b = mac_of tb b ∧
  (∀ i, by_addr tb !! b = Some i → by_addr (tb_fill a id tb) !! b = Some i ∧ slot (tb_fill a id tb) i = slot tb i).
Proof.
  intros Hi Ha Hid Hf. pose proof (inv_len _ Hi) as Hl. unfold PB_MAX_REALS in Hl, Hid.
  assert (∀ i, 0 <= i → slot (tb_fill a id tb) i = if decide (id = i) then mk_slot a 1 None else slot tb i) as Hs
    by (intros i Hi'; apply slot_fill; lia).
  assert (∀ i, by_addr tb !! b = Some i → by_addr (tb_fill a id tb) !! b = Some i ∧ slot (tb_fill a id tb) i = slot tb i) as Hk.
  { intros i Hb. destruct (RealTable.inv_id _ _ _ Hi Hb) as (H1 & H2 & H3). split.
    - cbn. rewrite lookup_insert_ne; [done | congruence].
    - rewrite Hs by lia. rewrite decide_False; [done | congruence]. }
  unfold refs_of, mac_of, id_of. destruct (decide (a = b)) as [<- | Hne].
  - assert (by_addr (tb_fill a id tb) !! a = Some id) as E by apply lookup_insert_eq.
    rewrite E, Ha. cbn. rewrite Hs, decide_True by lia. done.
  - assert (by_addr (tb_fill a id tb) !! b = by_addr tb !! b) as E by (by apply lookup_insert_ne).
    rewrite E. destruct (by_addr tb !! b) as [i |]; [| done]. destruct (Hk i eq_refl) as [_ E2]. cbn. rewrite E2.
    split_and!; [lia | done | by intros j [= <-]].
Qed.

(** One slot in use changes, its address kept. *)
Lemma slot_views a id sl tb b :
  RealTable.inv tb → by_addr tb !! a = Some id →
  refs_of (set_slot id sl tb) b = (if decide (a = b) then s_refs sl else refs_of tb b) ∧
  mac_of (set_slot id sl tb) b = (if decide (a = b) then s_mac sl else mac_of tb b).
Proof.
  intros Hi Ha. pose proof (inv_len _ Hi) as Hl. unfold PB_MAX_REALS in Hl.
  destruct (RealTable.inv_id _ _ _ Hi Ha) as (H1 & H2 & H3). unfold PB_MAX_REALS in H1.
  unfold refs_of, mac_of, id_of. cbn [by_addr set_slot]. destruct (decide (a = b)) as [<- | Hne].
  - rewrite Ha. cbn. by rewrite slot_set_eq by lia.
  - destruct (by_addr tb !! b) as [i |] eqn:Hb; [| done]. destruct (RealTable.inv_id _ _ _ Hi Hb) as (H4 & H5 & H6).
    cbn. rewrite slot_set_ne; [done | lia | lia | congruence].
Qed.

(** One more reference. *)
Lemma ref_views a id tb b :
  RealTable.inv tb → by_addr tb !! a = Some id → refs_of tb a + 1 < 2 ^ 32 →
  refs_of (tb_ref id tb) b = refs_of tb b + (if decide (a = b) then 1 else 0) ∧ mac_of (tb_ref id tb) b = mac_of tb b.
Proof.
  intros Ht Ea Hb. pose proof (inv_refs _ Ht id) as Hu. unfold is_u in Hu.
  assert (refs_of tb a = s_refs (slot tb id)) as Er by (unfold refs_of; by rewrite Ea). unfold tb_ref.
  destruct (slot_views a id (mk_slot (s_addr (slot tb id)) (u32 (s_refs (slot tb id) + 1)) (s_mac (slot tb id))) tb b Ht Ea) as [V1 V2].
  rewrite V1, V2. cbn [s_refs s_mac]. destruct (decide (a = b)) as [<- | ]; [| split; [lia | done]].
  rewrite u32_id by (unfold is_u; lia). split; [lia |]. unfold mac_of, id_of. by rewrite Ea.
Qed.

Lemma release_views a tb b :
  RealTable.inv tb → 0 < refs_of tb a →
  refs_of (tb_release a tb) b = refs_of tb b - (if decide (a = b) then 1 else 0) ∧
  (0 < refs_of (tb_release a tb) b → mac_of (tb_release a tb) b = mac_of tb b ∧
     by_addr (tb_release a tb) !! b = by_addr tb !! b) ∧
  (by_addr (tb_release a tb) !! b ≠ None → by_addr tb !! b ≠ None ∧ (a = b → 1 < refs_of tb a)).
Proof.
  intros Hi Hp. unfold tb_release. destruct (by_addr tb !! a) as [id |] eqn:Ha; [| unfold refs_of in Hp; rewrite Ha in Hp; lia].
  assert (refs_of tb a = s_refs (slot tb id)) as Er by (unfold refs_of; by rewrite Ha). rewrite Er in Hp.
  destruct (Z.ltb_spec 1 (s_refs (slot tb id))) as [Hr | Hr].
  - destruct (slot_views a id (mk_slot (s_addr (slot tb id)) (s_refs (slot tb id) - 1) (s_mac (slot tb id))) tb b Hi Ha) as [V1 V2].
    rewrite V1, V2. cbn [s_refs s_mac]. destruct (decide (a = b)) as [<- | Hne].
    + rewrite Er. split_and!; [done | | intros _; split; [congruence | lia]]. intros _. split; [| done]. unfold mac_of, id_of. by rewrite Ha.
    + split_and!; [lia | done | done].
  - set (tb1 := set_by_addr (delete a) tb).
    assert (∀ i c, by_addr tb !! c = Some i → a ≠ c → slot (set_slot id Slot0 tb1) i = slot tb i) as Hs.
    { intros i c Hc Hne. destruct (RealTable.inv_id _ _ _ Hi Ha) as (H1 & H2 & H3).
      destruct (RealTable.inv_id _ _ _ Hi Hc) as (H4 & H5 & H6).
      assert (slot (set_slot id Slot0 tb1) i = slot tb1 i) as -> by (apply slot_set_ne; [lia | lia | congruence]). done. }
    unfold refs_of, mac_of, id_of. cbn [by_addr set_slot tb1 set_by_addr]. destruct (decide (a = b)) as [<- | Hne].
    + rewrite lookup_delete_eq, Ha. split_and!; [lia | lia | done].
    + rewrite lookup_delete_ne by done. destruct (by_addr tb !! b) as [i |] eqn:Hb; [| done].
      cbn. rewrite (Hs i b Hb Hne). split_and!; [lia | done | done].
Qed.

(** ** Runs of the building blocks *)

(** No bpf call failed, every map state on the way is safe, and the connection
    table and the settings are the same. *)
Record goes (w w' : World LbState.t) : Prop := {
  g_calm : calm w';
  g_hist : ∃ ms, hist w' = hist w ++ ms ∧ Forall safe ms;
  g_rest : conntrack (km w') = conntrack (km w) ∧ config (km w') = config (km w)
}.

Lemma goes_refl w : calm w → goes w w.
Proof. intros H. split; [done | | done]. exists []. by rewrite app_nil_r. Qed.

Lemma goes_trans w1 w2 w3 : goes w1 w2 → goes w2 w3 → goes w1 w3.
Proof.
  intros [_ (ms & E & F) C] [H (ms' & E' & F') C']. split; [done | | destruct C, C'; split; congruence].
  exists (ms ++ ms'). split; [by rewrite E', E, app_assoc |]. by apply Forall_app.
Qed.

(** Changes of the object only. *)
Lemma goes_obj w w' s : goes w w' → goes w (with_obj s w').
Proof. intros [H1 H2 H3]. by split. Qed.

Definition table_world (w : World LbState.t) : World RealTable.t :=
  mk_world (reals_ (obj w)) (km w) (hist w) (sys w).

Lemma real_op_run {A} (p : M RealTable.t A) w r wt :
  p (table_world w) = (r, wt) →
  real_op p w = (r, mk_world (set_reals_ (obj wt) (obj w)) (km wt) (hist wt) (sys wt)).
Proof. intros H. unfold real_op, on. unfold table_world in H. by rewrite H. Qed.

(** A method of the table, seen from the control plane. *)
Lemma table_step {A} L L' X Y w (r : result A) wt :
  inv_in L X Y (obj w) (km w) → keeps_for X L L' → step_ok (table_world w) r wt → is_ok r = true → calm wt →
  keeps (obj w) L' (obj wt) →
  (∀ a, refs_of (obj wt) a + Z.of_nat (occ a L.*2) = refs_of (reals_ (obj w)) a + Z.of_nat (occ a L'.*2)) →
  (∀ a id, by_addr (obj wt) !! a = Some id → 0 < s_refs (slot (obj wt) id)) →
  let w' := mk_world (set_reals_ (obj wt) (obj w)) (km wt) (hist wt) (sys wt) in
  inv_in L' X Y (obj w') (km w') ∧ goes w w'.
Proof.
  intros Hi HL [S1 (ms & E & F) S3 S4] Hok Hc Hk Hr Hl. cbn [obj km hist]. split.
  - destruct S4 as (V1 & V2 & _). eapply inv_table; eauto.
  - split; [done | | by destruct S4 as (_ & _ & ? & _ & ?)]. exists ms. split; [exact E |]. eapply Forall_impl; [exact F |].
    intros m1 [Hb Hs]. eapply table_safe; eauto.
Qed.

Lemma keeps_cons X h L : keeps_for X L (h :: L).
Proof. intros sp a _ Hx. by apply list_elem_of_further. Qed.

(** acquire adds a reference. *)
Lemma acquire_lb L X Y e spec a w :
  inv_in L X Y (obj w) (km w) → calm w → a ≠ 0 → refs_of (reals_ (obj w)) a + 1 < 2 ^ 32 →
  (by_addr (reals_ (obj w)) !! a = None ∧ next_free (reals_ (obj w)) = None ∧
   real_op (acquire e a) w = (Throw too_many_reals, w)) ∨
  (∃ id w', (by_addr (reals_ (obj w)) !! a ≠ None ∨ next_free (reals_ (obj w)) ≠ None) ∧
     real_op (acquire e a) w = (Ok id, w') ∧ inv_in ((spec, a) :: L) X Y (obj w') (km w') ∧ goes w w' ∧
     (∃ tb, obj w' = set_reals_ tb (obj w)) ∧
     by_addr (reals_ (obj w')) !! a = Some id ∧
     (∀ b, mac_of (reals_ (obj w')) b = mac_of (reals_ (obj w)) b)).
Proof.
  intros Hi Hc Ha Hb. pose proof (i_tb _ _ _ _ _ Hi) as Ht. pose proof (i_mirror _ _ _ _ _ Hi) as Hm.
  set (tb := reals_ (obj w)) in *. destruct (by_addr tb !! a) as [id |] eqn:Ea.
  - right. destruct (acquire_known_run e a id (table_world w) Ht Hm Ea) as [H Hst].
    exists id. eexists. split; [by left |]. split; [exact (real_op_run _ _ _ _ H) |].
    pose proof (λ b, ref_views a id tb b Ht Ea Hb) as Hv.
    destruct (table_step L ((spec, a) :: L) X Y w _ _ Hi (keeps_cons X (spec, a) L) Hst eq_refl Hc) as [G1 G2].
    + intros b i Hbi _. split; [exact Hbi |]. destruct (Hv b) as [_ E]. unfold mac_of, id_of in E.
      change (by_addr tb !! b = Some i) in Hbi. rewrite Hbi in E. change (by_addr (tb_ref id tb)) with (by_addr tb) in E. rewrite Hbi in E. cbn in E.
      cbn [obj with_obj table_world]. fold tb. by rewrite E.
    + intros b. cbn [obj with_obj table_world]. fold tb. destruct (Hv b) as [-> _]. rewrite fmap_cons, occ_cons. cbn [snd].
      destruct (decide (a = b)); lia.
    + intros b i Hbi. pose proof (i_live _ _ _ _ _ Hi b i Hbi) as Hl. cbn [obj with_obj table_world]. fold tb.
      destruct (Hv b) as [E _]. unfold refs_of in E. change (by_addr (tb_ref id tb)) with (by_addr tb) in E.
      change (by_addr tb !! b = Some i) in Hbi. rewrite Hbi in E. fold tb in Hl. destruct (decide (a = b)); lia.
    + split_and!; try done; [by exists (tb_ref id tb) |]. intros b. apply (Hv b).
  - pose proof (acquire_fresh_run e a (table_world w) Ht Hm Ha Ea) as H. cbn [obj table_world] in H. fold tb in H.
    destruct (next_free tb) as [id |] eqn:En; [right | left].
    2: { split_and!; try done. rewrite (real_op_run _ _ _ _ H). by destruct w as [[]]. }
    destruct H as (r & wt & H & O & Hst & _ & C). destruct (C Hc) as [-> Hc']. 
    exists id. eexists. split; [by right |]. split; [exact (real_op_run _ _ _ _ H) |].
    destruct (next_free_spec tb id Ht En) as [Hid Hf].
    assert (∀ b, refs_of (obj wt) b = refs_of tb b + (if decide (a = b) then 1 else 0) ∧
                 mac_of (obj wt) b = mac_of tb b ∧
                 (∀ i, by_addr tb !! b = Some i → by_addr (obj wt) !! b = Some i ∧ slot (obj wt) i = slot tb i)) as Hv
      by (intros b; rewrite O; by apply fill_views).
    destruct (table_step L ((spec, a) :: L) X Y w _ _ Hi (keeps_cons X (spec, a) L) Hst eq_refl Hc') as [G1 G2].
    + intros b i Hbi _. destruct (Hv b) as (_ & _ & Hk). destruct (Hk i Hbi) as [K1 K2]. split; [done |]. by rewrite K2.
    + intros b. fold tb. destruct (Hv b) as [-> _]. rewrite fmap_cons, occ_cons. cbn [snd]. destruct (decide (a = b)); lia.
    + intros b i Hbi. destruct (Hv b) as (E & _ & Hk). destruct (decide (a = b)) as [<- | Hne].
      * unfold refs_of in E. rewrite Hbi, Ea in E. lia.
      * assert (by_addr tb !! b = Some i) as Hb'.
        { rewrite O in Hbi. cbn in Hbi. by rewrite lookup_insert_ne in Hbi. }
        destruct (Hk i Hb') as [_ ->]. exact (i_live _ _ _ _ _ Hi b i Hb').
    + split_and!; try done; [by exists (obj wt) | |].
      * cbn. rewrite O. apply lookup_insert_eq.
      * intros b. apply (Hv b).
Qed.

(** set_mac keeps ids and references. *)
Lemma set_mac_lb L X Y e a mac w :
  inv_in L X Y (obj w) (km w) → calm w →
  ∃ b w', real_op (set_mac e a mac) w = (Ok b, w') ∧ inv_in L X Y (obj w') (km w') ∧ goes w w' ∧
    obj w' = set_reals_ (tb_set_mac a mac (reals_ (obj w))) (obj w) ∧
    (b = true ↔ is_Some (by_addr (reals_ (obj w)) !! a) ∧ mac_of (reals_ (obj w)) a ≠ Some mac).
Proof.
  intros Hi Hc. pose proof (i_tb _ _ _ _ _ Hi) as Ht. pose proof (i_mirror _ _ _ _ _ Hi) as Hm.
  set (tb := reals_ (obj w)) in *.
  destruct (set_mac_run e a mac (table_world w) Ht Hm) as (r & wt & H & O & Hst & Hb & C).
  destruct (C Hc) as [Hok Hc']. destruct r as [b |]; [clear Hok | done]. exists b. eexists. split; [exact (real_op_run _ _ _ _ H) |].
  cbn [obj table_world] in O, Hb. fold tb in O, Hb.
  assert (by_addr (obj wt) = by_addr tb ∧
    ∀ c, refs_of (obj wt) c = refs_of tb c ∧ (is_Some (mac_of tb c) → is_Some (mac_of (obj wt) c))) as [Hby Hv].
  { rewrite O. unfold tb_set_mac. destruct (by_addr tb !! a) as [id |] eqn:Ea; [| done]. split; [done |]. intros c.
    destruct (slot_views a id (mk_slot (s_addr (slot tb id)) (s_refs (slot tb id)) (Some mac)) tb c Ht Ea) as [V1 V2].
    rewrite V1, V2. cbn [s_refs s_mac]. destruct (decide (a = c)) as [<- | ]; [| done].
    split; [unfold refs_of; by rewrite Ea | by eauto]. }
  destruct (table_step L L X Y w _ _ Hi (λ sp c _ H, H) Hst eq_refl Hc') as [G1 G2].
  - intros c i Hci _. rewrite Hby. split; [exact Hci |]. destruct (Hv c) as [_ Hmac]. unfold mac_of, id_of in Hmac.
    rewrite Hby in Hmac. change (by_addr tb !! c = Some i) in Hci. rewrite Hci in Hmac. exact Hmac.
  - intros c. fold tb. destruct (Hv c) as [-> _]. done.
  - intros c i Hci. rewrite Hby in Hci. pose proof (i_live _ _ _ _ _ Hi c i Hci) as Hl. fold tb in Hl.
    destruct (Hv c) as [E _]. unfold refs_of in E. rewrite Hby, Hci in E. lia.
  - split_and!; try done; cbn [obj]; [by rewrite O |]. specialize (Hb b eq_refl). exact Hb.
Qed.

(** release drops a reference that no member holds. *)
Lemma release_lb L X Y e spec a w :
  inv_in ((spec, a) :: L) X Y (obj w) (km w) → calm w → spec ∉ X →
  ∃ w', real_op (release e a) w = (Ok (), w') ∧ inv_in L X Y (obj w') (km w') ∧ goes w w' ∧
    obj w' = set_reals_ (tb_release a (reals_ (obj w))) (obj w).
Proof.
  intros Hi Hc HX. pose proof (i_tb _ _ _ _ _ Hi) as Ht. pose proof (i_mirror _ _ _ _ _ Hi) as Hm.
  set (tb := reals_ (obj w)) in *.
  destruct (release_run e a (table_world w) Ht Hm) as (r & wt & H & O & Hst & C).
  destruct (C Hc) as [-> Hc']. cbn [obj table_world] in O. fold tb in O.
  eexists. split; [exact (real_op_run _ _ _ _ H) |].
  assert (∀ b, refs_of tb b = Z.of_nat (count b (vips_ (obj w))) + Z.of_nat (occ b L.*2) + (if decide (a = b) then 1 else 0)) as Hr.
  { intros b. pose proof (i_refs _ _ _ _ _ Hi b) as E. fold tb in E. rewrite fmap_cons, occ_cons in E. cbn [snd] in E. destruct (decide (a = b)); lia. }
  assert (keeps_for X ((spec, a) :: L) L) as Hkeep
    by (intros sp b Hsp [[= -> ->] | ?]%elem_of_cons; done).
  assert (0 < refs_of tb a) as Hpos by (rewrite Hr, decide_True by done; lia).
  pose proof (λ b, release_views a tb b Ht Hpos) as Hv. rewrite <-O in Hv.
  destruct (table_step ((spec, a) :: L) L X Y w _ _ Hi Hkeep Hst eq_refl Hc') as [G1 G2].
  - intros b i Hbi Hheld. destruct (Hv b) as (V1 & V2 & _). change (by_addr tb !! b = Some i) in Hbi.
    destruct V2 as [V2 V3].
    { rewrite V1, Hr. destruct Hheld as [? | Hin]; [destruct (decide (a = b)); lia |].
      assert (occ b L.*2 ≠ 0%nat) by (by rewrite occ_zero; intros ?). destruct (decide (a = b)); lia. }
    rewrite V3. split; [done |]. unfold mac_of, id_of in V2. rewrite V3, Hbi in V2. cbn in V2. fold tb. by rewrite V2.
  - intros b. fold tb. destruct (Hv b) as [-> _]. rewrite fmap_cons, occ_cons. cbn [snd]. destruct (decide (a = b)); lia.
  - intros b i Hbi. destruct (Hv b) as (V1 & _ & V3). destruct V3 as [V3 V4]; [congruence |].
    assert (refs_of (obj wt) b = s_refs (slot (obj wt) i)) as E by (unfold refs_of; by rewrite Hbi).
    rewrite <-E, V1. destruct (by_addr tb !! b) as [j |] eqn:Ej; [| done].
    pose proof (i_live _ _ _ _ _ Hi b j Ej) as Hl. fold tb in Hl.
    assert (refs_of tb b = s_refs (slot tb j)) as E' by (unfold refs_of; by rewrite Ej).
    destruct (decide (a = b)) as [<- | ]; [specialize (V4 eq_refl) |]; lia.
  - split_and!; try done. cbn [obj]. by rewrite O.
Qed.

(** ** Changes of a VIP *)

(** A VIP and the references held outside it change together; its ring may be
    out of date afterwards. *)
Lemma inv_change L L' X Y s m spec v v' :
  inv_in L X Y s m → vips_ s !! spec = Some v →
  v_spec v' = v_spec v → v_id v' = v_id v → v_flags v' = v_flags v →
  keeps_for (X ∖ {[spec]}) L L' →
  (∀ a, ind a v' + occ a L'.*2 = ind a v + occ a L.*2)%nat →
  (∀ a, is_Some (v_members v !! a) ∨ (spec, a) ∈ L → is_Some (v_members v' !! a) ∨ (spec, a) ∈ L') →
  inv_in L' ({[spec]} ∪ X) Y (set_vips <[spec := v']> s) m.
Proof.
  intros Hi Hv E1 E2 E3 HX Hrefs Hheld.
  assert (∀ sp u, <[spec := v']> (vips_ s) !! sp = Some u →
    ∃ u0, vips_ s !! sp = Some u0 ∧ v_spec u = v_spec u0 ∧ v_id u = v_id u0 ∧ v_flags u = v_flags u0 ∧
          (sp = spec ∧ u = v' ∧ u0 = v ∨ sp ≠ spec ∧ u = u0)) as Hold.
  { intros sp u. destruct (decide (sp = spec)) as [-> | Hne].
    - rewrite lookup_insert_eq. intros [= <-]. exists v. split_and!; auto.
    - rewrite lookup_insert_ne by done. intros Hu. exists u. split_and!; auto. }
  assert (∀ sp, sp ∉ {[spec]} ∪ X → sp ≠ spec ∧ sp ∉ X) as HnX
    by (intros sp Hsp; rewrite not_elem_of_union, not_elem_of_singleton in Hsp; done).
  split; cbn [reals_ vips_ adopted_vip_ids_ hash_ set_vips]; try apply Hi.
  - intros sp u (u0 & H0 & S1 & _)%Hold. rewrite S1. by apply (i_spec _ _ _ _ _ Hi).
  - intros sp u (u0 & H0 & _ & S2 & _)%Hold. rewrite S2. by apply (i_id _ _ _ _ _ Hi sp).
  - intros sp sp' u u' (u0 & H0 & _ & S2 & _)%Hold (u0' & H0' & _ & S2' & _)%Hold. rewrite S2, S2'.
    by apply (i_inj _ _ _ _ _ Hi).
  - intros a. rewrite (i_refs _ _ _ _ _ Hi a). pose proof (count_insert a spec v v' _ Hv). specialize (Hrefs a). lia.
  - intros sp u a mb Hu [Hne HX']%HnX. rewrite lookup_insert_ne in Hu by done. by apply (i_in_ring _ _ _ _ _ Hi sp u a mb).
  - intros k val. rewrite (i_map _ _ _ _ _ Hi). split.
    + intros (sp & u & Hu & HY & -> & ->). destruct (decide (sp = spec)) as [-> | Hne].
      * exists spec, v'. rewrite lookup_insert_eq. split_and!; try done. f_equal; congruence.
      * exists sp, u. by rewrite lookup_insert_ne by done.
    + intros (sp & u & (u0 & H0 & _ & S2 & S3 & _)%Hold & HY & -> & ->). exists sp, u0. split_and!; try done. by rewrite S2, S3.
  - intros sp u (u0 & H0 & _ & S2 & _ & [(-> & -> & ->) | (Hne & ->)])%Hold HY; rewrite ?S2.
    + destruct (i_names _ _ _ _ _ Hi spec v H0 HY) as (r & Hr & Hl & Hn). exists r. split; [done |]. split; [done |].
      intros x Hx. destruct (Hn x Hx) as [-> | (a & Ha & Hh)]; [by left | right]. exists a. split; [done | by apply Hheld].
    + destruct (decide (sp ∈ X)) as [HspX | HspX].
      * destruct (i_names _ _ _ _ _ Hi sp u0 H0 HY) as (r & Hr & Hl & Hn). exists r. split; [done |]. split; [done |].
        intros x Hx. destruct (Hn x Hx) as [-> | (a & Ha & Hh)]; [by left | right]. exists a. split; [done |].
        destruct Hh as [Hh | Hh]; [by left | right]. apply HX; [| done].
        rewrite elem_of_difference, not_elem_of_singleton. done.
      * destruct (i_ring _ _ _ _ _ Hi sp u0 H0 HspX) as (r & Hr & Hb).
        exists r. split; [done |]. apply names_weaken. by eapply ring_names.
  - intros sp u Hu [Hne HX']%HnX. rewrite lookup_insert_ne in Hu by done. by apply (i_ring _ _ _ _ _ Hi sp u).
Qed.

(** Its members stay the same. *)
Lemma inv_upd L X Y s m spec v v' :
  inv_in L X Y s m → vips_ s !! spec = Some v →
  v_spec v' = v_spec v → v_id v' = v_id v → v_flags v' = v_flags v →
  (∀ a, is_Some (v_members v' !! a) ↔ is_Some (v_members v !! a)) →
  inv_in L ({[spec]} ∪ X) Y (set_vips <[spec := v']> s) m.
Proof.
  intros Hi Hv E1 E2 E3 E4. eapply inv_change; try done; [by intros sp a | |].
  - intros a. unfold ind. specialize (E4 a). destruct (decide _), (decide _); tauto.
  - intros a. by rewrite E4.
Qed.

(** A real becomes a member; the reference acquired for it becomes the VIP's. *)
Lemma inv_add_member L X Y s m spec v a mb :
  inv_in ((spec, a) :: L) X Y s m → vips_ s !! spec = Some v → v_members v !! a = None →
  inv_in L ({[spec]} ∪ X) Y (set_vips <[spec := set_members <[a := mb]> v]> s) m.
Proof.
  intros Hi Hv Ha. eapply inv_change; try done.
  - intros sp b Hsp [[= -> ->] | ?]%elem_of_cons; [| done]. rewrite elem_of_difference, elem_of_singleton in Hsp. tauto.
  - intros b. unfold ind. cbn [v_members set_members]. rewrite fmap_cons, occ_cons. cbn [snd]. destruct (decide (a = b)) as [<- | Hne].
    + rewrite lookup_insert_eq, Ha. rewrite decide_True, decide_False by (eauto || by intros []). lia.
    + by rewrite lookup_insert_ne by done.
  - intros b. cbn [v_members set_members]. rewrite elem_of_cons. destruct (decide (a = b)) as [<- | Hne].
    + rewrite lookup_insert_eq. eauto.
    + rewrite lookup_insert_ne by done. intros [? | [[= ->] | ?]]; auto. done.
Qed.

(** A real stops being a member; its reference is kept for now. *)
Lemma inv_del_member L X Y s m spec v a :
  inv_in L X Y s m → vips_ s !! spec = Some v → is_Some (v_members v !! a) →
  inv_in ((spec, a) :: L) ({[spec]} ∪ X) Y (set_vips <[spec := set_members (delete a) v]> s) m.
Proof.
  intros Hi Hv Ha. eapply inv_change; try done; [apply keeps_cons | |].
  - intros b. unfold ind. cbn [v_members set_members]. rewrite fmap_cons, occ_cons. cbn [snd]. destruct (decide (a = b)) as [<- | Hne].
    + rewrite lookup_delete_eq. rewrite decide_False, decide_True by (done || by intros []). lia.
    + by rewrite lookup_delete_ne by done.
  - intros b. cbn [v_members set_members]. rewrite elem_of_cons. destruct (decide (a = b)) as [<- | Hne]; [auto |].
    rewrite lookup_delete_ne by done. tauto.
Qed.

Lemma lookup_mark tb ms a : mark_in_ring tb ms !! a = (λ m, set_in_ring (eligible tb a m) m) <$> ms !! a.
Proof. unfold mark_in_ring. rewrite map_lookup_imap. by destruct (ms !! a). Qed.

(** The ring of the model is installed. *)
Lemma inv_installed L X Y s m spec v r :
  inv_in L X Y s m → vips_ s !! spec = Some v →
  (∀ a mb, v_members v !! a = Some mb → m_in_ring mb = true → eligible (reals_ s) a mb = true) →
  Maglev.build_ring (backends_of (reals_ s) (v_members v)) (hash_ s) PB_RING_SIZE = Some (Ok r) →
  inv_in L (X ∖ {[spec]}) Y s (set_rings <[v_id v := r]> m).
Proof.
  intros Hi Hv Hin Hr. assert (∀ sp u, vips_ s !! sp = Some u → sp ≠ spec → v_id u ≠ v_id v) as Hne.
  { intros sp u Hu Hne E. by apply Hne, (i_inj _ _ _ _ _ Hi sp spec u v). }
  split; try apply Hi.
  - by destruct (i_mirror _ _ _ _ _ Hi).
  - intros sp u a mb Hu HX. destruct (decide (sp = spec)) as [-> | Hsp]; [| apply (i_in_ring _ _ _ _ _ Hi sp); set_solver].
    rewrite Hv in Hu. injection Hu as <-. apply Hin.
  - intros sp u Hu HY. cbn [rings set_rings]. destruct (decide (sp = spec)) as [-> | Hsp].
    + rewrite Hv in Hu. injection Hu as <-. exists r. rewrite lookup_insert_eq. split; [done |].
      apply names_weaken. by eapply ring_names.
    + rewrite lookup_insert_ne by (symmetry; by apply (Hne sp)). by apply (i_names _ _ _ _ _ Hi sp).
  - intros sp u Hu HX. cbn [rings set_rings]. destruct (decide (sp = spec)) as [-> | Hsp].
    + rewrite Hv in Hu. injection Hu as <-. exists r. by rewrite lookup_insert_eq.
    + rewrite lookup_insert_ne by (symmetry; by apply (Hne sp)). apply (i_ring _ _ _ _ _ Hi sp u Hu). set_solver.
Qed.

Lemma union_diff (x : VipSpec.t) (X : gset VipSpec.t) : ({[x]} ∪ X) ∖ {[x]} = X ∖ {[x]}.
Proof. set_solver. Qed.

(** ** Rebuilding a ring *)

Lemma install_ring_run {S} e id ring (w : World S) :
  length ring = Z.to_nat PB_RING_SIZE → calm w →
  ∃ w', install_ring e id ring w = (Ok (), w') ∧ obj w' = obj w ∧ km w' = set_rings <[id := ring]> (km w) ∧
        hist w' = hist w ++ [km w'] ∧ calm w'.
Proof.
  intros Hl Hc. unfold install_ring. rewrite Hl.
  replace (Z.of_nat (Z.to_nat PB_RING_SIZE) =? PB_RING_SIZE) with true by reflexivity. cbn [negb].
  destruct (bpf_result_run w) as (err1 & w1 & H1 & O1 & K1 & S1 & C1). destruct (C1 Hc) as [-> Hc1].
  erewrite bind_run by exact H1. cbn [Z.eqb negb].
  destruct (bpf_result_run w1) as (err2 & w2 & H2 & O2 & K2 & S2 & C2). destruct (C2 Hc1) as [-> Hc2].
  erewrite bind_run by exact H2. cbn [Z.eqb negb].
  destruct (checked_write_run (set_rings <[id := ring]>)
    (λ err, §"swap ring for vip_id " ++ VipSpec.to_string id ++ §": " ++ errstr e err) w2) as (r & w3 & H3 & O3 & P3 & C3).
  destruct (C3 Hc2) as [-> Hc3]. exists w3. destruct P3 as [K3 S3].
  split_and!; [exact H3 | congruence | congruence | | done]. rewrite S3, K3, S2, S1. done.
Qed.

(** The VIP after a rebuild. *)
Definition rebuilt (tb : RealTable.t) (v : Vip) : Vip := bump_generation (set_members (mark_in_ring tb) v).

Lemma rebuilt_members tb v a :
  v_members (rebuilt tb v) !! a = (λ m, set_in_ring (eligible tb a m) m) <$> v_members v !! a.
Proof. unfold rebuilt. cbn [v_members bump_generation set_members]. apply lookup_mark. Qed.

(** What rebuild_locked does, whatever state the daemon is in. *)
Lemma rebuild_run e spec v w :
  calm w → vips_ (obj w) !! spec = Some v →
  ∃ r w', rebuild_locked e spec w = (Ok (), w') ∧
    obj w' = set_vips <[spec := rebuilt (reals_ (obj w)) v]> (obj w) ∧
    km w' = set_rings <[v_id v := r]> (km w) ∧ hist w' = hist w ++ [km w'] ∧ calm w' ∧
    Maglev.build_ring (backends_of (reals_ (obj w)) (v_members (rebuilt (reals_ (obj w)) v))) (hash_ (obj w)) PB_RING_SIZE = Some (Ok r).
Proof.
  intros Hc Hv. set (tb := reals_ (obj w)). set (v2 := rebuilt tb v).
  destruct (ring_built tb (v_members v2) (hash_ (obj w))) as (r & Hr & Hlen & _).
  set (w1 := with_obj (set_vips (alter (set_members (mark_in_ring tb)) spec) (obj w)) w).
  destruct (install_ring_run e (v_id v) r w1 Hlen Hc) as (w2 & H2 & O2 & K2 & S2 & C2).
  exists r, (with_obj (set_vips <[spec := v2]> (obj w)) w2). split_and!; try done.
  assert (set_vips (alter bump_generation spec) (obj w2) = set_vips <[spec := v2]> (obj w)) as Eobj.
  { rewrite O2. unfold w1, set_vips. cbn. rewrite (alter_Some _ _ _ v Hv), (alter_Some _ _ _ (set_members (mark_in_ring tb) v)) by apply lookup_insert_eq.
    by rewrite insert_insert_eq. }
  unfold rebuild_locked. rewrite bind_get. unfold upd_vip. rewrite bind_modify, bind_get.
  change (mk_world (set_vips (alter (set_members (mark_in_ring (reals_ (obj w)))) spec) (obj w)) (km w) (hist w) (sys w)) with w1.
  assert (vip_at (obj w1) spec = set_members (mark_in_ring tb) v) as ->.
  { unfold vip_at. cbn. rewrite lookup_alter_eq, Hv. done. }
  cbn [obj w1 with_obj reals_ set_vips hash_ v_members set_members v_id].
  pose proof (ring_of_built tb _ _ r Hr) as Hro. change (v_members v2) with (mark_in_ring tb (v_members v)) in Hro.
  fold tb. erewrite bind_run by (unfold lift; rewrite Hro; reflexivity).
  erewrite bind_run by exact H2. unfold modify, with_obj. by rewrite Eobj.
Qed.

(** Members in the ring are eligible after it. *)
Lemma rebuilt_in_ring tb v a mb :
  v_members (rebuilt tb v) !! a = Some mb → m_in_ring mb = true → eligible tb a mb = true.
Proof. rewrite rebuilt_members. destruct (v_members v !! a) as [m |]; [| done]. by intros [= <-]. Qed.

Lemma rebuild_lb L X Y e spec v w :
  inv_in L X Y (obj w) (km w) → calm w → vips_ (obj w) !! spec = Some v →
  ∃ r w', rebuild_locked e spec w = (Ok (), w') ∧
    obj w' = set_vips <[spec := rebuilt (reals_ (obj w)) v]> (obj w) ∧
    km w' = set_rings <[v_id v := r]> (km w) ∧
    inv_in L (X ∖ {[spec]}) Y (obj w') (km w') ∧ goes w w' ∧ hist w' = hist w ++ [km w'].
Proof.
  intros Hi Hc Hv. destruct (rebuild_run e spec v w Hc Hv) as (r & w' & H & O & K & Hh & Hc' & Hr). exists r, w'.
  assert (inv_in L ({[spec]} ∪ X) Y (obj w') (km w)) as Hi2.
  { rewrite O. eapply inv_upd; try done. intros a. rewrite rebuilt_members. by rewrite fmap_is_Some. }
  assert (inv_in L (X ∖ {[spec]}) Y (obj w') (km w')) as Hi3.
  { rewrite <-union_diff, K. rewrite O in *. eapply (inv_installed _ _ _ _ _ spec (rebuilt (reals_ (obj w)) v));
      [exact Hi2 | apply lookup_insert_eq | intros a mb; apply rebuilt_in_ring | exact Hr]. }
  split_and!; try done. split; [done | | by rewrite K]. exists [km w']. split; [done |].
  apply Forall_singleton. by eapply inv_safe.
Qed.

(** ** Creating, publishing and removing VIPs *)

Lemma key_inj s1 s2 : VipSpec.key s1 = VipSpec.key s2 → s1 = s2.
Proof. destruct s1, s2. unfold VipSpec.key. cbn. congruence. Qed.

Lemma inv_new_vip L X Y s m spec id flags :
  inv_in L X Y s m → vips_ s !! spec = None → 0 <= id < PB_MAX_VIPS →
  (∀ sp v, vips_ s !! sp = Some v → v_id v ≠ id) →
  inv_in L ({[spec]} ∪ X) ({[spec]} ∪ Y) (set_vips <[spec := mk_vip spec id flags 0 ∅]> s) m.
Proof.
  intros Hi Hn Hid Hfresh.
  assert (∀ (Z : gset VipSpec.t) sp u, sp ∉ {[spec]} ∪ Z → <[spec := mk_vip spec id flags 0 ∅]> (vips_ s) !! sp = Some u →
    (sp ∉ Z) ∧ vips_ s !! sp = Some u) as Hold.
  { intros Z sp u HZ. rewrite not_elem_of_union, not_elem_of_singleton in HZ. destruct HZ as [Hne HZ].
    by rewrite lookup_insert_ne. }
  split; cbn [reals_ vips_ adopted_vip_ids_ hash_ set_vips]; try apply Hi.
  - intros sp u. rewrite lookup_insert. destruct (decide (spec = sp)) as [<- | ]; [by intros [= <-] | apply (i_spec _ _ _ _ _ Hi)].
  - intros sp u. rewrite lookup_insert. destruct (decide (spec = sp)) as [<- | ]; [by intros [= <-] | apply (i_id _ _ _ _ _ Hi)].
  - intros sp sp' u u'. rewrite !lookup_insert.
    destruct (decide (spec = sp)) as [<- | ], (decide (spec = sp')) as [<- | ]; try done.
    + intros [= <-] Hu' E. by destruct (Hfresh sp' u' Hu').
    + intros Hu [= <-] E. by destruct (Hfresh sp u Hu).
    + apply (i_inj _ _ _ _ _ Hi).
  - intros a. rewrite count_insert_new by done. unfold ind. cbn [v_members].
    rewrite decide_False by (rewrite lookup_empty; by intros []). rewrite (i_refs _ _ _ _ _ Hi a). lia.
  - intros sp u a mb Hu HX. destruct (Hold X sp u HX Hu) as [HX' Hu']. by apply (i_in_ring _ _ _ _ _ Hi sp u).
  - intros k val. rewrite (i_map _ _ _ _ _ Hi). split.
    + intros (sp & u & Hu & HY & -> & ->). assert (spec ≠ sp) by congruence. exists sp, u.
      rewrite lookup_insert_ne by done. split_and!; try done. rewrite not_elem_of_union, not_elem_of_singleton. split; congruence.
    + intros (sp & u & Hu & HY & -> & ->). destruct (Hold Y sp u HY Hu) as [HY' Hu']. exists sp, u. by split_and!.
  - intros sp u Hu HY. destruct (Hold Y sp u HY Hu) as [HY' Hu']. by apply (i_names _ _ _ _ _ Hi sp u).
  - intros sp u Hu HX. destruct (Hold X sp u HX Hu) as [HX' Hu']. by apply (i_ring _ _ _ _ _ Hi sp u).
Qed.

(** The vip_map entry of a VIP whose ring is installed. *)
Lemma inv_publish L X Y s m spec v :
  inv_in L X Y s m → vips_ s !! spec = Some v → spec ∉ X →
  inv_in L X (Y ∖ {[spec]}) s (set_vip_map <[VipSpec.key spec := mk_vip_value (v_id v) (v_flags v)]> m).
Proof.
  intros Hi Hv HX.
  assert (∀ sp, sp ∉ Y ∖ {[spec]} → sp = spec ∨ sp ∉ Y) as HY.
  { intros sp H. rewrite not_elem_of_difference, elem_of_singleton in H. tauto. }
  split; try apply Hi.
  - by destruct (i_mirror _ _ _ _ _ Hi).
  - intros k val. cbn [vip_map set_vip_map]. rewrite lookup_insert. destruct (decide (VipSpec.key spec = k)) as [<- | Hne].
    + split.
      * intros [= <-]. exists spec, v. split_and!; try done. rewrite not_elem_of_difference. right. by apply elem_of_singleton.
      * intros (sp & u & Hu & _ & ->%key_inj & ->). congruence.
    + rewrite (i_map _ _ _ _ _ Hi). split.
      * intros (sp & u & Hu & H & -> & ->). exists sp, u. split_and!; try done. rewrite not_elem_of_difference. by left.
      * intros (sp & u & Hu & [-> | H]%HY & -> & ->); [done |]. exists sp, u. by split_and!.
  - intros sp u Hu [-> | H]%HY; [| by apply (i_names _ _ _ _ _ Hi sp u)].
    destruct (i_ring _ _ _ _ _ Hi spec u Hu HX) as (r & Hr & Hb). exists r. split; [done |].
    apply names_weaken. by eapply ring_names.
Qed.

Lemma inv_unpublish L X Y s m spec :
  inv_in L X Y s m → inv_in L X ({[spec]} ∪ Y) s (set_vip_map (delete (VipSpec.key spec)) m).
Proof.
  intros Hi. assert (∀ sp, (sp ∉ {[spec]} ∪ Y) ↔ sp ≠ spec ∧ (sp ∉ Y)) as HY.
  { intros sp. by rewrite not_elem_of_union, not_elem_of_singleton. }
  split; try apply Hi.
  - by destruct (i_mirror _ _ _ _ _ Hi).
  - intros k val. cbn [vip_map set_vip_map]. rewrite lookup_delete_Some, (i_map _ _ _ _ _ Hi). split.
    + intros (Hne & sp & u & Hu & H & -> & ->). exists sp, u. split_and!; try done. apply HY. split; [congruence | done].
    + intros (sp & u & Hu & [Hne H]%HY & -> & ->). split; [by intros ?%key_inj | exists sp, u; by split_and!].
  - intros sp u Hu [_ H]%HY. by apply (i_names _ _ _ _ _ Hi sp u).
Qed.

(** A VIP that packets cannot match is forgotten with its ring; the references
    of its members are still held. *)
Lemma inv_remove_vip L X Y s m spec v :
  inv_in L X Y s m → vips_ s !! spec = Some v → spec ∈ Y →
  inv_in ((pair spec <$> addr_keys (v_members v)) ++ L) (X ∖ {[spec]}) (Y ∖ {[spec]}) (set_vips (delete spec) s) (set_rings (delete (v_id v)) m).
Proof.
  intros Hi Hv HY. assert (∀ sp u, delete spec (vips_ s) !! sp = Some u →
    vips_ s !! sp = Some u ∧ sp ≠ spec ∧ v_id u ≠ v_id v) as Hold.
  { intros sp u [Hne Hu]%lookup_delete_Some. split_and!; try done.
    intros E. apply Hne. symmetry. by apply (i_inj _ _ _ _ _ Hi sp spec u v). }
  assert (∀ (Y : gset VipSpec.t) sp, sp ≠ spec → (sp ∉ Y ∖ {[spec]}) ↔ (sp ∉ Y)) as HYd.
  { clear. intros Y sp Hne. rewrite not_elem_of_difference, elem_of_singleton. tauto. }
  split; cbn [reals_ vips_ adopted_vip_ids_ hash_ set_vips]; try apply Hi.
  - by destruct (i_mirror _ _ _ _ _ Hi).
  - intros sp u [Hu _]%Hold. by apply (i_spec _ _ _ _ _ Hi).
  - intros sp u [Hu _]%Hold. by apply (i_id _ _ _ _ _ Hi sp).
  - intros sp sp' u u' [Hu _]%Hold [Hu' _]%Hold. by apply (i_inj _ _ _ _ _ Hi).
  - intros a. rewrite (i_refs _ _ _ _ _ Hi a), (count_delete a spec v _ Hv), fmap_app, occ_app.
    rewrite <-list_fmap_compose, (list_fmap_id (addr_keys (v_members v)) : (snd ∘ pair spec <$> _ = _)). unfold ind.
    destruct (decide (is_Some (v_members v !! a))) as [Ha | Ha]; rewrite <-elem_of_addr_keys in Ha.
    + rewrite (occ_NoDup a _ (NoDup_addr_keys _) Ha). lia.
    + rewrite (proj2 (occ_zero a _) Ha). lia.
  - intros sp u a mb (Hu & Hne & _)%Hold HX. apply (proj1 (HYd _ _ Hne)) in HX. by apply (i_in_ring _ _ _ _ _ Hi sp u a mb Hu HX).
  - intros k val. cbn [vip_map set_rings]. rewrite (i_map _ _ _ _ _ Hi). split.
    + intros (sp & u & Hu & H & -> & ->). assert (sp ≠ spec) by congruence. exists sp, u.
      rewrite lookup_delete_ne by congruence. split_and!; try done. by apply HYd.
    + intros (sp & u & (Hu & Hne & _)%Hold & H & -> & ->). exists sp, u. split_and!; try done. by apply HYd.
  - intros sp u (Hu & Hne & Hid)%Hold H. apply (proj1 (HYd _ _ Hne)) in H.
    destruct (i_names _ _ _ _ _ Hi sp u Hu H) as (r & Hr & Hl & Hn). exists r. cbn [rings set_rings].
    rewrite lookup_delete_ne by congruence. split; [done |]. split; [done |]. intros x Hx.
    destruct (Hn x Hx) as [-> | (a & Ha & Hh)]; [by left | right]. exists a. split; [done |]. rewrite elem_of_app. tauto.
  - intros sp u (Hu & Hne & Hid)%Hold H. apply (proj1 (HYd _ _ Hne)) in H. destruct (i_ring _ _ _ _ _ Hi sp u Hu H) as (r & Hr & Hb). exists r.
    cbn [rings set_rings]. by rewrite lookup_delete_ne by congruence.
Qed.

(** Releasing a list of references. *)
Lemma release_all_lb spec l L X Y e w :
  inv_in ((pair spec <$> l) ++ L) X Y (obj w) (km w) → calm w → spec ∉ X →
  ∃ tb w', m_for l (λ a, real_op (release e a)) w = (Ok (), w') ∧
    inv_in L X Y (obj w') (km w') ∧ goes w w' ∧ obj w' = set_reals_ tb (obj w).
Proof.
  intros Hi Hc HX. revert w Hi Hc. induction l as [| a l IH]; intros w Hi Hc.
  { exists (reals_ (obj w)), w. split_and!; try done; [by apply goes_refl | by destruct (obj w)]. }
  cbn [m_for]. destruct (release_lb _ X Y e spec a w Hi Hc HX) as (w1 & H1 & Hi1 & G1 & O1).
  destruct (IH w1 Hi1 (g_calm _ _ G1)) as (tb & w2 & H2 & Hi2 & G2 & O2).
  exists tb, w2. split_and!; try done; [by erewrite bind_run by exact H1 | by eapply goes_trans | by rewrite O2, O1].
Qed.

End LbInv.
