(* ===== verification/Reader.v ===== *)
(** * Reading the kernel maps (src/daemon/map_reader.cpp, ring_map.cpp)

    The per-CPU counters summed over CPUs, the walk over the connection table
    and the read-back of a ring. What the kernel answers to the calls that
    iterate is an argument: a list of answers, one per call. *)

From Stdlib Require Import ZArith Lia Ascii String.
From S2P Require Import Prelude Abi VipSpec Dataplane DataplaneProps Counters Control RealTable Config LbState LbInv.

#[local] Set Warnings "-clear-no-such-hyp".

Module Reader.
Import DataplaneProps.

(** ** Counters *)

(** The value of every CPU, none when the lookup fails. *)
Definition lookup_percpu {S A} (map : Maps → list (list A)) (key : Z) : M S (list A) :=
  err ← bpf_result;
  m ← get_km;
  mret (if err =? 0 then default [] (array_lookup (map m) key) else []).

Definition add_stats (sum cpu : pb_stats) : pb_stats := imap (λ i s, u64 (s + default 0 (cpu !! i))) sum.

Definition counters {S} (index : Z) : M S pb_stats :=
  cpus ← lookup_percpu stats index;
  mret (foldl add_stats pb_stats0 cpus).

Definition add_real_stats (sum cpu : pb_real_stats) : pb_real_stats :=
  mk_real_stats (u64 (rs_packets sum + rs_packets cpu)) (u64 (rs_bytes sum + rs_bytes cpu)).

Definition real_counters {S} (real_id : Z) : M S pb_real_stats :=
  cpus ← lookup_percpu real_stats real_id;
  mret (foldl add_real_stats real_stats0 cpus).

(** ** The connection table

    One answer per step of the walk: the next key, and its values on every CPU
    unless it was evicted before the lookup. The end of the list is the end of
    the table. *)
Record FlowRow := mk_flow_row {
  fr_key : pb_ct_key;
  fr_value : pb_ct_value;
  fr_cpu : nat
}.

Abbreviation answer := (pb_ct_key * option (list pb_ct_value))%type.
Abbreviation filter_fn := (option (pb_ct_key → pb_ct_value → bool)).

Definition skip_row (keep : filter_fn) (key : pb_ct_key) (v : pb_ct_value) : bool :=
  (cv_last_seen_ns v =? 0) || match keep with Some f => negb (f key v) | None => false end.

(** The loop over the CPUs of one key. *)
Fixpoint flow_cpus (keep : filter_fn) (limit : nat) (key : pb_ct_key) (cpu : nat) (values : list pb_ct_value)
    (rows : list FlowRow) : list FlowRow :=
  match values with
  | [] => rows
  | v :: values =>
      if (length rows <? limit)%nat then
        flow_cpus keep limit key (S cpu) values
          (if skip_row keep key v then rows else rows ++ [mk_flow_row key v cpu])
      else rows
  end.

(** The walk; [steps] are the iterations that walked <= ct_max_entries_ allows. *)
Fixpoint flows_loop (keep : filter_fn) (limit steps : nat) (answers : list answer) (rows : list FlowRow) : list FlowRow :=
  match steps with
  | O => rows
  | S steps =>
      if (length rows <? limit)%nat then
        match answers with
        | [] => rows
        | (key, None) :: answers => flows_loop keep limit steps answers rows
        | (key, Some values) :: answers => flows_loop keep limit steps answers (flow_cpus keep limit key 0 values rows)
        end
      else rows
  end.

Definition flows (ct_max_entries : Z) (answers : list answer) (keep : filter_fn) (limit : nat) : list FlowRow :=
  flows_loop keep limit (S (Z.to_nat ct_max_entries)) answers [].

(** while (n <= ct_max_entries_ && bpf_map_get_next_key(...) == 0) ++n; *)
Fixpoint count_keys (steps : nat) (answers : list answer) (n : Z) : Z :=
  match steps, answers with
  | S steps, _ :: answers => count_keys steps answers (n + 1)
  | _, _ => n
  end.

Definition conntrack_entries (ct_max_entries : Z) (answers : list answer) : Z :=
  count_keys (S (Z.to_nat ct_max_entries)) answers 0.

(** ** Rings *)

(** The id of an inner map, and the answers of bpf_map_lookup_batch for its
    contents: the error and the (key, value) pairs of each call. A call past
    the end of the list finds the end of the map. *)
Record RingEnv := mk_ring_env {
  inner_id : Z → Z;
  batches : list Z → list (Z * list (Z * Z))
}.

Fixpoint read_batches (e : CEnv) (answers : list (Z * list (Z * Z))) (got : list (Z * Z)) : result (list (Z * Z)) :=
  let room := (Z.to_nat PB_RING_SIZE - length got)%nat in
  match room, answers with
  | O, _ => Ok got
  | _, [] => Ok got
  | _, (err, kvs) :: answers =>
      let got := got ++ take room kvs in
      if err =? - LbState.ENOENT then Ok got else
      if negb (err =? 0) then Throw (runtime_error (§"read ring map: " ++ errstr e err)) else
      read_batches e answers got
  end.

Definition put_slot (ring : list Z) (kv : Z * Z) : list Z :=
  if kv.1 <? PB_RING_SIZE then <[Z.to_nat kv.1 := kv.2]> ring else ring.

Definition read_ring {S} (e : CEnv) (re : RingEnv) (vip_id : Z) : M S (list Z) :=
  err ← bpf_result;
  m ← get_km;
  match rings m !! vip_id with
  | None => mret []
  | Some inner =>
      if negb (err =? 0) || (inner_id re vip_id =? 0) then mret [] else
      fd_err ← bpf_result;
      if negb (fd_err =? 0) then
        throw (runtime_error (§"open ring map id " ++ VipSpec.to_string (inner_id re vip_id) ++ §": " ++ errstr e fd_err))
      else
      got ← lift (read_batches e (batches re inner) []);
      mret (foldl put_slot (replicate (Z.to_nat PB_RING_SIZE) PB_REAL_NONE) got)
  end.

(** ** Lemmas: counters *)

Lemma length_add_stats s t : length (add_stats s t) = length s.
Proof. apply length_imap. Qed.

Lemma cnt_add_stats c s t :
  length s = PB_CNT_MAX → Counters.cnt c (add_stats s t) = u64 (Counters.cnt c s + Counters.cnt c t).
Proof.
  intros Hl. unfold Counters.cnt, add_stats. rewrite list_lookup_imap.
  destruct (lookup_lt_is_Some_2 s (counter_index c)) as [x ->]; [| done]. rewrite Hl. destruct c; unfold PB_CNT_MAX; cbn; lia.
Qed.

Lemma tally_add_stats wt s t :
  length s = PB_CNT_MAX →
  Counters.tally wt (add_stats s t) = (Counters.tally wt s + Counters.tally wt t) mod 2 ^ 64.
Proof.
  intros Hl. unfold Counters.tally. rewrite <-Zplus_mod. generalize Counters.all_counters as l.
  induction l as [| c l IH]; [done |]. rewrite !fmap_cons, !zsum_cons, (cnt_add_stats c s t Hl).
  set (A := zsum ((λ c, wt c * Counters.cnt c s) <$> l)) in *. set (B := zsum ((λ c, wt c * Counters.cnt c t) <$> l)) in *.
  rewrite Zplus_mod, IH. unfold u64. rewrite Zmult_mod_idemp_r, <-Zplus_mod. f_equal. lia.
Qed.

Lemma sum_balanced sum cpus :
  Counters.balanced_stats sum → Forall Counters.balanced_stats cpus → Counters.balanced_stats (foldl add_stats sum cpus).
Proof.
  intros Hs Hc. revert sum Hs. induction Hc as [| t cpus Ht _ IH]; intros sum Hs; [done |]. apply IH, Counters.balanced_tally.
  apply Counters.balanced_tally in Hs as (L & S1 & S2). apply Counters.balanced_tally in Ht as (_ & T1 & T2).
  by rewrite length_add_stats, !tally_add_stats, S1, S2, T1, T2.
Qed.

Lemma cnt_sum c sum cpus :
  length sum = PB_CNT_MAX →
  u64 (Counters.cnt c (foldl add_stats sum cpus)) = u64 (Counters.cnt c sum + zsum (Counters.cnt c <$> cpus)).
Proof.
  revert sum. induction cpus as [| t cpus IH]; intros sum Hl; [by rewrite Z.add_0_r |]. cbn [foldl].
  rewrite IH, cnt_add_stats, fmap_cons, zsum_cons by (by rewrite ?length_add_stats). unfold u64.
  rewrite Zplus_mod_idemp_l. f_equal. lia.
Qed.

(** ** Lemmas: the walk *)

(** The rows of a key, and of an answer. *)
Definition rows_from (keep : filter_fn) (key : pb_ct_key) (cpu : nat) (values : list pb_ct_value) : list FlowRow :=
  omap id (imap (λ i v, if skip_row keep key v then None else Some (mk_flow_row key v (cpu + i))) values).

Definition rows_at (keep : filter_fn) (a : answer) : list FlowRow :=
  match a.2 with None => [] | Some values => rows_from keep a.1 0 values end.

Lemma rows_from_cons keep key cpu v vs :
  rows_from keep key cpu (v :: vs) =
  (if skip_row keep key v then [] else [mk_flow_row key v cpu]) ++ rows_from keep key (S cpu) vs.
Proof.
  unfold rows_from. rewrite imap_cons. assert (∀ l, imap ((λ i v, if skip_row keep key v then None else Some (mk_flow_row key v (cpu + i))) ∘ S) l =
    imap (λ i v, if skip_row keep key v then None else Some (mk_flow_row key v (S cpu + i))) l) as ->.
  { intros l. apply imap_ext. intros i x _. cbn. by rewrite Nat.add_succ_r. }
  cbn [omap list_omap]. rewrite Nat.add_0_r. by destruct (skip_row keep key v).
Qed.

Lemma take_full {A} n (l k : list A) : length l = n → take n (l ++ k) = l.
Proof. intros <-. apply take_app_length. Qed.

Lemma flow_cpus_spec keep limit key cpu vs rows :
  (length rows <= limit)%nat →
  flow_cpus keep limit key cpu vs rows = take limit (rows ++ rows_from keep key cpu vs).
Proof.
  revert cpu rows. induction vs as [| v vs IH]; intros cpu rows Hl; cbn [flow_cpus].
  - change (rows_from keep key cpu []) with (@nil FlowRow). by rewrite app_nil_r, take_ge.
  - destruct (Nat.ltb_spec (length rows) limit).
    + rewrite IH, rows_from_cons; destruct (skip_row keep key v); try done; rewrite ?length_app, <-?app_assoc; [done | cbn; lia].
    + symmetry. apply take_full. lia.
Qed.

Lemma flows_loop_spec keep limit steps answers rows :
  (length rows <= limit)%nat →
  flows_loop keep limit steps answers rows = take limit (rows ++ (take steps answers ≫= rows_at keep)).
Proof.
  revert answers rows. induction steps as [| steps IH]; intros answers rows Hl; cbn [flows_loop].
  - rewrite take_0. cbn. by rewrite app_nil_r, take_ge.
  - destruct (Nat.ltb_spec (length rows) limit); [| symmetry; apply take_full; lia].
    destruct answers as [| [key [vs |]] answers]; cbn [take mbind list_bind].
    + by rewrite app_nil_r, take_ge.
    + rewrite IH, flow_cpus_spec by (rewrite ?flow_cpus_spec, ?length_take by done; lia). unfold rows_at at 2. cbn [fst snd].
      rewrite app_assoc. set (X := rows ++ _). destruct (Nat.le_ge_cases (length X) limit).
      * by rewrite (take_ge X) by done.
      * rewrite !(take_app_le _ _ limit) by (rewrite ?length_take; lia). by rewrite take_take, Nat.min_id.
    + by apply IH.
Qed.

Lemma elem_of_rows_from keep key cpu vs r :
  r ∈ rows_from keep key cpu vs ↔
  fr_key r = key ∧ (cpu <= fr_cpu r)%nat ∧ vs !! (fr_cpu r - cpu)%nat = Some (fr_value r) ∧ skip_row keep key (fr_value r) = false.
Proof.
  revert cpu. induction vs as [| v vs IH]; intros cpu.
  - split; [intros []%not_elem_of_nil | by intros (_ & _ & [=] & _)].
  - rewrite rows_from_cons, elem_of_app, IH. destruct r as [k v' c]. cbn [fr_key fr_value fr_cpu].
    destruct (decide (c = cpu)) as [-> | Hne].
    + rewrite Nat.sub_diag. destruct (skip_row keep key v) eqn:Es.
      * split; [intros [[]%not_elem_of_nil | (_ & ? & _)]; lia | intros (_ & _ & [= <-] & ?); congruence].
      * rewrite list_elem_of_singleton. split.
        -- intros [[= -> ->] | (_ & ? & _)]; [auto | lia].
        -- intros (-> & _ & [= <-] & _). by left.
    + split.
      * intros [Hin | (-> & Hc & Hl & Hs)].
        -- destruct (skip_row keep key v); [by apply not_elem_of_nil in Hin |]. apply list_elem_of_singleton in Hin. congruence.
        -- split_and!; try done; [lia |]. by replace (c - cpu)%nat with (S (c - S cpu)) by lia.
      * intros (-> & Hc & Hl & Hs). right. split_and!; try done; [lia |].
        by replace (c - cpu)%nat with (S (c - S cpu)) in Hl by lia.
Qed.

Lemma count_keys_spec steps answers n : count_keys steps answers n = n + Z.of_nat (length (take steps answers)).
Proof.
  revert answers n. induction steps as [| steps IH]; intros [| a answers] n; cbn [count_keys take length]; try lia. rewrite IH. lia.
Qed.

(** ** Lemmas: rings *)

(** The batches of an array map: its elements in index order, in calls of any
    size, the last of which reports the end. *)
Definition indexed (ring : list Z) : list (Z * Z) := imap (λ i x, (Z.of_nat i, x)) ring.

Definition serves (answers : list (Z * list (Z * Z))) (ring : list Z) : Prop :=
  ∃ chunks c, answers = (pair 0 <$> chunks) ++ [(- LbState.ENOENT, c)] ∧ mjoin chunks ++ c = indexed ring.

Lemma read_batches_spec e chunks c got :
  (length got + length (mjoin chunks ++ c) <= Z.to_nat PB_RING_SIZE)%nat →
  read_batches e ((pair 0 <$> chunks) ++ [(- LbState.ENOENT, c)]) got = Ok (got ++ mjoin chunks ++ c).
Proof.
  revert got. induction chunks as [| k chunks IH]; intros got Hl; cbn [fmap list_fmap app read_batches] in *;
    try change (mjoin (?k :: ?l)) with (k ++ mjoin l) in *;
    destruct (Z.to_nat PB_RING_SIZE - length got)%nat as [| room] eqn:Er.
  - destruct c as [| x c]; [by rewrite app_nil_r | cbn in Hl; lia].
  - change (- LbState.ENOENT =? - LbState.ENOENT) with true. cbv iota. rewrite take_ge by (cbn in Hl; lia). done.
  - rewrite (nil_length_inv ((k ++ mjoin chunks) ++ c)) by lia. by rewrite app_nil_r.
  - change (0 =? - LbState.ENOENT) with false. change (0 =? 0) with true. cbn [negb]. rewrite !length_app in Hl.
    rewrite (take_ge k) by lia. rewrite IH by (rewrite !length_app; lia). by rewrite <-!app_assoc.
Qed.

Lemma put_all k base l :
  (k + length l <= Z.to_nat PB_RING_SIZE)%nat → length base = Z.to_nat PB_RING_SIZE →
  foldl put_slot base (imap (λ i x, (Z.of_nat (k + i), x)) l) = take k base ++ l ++ drop (k + length l) base.
Proof.
  revert k base. induction l as [| x l IH]; intros k base Hk Hb; cbn [length] in *.
  - cbn. rewrite Nat.add_0_r. by rewrite take_drop.
  - rewrite imap_cons. cbn [foldl]. rewrite Nat.add_0_r.
    replace (imap ((λ i x, (Z.of_nat (k + i), x)) ∘ S) l) with (imap (λ i x, (Z.of_nat (S k + i), x)) l)
      by (apply imap_ext; intros i y _; cbn; by rewrite Nat.add_succ_r).
    assert (put_slot base (Z.of_nat k, x) = <[k := x]> base) as ->.
    { unfold put_slot. cbn [fst snd]. rewrite Nat2Z.id. rewrite (proj2 (Z.ltb_lt _ _)) by lia. done. }
    rewrite IH by (rewrite ?length_insert; lia).
    rewrite (take_S_r _ _ x) by (apply list_lookup_insert_eq; lia). rewrite take_insert_ge by lia.
    rewrite drop_insert_lt by lia. rewrite <-app_assoc. replace (k + S (length l))%nat with (S k + length l)%nat by lia. done.
Qed.

Lemma put_indexed ring : length ring = Z.to_nat PB_RING_SIZE →
  foldl put_slot (replicate (Z.to_nat PB_RING_SIZE) PB_REAL_NONE) (indexed ring) = ring.
Proof.
  intros Hl. rewrite (put_all 0) by (rewrite ?length_replicate; lia). rewrite take_0, drop_ge, app_nil_r by (rewrite length_replicate; lia). done.
Qed.

Lemma read_ring_run {S} e re vip_id ring (w : World S) :
  calm w → rings (km w) !! vip_id = Some ring → length ring = Z.to_nat PB_RING_SIZE →
  inner_id re vip_id ≠ 0 → serves (batches re ring) ring →
  ∃ w', read_ring e re vip_id w = (Ok ring, w') ∧ obj w' = obj w ∧ km w' = km w ∧ hist w' = hist w ∧ calm w'.
Proof.
  intros Hc Hr Hl Hid (chunks & c & Ea & Ec). unfold read_ring.
  destruct (bpf_result_run w) as (err & w1 & H1 & O1 & K1 & I1 & C1). destruct (C1 Hc) as [-> Hc1].
  erewrite bind_run by exact H1. rewrite bind_get_km, K1, Hr. rewrite (proj2 (Z.eqb_neq _ _) Hid).
  change (negb (0 =? 0) || false) with false. cbv iota.
  destruct (bpf_result_run w1) as (err & w2 & H2 & O2 & K2 & I2 & C2). destruct (C2 Hc1) as [-> Hc2].
  erewrite bind_run by exact H2. change (negb (0 =? 0)) with false. cbv iota. exists w2.
  rewrite Ea, read_batches_spec, Ec by (rewrite Ec; unfold indexed; rewrite length_imap; cbn; lia).
  cbn [app lift]. unfold mbind, M_bind, lift. cbv beta iota. rewrite put_indexed by done.
  split_and!; try done; congruence.
Qed.

(** ** Theorems *)


(** C33: the walk over the connection table, for every behaviour of the kernel
    (entries evicted between the two calls, a walk that restarts and repeats
    entries): it ends after at most max_entries + 1 steps and returns the first
    limit rows of the answers it walked, one row for each CPU whose copy is in
    use and passes the filter; the entry count is the number of steps. *)
Theorem flows_walk (ct_max_entries : Z) (answers : list answer) (keep : filter_fn) (limit : nat) :
  let walked := take (S (Z.to_nat ct_max_entries)) answers in
  flows ct_max_entries answers keep limit = take limit (walked ≫= rows_at keep) ∧
  conntrack_entries ct_max_entries answers = Z.of_nat (length walked).
Proof. split; [apply (flows_loop_spec keep limit _ answers []), Nat.le_0_l | apply count_keys_spec]. Qed.

(** On a table that does not change during the walk, in whatever order the
    kernel lists it, the entry count is the size of the table, and a report
    shorter than the limit is complete: it has exactly the copies that are in
    use and pass the filter. *)
Theorem flows_complete (m : Maps) (ct_max_entries : Z) (answers : list answer) (keep : filter_fn) (limit : nat) :
  answers ≡ₚ (λ kv, (kv.1, Some kv.2)) <$> map_to_list (conntrack m) →
  Z.of_nat (size (conntrack m)) <= ct_max_entries →
  let rows := flows ct_max_entries answers keep limit in
  conntrack_entries ct_max_entries answers = Z.of_nat (size (conntrack m)) ∧
  ((length rows < limit)%nat → ∀ r, r ∈ rows ↔
     ∃ vs, conntrack m !! fr_key r = Some vs ∧ vs !! fr_cpu r = Some (fr_value r) ∧ skip_row keep (fr_key r) (fr_value r) = false).
Proof.
  intros Hp Hs rows. assert (length answers = size (conntrack m)) as Hl by (rewrite Hp, length_fmap; apply length_map_to_list).
  assert (take (S (Z.to_nat ct_max_entries)) answers = answers) as Ht by (apply take_ge; lia).
  split; [unfold conntrack_entries; rewrite count_keys_spec, Ht; lia |]. intros Hlt r. subst rows.
  unfold flows in *. rewrite flows_loop_spec in * by (cbn; lia). rewrite Ht in *. cbn [app] in *.
  rewrite take_ge by (rewrite length_take in Hlt; lia). rewrite list_elem_of_bind. split.
  - intros ([k ov] & Hr & Ha). rewrite Hp in Ha. apply list_elem_of_fmap in Ha as ([k' vs] & [= -> ->] & Hk).
    apply elem_of_map_to_list in Hk. unfold rows_at in Hr. cbn [fst snd] in Hr, Hk.
    apply elem_of_rows_from in Hr as (<- & _ & Hv & Hkeep).
    rewrite Nat.sub_0_r in Hv. exists vs. split_and!; done.
  - intros (vs & Hk & Hv & Hkeep). exists (fr_key r, Some vs). split.
    + unfold rows_at. apply elem_of_rows_from. rewrite Nat.sub_0_r. split_and!; try done. lia.
    + rewrite Hp. apply list_elem_of_fmap. exists (fr_key r, vs). split; [done |]. by apply elem_of_map_to_list.
Qed.

(** A ring that was installed is read back exactly, slot for slot, however
    many batches the kernel hands it out in. *)
Theorem ring_read_back {S} (e : CEnv) (re : RingEnv) (vip_id : Z) (ring : list Z) (w : World S) :
  Z.of_nat (length ring) = PB_RING_SIZE → calm w → inner_id re vip_id ≠ 0 → serves (batches re ring) ring →
  ∃ w1 w2, LbState.install_ring e vip_id ring w = (Ok (), w1) ∧ read_ring e re vip_id w1 = (Ok ring, w2) ∧ km w2 = km w1.
Proof.
  intros Hl Hc Hid Hs. assert (length ring = Z.to_nat PB_RING_SIZE) as Hn by (rewrite <-Hl; symmetry; apply Nat2Z.id).
  destruct (LbInv.install_ring_run e vip_id ring w Hn Hc) as (w1 & H1 & O1 & K1 & _ & C1).
  destruct (read_ring_run e re vip_id ring w1 C1) as (w2 & H2 & O2 & K2 & _); try done.
  { rewrite K1. apply lookup_insert_eq. }
  by exists w1, w2.
Qed.

(** ** Witnesses *)

(** The maps of the demonstration, after its UDP packet. *)
Definition demo_world : World unit := mk_world () (Dataplane.maps DataplaneProps.demo_next) [] [].

Lemma demo_reached : rtc Counters.map_step (fresh_maps 2) (km demo_world).
Proof.
  eapply rtc_l; [apply (Counters.step_control (fresh_maps 2) DataplaneProps.demo_maps); reflexivity |]. apply rtc_once.
  eapply (Counters.step_frame DataplaneProps.demo_env DataplaneProps.demo_udp _ Dataplane.XDP_TX DataplaneProps.demo_next);
    [decide_closed | reflexivity | exact DataplaneProps.demo_sent].
Qed.

Lemma demo_copies : array_lookup (stats (km demo_world)) 3 = Some [pb_stats0; [1; 28; 0; 1; 1; 0; 1; 0; 0; 0; 0; 0; 0; 0; 0; 0]].
Proof. vm_compute. reflexivity. Qed.


(** A flow two of three CPUs have seen. *)
Definition seen_flow : Maps :=
  set_conntrack (λ _, {[ mk_ct_key 9 100 1000 80 6 := [mk_ct_value 1 0 5; ct_value0; mk_ct_value 2 0 7] ]}) (fresh_maps 3).

Lemma flows_complete_witness :
  flows 10 [(mk_ct_key 9 100 1000 80 6, Some [mk_ct_value 1 0 5; ct_value0; mk_ct_value 2 0 7])] None 5 =
    [mk_flow_row (mk_ct_key 9 100 1000 80 6) (mk_ct_value 1 0 5) 0; mk_flow_row (mk_ct_key 9 100 1000 80 6) (mk_ct_value 2 0 7) 2] ∧
  mk_flow_row (mk_ct_key 9 100 1000 80 6) (mk_ct_value 2 0 7) 2 ∈
    flows 10 [(mk_ct_key 9 100 1000 80 6, Some [mk_ct_value 1 0 5; ct_value0; mk_ct_value 2 0 7])] None 5.
Proof.
  split; [reflexivity |].
  apply (flows_complete seen_flow 10
    [(mk_ct_key 9 100 1000 80 6, Some [mk_ct_value 1 0 5; ct_value0; mk_ct_value 2 0 7])] None 5).
  - cbn [conntrack seen_flow set_conntrack]. rewrite map_to_list_singleton. reflexivity.
  - cbn [conntrack seen_flow set_conntrack]. rewrite map_size_singleton. done.
  - vm_compute. lia.
  - exists [mk_ct_value 1 0 5; ct_value0; mk_ct_value 2 0 7]. split; [apply lookup_singleton_eq |]. split; reflexivity.
Defined.

Lemma ring_read_back_witness :
  let re := mk_ring_env (λ _, 1) (λ r, (pair 0 <$> [take 1000 (indexed r); drop 1000 (indexed r)]) ++ [(- LbState.ENOENT, [])]) in
  let ring := replicate (Z.to_nat PB_RING_SIZE) 7 in
  ∃ w1 w2, LbState.install_ring (mk_cenv (λ _, []) 0 None [] 1) 3 ring (mk_world () (fresh_maps 1) [] []) = (Ok (), w1) ∧
    read_ring (mk_cenv (λ _, []) 0 None [] 1) re 3 w1 = (Ok ring, w2).
Proof.
  intros re ring. destruct (ring_read_back (mk_cenv (λ _, []) 0 None [] 1) re 3 ring (mk_world () (fresh_maps 1) [] []))
    as (w1 & w2 & H1 & H2 & _).
  - unfold ring. rewrite length_replicate. reflexivity.
  - apply Forall_nil_2.
  - discriminate.
  - exists [take 1000 (indexed ring); drop 1000 (indexed ring)], []. split; [reflexivity |].
    change (mjoin ?l ++ []) with (mjoin l ++ @nil (Z * Z)). rewrite app_nil_r.
    change (mjoin [?a; ?b]) with (a ++ b ++ []). rewrite app_nil_r. apply take_drop.
  - exists w1, w2. split; [exact H1 | exact H2].
Defined.

End Reader.
