(* ===== verification/LbProps.v ===== *)
(** * Properties of the control plane

    Every method of [LbState] that the API, the health checker and the
    neighbour resolver call, run from a state in the invariant with no bpf call
    failing: what it returns, the state it leaves, and the map states packets
    meet meanwhile. *)

From Stdlib Require Import ZArith Lia.
From S2P Require Import Prelude Abi VipSpec Maglev Control RealTable Config LbState LbInv.

#[local] Set Warnings "-clear-no-such-hyp".

Module LbProps.
Import RealTable LbState LbInv.

(** ** Counting ids *)

Lemma NoDup_seqZ_length (l : list Z) lo n :
  NoDup l → (∀ x, x ∈ l → lo <= x < lo + n) → 0 <= n →
  Z.of_nat (length l) <= n ∧ (Z.of_nat (length l) = n ↔ ∀ x, lo <= x < lo + n → x ∈ l).
Proof.
  intros Hnd Hin Hn.
  assert (l ⊆+ seqZ lo n) as Hsub.
  { apply NoDup_submseteq; [done |]. intros x Hx. apply elem_of_seqZ. specialize (Hin x Hx). lia. }
  pose proof (submseteq_length _ _ Hsub) as Hle. rewrite length_seqZ in Hle. split; [lia |]. split.
  - intros E x Hx. rewrite (submseteq_length_Permutation _ _ Hsub) by (rewrite length_seqZ; lia).
    apply elem_of_seqZ. lia.
  - intros Hall. assert (seqZ lo n ⊆+ l) as Hsup.
    { apply NoDup_submseteq; [apply NoDup_seqZ |]. intros x Hx%elem_of_seqZ. apply Hall. lia. }
    apply submseteq_length in Hsup. rewrite length_seqZ in Hsup. lia.
Qed.

(** The values of a map that no two keys share. *)
Lemma map_values {K A} `{Countable K} (f : A → Z) (m : gmap K A) :
  (∀ k k' x x', m !! k = Some x → m !! k' = Some x' → f x = f x' → k = k') →
  let l := f ∘ snd <$> map_to_list m in
  NoDup l ∧ length l = size m ∧ ∀ z, z ∈ l ↔ ∃ k x, m !! k = Some x ∧ z = f x.
Proof.
  intros Hinj. cbn. split_and!.
  - apply NoDup_fmap_2_strong; [| apply NoDup_map_to_list].
    intros [k x] [k' x'] H1%elem_of_map_to_list H2%elem_of_map_to_list E. cbn in E.
    assert (k = k') as -> by (by eapply Hinj). congruence.
  - rewrite length_fmap. apply length_map_to_list.
  - intros z. rewrite list_elem_of_fmap. split.
    + intros ([k x] & -> & Hx%elem_of_map_to_list). eauto.
    + intros (k & x & Hx & ->). exists (k, x). split; [done |]. by apply elem_of_map_to_list.
Qed.

(** A table is full when every id is in use. *)
Lemma table_full tb :
  RealTable.inv tb →
  Z.of_nat (size (by_addr tb)) <= PB_MAX_REALS - 1 ∧
  (Z.of_nat (size (by_addr tb)) = PB_MAX_REALS - 1 ↔ next_free tb = None).
Proof.
  intros Ht. destruct (map_values (λ id, id) (by_addr tb)) as (Hnd & Hl & Hin).
  { intros k k' x x' H1 H2 ->. destruct (RealTable.inv_id _ _ _ Ht H1) as (_ & _ & E1).
    destruct (RealTable.inv_id _ _ _ Ht H2) as (_ & _ & E2). congruence. }
  destruct (NoDup_seqZ_length _ 1 (PB_MAX_REALS - 1) Hnd) as [H1 H2].
  { intros z (k & x & Hx & ->)%Hin. destruct (RealTable.inv_id _ _ _ Ht Hx) as (E & _). lia. }
  { done. }
  rewrite Hl in *. split; [lia |]. rewrite H2, (next_free_None _ Ht). split.
  - intros H id Hid Ez. destruct (Hin id) as [(k & x & Hx & <-) _]; [apply H; lia |].
    destruct (RealTable.inv_id _ _ _ Ht Hx) as (_ & E1 & E2). congruence.
  - intros H id Hid. apply Hin. exists (s_addr (slot tb id)), id. split; [| done].
    apply (inv_ids _ Ht). split_and!; try lia. apply H. lia.
Qed.

Section bounds.
Context (L : held) (X Y : gset VipSpec.t) (s : LbState.t) (m : Maps) (Hi : inv_in L X Y s m).

Lemma vips_ids :
  Z.of_nat (size (vips_ s)) <= PB_MAX_VIPS ∧
  (Z.of_nat (size (vips_ s)) = PB_MAX_VIPS ↔ ∀ id, 0 <= id < PB_MAX_VIPS → id ∈ used_vip_ids s).
Proof.
  destruct (map_values v_id (vips_ s)) as (Hnd & Hl & Hin).
  { intros k k' x x'. apply (i_inj _ _ _ _ _ Hi). }
  destruct (NoDup_seqZ_length _ 0 PB_MAX_VIPS Hnd) as [H1 H2].
  { intros z (k & x & Hx & ->)%Hin. apply (i_id _ _ _ _ _ Hi) in Hx. lia. }
  { done. }
  rewrite Hl in *. split; [lia |]. rewrite H2. unfold used_vip_ids.
  rewrite (i_adopted _ _ _ _ _ Hi), map_to_list_empty, fmap_nil, app_nil_r.
  by setoid_rewrite elem_of_list_to_set.
Qed.

Lemma refs_bound a : (occ a L.*2 <= 512)%nat → refs_of (reals_ s) a + 1 < 2 ^ 32.
Proof.
  intros HL. rewrite (i_refs _ _ _ _ _ Hi a). pose proof (count_size a (vips_ s)) as Hc.
  pose proof (proj1 vips_ids) as Hm. unfold PB_MAX_VIPS in Hm. lia.
Qed.

Lemma reals_ids :
  Z.of_nat (size (by_addr (reals_ s))) <= PB_MAX_REALS - 1 ∧
  (Z.of_nat (size (by_addr (reals_ s))) = PB_MAX_REALS - 1 ↔ next_free (reals_ s) = None).
Proof. apply table_full, (i_tb _ _ _ _ _ Hi). Qed.

Lemma allocate_spec :
  match allocate_vip_id s with
  | Ok id => 0 <= id < PB_MAX_VIPS ∧ (∀ sp v, vips_ s !! sp = Some v → v_id v ≠ id) ∧
             Z.of_nat (size (vips_ s)) < PB_MAX_VIPS
  | Throw e => e = too_many_vips ∧ Z.of_nat (size (vips_ s)) = PB_MAX_VIPS
  end.
Proof.
  destruct vips_ids as [Hle Hfull]. unfold allocate_vip_id.
  destruct (filter _ (seqZ 0 PB_MAX_VIPS)) as [| id l] eqn:Ef; cbn [head].
  - split; [done |]. apply Hfull. intros id Hid. destruct (decide (id ∈ used_vip_ids s)) as [Hu | Hu]; [done |].
    assert (id ∈ filter (λ id, id ∉ used_vip_ids s) (seqZ 0 PB_MAX_VIPS)) as H
      by (apply list_elem_of_filter; split; [done | apply elem_of_seqZ; lia]).
    rewrite Ef in H. by apply not_elem_of_nil in H.
  - assert (id ∈ filter (λ id, id ∉ used_vip_ids s) (seqZ 0 PB_MAX_VIPS)) as [Hu Hs%elem_of_seqZ]%list_elem_of_filter
      by (rewrite Ef; apply list_elem_of_here).
    split_and!; try lia.
    + intros sp v Hv E. apply Hu. unfold used_vip_ids. apply elem_of_list_to_set, elem_of_app. left.
      apply list_elem_of_fmap. exists (sp, v). split; [done |]. by apply elem_of_map_to_list.
    + assert (Z.of_nat (size (vips_ s)) ≠ PB_MAX_VIPS); [| lia]. rewrite Hfull. intros H. apply Hu, H. lia.
Qed.

End bounds.

(** ** Runs of the methods *)

(** Fields no API call touches. *)
Definition same_settings (s s' : LbState.t) : Prop :=
  interface_ s' = interface_ s ∧ hash_ s' = hash_ s ∧ next_hop_ s' = next_hop_ s ∧
  health_enabled_ s' = health_enabled_ s ∧ initialized_ s' = initialized_ s.

#[global] Instance same_settings_po : PreOrder same_settings.
Proof.
  split; [done |]. intros s1 s2 s3 (? & ? & ? & ? & ?) (? & ? & ? & ? & ?). unfold same_settings. split_and!; congruence.
Qed.

(** The MAC of a real after the kernel was asked for one it lacks. *)
Definition asked (e : CEnv) (s : LbState.t) (a : Z) : option pb_mac :=
  match mac_of (reals_ s) a with
  | Some mac => Some mac
  | None => lookup ← mac_lookup e; lookup (default a (next_hop_ s))
  end.

Lemma mac_of_set_mac a mac tb b :
  RealTable.inv tb →
  mac_of (tb_set_mac a mac tb) b = if decide (a = b ∧ is_Some (by_addr tb !! a)) then Some mac else mac_of tb b.
Proof.
  intros Ht. unfold tb_set_mac. destruct (by_addr tb !! a) as [id |] eqn:Ea.
  - destruct (slot_views a id (mk_slot (s_addr (slot tb id)) (s_refs (slot tb id)) (Some mac)) tb b Ht Ea) as [_ ->].
    destruct (decide (a = b)); [rewrite decide_True by eauto | rewrite decide_False by tauto]; done.
  - rewrite decide_False; [done |]. by intros [_ []].
Qed.

Lemma ask_mac_lb L X Y e a w :
  inv_in L X Y (obj w) (km w) → calm w → is_Some (by_addr (reals_ (obj w)) !! a) →
  ∃ w', ask_mac e a w = (Ok (), w') ∧ inv_in L X Y (obj w') (km w') ∧ goes w w' ∧
    (∃ tb, obj w' = set_reals_ tb (obj w)) ∧ by_addr (reals_ (obj w')) = by_addr (reals_ (obj w)) ∧
    (∀ b, mac_of (reals_ (obj w')) b = if decide (a = b) then asked e (obj w) a else mac_of (reals_ (obj w)) b).
Proof.
  intros Hi Hc Ha. assert (goes w w) as Hg by (by apply goes_refl).
  assert (asked e (obj w) a = mac_of (reals_ (obj w)) a →
    ∃ w', (Ok () : result unit, w) = (Ok (), w') ∧ inv_in L X Y (obj w') (km w') ∧ goes w w' ∧
    (∃ tb, obj w' = set_reals_ tb (obj w)) ∧ by_addr (reals_ (obj w')) = by_addr (reals_ (obj w)) ∧
    (∀ b, mac_of (reals_ (obj w')) b = if decide (a = b) then asked e (obj w) a else mac_of (reals_ (obj w)) b)) as Hskip.
  { intros E. exists w. split_and!; try done; [exists (reals_ (obj w)); by destruct (obj w) |].
    intros b. destruct (decide (a = b)) as [<- | ]; done. }
  unfold ask_mac, asked in *. rewrite bind_get. destruct (mac_of (reals_ (obj w)) a); [by apply Hskip |].
  destruct (mac_lookup e) as [lookup |]; [| by apply Hskip]. cbn [mbind option_bind] in *.
  destruct (lookup (default a (next_hop_ (obj w)))) as [mac |]; [| by apply Hskip]. clear Hskip.
  destruct (set_mac_lb L X Y e a mac w Hi Hc) as (b & w' & H & Hi' & G & O & _).
  exists w'. split_and!; try done; [by erewrite bind_run by exact H | eauto | |].
  - rewrite O. cbn. unfold tb_set_mac. by destruct (by_addr (reals_ (obj w)) !! a).
  - intros c. rewrite O. cbn [reals_ set_reals_]. rewrite (mac_of_set_mac _ _ _ _ (i_tb _ _ _ _ _ Hi)).
    destruct (decide (a = c)); [rewrite decide_True by done | rewrite decide_False by tauto]; done.
Qed.

Lemma emplace_None {K A} `{Countable K} (k : K) (x : A) (m : gmap K A) : m !! k = None → emplace k x m = <[k := x]> m.
Proof. intros H'. unfold emplace. by rewrite H'. Qed.

Lemma add_member_lb L X Y e spec v a weight w :
  inv_in L X Y (obj w) (km w) → calm w → a ≠ 0 → vips_ (obj w) !! spec = Some v → v_members v !! a = None →
  (occ a L.*2 <= 512)%nat →
  (by_addr (reals_ (obj w)) !! a = None ∧ next_free (reals_ (obj w)) = None ∧
   add_member_locked e spec a weight w = (Throw too_many_reals, w)) ∨
  (∃ w', (by_addr (reals_ (obj w)) !! a ≠ None ∨ next_free (reals_ (obj w)) ≠ None) ∧
     add_member_locked e spec a weight w = (Ok (), w') ∧ inv_in L ({[spec]} ∪ X) Y (obj w') (km w') ∧ goes w w' ∧
     vips_ (obj w') = <[spec := set_members <[a := new_member e weight (next_incarnation_ (obj w))]> v]> (vips_ (obj w)) ∧
     same_settings (obj w) (obj w') ∧
     (∀ b, mac_of (reals_ (obj w')) b = if decide (a = b) then asked e (obj w) a else mac_of (reals_ (obj w)) b)).
Proof.
  intros Hi Hc Ha Hv Hm HL. unfold add_member_locked.
  destruct (acquire_lb L X Y e spec a w Hi Hc Ha (refs_bound _ _ _ _ _ Hi a HL))
    as [(E1 & E2 & H) | (id & w1 & E & H & Hi1 & G1 & (tb1 & O1) & B1 & M1)].
  { left. split_and!; try done. by erewrite bind_throw by exact H. }
  right. erewrite bind_run by exact H.
  destruct (ask_mac_lb ((spec, a) :: L) X Y e a w1 Hi1 (g_calm _ _ G1)) as (w2 & H2 & Hi2 & G2 & (tb2 & O2) & _ & M2); [by eauto |].
  erewrite bind_run by exact H2. rewrite bind_get, bind_modify. unfold upd_vip, modify.
  eexists. split; [exact E |]. split; [reflexivity |]. cbn [obj km].
  assert (vips_ (obj w2) = vips_ (obj w)) as Ev by (by rewrite O2, O1).
  assert (next_incarnation_ (obj w2) = next_incarnation_ (obj w)) as En by (by rewrite O2, O1).
  set (mb := new_member e weight (next_incarnation_ (obj w2))).
  assert (alter (set_members (emplace a mb)) spec (vips_ (obj w2)) = <[spec := set_members <[a := mb]> v]> (vips_ (obj w))) as Ea.
  { rewrite Ev, (alter_Some _ _ _ v Hv). unfold set_members. by rewrite emplace_None. }
  split_and!.
  - assert (inv_in L ({[spec]} ∪ X) Y (set_vips <[spec := set_members <[a := mb]> v]> (obj w2)) (km w2)) as Hi3
      by (eapply inv_add_member; eauto; by rewrite Ev).
    destruct Hi3. split; cbn [reals_ vips_ adopted_vip_ids_ hash_ set_vips set_next_incarnation] in *; rewrite ?Ea, ?Ev in *; assumption.
  - eapply goes_trans; [exact G1 |]. exact (goes_obj _ _ _ G2).
  - cbn. rewrite Ea. unfold mb. by rewrite En.
  - cbn. by rewrite O2, O1.
  - intros b. cbn [reals_ set_vips set_next_incarnation]. rewrite M2.
    assert (asked e (obj w1) a = asked e (obj w) a) as -> by (unfold asked; rewrite M1; by rewrite O1).
    destruct (decide (a = b)); [done | apply M1].
Qed.

(** ** The abstract state and the operations on it *)

Record AMember := mk_amember {
  am_weight : Z;
  am_draining : bool;
  am_up : bool
}.

(** VIPs: flags and members. *)
Abbreviation Abs := (gmap VipSpec.t (Z * gmap Z AMember)).

Definition absm (m : Member) : AMember := mk_amember (m_weight m) (m_draining m) (m_up m).
Definition absv (v : Vip) : Z * gmap Z AMember := (v_flags v, absm <$> v_members v).
Definition abs (s : LbState.t) : Abs := absv <$> vips_ s.

(** The distinct reals in use. *)
Definition all_reals (x : Abs) : gset Z := list_to_set (map_to_list x ≫= λ kv, (map_to_list (snd (snd kv))).*1).

Inductive api_call : Type :=
| AddVip (vip : VipSpec.t) (no_conntrack : bool)
| DelVip (vip : VipSpec.t)
| AddReal (vip : VipSpec.t) (a weight : Z)
| DelReal (vip : VipSpec.t) (a : Z)
| SetWeight (vip : VipSpec.t) (a weight : Z)
| SetDraining (vip : VipSpec.t) (a : Z) (draining : bool).

Definition run_api (e : CEnv) (c : api_call) : M LbState.t unit :=
  match c with
  | AddVip vip nc => _ ← add_vip e vip nc; mret ()
  | DelVip vip => del_vip e vip
  | AddReal vip a weight => _ ← add_real e vip a weight; mret ()
  | DelReal vip a => del_real e vip a
  | SetWeight vip a weight => set_weight e vip a weight
  | SetDraining vip a d => set_draining e vip a d
  end.

(** What the API promises. *)
Definition spec_member (x : Abs) (vip : VipSpec.t) (a : Z) (f : AMember → AMember) : result Abs :=
  match x !! vip with
  | None => Throw (unknown_vip vip)
  | Some (flags, ms) =>
      match ms !! a with
      | None => Throw (unknown_real vip a)
      | Some mb => Ok (<[vip := (flags, <[a := f mb]> ms)]> x)
      end
  end.

Definition spec_api (c : api_call) (x : Abs) : result Abs :=
  match c with
  | AddVip vip nc =>
      if bool_decide (is_Some (x !! vip)) then Throw (api_error §"vip already exists") else
      if Z.of_nat (size x) =? PB_MAX_VIPS then Throw too_many_vips else
      Ok (<[vip := (if nc then PB_VIP_F_NO_CONNTRACK else 0, ∅)]> x)
  | DelVip vip => if bool_decide (is_Some (x !! vip)) then Ok (delete vip x) else Throw (unknown_vip vip)
  | AddReal vip a weight =>
      match x !! vip with
      | None => Throw (unknown_vip vip)
      | Some (flags, ms) =>
          if a =? 0 then Throw (api_error §"bad real address 0.0.0.0") else
          if bool_decide (is_Some (ms !! a)) then Throw (api_error §"real already exists") else
          if Config.kMaxRealWeight <? weight then Throw bad_weight else
          if bool_decide (a ∉ all_reals x) && (Z.of_nat (size (all_reals x)) =? PB_MAX_REALS - 1)
          then Throw too_many_reals
          else Ok (<[vip := (flags, <[a := mk_amember weight false true]> ms)]> x)
      end
  | DelReal vip a =>
      match x !! vip with
      | None => Throw (unknown_vip vip)
      | Some (flags, ms) =>
          if bool_decide (is_Some (ms !! a)) then Ok (<[vip := (flags, delete a ms)]> x) else Throw (unknown_real vip a)
      end
  | SetWeight vip a weight =>
      if Config.kMaxRealWeight <? weight then Throw bad_weight
      else spec_member x vip a (λ mb, mk_amember weight (am_draining mb) (am_up mb))
  | SetDraining vip a d => spec_member x vip a (λ mb, mk_amember (am_weight mb) d (am_up mb))
  end.

(** ** Lemmas: the abstraction *)

Lemma lookup_abs s vip : abs s !! vip = absv <$> vips_ s !! vip.
Proof. apply lookup_fmap. Qed.

Lemma absv_rebuilt tb v : absv (rebuilt tb v) = absv v.
Proof.
  unfold absv. cbn [v_flags rebuilt bump_generation set_members]. f_equal. apply map_eq. intros a.
  rewrite !lookup_fmap. rewrite rebuilt_members. by destruct (v_members v !! a).
Qed.

Lemma abs_insert s f vip v : f = <[vip := v]> (vips_ s) → absv <$> f = <[vip := absv v]> (abs s).
Proof. intros ->. unfold abs. by rewrite fmap_insert. Qed.

Lemma abs_same s vip v : vips_ s !! vip = Some v → <[vip := absv v]> (abs s) = abs s.
Proof. intros H. apply insert_id. by rewrite lookup_abs, H. Qed.

Lemma elem_of_all_reals x a : a ∈ all_reals x ↔ ∃ spec flags ms, x !! spec = Some (flags, ms) ∧ is_Some (ms !! a).
Proof.
  unfold all_reals. rewrite elem_of_list_to_set, list_elem_of_bind. split.
  - intros ([spec [flags ms]] & Ha & Hx%elem_of_map_to_list). exists spec, flags, ms. split; [done |]. cbn in Ha.
    apply list_elem_of_fmap in Ha as ([a' mb] & -> & Hmb%elem_of_map_to_list). by exists mb.
  - intros (spec & flags & ms & Hx & mb & Hmb). exists (spec, (flags, ms)). split; [| by apply elem_of_map_to_list].
    cbn. apply list_elem_of_fmap. exists (a, mb). split; [done |]. by apply elem_of_map_to_list.
Qed.

(** In the invariant, the reals with an id are the reals in use and those held. *)
Lemma dom_reals_in L X Y s m a : inv_in L X Y s m → a ∈ dom (by_addr (reals_ s)) ↔ a ∈ all_reals (abs s) ∨ a ∈ L.*2.
Proof.
  intros Hi. rewrite elem_of_dom, elem_of_all_reals. split.
  - intros [id Hid]. pose proof (i_live _ _ _ _ _ Hi a id Hid) as Hl. pose proof (i_refs _ _ _ _ _ Hi a) as Hr.
    unfold refs_of in Hr. rewrite Hid in Hr. destruct (decide (a ∈ L.*2)) as [HL | HL%occ_zero]; [by right | left].
    assert (filter (uses a) (vips_ s) ≠ ∅) as Hne.
    { intros E. unfold count in Hr. rewrite E, map_size_empty in Hr. lia. }
    apply map_choose in Hne as (spec & v & [Hv Hu]%map_lookup_filter_Some).
    exists spec, (v_flags v), (absm <$> v_members v). rewrite lookup_abs, Hv, lookup_fmap, fmap_is_Some. done.
  - intros [(spec & flags & ms & Hx & Ha) | HL]; [| by eapply held_id].
    rewrite lookup_abs in Hx. destruct (vips_ s !! spec) as [v |] eqn:Hv; [| done]. injection Hx as <- <-.
    rewrite lookup_fmap, fmap_is_Some in Ha. by eapply member_id.
Qed.

Lemma dom_reals X Y s m : inv_in [] X Y s m → dom (by_addr (reals_ s)) = all_reals (abs s).
Proof.
  intros Hi. apply set_eq. intros a. rewrite (dom_reals_in _ _ _ _ _ a Hi). split; [| by left].
  intros [? | ?%not_elem_of_nil]; done.
Qed.

(** ** The API calls refine it *)

Definition api_done (c : api_call) (w : World LbState.t) (r : result unit) (w' : World LbState.t) : Prop :=
  match spec_api c (abs (obj w)) with
  | Ok x => r = Ok () ∧ abs (obj w') = x ∧ inv (obj w') (km w') ∧ goes w w' ∧ same_settings (obj w) (obj w')
  | Throw ex => r = Throw ex ∧ w' = w
  end.

Lemma single_done (x : VipSpec.t) : ({[x]} ∪ ∅ : gset VipSpec.t) ∖ {[x]} = ∅.
Proof. set_solver. Qed.

(** A member changes and the ring is rebuilt. *)
Lemma upd_rebuild e spec v a mb f w :
  inv (obj w) (km w) → calm w → vips_ (obj w) !! spec = Some v → v_members v !! a = Some mb →
  ∃ w', (_ ← upd_member spec a f; rebuild_locked e spec) w = (Ok (), w') ∧ inv (obj w') (km w') ∧ goes w w' ∧
    obj w' = set_vips <[spec := rebuilt (reals_ (obj w)) (set_members <[a := f mb]> v)]> (obj w).
Proof.
  intros Hi Hc Hv Hm. unfold upd_member, upd_vip. rewrite bind_modify.
  set (v1 := set_members <[a := f mb]> v).
  assert (set_vips (alter (set_members (alter f a)) spec) (obj w) = set_vips <[spec := v1]> (obj w)) as ->.
  { unfold set_vips. rewrite (alter_Some _ _ _ v Hv). unfold v1, set_members. by rewrite (alter_Some _ _ _ mb Hm). }
  set (w1 := mk_world _ _ _ _).
  assert (inv_in [] ({[spec]} ∪ ∅) ∅ (obj w1) (km w1)) as Hi1.
  { eapply inv_upd; [exact Hi | exact Hv | done.. |]. intros b. cbn [v_members v1 set_members]. rewrite lookup_insert.
    destruct (decide (a = b)) as [<- | ]; [| done]. rewrite Hm. split; eauto. }
  destruct (rebuild_lb _ _ _ e spec v1 w1 Hi1 Hc) as (r & w2 & H & O & K & Hi2 & G & _); [apply lookup_insert_eq |].
  exists w2. rewrite single_done in Hi2. split_and!; try done; [by destruct G; split |].
  rewrite O. cbn [obj w1]. unfold set_vips. cbn. by rewrite insert_insert_eq.
Qed.

Lemma spec_member_lookup s vip a f v mb :
  vips_ s !! vip = Some v → v_members v !! a = Some mb →
  spec_member (abs s) vip a f = Ok (<[vip := (v_flags v, <[a := f (absm mb)]> (absm <$> v_members v))]> (abs s)).
Proof. intros Hv Hm. unfold spec_member. rewrite lookup_abs, Hv. cbn. by rewrite lookup_fmap, Hm. Qed.

(** Calls that change one field of a member. *)
Lemma member_call e spec a w (f : Member → Member) (g : AMember → AMember) (same : Member → bool) :
  inv (obj w) (km w) → calm w →
  (∀ mb, same mb = true → g (absm mb) = absm mb) → (∀ mb, absm (f mb) = g (absm mb)) →
  ∃ r w', (v ← vip_or_throw spec; m ← member_or_throw v a;
           if same m then mret () else (_ ← upd_member spec a f; rebuild_locked e spec)) w = (r, w') ∧
    match spec_member (abs (obj w)) spec a g with
    | Ok x => r = Ok () ∧ abs (obj w') = x ∧ inv (obj w') (km w') ∧ goes w w' ∧ same_settings (obj w) (obj w')
    | Throw ex => r = Throw ex ∧ w' = w
    end.
Proof.
  intros Hi Hc Hsame Hf. unfold vip_or_throw. unfold mbind at 1, M_bind at 1. rewrite bind_get.
  destruct (vips_ (obj w) !! spec) as [v |] eqn:Hv.
  2: { do 2 eexists. split; [reflexivity |]. unfold spec_member. by rewrite lookup_abs, Hv. }
  cbn [mret M_ret]. unfold mbind at 1, M_bind at 1, member_or_throw.
  destruct (v_members v !! a) as [mb |] eqn:Hm.
  2: { do 2 eexists. split; [reflexivity |]. unfold spec_member. rewrite lookup_abs, Hv. cbn.
       rewrite lookup_fmap, Hm. cbn. by rewrite (i_spec _ _ _ _ _ Hi spec v Hv). }
  rewrite (spec_member_lookup _ _ _ g v mb Hv Hm). cbn [mret M_ret].
  assert (<[a := g (absm mb)]> (absm <$> v_members v) = absm <$> <[a := f mb]> (v_members v)) as Eg
    by (by rewrite fmap_insert, Hf).
  destruct (same mb) eqn:Es.
  - do 2 eexists. split; [reflexivity |]. split_and!; try done; [| by apply goes_refl].
    rewrite Hsame by done. rewrite (insert_id (absm <$> v_members v)) by (by rewrite lookup_fmap, Hm).
    symmetry. exact (abs_same _ _ _ Hv).
  - destruct (upd_rebuild e spec v a mb f w Hi Hc Hv Hm) as (w' & H & Hi' & G & O).
    exists (Ok ()), w'. split_and!; try done; [| by rewrite O].
    rewrite O. unfold abs at 1. cbn [vips_ set_vips]. rewrite fmap_insert, absv_rebuilt. unfold absv at 1.
    cbn [v_flags v_members set_members]. by rewrite Eg.
Qed.

Lemma set_weight_done e vip a weight w :
  inv (obj w) (km w) → calm w → let '(r, w') := run_api e (SetWeight vip a weight) w in api_done (SetWeight vip a weight) w r w'.
Proof.
  intros Hi Hc. unfold api_done. cbn [run_api spec_api]. unfold set_weight.
  destruct (Config.kMaxRealWeight <? weight); [done |].
  destruct (member_call e vip a w (set_weight_of weight) (λ mb, mk_amember weight (am_draining mb) (am_up mb)) (λ m, m_weight m =? weight) Hi Hc)
    as (r & w' & H & P); [| done | by rewrite H].
  intros mb <-%Z.eqb_eq. by destruct mb.
Qed.

Lemma set_draining_done e vip a d w :
  inv (obj w) (km w) → calm w → let '(r, w') := run_api e (SetDraining vip a d) w in api_done (SetDraining vip a d) w r w'.
Proof.
  intros Hi Hc. unfold api_done. cbn [run_api spec_api]. unfold set_draining.
  destruct (member_call e vip a w (set_draining_of d) (λ mb, mk_amember (am_weight mb) d (am_up mb)) (λ m, eqb (m_draining m) d) Hi Hc)
    as (r & w' & H & P); [| done | by rewrite H].
  intros mb <-%eqb_prop. by destruct mb.
Qed.

(** Calls whose value the server discards. *)
Lemma api_unit {A} c (p : M LbState.t A) w :
  (∃ r w', p w = (r, w') ∧ api_done c w ((λ _, ()) <$> r) w') →
  let '(r, w') := (_ ← p; mret ()) w in api_done c w r w'.
Proof. intros (r & w' & H & P). unfold mbind, M_bind. rewrite H. by destruct r. Qed.

(** add_real on a VIP without the real. *)
Lemma add_real_run e vip a weight v w :
  inv (obj w) (km w) → calm w → vips_ (obj w) !! vip = Some v → a ≠ 0 → v_members v !! a = None →
  ((a ∉ all_reals (abs (obj w))) ∧ Z.of_nat (size (all_reals (abs (obj w)))) = PB_MAX_REALS - 1 ∧
   (_ ← add_member_locked e vip a weight; _ ← rebuild_locked e vip; s ← get;
    mret (default 0 (id_of (reals_ s) a))) w = (Throw too_many_reals, w)) ∨
  (¬ ((a ∉ all_reals (abs (obj w))) ∧ Z.of_nat (size (all_reals (abs (obj w)))) = PB_MAX_REALS - 1) ∧
   ∃ id w', (_ ← add_member_locked e vip a weight; _ ← rebuild_locked e vip; s ← get;
     mret (default 0 (id_of (reals_ s) a))) w = (Ok id, w') ∧ inv (obj w') (km w') ∧ goes w w' ∧
   same_settings (obj w) (obj w') ∧
   vips_ (obj w') = <[vip := rebuilt (reals_ (obj w')) (set_members <[a := new_member e weight (next_incarnation_ (obj w))]> v)]> (vips_ (obj w)) ∧
   (∀ b, mac_of (reals_ (obj w')) b = if decide (a = b) then asked e (obj w) a else mac_of (reals_ (obj w)) b)).
Proof.
  intros Hi Hc Hv Ha Hm. rewrite <-(dom_reals _ _ _ _ Hi), size_dom, not_elem_of_dom.
  destruct (reals_ids _ _ _ _ _ Hi) as [_ Hfull]. rewrite Hfull.
  destruct (add_member_lb _ _ _ e vip v a weight w Hi Hc Ha Hv Hm)
    as [(E1 & E2 & H) | (w1 & E & H & Hi1 & G1 & V1 & S1 & M1)]; [cbn; lia | left | right].
  { split_and!; try done. by erewrite bind_throw by exact H. }
  split; [tauto |]. set (mb := new_member e weight (next_incarnation_ (obj w))) in *.
  destruct (rebuild_lb _ _ _ e vip (set_members <[a := mb]> v) w1 Hi1 (g_calm _ _ G1)) as (r & w2 & H2 & O2 & _ & Hi2 & G2 & _).
  { rewrite V1. apply lookup_insert_eq. }
  rewrite single_done in Hi2. do 2 eexists. split.
  { erewrite bind_run by exact H. erewrite bind_run by exact H2. rewrite bind_get. reflexivity. }
  split_and!; try done.
  - by eapply goes_trans.
  - rewrite O2. by etrans; [exact S1 |].
  - rewrite O2. cbn [vips_ reals_ set_vips]. by rewrite V1, insert_insert_eq.
  - intros b. rewrite O2. apply M1.
Qed.

(** A method that ends at once. *)
Ltac stops := do 2 eexists; split; [reflexivity |].

Lemma add_real_done e vip a weight w :
  inv (obj w) (km w) → calm w → let '(r, w') := run_api e (AddReal vip a weight) w in api_done (AddReal vip a weight) w r w'.
Proof.
  intros Hi Hc. cbn [run_api]. apply api_unit. unfold api_done. cbn [spec_api]. rewrite lookup_abs.
  unfold add_real, vip_or_throw, mbind at 1, M_bind at 1. rewrite bind_get.
  destruct (vips_ (obj w) !! vip) as [v |] eqn:Hv; [| by stops]. cbn [mret M_ret fmap option_fmap option_map absv].
  destruct (Z.eqb_spec a 0) as [-> | Ha]; [by stops |].
  rewrite lookup_fmap, (bool_decide_ext _ _ (fmap_is_Some absm (v_members v !! a))).
  case_bool_decide as Em; [by stops |]. apply eq_None_not_Some in Em.
  destruct (Config.kMaxRealWeight <? weight); [by stops |].
  destruct (add_real_run e vip a weight v w Hi Hc Hv Ha Em)
    as [(E1 & E2 & H) | (E & id & w1 & H & Hi1 & G1 & S1 & V1 & _)]; do 2 eexists; (split; [exact H |]).
  - rewrite bool_decide_eq_true_2 by done. by rewrite (proj2 (Z.eqb_eq _ _) E2).
  - replace (bool_decide (a ∉ all_reals (abs (obj w))) && (Z.of_nat (size (all_reals (abs (obj w)))) =? PB_MAX_REALS - 1)) with false
      by (symmetry; rewrite <-not_true_iff_false, andb_true_iff, bool_decide_eq_true, Z.eqb_eq; done).
    split_and!; try done. unfold abs at 1. rewrite V1, fmap_insert, absv_rebuilt.
    unfold absv at 1. cbn [v_flags v_members set_members]. by rewrite fmap_insert.
Qed.

Lemma del_real_done e vip a w :
  inv (obj w) (km w) → calm w → let '(r, w') := run_api e (DelReal vip a) w in api_done (DelReal vip a) w r w'.
Proof.
  intros Hi Hc. unfold api_done. cbn [run_api spec_api]. rewrite lookup_abs.
  unfold del_real, vip_or_throw, mbind at 1, M_bind at 1. rewrite bind_get.
  destruct (vips_ (obj w) !! vip) as [v |] eqn:Hv; [| done]. cbn [mret M_ret fmap option_fmap option_map absv].
  rewrite lookup_fmap, (bool_decide_ext _ _ (fmap_is_Some absm (v_members v !! a))).
  unfold member_or_throw, mbind at 1, M_bind at 1. destruct (v_members v !! a) as [mb |] eqn:Hm.
  2: { rewrite bool_decide_eq_false_2 by (by intros []). cbn. by rewrite (i_spec _ _ _ _ _ Hi vip v Hv). }
  rewrite bool_decide_eq_true_2 by eauto. cbn [mret M_ret]. unfold remove_member_locked, upd_vip. rewrite bind_modify.
  set (v1 := set_members (delete a) v).
  assert (set_vips (alter (set_members (delete a)) vip) (obj w) = set_vips <[vip := v1]> (obj w)) as ->.
  { unfold set_vips. by rewrite (alter_Some _ _ _ v Hv). }
  set (w1 := mk_world _ _ _ _).
  assert (inv_in [(vip, a)] ({[vip]} ∪ ∅) ∅ (obj w1) (km w1)) as Hi1 by (eapply inv_del_member; eauto).
  destruct (rebuild_lb _ _ _ e vip v1 w1 Hi1 Hc) as (r & w2 & H2 & O2 & _ & Hi2 & G2 & _); [apply lookup_insert_eq |].
  erewrite bind_run by exact H2. rewrite single_done in Hi2.
  destruct (release_lb [] ∅ ∅ e vip a w2 Hi2 (g_calm _ _ G2) (not_elem_of_empty vip)) as (w3 & H3 & Hi3 & G3 & O3). rewrite H3.
  split_and!; try done.
  - rewrite O3, O2. unfold abs at 1. cbn [vips_ set_vips set_reals_ w1 obj]. rewrite insert_insert_eq, fmap_insert, absv_rebuilt.
    unfold absv at 1. cbn [v_flags v_members set_members v1]. by rewrite fmap_delete.
  - assert (goes w w2) by (by destruct G2; split). by eapply goes_trans.
  - by rewrite O3, O2.
Qed.

(** The counters of a new VIP are cleared. *)
Lemma inv_maps L X Y s m m' :
  inv_in L X Y s m → vip_map m' = vip_map m → rings m' = rings m → reals m' = reals m → neigh m' = neigh m →
  inv_in L X Y s m'.
Proof.
  intros Hi E1 E2 E3 E4. destruct Hi as [I1 [M1 M2] I3 I4 I5 I6 I7 I8 I9 I10 I11 I12].
  split; rewrite ?E1, ?E2 in *; try done. split; congruence.
Qed.

Lemma reset_counters_lb L X Y e i w :
  inv_in L X Y (obj w) (km w) → calm w →
  ∃ w', reset_counters e i w = (Ok (), w') ∧ obj w' = obj w ∧ inv_in L X Y (obj w') (km w') ∧ goes w w'.
Proof.
  intros Hi Hc. unfold reset_counters. set (f := set_stats _).
  destruct (map_write_run f w) as (err & w' & H & O & P & C). destruct (C Hc) as [-> Hc'].
  exists w'. erewrite bind_run by exact H. destruct P as [(_ & K & S) | (? & _)]; [| done].
  assert (inv_in L X Y (obj w') (km w')) as Hi' by (rewrite O, K; by eapply inv_maps).
  split_and!; try done. split; [done | | by rewrite K]. exists [f (km w)]. split; [done |].
  apply Forall_cons. split; [| done]. rewrite <-K. by eapply inv_safe.
Qed.

Lemma write_vip_entry_lb L X Y e spec v w :
  inv_in L X Y (obj w) (km w) → calm w → vips_ (obj w) !! spec = Some v → spec ∉ X →
  ∃ w', write_vip_entry e spec w = (Ok (), w') ∧ obj w' = obj w ∧ inv_in L X (Y ∖ {[spec]}) (obj w') (km w') ∧ goes w w'.
Proof.
  intros Hi Hc Hv HX. unfold write_vip_entry. rewrite bind_get. cbv zeta.
  assert (vip_at (obj w) spec = v) as -> by (unfold vip_at; by rewrite Hv).
  rewrite (i_spec _ _ _ _ _ Hi spec v Hv).
  destruct (checked_write_run (set_vip_map <[VipSpec.key spec := mk_vip_value (v_id v) (v_flags v)]>)
    (λ err, §"write vip_map for " ++ VipSpec.to_str spec ++ §": " ++ errstr e err) w) as (r & w' & H & O & P & C).
  destruct (C Hc) as [-> Hc']. destruct P as [K S]. exists w'.
  assert (inv_in L X (Y ∖ {[spec]}) (obj w') (km w')) as Hi' by (rewrite O, K; by apply inv_publish).
  split_and!; try done. split; [done | | by rewrite K]. eexists. split; [exact S |].
  apply Forall_cons. split; [| done]. rewrite <-K. by eapply inv_safe.
Qed.

Lemma add_vip_done e vip nc w :
  inv (obj w) (km w) → calm w → let '(r, w') := run_api e (AddVip vip nc) w in api_done (AddVip vip nc) w r w'.
Proof.
  intros Hi Hc. cbn [run_api]. apply api_unit. unfold api_done. cbn [spec_api].
  rewrite lookup_abs, (bool_decide_ext _ _ (fmap_is_Some absv (vips_ (obj w) !! vip))).
  unfold add_vip. rewrite bind_get. case_bool_decide as Hv; [by stops |]. apply eq_None_not_Some in Hv.
  assert (size (abs (obj w)) = size (vips_ (obj w))) as -> by apply map_size_fmap.
  unfold create_vip_locked, take_vip_id. unfold mbind at 1, M_bind at 1. rewrite bind_get, (i_adopted _ _ _ _ _ Hi), lookup_empty.
  pose proof (allocate_spec _ _ _ _ _ Hi) as Hal. destruct (allocate_vip_id (obj w)) as [id | ex].
  2: { destruct Hal as [-> Hs]. rewrite (proj2 (Z.eqb_eq _ _) Hs). by stops. }
  destruct Hal as (Hid & Hfresh & Hs). rewrite (proj2 (Z.eqb_neq _ _)) by lia. unfold lift, mbind at 1, M_bind at 1.
  destruct (reset_counters_lb _ _ _ e id w Hi Hc) as (w1 & H1 & O1 & Hi1 & G1).
  erewrite bind_run by exact H1. cbn [mret M_ret]. rewrite bind_modify, O1.
  set (flags := if nc then PB_VIP_F_NO_CONNTRACK else 0). set (v0 := mk_vip vip id flags 0 ∅).
  assert (set_vips (emplace vip v0) (obj w) = set_vips <[vip := v0]> (obj w)) as ->
    by (unfold set_vips; by rewrite emplace_None).
  set (w2 := mk_world _ _ _ _).
  assert (inv_in [] ({[vip]} ∪ ∅) ({[vip]} ∪ ∅) (obj w2) (km w2)) as Hi2.
  { cbn [obj km w2]. rewrite O1 in Hi1. by apply inv_new_vip. }
  destruct (rebuild_lb _ _ _ e vip v0 w2 Hi2 (g_calm _ _ G1)) as (r & w3 & H3 & O3 & _ & Hi3 & G3 & _); [apply lookup_insert_eq |].
  rewrite single_done in Hi3.
  destruct (write_vip_entry_lb _ _ _ e vip (rebuilt (reals_ (obj w2)) v0) w3 Hi3 (g_calm _ _ G3)) as (w4 & H4 & O4 & Hi4 & G4).
  { rewrite O3. apply lookup_insert_eq. }
  { done. }
  exists (Ok id), w4. split.
  { change (addr_keys (∅ : gmap Z Z)) with (@nil Z). cbn [m_for]. unfold mbind at 1, M_bind at 1. cbn [mret M_ret].
    erewrite bind_run by exact H3. by erewrite bind_run by exact H4. }
  rewrite single_done in Hi4. split_and!; try done.
  - rewrite O4, O3. unfold abs at 1. cbn [vips_ set_vips w2 obj]. by rewrite insert_insert_eq, fmap_insert, absv_rebuilt.
  - eapply goes_trans; [exact G1 |]. eapply goes_trans; [| exact G4]. by destruct G3; split.
  - by rewrite O4, O3.
Qed.

(** Methods of the table do not see the VIPs. *)
Lemma real_op_vips {A} (p : M RealTable.t A) f w :
  real_op p (with_obj (set_vips f (obj w)) w) =
  let '(r, w') := real_op p w in (r, with_obj (set_vips f (obj w')) w').
Proof. unfold real_op, on, with_obj. cbn [obj km hist sys reals_ set_vips]. by destruct (p _) as [r w']. Qed.

Lemma release_all_vips l e f w :
  m_for l (λ a, real_op (release e a)) (with_obj (set_vips f (obj w)) w) =
  let '(r, w') := m_for l (λ a, real_op (release e a)) w in (r, with_obj (set_vips f (obj w')) w').
Proof.
  revert w. induction l as [| a l IH]; intros w; cbn [m_for]; [done |].
  unfold mbind, M_bind. rewrite real_op_vips. destruct (real_op (release e a) w) as [[[] | ex] w1]; [apply IH | done].
Qed.

Lemma del_vip_run L X Y e vip v w :
  inv_in L X Y (obj w) (km w) → calm w → vips_ (obj w) !! vip = Some v →
  ∃ w' tb, delete_vip_locked e vip w = (Ok (), w') ∧ inv_in L (X ∖ {[vip]}) (Y ∖ {[vip]}) (obj w') (km w') ∧ goes w w' ∧
    obj w' = set_reals_ tb (set_vips (delete vip) (obj w)).
Proof.
  intros Hi Hc Hv. unfold delete_vip_locked. rewrite bind_get, Hv.
  destruct (map_write_run (set_vip_map (delete (VipSpec.key vip))) w) as (err & w1 & H1 & O1 & P1 & C1).
  destruct (C1 Hc) as [-> Hc1]. destruct P1 as [(_ & K1 & S1) | (? & _)]; [| done].
  erewrite bind_run by exact H1. pose proof (inv_unpublish _ _ _ _ _ vip Hi) as Hi1. rewrite <-K1 in Hi1.
  unfold remove_ring. destruct (map_write_run (set_rings (delete (v_id v))) w1) as (err & w2 & H2 & O2 & P2 & C2).
  destruct (C2 Hc1) as [-> Hc2]. destruct P2 as [(_ & K2 & S2) | (? & _)]; [| done].
  erewrite bind_run by (erewrite bind_run by exact H2; reflexivity).
  assert (inv_in ((pair vip <$> addr_keys (v_members v)) ++ L) (X ∖ {[vip]}) (({[vip]} ∪ Y) ∖ {[vip]}) (set_vips (delete vip) (obj w2)) (km w2)) as Hi2.
  { rewrite K2, O2, O1. eapply inv_remove_vip; [exact Hi1 | done |]. apply elem_of_union_l, elem_of_singleton. done. }
  set (w2' := with_obj (set_vips (delete vip) (obj w2)) w2).
  destruct (release_all_lb vip _ _ _ _ e w2' Hi2 Hc2) as (tb & w3 & H3 & Hi3 & G3 & O3).
  { rewrite not_elem_of_difference. right. by apply elem_of_singleton. }
  unfold w2' in H3. rewrite release_all_vips in H3.
  destruct (m_for (addr_keys (v_members v)) (λ a, real_op (release e a)) w2) as [r w3'] eqn:E3. injection H3 as -> <-.
  rewrite union_diff in Hi3. exists (with_obj (set_vips (delete vip) (obj w3')) w3'), tb. split_and!.
  - erewrite bind_run by exact E3. done.
  - done.
  - split; [apply G3 | |].
    + destruct (g_hist _ _ G3) as (ms & Eh & F). exists (km w1 :: km w2 :: ms). split.
      * rewrite Eh. cbn [hist w2' with_obj]. by rewrite S2, S1, K2, K1, <-!app_assoc.
      * rewrite !Forall_cons. split_and!; [by eapply inv_safe | by eapply inv_safe | done].
    + destruct (g_rest _ _ G3) as [E1 E2]. cbn [km w2' with_obj] in E1, E2. by rewrite K2, K1 in E1, E2.
  - rewrite O3. cbn [obj w2' with_obj]. by rewrite O2, O1.
Qed.

Lemma del_vip_done e vip w :
  inv (obj w) (km w) → calm w → let '(r, w') := run_api e (DelVip vip) w in api_done (DelVip vip) w r w'.
Proof.
  intros Hi Hc. unfold api_done. cbn [run_api spec_api].
  rewrite lookup_abs, (bool_decide_ext _ _ (fmap_is_Some absv (vips_ (obj w) !! vip))).
  unfold del_vip, vip_or_throw, mbind at 1, M_bind at 1. rewrite bind_get.
  destruct (vips_ (obj w) !! vip) as [v |] eqn:Hv.
  2: { by rewrite bool_decide_eq_false_2 by (by intros []). }
  rewrite bool_decide_eq_true_2 by eauto. cbn [mret M_ret].
  destruct (del_vip_run _ _ _ e vip v w Hi Hc Hv) as (w' & tb & H & Hi' & G & O). rewrite H.
  assert ((∅ : gset VipSpec.t) ∖ {[vip]} = ∅) as Ed by (clear; set_solver). rewrite Ed in Hi'.
  split_and!; try done; [| by rewrite O]. rewrite O. unfold abs. cbn [vips_ set_vips set_reals_]. by rewrite fmap_delete.
Qed.

Lemma api_done_all e c w :
  inv (obj w) (km w) → calm w → let '(r, w') := run_api e c w in api_done c w r w'.
Proof.
  destruct c; [apply add_vip_done | apply del_vip_done | apply add_real_done | apply del_real_done |
    apply set_weight_done | apply set_draining_done].
Qed.

(** ** Health reports *)

(** One probe result, as the member sees it. *)
Definition health_step (now rise fall : Z) (r : ProbeResult) (m : Member) : Member :=
  if pr_local_error r then m else
  if pr_ok r then
    let m := count_ok (pr_rtt_us r) m in
    if negb (m_up m) && (rise <=? m_consecutive_ok m) then set_up true now m else m
  else
    let m := count_fail m in
    if m_up m && (fall <=? m_consecutive_fail m) then set_up false now m else m.

(** What of a member the ring depends on. *)
Definition same_share (m m' : Member) : Prop :=
  m_weight m' = m_weight m ∧ m_draining m' = m_draining m ∧ m_up m' = m_up m ∧ m_in_ring m' = m_in_ring m.

Lemma inv_restore L X Y s m spec :
  inv_in L ({[spec]} ∪ X) Y s m →
  (∀ v, vips_ s !! spec = Some v → spec ∉ X →
     (∀ a mb, v_members v !! a = Some mb → m_in_ring mb = true → eligible (reals_ s) a mb = true) ∧
     ∃ r, rings m !! v_id v = Some r ∧
          Maglev.build_ring (backends_of (reals_ s) (v_members v)) (hash_ s) PB_RING_SIZE = Some (Ok r)) →
  inv_in L X Y s m.
Proof.
  intros Hi Hs. split; try apply Hi.
  - intros sp v a mb Hv HX. destruct (decide (sp = spec)) as [-> | Hne]; [by apply (Hs v Hv HX) |].
    apply (i_in_ring _ _ _ _ _ Hi sp v a mb Hv). rewrite not_elem_of_union, not_elem_of_singleton. done.
  - intros sp v Hv HX. destruct (decide (sp = spec)) as [-> | Hne]; [by apply (Hs v Hv HX) |].
    apply (i_ring _ _ _ _ _ Hi sp v Hv). rewrite not_elem_of_union, not_elem_of_singleton. done.
Qed.

(** Two maps with the same keys are walked in the same order. *)
Lemma addr_keys_ext {A B} (m1 : gmap Z A) (m2 : gmap Z B) :
  (∀ a, is_Some (m1 !! a) ↔ is_Some (m2 !! a)) → addr_keys m1 = addr_keys m2.
Proof.
  intros H. apply (Sorted_unique Z.le); [apply Sorted_merge_sort, _ | apply Sorted_merge_sort, _ |].
  apply NoDup_Permutation; [apply NoDup_addr_keys.. |]. intros a. by rewrite !elem_of_addr_keys.
Qed.

Lemma backends_same_share tb ms a mb mb' :
  ms !! a = Some mb → same_share mb mb' → backends_of tb (<[a := mb']> ms) = backends_of tb ms.
Proof.
  intros Hm (S1 & S2 & S3 & S4). unfold backends_of. rewrite (addr_keys_ext (<[a := mb']> ms) ms).
  - apply list_omap_ext, Forall_Forall2_diag, Forall_forall. intros b _. rewrite lookup_insert.
    destruct (decide (a = b)) as [<- | ]; [| done]. rewrite Hm. cbn. unfold backend_of. by rewrite S1, S4.
  - intros b. rewrite lookup_insert. destruct (decide (a = b)) as [<- | ]; [rewrite Hm; split; eauto | done].
Qed.

(** A member changes in a way its ring does not depend on. *)
Lemma upd_quiet L X Y spec v a mb mb' w :
  inv_in L X Y (obj w) (km w) → vips_ (obj w) !! spec = Some v → v_members v !! a = Some mb → same_share mb mb' →
  inv_in L X Y (set_vips <[spec := set_members <[a := mb']> v]> (obj w)) (km w).
Proof.
  intros Hi Hv Hm Hs. eapply (inv_restore _ _ _ _ _ spec).
  - eapply inv_upd; [exact Hi | exact Hv | done.. |]. intros b. cbn [v_members set_members]. rewrite lookup_insert.
    destruct (decide (a = b)) as [<- | ]; [rewrite Hm; split; eauto | done].
  - intros v1 Hv1 HX. cbn [vips_ set_vips] in Hv1. rewrite lookup_insert_eq in Hv1. injection Hv1 as <-.
    cbn [v_members set_members reals_ hash_ set_vips v_id]. split.
    + intros b mb1. rewrite lookup_insert. destruct (decide (a = b)) as [<- | ].
      * intros [= <-] Hin. destruct Hs as (S1 & S2 & S3 & S4). rewrite S4 in Hin.
        pose proof (i_in_ring _ _ _ _ _ Hi spec v a mb Hv HX Hm Hin) as He. unfold eligible in *. by rewrite S1, S2, S3.
      * by apply (i_in_ring _ _ _ _ _ Hi spec v b mb1 Hv HX).
    + rewrite (backends_same_share _ _ _ mb mb' Hm Hs). by apply (i_ring _ _ _ _ _ Hi spec v Hv).
Qed.

(** The member a report is about: still there, and not deleted and re-added. *)
Definition target_member (s : LbState.t) (h : HealthTarget) : option (Vip * Member) :=
  v ← vips_ s !! ht_vip h; m ← v_members v !! ht_addr h;
  if m_incarnation m =? ht_incarnation h then Some (v, m) else None.

(** The VIP after a report about its member. *)
Definition reported (now rise fall : Z) (r : ProbeResult) (tb : RealTable.t) (a : Z) (v : Vip) (m : Member) : Vip :=
  let m' := health_step now rise fall r m in
  let v' := set_members <[a := m']> v in
  if eqb (m_up m') (m_up m) then v' else rebuilt tb v'.

Lemma report_run e h r rise fall w v m :
  inv (obj w) (km w) → calm w → target_member (obj w) h = Some (v, m) → pr_local_error r = false →
  ∃ w', report_health e h r rise fall w = (Ok (), w') ∧ inv (obj w') (km w') ∧ goes w w' ∧
    obj w' = set_vips <[ht_vip h := reported (epoch_ms e) rise fall r (reals_ (obj w)) (ht_addr h) v m]> (obj w) ∧
    (m_up (health_step (epoch_ms e) rise fall r m) = m_up m → km w' = km w).
Proof.
  intros Hi Hc Ht Hl. unfold target_member in Ht. unfold report_health. rewrite bind_get.
  destruct (vips_ (obj w) !! ht_vip h) as [v' |] eqn:Hv; [cbn in Ht | done].
  destruct (v_members v' !! ht_addr h) as [m' |] eqn:Hm; [cbn in Ht | done].
  destruct (m_incarnation m' =? ht_incarnation h) eqn:Ei; [| done]. injection Ht as -> ->.
  cbn [mbind option_bind]. rewrite Hm, Ei. cbn [negb]. rewrite Hl.
  assert (∀ mq, same_share m mq →
    ∃ w1, upd_member (ht_vip h) (ht_addr h) (λ _, mq) w = (Ok (), w1) ∧ inv (obj w1) (km w1) ∧ goes w w1 ∧
      obj w1 = set_vips <[ht_vip h := set_members <[ht_addr h := mq]> v]> (obj w) ∧ km w1 = km w) as Hq.
  { intros mq Hs. unfold upd_member, upd_vip, modify. eexists. split; [reflexivity |]. cbn [obj km].
    assert (set_vips (alter (set_members (alter (λ _, mq) (ht_addr h))) (ht_vip h)) (obj w) =
            set_vips <[ht_vip h := set_members <[ht_addr h := mq]> v]> (obj w)) as ->.
    { unfold set_vips. rewrite (alter_Some _ _ _ v Hv). unfold set_members. by rewrite (alter_Some _ _ _ m Hm). }
    split_and!; [by eapply upd_quiet | | done | done]. by destruct (goes_refl w Hc); split. }
  assert (∀ mq b, same_share m mq → ∃ w',
    (_ ← upd_member (ht_vip h) (ht_addr h) (λ _, mq);
     _ ← upd_member (ht_vip h) (ht_addr h) (set_up b (epoch_ms e)); rebuild_locked e (ht_vip h)) w = (Ok (), w') ∧
    inv (obj w') (km w') ∧ goes w w' ∧
    obj w' = set_vips <[ht_vip h := rebuilt (reals_ (obj w)) (set_members <[ht_addr h := set_up b (epoch_ms e) mq]> v)]> (obj w)) as Hu.
  { intros mq b Hs. destruct (Hq mq Hs) as (w1 & H1 & Hi1 & G1 & O1 & _). erewrite bind_run by exact H1.
    destruct (upd_rebuild e (ht_vip h) (set_members <[ht_addr h := mq]> v) (ht_addr h) mq (set_up b (epoch_ms e)) w1)
      as (w2 & H2 & Hi2 & G2 & O2); [done | apply G1 | rewrite O1; apply lookup_insert_eq | apply lookup_insert_eq |].
    exists w2. split_and!; [exact H2 | done | by eapply goes_trans |]. rewrite O2, O1. unfold set_vips, set_members. cbn.
    by rewrite insert_insert_eq, insert_insert_eq. }
  unfold reported, health_step. rewrite Hl.
  destruct (pr_ok r); [destruct (m_up m) eqn:Eu | destruct (m_up m) eqn:Eu]; cbn [m_up count_ok count_fail set_up]; rewrite Eu; cbn [negb andb].
  - destruct (Hq (count_ok (pr_rtt_us r) m)) as (w1 & H1 & I1 & G1 & O1 & K1); [done |].
    exists w1. cbn [m_up count_ok]. rewrite ?Eu. split_and!; [by erewrite bind_run by exact H1 | done..].
  - destruct (rise <=? _).
    + destruct (Hu (count_ok (pr_rtt_us r) m) true) as (w1 & H1 & R1); [done |]. exists w1. split_and!; [exact H1 | apply R1.. | done].
    + destruct (Hq (count_ok (pr_rtt_us r) m)) as (w1 & H1 & I1 & G1 & O1 & K1); [done |].
      exists w1. cbn [m_up count_ok]. rewrite ?Eu. split_and!; [by erewrite bind_run by exact H1 | done..].
  - destruct (fall <=? _).
    + destruct (Hu (count_fail m) false) as (w1 & H1 & R1); [done |]. exists w1. split_and!; [exact H1 | apply R1.. | done].
    + destruct (Hq (count_fail m)) as (w1 & H1 & I1 & G1 & O1 & K1); [done |].
      exists w1. cbn [m_up count_fail]. rewrite ?Eu. split_and!; [by erewrite bind_run by exact H1 | done..].
  - destruct (Hq (count_fail m)) as (w1 & H1 & I1 & G1 & O1 & K1); [done |].
    exists w1. cbn [m_up count_fail]. rewrite ?Eu. split_and!; [by erewrite bind_run by exact H1 | done..].
Qed.

(** ** Neighbours *)

Lemma set_each_lb L X Y e mac l acc w :
  inv_in L X Y (obj w) (km w) → calm w →
  ∃ U tb w', set_each e mac l acc w = (Ok U, w') ∧ inv_in L X Y (obj w') (km w') ∧ goes w w' ∧
    obj w' = set_reals_ tb (obj w) ∧ by_addr tb = by_addr (reals_ (obj w)) ∧
    (∀ a, mac_of tb a = if decide (a ∈ l ∧ is_Some (by_addr tb !! a)) then Some mac else mac_of (reals_ (obj w)) a) ∧
    (∀ a, a ∈ U ↔ a ∈ acc ∨ a ∈ l ∧ is_Some (by_addr tb !! a) ∧ mac_of (reals_ (obj w)) a = None).
Proof.
  revert acc w. induction l as [| b l IH]; intros acc w Hi Hc; cbn [set_each].
  { exists acc, (reals_ (obj w)), w. split_and!; try done; [by apply goes_refl | by destruct (obj w) |].
    intros a. split; [by left |]. intros [? | (?%not_elem_of_nil & _)]; done. }
  rewrite bind_get. destruct (set_mac_lb L X Y e b mac w Hi Hc) as (ch & w1 & H1 & Hi1 & G1 & O1 & Hch).
  erewrite bind_run by exact H1. set (tb0 := reals_ (obj w)) in *.
  assert (reals_ (obj w1) = tb_set_mac b mac tb0) as Et by (by rewrite O1).
  assert (by_addr (tb_set_mac b mac tb0) = by_addr tb0) as Eb by (unfold tb_set_mac; by destruct (by_addr tb0 !! b)).
  destruct (IH (if ch && negb (bool_decide (is_Some (mac_of tb0 b))) then {[b]} ∪ acc else acc) w1 Hi1 (g_calm _ _ G1))
    as (U & tb & w2 & H2 & Hi2 & G2 & O2 & B2 & M2 & U2).
  rewrite Et, Eb in B2. rewrite Et in M2, U2. pose proof (λ c, mac_of_set_mac b mac tb0 c (i_tb _ _ _ _ _ Hi)) as Hmac.
  exists U, tb, w2. split_and!; try done; [by eapply goes_trans | by rewrite O2, O1 | |].
  - intros a. rewrite M2, Hmac, B2. destruct (decide (a ∈ l ∧ is_Some (by_addr tb0 !! a))) as [[Ha Hs] | Hn].
    + rewrite decide_True; [done |]. split; [by apply list_elem_of_further | done].
    + destruct (decide (b = a ∧ is_Some (by_addr tb0 !! b))) as [[<- Hs] | Hn'].
      * rewrite decide_True; [done |]. split; [apply list_elem_of_here | done].
      * rewrite decide_False; [done |]. rewrite elem_of_cons. intros [[-> | ?] ?]; tauto.
  - intros a. rewrite U2, elem_of_cons, B2, Hmac.
    assert (a ∈ (if ch && negb (bool_decide (is_Some (mac_of tb0 b))) then {[b]} ∪ acc else acc) ↔
            a ∈ acc ∨ a = b ∧ is_Some (by_addr tb0 !! b) ∧ mac_of tb0 b = None) as ->.
    { destruct (mac_of tb0 b) as [mb |] eqn:Emb.
      - rewrite bool_decide_eq_true_2, andb_false_r by eauto. split; [by left | intros [? | (_ & _ & ?)]; done].
      - rewrite bool_decide_eq_false_2, andb_true_r by (by intros []). destruct ch.
        + rewrite elem_of_union, elem_of_singleton. destruct Hch as [Hch _]. destruct (Hch eq_refl) as [? _]. naive_solver.
        + split; [by left |]. intros [? | (_ & Hs & _)]; [done |]. assert (false = true); [| done]. by apply Hch. }
    destruct (decide (b = a ∧ is_Some (by_addr tb0 !! b))) as [[<- Hs] | Hn'].
    + split; [intros [[? | ?] | (_ & _ & ?)]; naive_solver |]. intros [? | ([_ | Hin] & H3 & H4)]; auto.
    + split; [naive_solver |]. intros [? | ([-> | Hin] & H3 & H4)]; naive_solver.
Qed.

(** A VIP whose reals include a newly usable one. *)
Definition touched (U : gset Z) (v : Vip) : bool := existsb (λ a, bool_decide (a ∈ U)) (addr_keys (v_members v)).

Lemma touched_spec U v a : is_Some (v_members v !! a) → a ∈ U → touched U v = true.
Proof.
  intros Hm Ha. unfold touched. apply existsb_exists. exists a. split; [apply list_elem_of_In, elem_of_addr_keys, Hm |].
  by apply bool_decide_eq_true.
Qed.

Lemma rebuild_each_lb e U l w :
  inv (obj w) (km w) → calm w → NoDup l → (∀ sp, sp ∈ l → is_Some (vips_ (obj w) !! sp)) →
  ∃ w', m_for l (rebuild_usable e U) w = (Ok (), w') ∧ inv (obj w') (km w') ∧ goes w w' ∧
    reals_ (obj w') = reals_ (obj w) ∧ same_settings (obj w) (obj w') ∧
    (∀ sp, vips_ (obj w') !! sp = (λ v, if bool_decide (sp ∈ l) && touched U v then rebuilt (reals_ (obj w)) v else v) <$> vips_ (obj w) !! sp).
Proof.
  intros Hi Hc Hnd. revert w Hi Hc. induction Hnd as [| sp l Hn Hnd IH]; intros w Hi Hc Hin; cbn [m_for].
  { exists w. split_and!; try done; [by apply goes_refl |]. intros sp. by destruct (vips_ (obj w) !! sp). }
  destruct (Hin sp (list_elem_of_here _ _)) as [v Hv].
  assert (∃ w1, rebuild_usable e U sp w = (Ok (), w1) ∧ inv (obj w1) (km w1) ∧ goes w w1 ∧
    reals_ (obj w1) = reals_ (obj w) ∧ same_settings (obj w) (obj w1) ∧
    vips_ (obj w1) = <[sp := if touched U v then rebuilt (reals_ (obj w)) v else v]> (vips_ (obj w))) as (w1 & H1 & Hi1 & G1 & R1 & S1 & V1).
  { unfold rebuild_usable. rewrite bind_get. assert (vip_at (obj w) sp = v) as -> by (unfold vip_at; by rewrite Hv).
    fold (touched U v). destruct (touched U v).
    - destruct (rebuild_lb _ _ _ e sp v w Hi Hc Hv) as (r & w1 & H & O & _ & Hi1 & G & _).
      assert ((∅ : gset VipSpec.t) ∖ {[sp]} = ∅) as Ed by (clear; set_solver). rewrite Ed in Hi1.
      exists w1. rewrite O in *. split_and!; done.
    - exists w. split_and!; try done; [by apply goes_refl | by rewrite insert_id]. }
  erewrite bind_run by exact H1. destruct (IH w1 Hi1 (g_calm _ _ G1)) as (w2 & H2 & Hi2 & G2 & R2 & S2 & V2).
  { intros sp' Hsp'. rewrite V1, lookup_insert_ne by congruence. by apply Hin, list_elem_of_further. }
  exists w2. split_and!; try done; [by eapply goes_trans | congruence | by etrans |].
  intros sp'. rewrite V2, V1, R1, lookup_insert. destruct (decide (sp = sp')) as [<- | Hne].
  - rewrite Hv. cbn. rewrite (bool_decide_eq_false_2 (sp ∈ l)), (bool_decide_eq_true_2 (sp ∈ sp :: l)) by (done || apply list_elem_of_here). done.
  - destruct (vips_ (obj w) !! sp') as [v' |]; [| done]. cbn. do 2 f_equal.
    rewrite (bool_decide_ext (sp' ∈ sp :: l) (sp' ∈ l)); [done |]. rewrite elem_of_cons. naive_solver.
Qed.

Lemma report_skipped e h p rise fall w :
  target_member (obj w) h = None ∨ pr_local_error p = true → report_health e h p rise fall w = (Ok (), w).
Proof.
  intros H. unfold report_health, target_member in *. rewrite bind_get.
  destruct (vips_ (obj w) !! ht_vip h) as [v |]; [| done]. cbn [mbind option_bind] in *.
  destruct (v_members v !! ht_addr h) as [m |]; [| done]. cbn [mbind option_bind] in H.
  destruct (m_incarnation m =? ht_incarnation h); [| done]. cbn [negb]. destruct H as [H | ->]; [done | done].
Qed.

(** The ring of every VIP is the one its members' present state asks for. *)
Definition exact (s : LbState.t) : Prop :=
  ∀ spec v a m, vips_ s !! spec = Some v → v_members v !! a = Some m → m_in_ring m = eligible (reals_ s) a m.

(** The reals an answer for [ip] is about. *)
Definition resolves (s : LbState.t) (ip a : Z) : bool :=
  bool_decide (is_Some (by_addr (reals_ s) !! a)) &&
  match next_hop_ s with Some nh => ip =? nh | None => a =? ip end.

Lemma eligible_mac tb tb' a m :
  (is_Some (mac_of tb a) ↔ is_Some (mac_of tb' a)) → eligible tb' a m = eligible tb a m.
Proof. intros H. unfold eligible. f_equal. by apply bool_decide_ext. Qed.

Lemma elem_of_addrs tb a : a ∈ RealTable.addrs tb ↔ is_Some (by_addr tb !! a).
Proof. apply elem_of_addr_keys. Qed.

Lemma neighbor_run e ip mac w :
  inv (obj w) (km w) → calm w →
  ∃ w', neighbor_resolved e ip mac w = (Ok (), w') ∧ inv (obj w') (km w') ∧ goes w w' ∧
    abs (obj w') = abs (obj w) ∧ same_settings (obj w) (obj w') ∧
    (∀ a, mac_of (reals_ (obj w')) a = if resolves (obj w) ip a then Some mac else mac_of (reals_ (obj w)) a) ∧
    (exact (obj w) → exact (obj w')) ∧
    ((∀ a, resolves (obj w) ip a = true → mac_of (reals_ (obj w)) a ≠ None) → vips_ (obj w') = vips_ (obj w)).
Proof.
  intros Hi Hc. unfold neighbor_resolved. rewrite bind_get. cbv zeta.
  set (l := match next_hop_ (obj w) with Some nh => if negb (ip =? nh) then None else _ | None => Some [ip] end).
  assert (match l with
          | None => ∀ a, resolves (obj w) ip a = false
          | Some l => ∀ a, (a ∈ l ∧ is_Some (by_addr (reals_ (obj w)) !! a)) ↔ resolves (obj w) ip a = true
          end) as Hl.
  { unfold l, resolves. destruct (next_hop_ (obj w)) as [nh |].
    - destruct (Z.eqb_spec ip nh) as [-> | Hne]; cbn [negb]; intros a; [| by rewrite andb_false_r].
      rewrite andb_true_r, bool_decide_eq_true, elem_of_addrs. tauto.
    - intros a. rewrite list_elem_of_singleton, andb_true_iff, bool_decide_eq_true, Z.eqb_eq. tauto. }
  destruct l as [l |].
  2: { exists w. split_and!; try done; [by apply goes_refl |]. intros a. by rewrite Hl. }
  destruct (set_each_lb _ _ _ e mac l ∅ w Hi Hc) as (U & tb & w1 & H1 & Hi1 & G1 & O1 & B1 & M1 & U1).
  erewrite bind_run by exact H1.
  assert (∀ a, mac_of (reals_ (obj w1)) a = if resolves (obj w) ip a then Some mac else mac_of (reals_ (obj w)) a) as Hmac.
  { intros a. rewrite O1. cbn [reals_ set_reals_]. rewrite M1, B1. specialize (Hl a).
    destruct (resolves (obj w) ip a); [rewrite decide_True by tauto | rewrite decide_False by naive_solver]; done. }
  assert (∀ a, a ∉ U → is_Some (mac_of (reals_ (obj w)) a) ↔ is_Some (mac_of (reals_ (obj w1)) a)) as Hkn.
  { intros a Ha. rewrite Hmac. destruct (resolves (obj w) ip a) eqn:Er; [| done]. split; [by eauto | intros _].
    apply Hl in Er as [Hin Hs]. destruct (mac_of (reals_ (obj w)) a) eqn:Em; [by eauto |]. destruct Ha. apply U1. right.
    by rewrite B1. }
  assert (vips_ (obj w1) = vips_ (obj w)) as V1 by (by rewrite O1).
  case_bool_decide as EU.
  - exists w1. split_and!; try done; [by unfold abs; rewrite V1 | by rewrite O1 |].
    intros Hx spec v a m Hv Hm. rewrite V1 in Hv. rewrite (Hx spec v a m Hv Hm). symmetry. apply eligible_mac, Hkn. by rewrite EU.
  - rewrite bind_get. destruct (rebuild_each_lb e U (spec_keys (vips_ (obj w1))) w1 Hi1 (g_calm _ _ G1))
      as (w2 & H2 & Hi2 & G2 & R2 & S2 & V2); [apply NoDup_spec_keys | intros sp; apply elem_of_spec_keys |].
    exists w2. split_and!; try done.
    + by eapply goes_trans.
    + unfold abs. apply map_eq. intros sp. rewrite !lookup_fmap, V2, V1. destruct (vips_ (obj w) !! sp) as [v |]; [| done].
      cbn. destruct (_ && _); [| done]. by rewrite absv_rebuilt.
    + rewrite O1 in S2. etrans; [| exact S2]. done.
    + intros a. by rewrite R2.
    + intros Hx spec v a m Hv Hm. rewrite V2, V1 in Hv. rewrite R2.
      destruct (vips_ (obj w) !! spec) as [v0 |] eqn:Hv0; [| done]. cbn in Hv. injection Hv as <-.
      rewrite bool_decide_eq_true_2 in Hm by (apply elem_of_spec_keys; rewrite ?V1; eauto). cbn [andb] in Hm.
      destruct (touched U v0) eqn:Et.
      * rewrite rebuilt_members in Hm. destruct (v_members v0 !! a) as [m0 |]; [| done]. by injection Hm as <-.
      * rewrite (Hx spec v0 a m Hv0 Hm). symmetry. apply eligible_mac, Hkn. intros Ha.
        assert (touched U v0 = true) by (eapply touched_spec; eauto). congruence.
    + intros Hkn'. destruct EU. apply set_eq. intros a. rewrite U1. split; [| by intros ?%not_elem_of_empty].
      intros [? | (Hin & Hs & Hn)]; [done |]. rewrite B1 in Hs. destruct (Hkn' a); [by apply Hl | done].
Qed.

End LbProps.
