(* ===== verification/LbHealth.v ===== *)
(** * Hysteresis of health checks

    What a probe result does to a member, as an automaton on (up, consecutive
    successes, consecutive failures), and what the automaton does on a history
    of results. [report_health] is shown to follow it in HealthChecker.v. *)

From Stdlib Require Import ZArith Lia.
From S2P Require Import Prelude Abi Control RealTable LbState LbInv LbProps.

Module LbHealth.
Import LbState LbProps.

(** [n] times [b] in a row, somewhere. *)
Definition has_run (b : bool) (n : nat) (l : list bool) : Prop := ∃ l1 l2, l = l1 ++ replicate n b ++ l2.

Definition view (m : Member) : bool * Z * Z := (m_up m, m_consecutive_ok m, m_consecutive_fail m).

Definition bstep (rise fall : Z) (s : bool * Z * Z) (b : bool) : bool * Z * Z :=
  let '(u, o, f) := s in
  if b then (u || (rise <=? u32 (o + 1)), u32 (o + 1), 0)
  else (u && negb (fall <=? u32 (f + 1)), 0, u32 (f + 1)).

Lemma view_step now rise fall r m :
  pr_local_error r = false → view (health_step now rise fall r m) = bstep rise fall (view m) (pr_ok r).
Proof.
  intros Hl. unfold health_step, view, bstep. rewrite Hl. destruct (pr_ok r); cbn [m_up count_ok count_fail m_consecutive_ok m_consecutive_fail].
  - destruct (m_up m) eqn:E; cbn [negb andb orb]; [by rewrite <-E |].
    destruct (rise <=? _); cbn; rewrite ?E; done.
  - destruct (m_up m) eqn:E; cbn [negb andb]; [| by rewrite <-E].
    destruct (fall <=? _); cbn; rewrite ?E; done.
Qed.

(** Up and down are symmetric. *)
Definition swap (s : bool * Z * Z) : bool * Z * Z := let '(u, o, f) := s in (negb u, f, o).

Lemma swap_step rise fall s b : bstep fall rise (swap s) (negb b) = swap (bstep rise fall s b).
Proof.
  destruct s as [[u o] f]. unfold bstep, swap. destruct b; cbn [negb].
  - by destruct u, (rise <=? _).
  - by destruct u, (fall <=? _).
Qed.

Lemma swap_run rise fall l s : foldl (bstep fall rise) (swap s) (negb <$> l) = swap (foldl (bstep rise fall) s l).
Proof. revert s. induction l as [| b l IH]; intros s; [done |]. rewrite fmap_cons. cbn [foldl]. by rewrite swap_step, IH. Qed.

Lemma has_run_negb b n l : has_run (negb b) n (negb <$> l) → has_run b n l.
Proof.
  intros (l1 & l2 & E). exists (negb <$> l1), (negb <$> l2).
  assert (l = negb <$> (negb <$> l)) as ->.
  { rewrite <-list_fmap_compose. symmetry. rewrite (list_fmap_ext _ id); [apply list_fmap_id |]. intros _ x _. apply negb_involutive. }
  rewrite E, !fmap_app, fmap_replicate. by rewrite negb_involutive.
Qed.

(** The counter of the results that would change the state stays below its
    threshold. *)
Definition below (rise fall : Z) (s : bool * Z * Z) : Prop :=
  let '(u, o, f) := s in 0 <= o ∧ 0 <= f ∧ (if u then f < fall else o < rise).

Lemma below_swap rise fall s : below rise fall s → below fall rise (swap s).
Proof. destruct s as [[u o] f]. unfold below, swap. destruct u; cbn [negb]; tauto. Qed.

Lemma below_step rise fall s b :
  1 <= rise < 2 ^ 32 → 1 <= fall < 2 ^ 32 → below rise fall s → below rise fall (bstep rise fall s b).
Proof.
  intros Hr Hf. destruct s as [[u o] f]. unfold below, bstep. intros (Ho & Hf0 & Hb).
  destruct b, u; cbn [orb andb].
  - assert (0 <= u32 (o + 1)) by apply Z.mod_pos_bound, eq_refl. lia.
  - rewrite u32_id by (unfold is_u; lia). destruct (Z.leb_spec rise (o + 1)); lia.
  - rewrite u32_id by (unfold is_u; lia). destruct (Z.leb_spec fall (f + 1)); cbn [negb]; lia.
  - assert (0 <= u32 (f + 1)) by apply Z.mod_pos_bound, eq_refl. lia.
Qed.

Lemma below_run rise fall l s :
  1 <= rise < 2 ^ 32 → 1 <= fall < 2 ^ 32 → below rise fall s → below rise fall (foldl (bstep rise fall) s l).
Proof. intros Hr Hf. revert s. induction l as [| b l IH]; intros s H; [done |]. cbn [foldl]. apply IH. by apply below_step. Qed.

Definition up_of (s : bool * Z * Z) : bool := let '(u, _, _) := s in u.

(** Enough failures in a row take the member down. *)
Lemma fails_down rise fall n u o f :
  1 <= rise < 2 ^ 32 → 1 <= fall < 2 ^ 32 → below rise fall (u, o, f) →
  (u = true → fall <= f + Z.of_nat n) → up_of (foldl (bstep rise fall) (u, o, f) (replicate n false)) = false.
Proof.
  intros Hr Hf. revert u o f. induction n as [| n IH]; intros u o f Hb Hn.
  - destruct u; [| done]. destruct Hb as (_ & _ & Hb). specialize (Hn eq_refl). lia.
  - cbn [replicate foldl]. pose proof (below_step _ _ _ false Hr Hf Hb) as Hb'. unfold bstep in *.
    apply IH; [done |]. destruct u; cbn [andb]; [| done]. destruct Hb as (_ & Hf0 & Hb). specialize (Hn eq_refl).
    rewrite u32_id by (unfold is_u; lia). lia.
Qed.

(** A member that goes down has seen enough failures in a row. *)
Lemma down_failed rise fall l o f :
  1 <= fall < 2 ^ 32 → 0 <= f < fall → up_of (foldl (bstep rise fall) (true, o, f) l) = false →
  has_run false (Z.to_nat fall) (replicate (Z.to_nat f) false ++ l).
Proof.
  intros Hf. revert o f. induction l as [| b l IH]; intros o f Hf0 Hd; [done |]. cbn [foldl] in Hd. unfold bstep at 2 in Hd.
  destruct b.
  - cbn [orb] in Hd. destruct (IH _ 0 ltac:(lia) Hd) as (l1 & l2 & E).
    exists (replicate (Z.to_nat f) false ++ true :: l1), l2. change (l = l1 ++ replicate (Z.to_nat fall) false ++ l2) in E. by rewrite E, <-app_assoc.
  - rewrite u32_id in Hd by (unfold is_u; lia). cbn [andb] in Hd. destruct (Z.leb_spec fall (f + 1)) as [Hle | Hlt].
    + exists [], l. cbn [app]. replace (Z.to_nat fall) with (S (Z.to_nat f)) by lia.
      by rewrite replicate_S_end, <-app_assoc.
    + cbn [negb] in Hd. destruct (IH 0 (f + 1) ltac:(lia) Hd) as (l1 & l2 & E). exists l1, l2. rewrite <-E.
      replace (Z.to_nat (f + 1)) with (S (Z.to_nat f)) by lia. by rewrite replicate_S_end, <-app_assoc.
Qed.

Section hysteresis.
Context (rise fall : Z) (Hr : 1 <= rise < 2 ^ 32) (Hf : 1 <= fall < 2 ^ 32).

Lemma goes_down s l l' :
  below rise fall s → l = l' ++ replicate (Z.to_nat fall) false → up_of (foldl (bstep rise fall) s l) = false.
Proof.
  intros Hb ->. rewrite foldl_app. pose proof (below_run _ _ l' _ Hr Hf Hb) as Hb'.
  destruct (foldl _ s l') as [[u o] f]. apply fails_down; try done. destruct Hb' as (_ & ? & _). lia.
Qed.

Lemma stays_up o f l :
  below rise fall (true, o, f) → ¬ has_run false (Z.to_nat fall) (replicate (Z.to_nat f) false ++ l) →
  up_of (foldl (bstep rise fall) (true, o, f) l) = true.
Proof.
  intros (_ & Hf0 & Hb) Hn. destruct (up_of (foldl _ _ l)) eqn:E; [done |]. destruct Hn. by apply (down_failed rise fall l o f).
Qed.

End hysteresis.

Lemma replicate_negb n b : negb <$> replicate n b = replicate n (negb b).
Proof. apply fmap_replicate. Qed.

Lemma up_of_swap s : up_of (swap s) = negb (up_of s).
Proof. by destruct s as [[u o] f]. Qed.

(** The automaton changes state only on enough results in a row, those counted
    before included, and always on enough of them. *)
Lemma hysteresis (rise fall : Z) (u : bool) (o f : Z) (l : list bool) :
  1 <= rise < 2 ^ 32 → 1 <= fall < 2 ^ 32 → below rise fall (u, o, f) →
  let u' := up_of (foldl (bstep rise fall) (u, o, f) l) in
  (u = true → ¬ has_run false (Z.to_nat fall) (replicate (Z.to_nat f) false ++ l) → u' = true) ∧
  (u = false → ¬ has_run true (Z.to_nat rise) (replicate (Z.to_nat o) true ++ l) → u' = false) ∧
  (∀ l', l = l' ++ replicate (Z.to_nat fall) false → u' = false) ∧
  (∀ l', l = l' ++ replicate (Z.to_nat rise) true → u' = true).
Proof.
  intros Hr Hf Hb u'. subst u'. pose proof (below_swap _ _ _ Hb) as Hb'. split_and!.
  - intros -> Hn. by apply stays_up.
  - intros -> Hn. apply negb_true_iff. rewrite <-up_of_swap, <-swap_run. apply stays_up; try done. intros Hrun. apply Hn, has_run_negb.
    by rewrite fmap_app, replicate_negb.
  - intros l' E. by eapply goes_down.
  - intros l' E. apply negb_false_iff. rewrite <-up_of_swap, <-swap_run. eapply (goes_down fall rise Hf Hr); [done |].
    rewrite E, fmap_app, replicate_negb. reflexivity.
Qed.

End LbHealth.
