(* ===== verification/LbTheorems.v ===== *)
(** * Theorems about the control plane *)

From Stdlib Require Import ZArith Lia.
From S2P Require Import Prelude Abi VipSpec Maglev Control RealTable Config LbState LbInv LbProps.

#[local] Set Warnings "-clear-no-such-hyp".

Module LbTheorems.
Import RealTable LbState LbInv LbProps.

(** ** An initialised balancer without VIPs, for the witnesses *)

Definition empty_state : LbState.t := set_initialized true (LbState.fresh §"eth0").
Definition empty_world : World LbState.t := mk_world empty_state (fresh_maps 1) [] [].
Definition env0 : CEnv := mk_cenv (λ _, []) 0 None [] 1.
Definition vip80 : VipSpec.t := VipSpec.mk 0x6400000a 0x5000 6.
Definition vip443 : VipSpec.t := VipSpec.mk 0x6400000a 0xbb01 6.

Lemma empty_inv : inv (obj empty_world) (km empty_world).
Proof.
  split; cbn [obj km empty_world empty_state set_initialized reals_ vips_ adopted_vip_ids_ LbState.fresh hash_];
    [apply inv_fresh | apply mirror_fresh | try done..].
  intros k val. cbn. rewrite lookup_empty. split; [done |]. by intros (spec & v & ? & _).
Qed.

Lemma empty_calm : calm empty_world.
Proof. apply Forall_nil_2. Qed.

(** ** Refinement *)

(** C9: every API call does to the configured VIPs exactly what its abstract
    specification says, when no bpf call fails: it succeeds or throws the
    specified error, and a call that throws leaves the daemon and the kernel
    maps exactly as they were. *)
Theorem api_refines (e : CEnv) (c : api_call) (w : World LbState.t) :
  inv (obj w) (km w) → calm w →
  let '(r, w') := run_api e c w in
  match spec_api c (abs (obj w)) with
  | Ok x => r = Ok () ∧ abs (obj w') = x
  | Throw ex => r = Throw ex ∧ w' = w
  end.
Proof.
  intros Hi Hc. pose proof (api_done_all e c w Hi Hc) as H. destruct (run_api e c w) as [r w'].
  unfold api_done in H. destruct (spec_api c (abs (obj w))); [| done]. by destruct H as (? & ? & _).
Qed.

Lemma api_refines_witness :
  ∃ w1 w2 w3, run_api env0 (AddVip vip80 false) empty_world = (Ok (), w1) ∧
    abs (obj w1) = {[ vip80 := (0, ∅) ]} ∧
    run_api env0 (DelVip vip443) empty_world = (Throw (unknown_vip vip443), w2) ∧ w2 = empty_world ∧
    run_api env0 (AddReal vip80 7 1001) empty_world = (Throw (unknown_vip vip80), w3).
Proof.
  pose proof (api_refines env0 (AddVip vip80 false) empty_world empty_inv empty_calm) as H1.
  pose proof (api_refines env0 (DelVip vip443) empty_world empty_inv empty_calm) as H2.
  pose proof (api_refines env0 (AddReal vip80 7 1001) empty_world empty_inv empty_calm) as H3.
  destruct (run_api env0 (AddVip vip80 false) empty_world) as [r1 w1].
  destruct (run_api env0 (DelVip vip443) empty_world) as [r2 w2].
  destruct (run_api env0 (AddReal vip80 7 1001) empty_world) as [r3 w3].
  exists w1, w2, w3. destruct H1 as [-> H1], H2 as [-> ->], H3 as [-> ->].
  split; [reflexivity |]. split; [exact H1 |]. split; [reflexivity |]. split; reflexivity.
Defined.

(** ** Rings *)

(** Rebuilding the ring of a VIP installs, in one swap, the ring that
    build_ring makes of exactly the members that are UP, not draining, of
    positive weight and with a known MAC, each with its weight, and records for
    each member whether it is in the ring; nothing else in the maps changes. *)
Theorem rebuild_installs_eligible (e : CEnv) (L : held) (X Y : gset VipSpec.t) (spec : VipSpec.t) (v : Vip) (w : World LbState.t) :
  inv_in L X Y (obj w) (km w) → calm w → vips_ (obj w) !! spec = Some v →
  ∃ r w' v', rebuild_locked e spec w = (Ok (), w') ∧ hist w' = hist w ++ [km w'] ∧
    km w' = set_rings <[v_id v := r]> (km w) ∧ vips_ (obj w') !! spec = Some v' ∧
    Maglev.build_ring (backends_of (reals_ (obj w)) (v_members v')) (hash_ (obj w)) PB_RING_SIZE = Some (Ok r) ∧
    ∀ a m', v_members v' !! a = Some m' ↔
      ∃ m, v_members v !! a = Some m ∧ m' = set_in_ring (eligible (reals_ (obj w)) a m) m.
Proof.
  intros Hi Hc Hv. destruct (rebuild_lb L X Y e spec v w Hi Hc Hv) as (r & w' & H & O & K & Hi' & G & Hh).
  exists r, w', (rebuilt (reals_ (obj w)) v).
  assert (vips_ (obj w') !! spec = Some (rebuilt (reals_ (obj w)) v)) as Hv' by (rewrite O; apply lookup_insert_eq).
  split_and!; try done.
  - destruct (i_ring _ _ _ _ _ Hi' spec _ Hv') as (r' & Hr & Hb).
    { rewrite not_elem_of_difference. right. by apply elem_of_singleton. }
    rewrite K in Hr. cbn [rings set_rings v_id rebuilt bump_generation set_members] in Hr. rewrite lookup_insert_eq in Hr.
    injection Hr as <-. by rewrite O in Hb.
  - intros a m'. rewrite rebuilt_members. destruct (v_members v !! a) as [m |]; cbn.
    + split; [intros [= <-]; eauto | by intros (m0 & [= <-] & ->)].
    + split; [done | by intros (m0 & ? & _)].
Qed.

(** ** A balancer with two VIPs, the real 10.0.0.7 on the first one *)

Definition real7 : Z := 0x0700000a.
Definition mac7 : pb_mac := mk_pb_mac 2 0 0 0 0 7.
Definition member7 (b : bool) : Member := mk_member 1 false true 0 0 0 0 b 1.
Definition two_vips (b : bool) : gmap VipSpec.t Vip :=
  {[ vip80 := mk_vip vip80 0 0 1 {[ real7 := member7 b ]}; vip443 := mk_vip vip443 1 0 1 ∅ ]}.
Definition two_state (tb : RealTable.t) (b : bool) : LbState.t :=
  mk §"eth0" tb (two_vips b) ∅ Maglev.ModeMaglev None true true 2.

Definition built_ring (tb : RealTable.t) (ms : gmap Z Member) : list Z :=
  match Maglev.build_ring (backends_of tb ms) Maglev.ModeMaglev PB_RING_SIZE with Some (Ok r) => r | _ => [] end.
Definition two_maps (tb : RealTable.t) (b : bool) : Maps :=
  mk_maps {[ VipSpec.key vip80 := mk_vip_value 0 0; VipSpec.key vip443 := mk_vip_value 1 0 ]}
    {[ 0 := built_ring tb {[ real7 := member7 b ]}; 1 := built_ring tb ∅ ]}
    (real_of_slot <$> slots tb) (mac_of_slot <$> slots tb) ∅
    (replicate 65 [pb_stats0]) (replicate 512 [real_stats0])
    [mk_pb_config (mk_pb_mac 2 0 0 0 0 1) 0x000010ac 0x0000ffff 0].
Definition two_world (tb : RealTable.t) (b : bool) : World LbState.t := mk_world (two_state tb b) (two_maps tb b) [] [].

(** Its table of reals, without and with the MAC. *)
Definition table7 : RealTable.t := tb_fill real7 1 RealTable.fresh.
Definition table7_mac : RealTable.t := tb_set_mac real7 mac7 table7.

Lemma built_ring_spec tb ms :
  Maglev.build_ring (backends_of tb ms) Maglev.ModeMaglev PB_RING_SIZE = Some (Ok (built_ring tb ms)).
Proof. destruct (ring_built tb ms Maglev.ModeMaglev) as (r & H & _). unfold built_ring. by rewrite H. Qed.

Lemma two_lookup b spec v :
  two_vips b !! spec = Some v →
  spec = vip80 ∧ v = mk_vip vip80 0 0 1 {[ real7 := member7 b ]} ∨ spec = vip443 ∧ v = mk_vip vip443 1 0 1 ∅.
Proof.
  unfold two_vips. rewrite lookup_insert_Some. intros [[<- <-] | [_ [<- <-]%lookup_singleton_Some]]; auto.
Qed.

Lemma two_inv tb i b :
  RealTable.inv tb → by_addr tb = {[ real7 := i ]} → s_refs (slot tb i) = 1 →
  (b = true → is_Some (mac_of tb real7)) → inv (two_state tb b) (two_maps tb b).
Proof.
  intros Ht Hby Hrefs Hmac.
  assert (∀ spec v, two_vips b !! spec = Some v → ∃ r, rings (two_maps tb b) !! v_id v = Some r ∧
    Maglev.build_ring (backends_of tb (v_members v)) Maglev.ModeMaglev PB_RING_SIZE = Some (Ok r)) as Hring.
  { intros spec v [[-> ->] | [-> ->]]%two_lookup; cbn [v_id v_members]; eexists; (split; [| apply built_ring_spec]).
    - apply lookup_insert_eq.
    - cbn [rings two_maps]. rewrite lookup_insert_ne by done. apply lookup_singleton_eq. }
  assert (inv_in [] ∅ {[vip80; vip443]} (two_state tb b) (set_vip_map (λ _, ∅) (two_maps tb b))) as Hi.
  { split; cbn [two_state reals_ vips_ adopted_vip_ids_ hash_]; try done.
    - intros spec v [[-> ->] | [-> ->]]%two_lookup; done.
    - intros spec v [[-> ->] | [-> ->]]%two_lookup; done.
    - intros s1 s2 v1 v2 [[-> ->] | [-> ->]]%two_lookup [[-> ->] | [-> ->]]%two_lookup; done.
    - intros a. unfold refs_of. rewrite Hby, fmap_nil, occ_nil. unfold two_vips.
      rewrite count_insert_new by done. rewrite <-(insert_empty vip443), count_insert_new by done. unfold count, ind. rewrite map_filter_empty, map_size_empty. cbn [v_members].
      rewrite lookup_empty, decide_False by (by intros []). destruct (decide (real7 = a)) as [<- | Hne].
      + rewrite !lookup_singleton_eq, decide_True by eauto. lia.
      + rewrite !lookup_singleton_ne, decide_False by (done || by intros []). lia.
    - intros a id. rewrite Hby. intros [<- <-]%lookup_singleton_Some. lia.
    - intros spec v a mb [[-> ->] | [-> ->]]%two_lookup _; cbn [v_members]; [| by rewrite lookup_empty].
      intros [<- <-]%lookup_singleton_Some Hin. unfold eligible. cbn [m_weight m_draining m_up member7 negb andb Z.ltb].
      cbn in Hin. by rewrite bool_decide_eq_true_2 by auto.
    - intros k val. cbn [vip_map set_vip_map]. rewrite lookup_empty. split; [done |].
      intros (spec & v & [[-> ->] | [-> ->]]%two_lookup & HY & _); set_solver.
    - intros spec v [[-> ->] | [-> ->]]%two_lookup HY; set_solver.
    - intros spec v Hv _. exact (Hring spec v Hv). }
  eapply (inv_publish _ _ _ _ _ vip443) in Hi; [| unfold two_state, two_vips; cbn [vips_]; rewrite lookup_insert_ne by done; apply lookup_singleton_eq | done].
  eapply (inv_publish _ _ _ _ _ vip80) in Hi; [| unfold two_state, two_vips; cbn [vips_]; apply lookup_insert_eq | done].
  replace (({[vip80; vip443]} ∖ {[vip443]}) ∖ {[vip80]} : gset VipSpec.t) with (∅ : gset VipSpec.t) in Hi by set_solver.
  eapply inv_maps; [exact Hi | done..].
Qed.

Lemma table7_ok : RealTable.inv table7 ∧ by_addr table7 = {[ real7 := 1 ]} ∧ s_refs (slot table7 1) = 1 ∧ mac_of table7 real7 = None.
Proof. split_and!; [apply inv_tb_fill; try done; apply inv_fresh | done..]. Qed.

Lemma table7_mac_ok :
  RealTable.inv table7_mac ∧ by_addr table7_mac = {[ real7 := 1 ]} ∧ s_refs (slot table7_mac 1) = 1 ∧ mac_of table7_mac real7 = Some mac7.
Proof.
  destruct table7_ok as (Ht & _). split_and!; [| done..]. apply (inv_update table7 1 1 (Some mac7) Ht); done.
Qed.

Lemma two_world_inv : inv (obj (two_world table7_mac true)) (km (two_world table7_mac true)).
Proof. destruct table7_mac_ok as (H1 & H2 & H3 & H4). apply (two_inv _ 1); try done. Qed.

Lemma two_calm tb b : calm (two_world tb b).
Proof. apply Forall_nil_2. Qed.

Lemma rebuild_installs_eligible_witness :
  ∃ r w' v', rebuild_locked env0 vip80 (two_world table7_mac true) = (Ok (), w') ∧
    rings (km w') !! 0 = Some r ∧ length r = Z.to_nat PB_RING_SIZE ∧
    v_members v' !! real7 = Some (member7 true).
Proof.
  destruct (rebuild_installs_eligible env0 [] ∅ ∅ vip80 (mk_vip vip80 0 0 1 {[ real7 := member7 true ]})
              (two_world table7_mac true)) as (r & w' & v' & H1 & H2 & H3 & H4 & H5 & H6);
    [apply two_world_inv | apply two_calm | apply lookup_insert_eq |].
  exists r, w', v'. split; [exact H1 |]. split; [rewrite H3; apply lookup_insert_eq |]. split.
  - destruct (ring_built (reals_ (obj (two_world table7_mac true))) (v_members v') Maglev.ModeMaglev) as (r' & E & Hl & _).
    change (hash_ (obj (two_world table7_mac true))) with Maglev.ModeMaglev in H5. congruence.
  - apply H6. exists (member7 true). split; [apply lookup_singleton_eq |]. unfold eligible.
    destruct table7_mac_ok as (_ & _ & _ & H7). change (reals_ (obj (two_world table7_mac true))) with table7_mac.
    rewrite H7. reflexivity.
Defined.

(** ** Health *)

(** A health report about a real that was deleted, or deleted and added
    again while the probe was in flight, or that failed for a reason local to
    the balancer, changes nothing at all; any other one updates exactly the
    counters and the state of that member, and touches the kernel maps only when
    the member changes between UP and DOWN. *)
Theorem report_health_spec (e : CEnv) (h : HealthTarget) (p : ProbeResult) (rise fall : Z) (w : World LbState.t) :
  inv (obj w) (km w) → calm w →
  let '(r, w') := report_health e h p rise fall w in
  r = Ok () ∧
  match target_member (obj w) h with
  | Some (v, m) =>
      if pr_local_error p then w' = w else
      obj w' = set_vips <[ht_vip h := reported (epoch_ms e) rise fall p (reals_ (obj w)) (ht_addr h) v m]> (obj w) ∧
      (m_up (health_step (epoch_ms e) rise fall p m) = m_up m → km w' = km w)
  | None => w' = w
  end.
Proof.
  intros Hi Hc. destruct (target_member (obj w) h) as [[v m] |] eqn:Ht.
  - destruct (pr_local_error p) eqn:El.
    + rewrite (report_skipped e h p rise fall w) by auto. done.
    + destruct (report_run e h p rise fall w v m Hi Hc Ht El) as (w' & H & _ & _ & O & K). rewrite H. done.
  - rewrite (report_skipped e h p rise fall w) by auto. done.
Qed.

Lemma report_health_spec_witness :
  let h := mk_target vip80 real7 1 in
  let '(r, w') := report_health env0 h (mk_probe false 0 [] false) 2 3 (two_world table7_mac true) in
  r = Ok () ∧ km w' = km (two_world table7_mac true) ∧
  (v ← vips_ (obj w') !! vip80; m ← v_members v !! real7; Some (m_up m, m_consecutive_fail m)) = Some (true, 1).
Proof.
  cbv zeta. pose proof (report_health_spec env0 (mk_target vip80 real7 1) (mk_probe false 0 [] false) 2 3 (two_world table7_mac true)
    two_world_inv (two_calm _ _)) as H.
  destruct (report_health _ _ _ _ _ _) as [r w']. destruct H as [H1 H2]. split; [exact H1 |].
  assert (target_member (obj (two_world table7_mac true)) (mk_target vip80 real7 1) =
          Some (mk_vip vip80 0 0 1 {[ real7 := member7 true ]}, member7 true)) as E by reflexivity.
  rewrite E in H2. cbn [pr_local_error] in H2. destruct H2 as [H2 H3]. split; [apply H3; reflexivity |].
  rewrite H2. reflexivity.
Defined.

(** ** Neighbours *)

(** When the MAC of a next hop or of a real becomes known, every real it
    concerns gets it, no other MAC, VIP or member changes, and every VIP with a
    real that becomes usable has its ring rebuilt: rings that were up to date
    with the members' state are up to date afterwards. *)
Theorem neighbor_resolved_spec (e : CEnv) (ip : Z) (mac : pb_mac) (w : World LbState.t) :
  inv (obj w) (km w) → calm w →
  let '(r, w') := neighbor_resolved e ip mac w in
  r = Ok () ∧ abs (obj w') = abs (obj w) ∧
  (∀ a, mac_of (reals_ (obj w')) a = if resolves (obj w) ip a then Some mac else mac_of (reals_ (obj w)) a) ∧
  (exact (obj w) → exact (obj w')).
Proof.
  intros Hi Hc. destruct (neighbor_run e ip mac w Hi Hc) as (w' & H & _ & _ & A & _ & M & X & _). rewrite H.
  split_and!; done.
Qed.

Lemma two_exact : exact (obj (two_world table7 false)).
Proof.
  intros spec v a m [[-> ->] | [-> ->]]%two_lookup; cbn [v_members]; [| by rewrite lookup_empty].
  intros [<- <-]%lookup_singleton_Some. unfold eligible. cbn [reals_ obj two_world two_state].
  destruct table7_ok as (_ & _ & _ & ->). done.
Qed.

Lemma two_world_unresolved : inv (obj (two_world table7 false)) (km (two_world table7 false)).
Proof. destruct table7_ok as (H1 & H2 & H3 & H4). by apply (two_inv _ 1). Qed.

Lemma neighbor_resolved_spec_witness :
  let '(r, w') := neighbor_resolved env0 real7 mac7 (two_world table7 false) in
  r = Ok () ∧ mac_of (reals_ (obj w')) real7 = Some mac7 ∧ exact (obj w').
Proof.
  pose proof (neighbor_resolved_spec env0 real7 mac7 (two_world table7 false) two_world_unresolved (two_calm _ _)) as H.
  destruct (neighbor_resolved env0 real7 mac7 (two_world table7 false)) as [r w'].
  destruct H as (H1 & H2 & H3 & H4). split; [exact H1 |]. split; [| apply H4, two_exact].
  rewrite H3. reflexivity.
Defined.

(** ** What the model shows wrong *)

(** A real can be left out of a ring for good. 10.0.0.7 is on one VIP with
    its MAC still unknown, the kernel learns the MAC, and the real is added to a
    second VIP: add_real asks the kernel and records the MAC, but only the second
    VIP's ring is rebuilt. When the resolver then reports the MAC it is no news,
    so the first VIP's ring stays without a real that is UP, not draining, of
    positive weight and with a known MAC. *)
Theorem shared_real_left_out :
  let e := mk_cenv (λ _, []) 0 (Some (λ _, Some mac7)) [] 1 in
  ∃ id w1 w2 v m,
    add_real e vip443 real7 1 (two_world table7 false) = (Ok id, w1) ∧
    neighbor_resolved e real7 mac7 w1 = (Ok (), w2) ∧
    vips_ (obj w2) !! vip80 = Some v ∧ v_members v !! real7 = Some m ∧
    eligible (reals_ (obj w2)) real7 m = true ∧ m_in_ring m = false.
Proof.
  intros e. set (w := two_world table7 false).
  assert (vips_ (obj w) !! vip443 = Some (mk_vip vip443 1 0 1 ∅)) as Hv443
    by (cbn [vips_ obj w two_world two_state]; unfold two_vips; rewrite lookup_insert_ne by done; apply lookup_singleton_eq).
  assert (vips_ (obj w) !! vip80 = Some (mk_vip vip80 0 0 1 {[ real7 := member7 false ]})) as Hv80 by apply lookup_insert_eq.
  destruct (add_real_run e vip443 real7 1 (mk_vip vip443 1 0 1 ∅) w two_world_unresolved (two_calm _ _) Hv443) as [(Hn & _) | (_ & id & w1 & H1 & Hi1 & G1 & S1 & V1 & M1)];
    [done | done | |].
  { pose proof (dom_reals _ _ _ _ two_world_unresolved) as Hd. fold w in Hd. rewrite <-Hd in Hn. destruct Hn. apply elem_of_dom.
    destruct table7_ok as (_ & Hby & _). cbn [reals_ obj w two_world two_state]. rewrite Hby, lookup_singleton_eq. eauto. }
  assert (asked e (obj w) real7 = Some mac7) as Hask by (unfold asked; cbn [reals_ obj w two_world two_state]; destruct table7_ok as (_ & _ & _ & ->); done).
  assert (mac_of (reals_ (obj w1)) real7 = Some mac7) as Hm7 by (rewrite M1, decide_True by done; exact Hask).
  destruct (neighbor_run e real7 mac7 w1 Hi1 (g_calm _ _ G1)) as (w2 & H2 & _ & _ & _ & _ & M2 & _ & V2).
  exists id, w1, w2, (mk_vip vip80 0 0 1 {[ real7 := member7 false ]}), (member7 false).
  split; [| split; [exact H2 | split; [| split; [apply lookup_singleton_eq | split; [| reflexivity]]]]].
  - unfold add_real, vip_or_throw, mbind at 1, M_bind at 1. rewrite bind_get, Hv443. exact H1.
  - rewrite V2, V1, lookup_insert_ne; [exact Hv80 | done |].
    intros a. unfold resolves. destruct S1 as (_ & _ & E & _). rewrite E. cbn [next_hop_ obj w two_world two_state].
    rewrite andb_true_iff, Z.eqb_eq. intros [_ ->]. by rewrite Hm7.
  - unfold eligible. rewrite M2, Hm7. by destruct (resolves _ _ _).
Qed.

(** When creating the ring of a new VIP fails once, the VIP cannot be
    added any more: the failed call leaves it in the model, without a vip_map
    entry, so packets for it are not balanced, and a retry is refused because
    the VIP already exists. *)
Theorem failed_add_vip_blocks_retry :
  let ENOMEM := 12 in
  let '(r1, w1) := add_vip env0 vip80 false (mk_world empty_state (fresh_maps 1) [] [0; - ENOMEM]) in
  let '(r2, w2) := add_vip env0 vip80 false w1 in
  r1 = Throw (runtime_error §"create ring map: ") ∧ r2 = Throw (api_error §"vip already exists") ∧ w2 = w1 ∧
  vip_map (km w1) !! VipSpec.key vip80 = None ∧ v_id <$> vips_ (obj w1) !! vip80 = Some 0.
Proof. vm_compute. done. Qed.

End LbTheorems.
