(* ===== verification/LbApply.v ===== *)
(** * Reloading the configuration

    [LbState::apply] on a running daemon: VIPs that are gone are removed, new
    ones created, members added, removed and re-weighted, each ring rebuilt
    once, and the reals that lost their last VIP released after that. *)

From Stdlib Require Import ZArith Lia.
From S2P Require Import Prelude Abi VipSpec Maglev Control RealTable Config LbState LbInv LbProps LbTheorems.

#[local] Set Warnings "-clear-no-such-hyp".

Module LbApply.
Import RealTable LbState LbInv LbProps.

(** ** What a configuration asks for *)

(** The members of a VIP: the configured reals with their weights; those that
    were members keep being UP or DOWN, draining or not. *)
Definition want_members (want : gmap Z Z) (old : gmap Z AMember) : gmap Z AMember :=
  map_imap (λ a weight, Some match old !! a with
    | Some mb => mk_amember weight (am_draining mb) (am_up mb)
    | None => mk_amember weight false true
    end) want.

Definition old_members (x : Abs) (spec : VipSpec.t) : gmap Z AMember :=
  match x !! spec with Some (_, ms) => ms | None => ∅ end.

Definition want_vip (x : Abs) (vc : Config.VipConfig) : Z * gmap Z AMember :=
  (vip_flags vc, want_members (want_of vc) (old_members x (Config.vc_spec vc))).

Definition spec_apply (cfg : Config.t) (x : Abs) : Abs :=
  list_to_map ((λ vc, (Config.vc_spec vc, want_vip x vc)) <$> Config.vips cfg).

Lemma lookup_want_members want old a :
  want_members want old !! a = (λ weight, match old !! a with
    | Some mb => mk_amember weight (am_draining mb) (am_up mb)
    | None => mk_amember weight false true
    end) <$> want !! a.
Proof. unfold want_members. rewrite map_lookup_imap. by destruct (want !! a). Qed.

Lemma want_of_spec vc a weight :
  NoDup (Config.rc_addr <$> Config.vc_reals vc) →
  want_of vc !! a = Some weight ↔ Config.mk_real_config a weight ∈ Config.vc_reals vc.
Proof.
  unfold want_of. generalize (Config.vc_reals vc). clear vc. intros l.
  induction l as [| r l IH] using rev_ind; intros Hnd.
  { cbn. rewrite lookup_empty. split; [done | by intros ?%not_elem_of_nil]. }
  rewrite fmap_app in Hnd. apply NoDup_app in Hnd as (Hnd & Hd & _).
  rewrite foldl_snoc, lookup_insert_Some, IH, elem_of_app, list_elem_of_singleton by done. split.
  - intros [[<- <-] | [_ ?]]; [right | by left]. by destruct r.
  - intros [Hin | <-]; [right | by left]. split; [| done]. intros E.
    apply (Hd (Config.rc_addr r)); [| apply list_elem_of_here].
    rewrite E. exact (list_elem_of_fmap_2 Config.rc_addr _ _ Hin).
Qed.

Lemma want_of_addr vc a :
  NoDup (Config.rc_addr <$> Config.vc_reals vc) → is_Some (want_of vc !! a) → a ∈ Config.rc_addr <$> Config.vc_reals vc.
Proof. intros Hnd [weight H%want_of_spec]; [| done]. exact (list_elem_of_fmap_2 Config.rc_addr _ _ H). Qed.

(** ** The invariant under the steps of a reload *)

(** Only VIPs that exist can be out of date. *)
Lemma inv_stale L X X' Y s m :
  inv_in L X Y s m → (∀ sp, is_Some (vips_ s !! sp) → sp ∈ X → sp ∈ X') → inv_in L X' Y s m.
Proof.
  intros Hi HX. split; try apply Hi.
  - intros sp v a mb Hv Hn. apply (i_in_ring _ _ _ _ _ Hi sp v a mb Hv). intros ?. apply Hn, HX; eauto.
  - intros sp v Hv Hn. apply (i_ring _ _ _ _ _ Hi sp v Hv). intros ?. apply Hn, HX; eauto.
Qed.

(** Another hash makes every ring out of date. *)
Lemma inv_mode L X Y s m h nh he :
  inv_in L X Y s m → (h = hash_ s ∨ ∀ sp, is_Some (vips_ s !! sp) → sp ∈ X) → inv_in L X Y (set_mode h nh he s) m.
Proof.
  intros Hi [-> | HX]; split; cbn [reals_ vips_ adopted_vip_ids_ hash_ set_mode]; try apply Hi.
  intros sp v Hv Hn. destruct Hn. eauto.
Qed.

(** The entry of a VIP is written with other flags. *)
Lemma inv_flags L X Y s m spec v flags :
  inv_in L X Y s m → vips_ s !! spec = Some v → spec ∉ Y →
  inv_in L X Y (set_vips <[spec := set_flags flags v]> s)
    (set_vip_map <[VipSpec.key spec := mk_vip_value (v_id v) flags]> m).
Proof.
  intros Hi Hv HY.
  assert (∀ sp u, <[spec := set_flags flags v]> (vips_ s) !! sp = Some u →
    ∃ u0, vips_ s !! sp = Some u0 ∧ v_spec u = v_spec u0 ∧ v_id u = v_id u0 ∧ v_members u = v_members u0 ∧
          (sp = spec ∧ v_flags u = flags ∨ sp ≠ spec ∧ u = u0)) as Hold.
  { intros sp u. destruct (decide (sp = spec)) as [-> | Hne].
    - rewrite lookup_insert_eq. intros [= <-]. exists v. split_and!; auto.
    - rewrite lookup_insert_ne by done. intros Hu. exists u. split_and!; auto. }
  split; cbn [reals_ vips_ adopted_vip_ids_ hash_ set_vips vip_map rings set_vip_map]; try apply Hi.
  - by destruct (i_mirror _ _ _ _ _ Hi).
  - intros sp u (u0 & H0 & -> & _)%Hold. by apply (i_spec _ _ _ _ _ Hi).
  - intros sp u (u0 & H0 & _ & -> & _)%Hold. by apply (i_id _ _ _ _ _ Hi sp).
  - intros sp sp' u u' (u0 & H0 & _ & -> & _)%Hold (u0' & H0' & _ & -> & _)%Hold. by apply (i_inj _ _ _ _ _ Hi).
  - intros a. rewrite (i_refs _ _ _ _ _ Hi a). pose proof (count_insert a spec v (set_flags flags v) _ Hv) as Hc.
    assert (ind a (set_flags flags v) = ind a v) by done. lia.
  - intros sp u a mb (u0 & H0 & _ & _ & -> & _)%Hold. by apply (i_in_ring _ _ _ _ _ Hi sp u0).
  - intros k val. rewrite lookup_insert. destruct (decide (VipSpec.key spec = k)) as [<- | Hne].
    + split.
      * intros [= <-]. exists spec, (set_flags flags v). rewrite lookup_insert_eq. split_and!; done.
      * intros (sp & u & Hu & _ & ->%key_inj & ->). rewrite lookup_insert_eq in Hu. by injection Hu as <-.
    + rewrite (i_map _ _ _ _ _ Hi). split.
      * intros (sp & u & Hu & H & -> & ->). exists sp, u. rewrite lookup_insert_ne by congruence. by split_and!.
      * intros (sp & u & Hu & H & -> & ->). assert (spec ≠ sp) by congruence.
        rewrite lookup_insert_ne in Hu by done. exists sp, u. by split_and!.
  - intros sp u (u0 & H0 & _ & E2 & E3 & _)%Hold H. rewrite E2.
    destruct (i_names _ _ _ _ _ Hi sp u0 H0 H) as (r & Hr & Hl & Hn). exists r. split; [done |]. split; [done |]. by rewrite E3.
  - intros sp u (u0 & H0 & _ & -> & -> & _)%Hold H. by apply (i_ring _ _ _ _ _ Hi sp).
Qed.

(** Members taken out of a VIP, their references kept. *)
Definition without (l : list Z) (ms : gmap Z Member) : gmap Z Member := filter (λ kv, kv.1 ∉ l) ms.

Lemma lookup_without l ms a : without l ms !! a = if decide (a ∈ l) then None else ms !! a.
Proof.
  unfold without. rewrite map_lookup_filter. destruct (ms !! a) as [mb |]; cbn; [| by destruct (decide _)].
  destruct (decide (a ∈ l)) as [Ha | Ha].
  - rewrite option_guard_False; [done | cbn; tauto].
  - rewrite option_guard_True; done.
Qed.

Lemma without_cons a l ms : without (a :: l) ms = without l (delete a ms).
Proof.
  apply map_eq. intros b. rewrite !lookup_without, lookup_delete. destruct (decide (b ∈ a :: l)) as [Hb | Hb]; rewrite elem_of_cons in Hb.
  - destruct (decide (b ∈ l)); [done |]. rewrite decide_True; [done | naive_solver].
  - rewrite !decide_False by naive_solver. done.
Qed.

Lemma inv_del_members L X Y s m spec v l :
  inv_in L X Y s m → vips_ s !! spec = Some v → NoDup l → (∀ a, a ∈ l → is_Some (v_members v !! a)) →
  inv_in ((pair spec <$> l) ++ L) ({[spec]} ∪ X) Y (set_vips <[spec := set_members (without l) v]> s) m.
Proof.
  intros Hi Hv Hnd Hin. eapply inv_change; try done.
  - intros sp a _ Ha. apply elem_of_app. by right.
  - intros a. rewrite fmap_app, occ_app, <-list_fmap_compose, (list_fmap_id l : (snd ∘ pair spec <$> _ = _)).
    unfold ind. cbn [v_members set_members]. rewrite lookup_without. destruct (decide (a ∈ l)) as [Ha | Ha].
    + rewrite (occ_NoDup a l Hnd Ha), (decide_True _ _ (Hin a Ha)), decide_False by (by intros []). lia.
    + rewrite (proj2 (occ_zero a l) Ha). lia.
  - intros a. cbn [v_members set_members]. rewrite lookup_without, elem_of_app.
    destruct (decide (a ∈ l)) as [Ha | Ha]; [| tauto]. right. left. by apply list_elem_of_fmap_2.
Qed.

(** ** Runs of the steps *)

Lemma write_config_lb L X Y e cfg mac w :
  inv_in L X Y (obj w) (km w) → calm w → Mac.parse (if_address e) = Some mac →
  ∃ w', write_config_map e cfg w = (Ok (), w') ∧ obj w' = obj w ∧
    config (km w') = <[0%nat := config_value mac cfg]> (config (km w)) ∧
    conntrack (km w') = conntrack (km w) ∧
    inv_in L X Y (obj w') (km w') ∧ calm w' ∧ ∃ ms, hist w' = hist w ++ ms ∧ Forall safe ms.
Proof.
  intros Hi Hc Hmac. unfold write_config_map. rewrite bind_get.
  erewrite bind_run by (unfold lift, read_interface_mac; rewrite Hmac; reflexivity).
  set (f := set_config _).
  destruct (checked_write_run f (λ err, §"write config map: " ++ errstr e err) w) as (r & w' & H & O & P & C).
  destruct (C Hc) as [-> Hc']. destruct P as [K S]. exists w'.
  assert (inv_in L X Y (obj w') (km w')) as Hi' by (rewrite O, K; by eapply inv_maps).
  split_and!; try done; [by rewrite K.. |]. eexists. split; [exact S |].
  apply Forall_cons. split; [| done]. rewrite <-K. by eapply inv_safe.
Qed.

(** Removing the VIPs that the configuration does not have. *)
Lemma delete_unwanted_lb (wanted : gset VipSpec.t) L X e l w :
  inv_in L X ∅ (obj w) (km w) → calm w →
  ∃ w', m_for l (λ spec, if bool_decide (spec ∈ wanted) then mret () else delete_vip_locked e spec) w = (Ok (), w') ∧
    inv_in L X ∅ (obj w') (km w') ∧ goes w w' ∧ same_settings (obj w) (obj w') ∧
    (∀ sp, vips_ (obj w') !! sp = if decide (sp ∈ l ∧ (sp ∉ wanted)) then None else vips_ (obj w) !! sp).
Proof.
  revert w. induction l as [| spec l IH]; intros w Hi Hc; cbn [m_for].
  { exists w. split_and!; try done. by apply goes_refl. }
  assert (∃ w1, (if bool_decide (spec ∈ wanted) then mret () else delete_vip_locked e spec) w = (Ok (), w1) ∧
    inv_in L X ∅ (obj w1) (km w1) ∧ goes w w1 ∧ same_settings (obj w) (obj w1) ∧
    (∀ sp, vips_ (obj w1) !! sp = if decide (sp = spec ∧ (sp ∉ wanted)) then None else vips_ (obj w) !! sp)) as (w1 & H1 & Hi1 & G1 & S1 & V1).
  { case_bool_decide as Hw.
    { exists w. split_and!; try done; [by apply goes_refl |]. intros sp. rewrite decide_False; [done | naive_solver]. }
    destruct (vips_ (obj w) !! spec) as [v |] eqn:Hv.
    - destruct (del_vip_run _ _ _ e spec v w Hi Hc Hv) as (w1 & tb & H & Hi1 & G & O).
      exists w1. split_and!; try done.
      + assert ((∅ : gset VipSpec.t) ∖ {[spec]} = ∅) as Ed by (clear; set_solver). rewrite Ed in Hi1.
        eapply inv_stale; [exact Hi1 |]. intros sp _ [? _]%elem_of_difference. done.
      + by rewrite O.
      + intros sp. rewrite O. cbn [vips_ set_vips set_reals_]. rewrite lookup_delete. destruct (decide (spec = sp)) as [<- | Hne].
        * by rewrite decide_True.
        * rewrite decide_False; [done | naive_solver].
    - exists w. unfold delete_vip_locked. rewrite bind_get, Hv. split_and!; try done; [by apply goes_refl |].
      intros sp. destruct (decide _) as [[-> _] |]; done. }
  erewrite bind_run by exact H1. destruct (IH w1 Hi1 (g_calm _ _ G1)) as (w2 & H2 & Hi2 & G2 & S2 & V2).
  exists w2. split_and!; try done; [by eapply goes_trans | by etrans |].
  intros sp. rewrite V2, V1. destruct (decide (sp ∈ l ∧ (sp ∉ wanted))) as [Ha | Ha], (decide (sp = spec ∧ (sp ∉ wanted))) as [Hb | Hb];
    first [rewrite decide_True by (rewrite elem_of_cons; tauto) | rewrite decide_False by (rewrite elem_of_cons; tauto)]; done.
Qed.

(** The flags of a VIP. *)
Lemma flags_lb L X Y e spec v flags w :
  inv_in L X Y (obj w) (km w) → calm w → vips_ (obj w) !! spec = Some v → spec ∉ Y →
  ∃ w', (if negb (v_flags v =? flags) then _ ← upd_vip spec (set_flags flags); write_vip_entry e spec else mret ()) w = (Ok (), w') ∧
    inv_in L X Y (obj w') (km w') ∧ goes w w' ∧ obj w' = set_vips <[spec := set_flags flags v]> (obj w).
Proof.
  intros Hi Hc Hv HY. destruct (Z.eqb_spec (v_flags v) flags) as [<- | Hne]; cbn [negb].
  { exists w. split_and!; try done; [by apply goes_refl |]. replace (set_flags (v_flags v) v) with v by (by destruct v).
    destruct (obj w). unfold set_vips. cbn in *. by rewrite insert_id. }
  unfold upd_vip. rewrite bind_modify.
  assert (set_vips (alter (set_flags flags) spec) (obj w) = set_vips <[spec := set_flags flags v]> (obj w)) as ->
    by (unfold set_vips; by rewrite (alter_Some _ _ _ v Hv)).
  set (w1 := mk_world _ _ _ _). unfold write_vip_entry. rewrite bind_get. cbv zeta.
  assert (vip_at (obj w1) spec = set_flags flags v) as -> by (unfold vip_at; cbn; by rewrite lookup_insert_eq).
  cbn [v_spec v_id v_flags set_flags]. rewrite (i_spec _ _ _ _ _ Hi spec v Hv).
  destruct (checked_write_run (set_vip_map <[VipSpec.key spec := mk_vip_value (v_id v) flags]>)
    (λ err, §"write vip_map for " ++ VipSpec.to_str spec ++ §": " ++ errstr e err) w1) as (r & w' & H & O & P & C).
  destruct (C Hc) as [-> Hc']. destruct P as [K S]. exists w'.
  assert (inv_in L X Y (obj w') (km w')) as Hi' by (rewrite O, K; by apply inv_flags).
  split_and!; try done. split; [done | | by rewrite K]. eexists. split; [exact S |].
  apply Forall_cons. split; [| done]. rewrite <-K. by eapply inv_safe.
Qed.

(** Taking members out. *)
Lemma remove_all_run spec v l w :
  vips_ (obj w) !! spec = Some v →
  m_for l (remove_member_locked spec) w = (Ok (), with_obj (set_vips <[spec := set_members (without l) v]> (obj w)) w).
Proof.
  revert v w. induction l as [| a l IH]; intros v w Hv; cbn [m_for].
  - replace (set_members (without []) v) with v.
    + destruct w as [[] m h s]. unfold with_obj, set_vips. cbn in *. by rewrite insert_id.
    + destruct v as [? ? ? ? ms]. unfold set_members. cbn. f_equal. apply map_eq. intros a. rewrite lookup_without.
      by rewrite decide_False by apply not_elem_of_nil.
  - erewrite bind_run by reflexivity.
    assert (set_vips (alter (set_members (delete a)) spec) (obj w) = set_vips <[spec := set_members (delete a) v]> (obj w)) as ->
      by (unfold set_vips; by rewrite (alter_Some _ _ _ v Hv)).
    rewrite (IH (set_members (delete a) v)) by apply lookup_insert_eq. unfold with_obj, set_vips. cbn.
    rewrite insert_insert_eq. unfold set_members. cbn. by rewrite without_cons.
Qed.

(** ** Room in the table *)

(** The reals in use and held are in [B], which fits in the table. *)
Record room (B : gset Z) (L : held) (s : LbState.t) : Prop := {
  rm_members : ∀ sp v a, vips_ s !! sp = Some v → is_Some (v_members v !! a) → a ∈ B;
  rm_held : ∀ a, a ∈ L.*2 → a ∈ B;
  rm_size : Z.of_nat (size B) <= PB_MAX_REALS - 1
}.

Lemma room_update B L s s' spec v :
  room B L s → vips_ s' = <[spec := v]> (vips_ s) → (∀ a, is_Some (v_members v !! a) → a ∈ B) → room B L s'.
Proof.
  intros [H1 H2 H3] E Hv. split; [| done | done]. intros sp u a. rewrite E, lookup_insert.
  destruct (decide (spec = sp)); [intros [= <-]; apply Hv | apply H1].
Qed.

Lemma room_free B L X Y s m a :
  inv_in L X Y s m → room B L s → a ∈ B → by_addr (reals_ s) !! a = None → next_free (reals_ s) ≠ None.
Proof.
  intros Hi [H1 H2 H3] Ha Hn Hf. apply (reals_ids _ _ _ _ _ Hi) in Hf. rewrite <-size_dom in Hf.
  assert ({[a]} ∪ dom (by_addr (reals_ s)) ⊆ B) as Hsub.
  { intros b [->%elem_of_singleton | Hb]%elem_of_union; [done |].
    apply (dom_reals_in _ _ _ _ _ b Hi) in Hb as [(sp & fl & ms & Hx & Hms)%elem_of_all_reals | Hb]; [| by apply H2].
    rewrite lookup_abs in Hx. destruct (vips_ s !! sp) as [v |] eqn:Hv; [| done]. injection Hx as <- <-.
    rewrite lookup_fmap, fmap_is_Some in Hms. by apply (H1 sp v b Hv). }
  apply subseteq_size in Hsub. rewrite size_union, size_singleton in Hsub; [lia |].
  intros b ->%elem_of_singleton. by apply not_elem_of_dom.
Qed.

(** A VIP whose members changed, and nothing else of it. *)
Definition same_but_members (v v' : Vip) : Prop := v_spec v' = v_spec v ∧ v_id v' = v_id v ∧ v_flags v' = v_flags v.

Lemma add_member_ok L X Y B e spec v a weight w :
  inv_in L X Y (obj w) (km w) → calm w → a ≠ 0 → vips_ (obj w) !! spec = Some v → v_members v !! a = None →
  (occ a L.*2 <= 512)%nat → room B L (obj w) → a ∈ B →
  ∃ mb w', add_member_locked e spec a weight w = (Ok (), w') ∧ inv_in L ({[spec]} ∪ X) Y (obj w') (km w') ∧ goes w w' ∧
    vips_ (obj w') = <[spec := set_members <[a := mb]> v]> (vips_ (obj w)) ∧ absm mb = mk_amember weight false true ∧
    same_settings (obj w) (obj w') ∧ room B L (obj w').
Proof.
  intros Hi Hc Ha Hv Hm HL HB HaB.
  destruct (add_member_lb L X Y e spec v a weight w Hi Hc Ha Hv Hm HL) as [(E1 & E2 & _) | (w' & _ & H & Hi' & G & V & S & _)].
  { exfalso. exact (room_free B L X Y _ _ a Hi HB HaB E1 E2). }
  eexists _, w'. split_and!; try done.
  eapply room_update; [exact HB | exact V |]. intros b. cbn [v_members set_members]. rewrite lookup_insert.
  destruct (decide (a = b)) as [<- | ]; [done | by apply (rm_members _ _ _ HB spec)].
Qed.

Lemma with_members v f : same_but_members v (set_members f v).
Proof. done. Qed.

#[global] Instance same_but_members_po : PreOrder same_but_members.
Proof. split; [done |]. intros v1 v2 v3 (? & ? & ?) (? & ? & ?). unfold same_but_members. split_and!; congruence. Qed.

Lemma union_idem (x : VipSpec.t) (X : gset VipSpec.t) : {[x]} ∪ ({[x]} ∪ X) = {[x]} ∪ X.
Proof. set_solver. Qed.

(** The members after the wanted reals in [l] were gone through. *)
Definition after (l : list (Z * Z)) (v v' : Vip) : Prop :=
  absm <$> v_members v' = want_members (list_to_map l) (absm <$> v_members v) ∪ (absm <$> v_members v).

Lemma after_cons a weight l v v1 v' :
  a ∉ l.*1 →
  absm <$> v_members v1 = <[a := match absm <$> v_members v !! a with
    | Some mb => mk_amember weight (am_draining mb) (am_up mb)
    | None => mk_amember weight false true end]> (absm <$> v_members v) →
  after l v1 v' → after ((a, weight) :: l) v v'.
Proof.
  unfold after. intros Ha E ->. apply map_eq. intros b. rewrite E, !lookup_union, !lookup_want_members. cbn [list_to_map foldr uncurry].
  cbn. rewrite !lookup_insert, !lookup_fmap. destruct (decide (a = b)) as [<- | Hne]; [| done].
  rewrite not_elem_of_list_to_map_1 by done. cbn. by destruct (v_members v !! a).
Qed.

Lemma after_nil v : after [] v v.
Proof. unfold after. apply map_eq. intros a. rewrite lookup_union, lookup_want_members. cbn. rewrite lookup_empty. cbn. by rewrite (left_id None _). Qed.

(** ** The members of a VIP that exists *)

Lemma upd_weight_lb L X Y B spec v a mb weight w :
  inv_in L X Y (obj w) (km w) → calm w → vips_ (obj w) !! spec = Some v → v_members v !! a = Some mb → room B L (obj w) →
  ∃ w', upd_member spec a (set_weight_of weight) w = (Ok (), w') ∧ inv_in L ({[spec]} ∪ X) Y (obj w') (km w') ∧ goes w w' ∧
    vips_ (obj w') = <[spec := set_members <[a := set_weight_of weight mb]> v]> (vips_ (obj w)) ∧
    same_settings (obj w) (obj w') ∧ room B L (obj w').
Proof.
  intros Hi Hc Hv Hm HB. unfold upd_member, upd_vip, modify. eexists. split; [reflexivity |]. cbn [obj km].
  assert (set_vips (alter (set_members (alter (set_weight_of weight) a)) spec) (obj w) =
          set_vips <[spec := set_members <[a := set_weight_of weight mb]> v]> (obj w)) as ->.
  { unfold set_vips. rewrite (alter_Some _ _ _ v Hv). unfold set_members. by rewrite (alter_Some _ _ _ mb Hm). }
  assert (∀ b, is_Some (v_members (set_members <[a := set_weight_of weight mb]> v) !! b) ↔ is_Some (v_members v !! b)) as Hs.
  { intros b. cbn [v_members set_members]. rewrite lookup_insert.
    destruct (decide (a = b)) as [<- | ]; [rewrite Hm; split; eauto | done]. }
  split_and!; try done.
  - by eapply inv_upd.
  - by destruct (goes_refl w Hc); split.
  - eapply room_update; [exact HB | reflexivity |]. intros b Hb%Hs. by apply (rm_members _ _ _ HB spec v).
Qed.

Lemma apply_reals_lb B Y e spec L l :
  NoDup l.*1 → Forall (λ p, p.1 ≠ 0 ∧ p.1 ∈ B) l → (∀ a, occ a L.*2 <= 512)%nat →
  ∀ X ch v w, inv_in L X Y (obj w) (km w) → calm w → vips_ (obj w) !! spec = Some v → room B L (obj w) →
  (ch = true → spec ∈ X) →
  ∃ ch' v' w', apply_reals e spec l ch w = (Ok ch', w') ∧
    inv_in L (if ch' then {[spec]} ∪ X else X) Y (obj w') (km w') ∧ goes w w' ∧
    vips_ (obj w') = <[spec := v']> (vips_ (obj w)) ∧ same_but_members v v' ∧ after l v v' ∧
    same_settings (obj w) (obj w') ∧ room B L (obj w') ∧ (ch = true → ch' = true).
Proof.
  intros Hnd Hl HL. induction l as [| [a weight] l IH]; intros X ch v w Hi Hc Hv HB Hch; cbn [apply_reals].
  { exists ch, v, w. split_and!; try done; [| by apply goes_refl | by rewrite insert_id | apply after_nil].
    destruct ch; [| done]. eapply inv_stale; [exact Hi |]. intros sp _ ?. by apply elem_of_union_r. }
  apply NoDup_cons in Hnd as [Ha Hnd]. apply Forall_cons in Hl as [[Ha0 HaB] Hl]. cbn in Ha0, HaB. specialize (IH Hnd Hl).
  rewrite bind_get. assert (vip_at (obj w) spec = v) as -> by (unfold vip_at; by rewrite Hv).
  (* the rest of the list, after a step that changed the VIP *)
  assert (∀ v1 w1 (p : M LbState.t unit), p w = (Ok (), w1) → inv_in L ({[spec]} ∪ X) Y (obj w1) (km w1) → goes w w1 →
    vips_ (obj w1) = <[spec := v1]> (vips_ (obj w)) → same_but_members v v1 → same_settings (obj w) (obj w1) → room B L (obj w1) →
    absm <$> v_members v1 = <[a := match absm <$> v_members v !! a with
      | Some mb => mk_amember weight (am_draining mb) (am_up mb) | None => mk_amember weight false true end]> (absm <$> v_members v) →
    ∃ ch' v' w', (_ ← p; apply_reals e spec l true) w = (Ok ch', w') ∧
      inv_in L (if ch' then {[spec]} ∪ X else X) Y (obj w') (km w') ∧ goes w w' ∧
      vips_ (obj w') = <[spec := v']> (vips_ (obj w)) ∧ same_but_members v v' ∧ after ((a, weight) :: l) v v' ∧
      same_settings (obj w) (obj w') ∧ room B L (obj w') ∧ (ch = true → ch' = true)) as Hstep.
  { intros v1 w1 p H1 Hi1 G1 V1 B1 S1 R1 E1. erewrite bind_run by exact H1.
    destruct (IH ({[spec]} ∪ X) true v1 w1 Hi1 (g_calm _ _ G1)) as (ch' & v' & w' & H & Hi' & G & V & SB & A & S & R & C).
    - rewrite V1. apply lookup_insert_eq.
    - done.
    - intros _. by apply elem_of_union_l, elem_of_singleton.
    - rewrite (C eq_refl) in *. exists true, v', w'. rewrite union_idem in Hi'. split_and!; try done.
      + by eapply goes_trans.
      + by rewrite V, V1, insert_insert_eq.
      + by etrans.
      + by eapply after_cons.
      + by etrans. }
  destruct (v_members v !! a) as [mb |] eqn:Hm.
  - destruct (Z.eqb_spec (m_weight mb) weight) as [Ew | Ew]; cbn [negb].
    + destruct (IH X ch v w Hi Hc Hv HB Hch) as (ch' & v' & w' & H & Hi' & G & V & SB & A & S & R & C).
      exists ch', v', w'. split_and!; try done. eapply after_cons; [done | | exact A].
      rewrite Hm. cbn. symmetry. apply insert_id. rewrite lookup_fmap, Hm, <-Ew. by destruct mb.
    + destruct (upd_weight_lb L X Y B spec v a mb weight w Hi Hc Hv Hm HB) as (w1 & H1 & Hi1 & G1 & V1 & S1 & R1).
      eapply Hstep; [exact H1 | exact Hi1 | exact G1 | exact V1 | apply with_members | exact S1 | exact R1 |].
      cbn [v_members set_members]. by rewrite fmap_insert.
  - destruct (add_member_ok L X Y B e spec v a weight w Hi Hc Ha0 Hv Hm (HL a) HB HaB) as (mb & w1 & H1 & Hi1 & G1 & V1 & E1 & S1 & R1).
    eapply Hstep; [exact H1 | exact Hi1 | exact G1 | exact V1 | apply with_members | exact S1 | exact R1 |].
    cbn [v_members set_members]. by rewrite fmap_insert, E1.
Qed.

(** ** A new VIP with its reals *)

Lemma add_all_lb B Y e spec L (reals : gmap Z Z) l :
  NoDup l → (∀ a, a ∈ l → a ≠ 0 ∧ a ∈ B) → (∀ a, occ a L.*2 <= 512)%nat →
  ∀ X v w, inv_in L X Y (obj w) (km w) → calm w → vips_ (obj w) !! spec = Some v → spec ∈ X →
  (∀ a, a ∈ l → v_members v !! a = None) → room B L (obj w) →
  ∃ v' w', m_for l (λ a, add_member_locked e spec a (default 0 (reals !! a))) w = (Ok (), w') ∧
    inv_in L X Y (obj w') (km w') ∧ goes w w' ∧ vips_ (obj w') = <[spec := v']> (vips_ (obj w)) ∧
    same_but_members v v' ∧ same_settings (obj w) (obj w') ∧ room B L (obj w') ∧
    (∀ a, absm <$> v_members v' !! a = if decide (a ∈ l) then Some (mk_amember (default 0 (reals !! a)) false true)
                                       else absm <$> v_members v !! a).
Proof.
  intros Hnd Hl HL. induction Hnd as [| a l Ha Hnd IH]; intros X v w Hi Hc Hv HX Hn HB; cbn [m_for].
  { exists v, w. split_and!; try done; [by apply goes_refl | by rewrite insert_id]. }
  destruct (Hl a (list_elem_of_here _ _)) as [Ha0 HaB].
  destruct (add_member_ok L X Y B e spec v a (default 0 (reals !! a)) w Hi Hc Ha0 Hv (Hn a (list_elem_of_here _ _)) (HL a) HB HaB)
    as (mb & w1 & H1 & Hi1 & G1 & V1 & E1 & S1 & R1).
  erewrite bind_run by exact H1.
  assert (inv_in L X Y (obj w1) (km w1)) as Hi1'.
  { eapply inv_stale; [exact Hi1 |]. intros sp _ [->%elem_of_singleton | ?]%elem_of_union; done. }
  destruct (IH (λ b Hb, Hl b (list_elem_of_further _ _ _ Hb)) X (set_members <[a := mb]> v) w1 Hi1' (g_calm _ _ G1))
    as (v' & w' & H & Hi' & G & V & SB & S & R & A).
  - rewrite V1. apply lookup_insert_eq.
  - done.
  - intros b Hb. cbn [v_members set_members]. rewrite lookup_insert_ne by (by intros ->).
    by apply Hn, list_elem_of_further.
  - done.
  - exists v', w'. split_and!; try done.
    + by eapply goes_trans.
    + by rewrite V, V1, insert_insert_eq.
    + by etrans.
    + intros b. rewrite A. cbn [v_members set_members]. destruct (decide (b ∈ l)) as [Hb | Hb].
      * rewrite decide_True; [done |]. by apply list_elem_of_further.
      * rewrite lookup_insert. destruct (decide (a = b)) as [<- | Hne].
        -- rewrite decide_True by apply list_elem_of_here. cbn. by rewrite E1.
        -- rewrite decide_False; [done |]. rewrite elem_of_cons. naive_solver.
Qed.

Lemma take_id_lb L X e spec w :
  inv_in L X ∅ (obj w) (km w) → calm w → Z.of_nat (size (vips_ (obj w))) < PB_MAX_VIPS →
  ∃ id w', take_vip_id e spec w = (Ok id, w') ∧ obj w' = obj w ∧ inv_in L X ∅ (obj w') (km w') ∧ goes w w' ∧
    0 <= id < PB_MAX_VIPS ∧ ∀ sp v, vips_ (obj w) !! sp = Some v → v_id v ≠ id.
Proof.
  intros Hi Hc Hs. unfold take_vip_id. rewrite bind_get, (i_adopted _ _ _ _ _ Hi), lookup_empty.
  pose proof (allocate_spec _ _ _ _ _ Hi) as Hal. destruct (allocate_vip_id (obj w)) as [id | ex].
  2: { destruct Hal as [_ ?]. lia. }
  destruct Hal as (Hid & Hfresh & _). unfold lift, mbind at 1, M_bind at 1.
  destruct (reset_counters_lb _ _ _ e id w Hi Hc) as (w1 & H1 & O1 & Hi1 & G1).
  exists id, w1. split_and!; try done; [by erewrite bind_run by exact H1 | lia | lia].
Qed.

Lemma create_lb L X B e spec flags (reals : gmap Z Z) w :
  inv_in L X ∅ (obj w) (km w) → calm w → vips_ (obj w) !! spec = None → Z.of_nat (size (vips_ (obj w))) < PB_MAX_VIPS →
  (∀ a, is_Some (reals !! a) → a ≠ 0 ∧ a ∈ B) → (∀ a, occ a L.*2 <= 512)%nat → room B L (obj w) →
  ∃ id v' w', create_vip_locked e spec flags reals w = (Ok id, w') ∧ inv_in L (X ∖ {[spec]}) ∅ (obj w') (km w') ∧ goes w w' ∧
    vips_ (obj w') = <[spec := v']> (vips_ (obj w)) ∧ absv v' = (flags, want_members reals ∅) ∧
    same_settings (obj w) (obj w') ∧ room B L (obj w').
Proof.
  intros Hi Hc Hv Hsz Hr HL HB. unfold create_vip_locked.
  destruct (take_id_lb L X e spec w Hi Hc Hsz) as (id & w1 & H1 & O1 & Hi1 & G1 & Hid & Hfresh).
  erewrite bind_run by exact H1. rewrite bind_modify, O1. set (v0 := mk_vip spec id flags 0 ∅).
  assert (set_vips (emplace spec v0) (obj w) = set_vips <[spec := v0]> (obj w)) as ->
    by (unfold set_vips; by rewrite emplace_None).
  set (w2 := mk_world _ _ _ _).
  assert (inv_in L ({[spec]} ∪ X) ({[spec]} ∪ ∅) (obj w2) (km w2)) as Hi2.
  { cbn [obj km w2]. rewrite O1 in Hi1. by apply inv_new_vip. }
  assert (goes w w2) as G2 by (by destruct G1; split).
  destruct (add_all_lb B ({[spec]} ∪ ∅) e spec L reals (addr_keys reals)) with (X := {[spec]} ∪ X) (v := v0) (w := w2)
    as (v3 & w3 & H3 & Hi3 & G3 & V3 & SB3 & S3 & R3 & A3); try done.
  { apply NoDup_addr_keys. }
  { intros a Ha%elem_of_addr_keys. by apply Hr. }
  { apply G2. }
  { apply lookup_insert_eq. }
  { by apply elem_of_union_l, elem_of_singleton. }
  { eapply room_update; [exact HB | reflexivity |]. intros a. cbn [v_members v0]. rewrite lookup_empty. by intros []. }
  erewrite bind_run by exact H3.
  destruct (rebuild_lb _ _ _ e spec v3 w3 Hi3 (g_calm _ _ G3)) as (r & w4 & H4 & O4 & _ & Hi4 & G4 & _).
  { rewrite V3. apply lookup_insert_eq. }
  erewrite bind_run by exact H4. rewrite union_diff in Hi4.
  destruct (write_vip_entry_lb _ _ _ e spec (rebuilt (reals_ (obj w3)) v3) w4 Hi4 (g_calm _ _ G4)) as (w5 & H5 & O5 & Hi5 & G5).
  { rewrite O4. apply lookup_insert_eq. }
  { rewrite not_elem_of_difference. right. by apply elem_of_singleton. }
  erewrite bind_run by exact H5. rewrite single_done in Hi5.
  assert (absm <$> v_members v3 = want_members reals ∅) as Em.
  { apply map_eq. intros a. rewrite lookup_fmap, A3, lookup_want_members, lookup_empty. cbn [v_members v0].
    destruct (reals !! a) as [weight |] eqn:Ea.
    - rewrite decide_True by (apply elem_of_addr_keys; eauto). done.
    - rewrite decide_False by (rewrite elem_of_addr_keys, Ea; by intros []). by rewrite lookup_empty. }
  assert (vips_ (obj w5) = <[spec := rebuilt (reals_ (obj w3)) v3]> (vips_ (obj w))) as V5.
  { rewrite O5, O4. cbn [vips_ set_vips]. rewrite V3. cbn [vips_ set_vips w2 obj]. by rewrite !insert_insert_eq. }
  exists id, (rebuilt (reals_ (obj w3)) v3), w5. split_and!; try done.
  - eapply goes_trans; [exact G2 |]. eapply goes_trans; [exact G3 |]. by eapply goes_trans.
  - rewrite absv_rebuilt. unfold absv. rewrite Em. destruct SB3 as (_ & _ & ->). done.
  - rewrite O5, O4. by etrans; [| exact S3].
  - eapply room_update; [exact HB | exact V5 |]. intros a. rewrite rebuilt_members, fmap_is_Some.
    intros Ha. apply (rm_members _ _ _ R3 spec v3 a); [| done]. rewrite V3. apply lookup_insert_eq.
Qed.

(** ** One VIP of the configuration *)

Lemma snd_pair (spec : VipSpec.t) (l : list Z) : (pair spec <$> l).*2 = l.
Proof. rewrite <-list_fmap_compose. apply list_fmap_id. Qed.

Lemma remove_all_lb X Y B spec v l w :
  inv_in [] X Y (obj w) (km w) → calm w → vips_ (obj w) !! spec = Some v → NoDup l →
  (∀ a, a ∈ l → is_Some (v_members v !! a)) → room B [] (obj w) →
  ∃ w', m_for l (remove_member_locked spec) w = (Ok (), w') ∧
    inv_in (pair spec <$> l) (if bool_decide (l = []) then X else {[spec]} ∪ X) Y (obj w') (km w') ∧ goes w w' ∧
    obj w' = set_vips <[spec := set_members (without l) v]> (obj w) ∧ room B (pair spec <$> l) (obj w').
Proof.
  intros Hi Hc Hv Hnd Hin HB. rewrite (remove_all_run spec v l w Hv). eexists. split; [reflexivity |]. cbn [obj km with_obj].
  split_and!; try done.
  - case_bool_decide as El.
    + subst l. replace (set_vips <[spec := set_members (without []) v]> (obj w)) with (obj w); [done |].
      pose proof (remove_all_run spec v [] w Hv) as H. cbn in H. injection H as H. by rewrite H at 1.
    + pose proof (inv_del_members [] X Y _ _ spec v l Hi Hv Hnd Hin) as H. by rewrite app_nil_r in H.
  - apply goes_obj, goes_refl, Hc.
  - destruct HB as [B1 B2 B3]. split; [| | done].
    + intros sp u a. cbn [vips_ set_vips]. rewrite lookup_insert. destruct (decide (spec = sp)) as [<- | ]; [| apply B1].
      intros [= <-]. cbn [v_members set_members]. rewrite lookup_without. destruct (decide _); [by intros [] |].
      by apply (B1 spec v).
    + intros a. rewrite snd_pair. intros Ha. apply (B1 spec v a Hv). by apply Hin.
Qed.

Lemma want_list (want : gmap Z Z) :
  let l := omap (λ a, (λ w, (a, w)) <$> want !! a) (addr_keys want) in
  NoDup l.*1 ∧ (list_to_map l : gmap Z Z) = want ∧ ∀ a w, (a, w) ∈ l ↔ want !! a = Some w.
Proof.
  intros l. assert (∀ a w, (a, w) ∈ l ↔ want !! a = Some w) as Hin.
  { intros a w. unfold l. rewrite list_elem_of_omap. split.
    - intros (b & _ & E). destruct (want !! b) as [w' |] eqn:Eb; [| done]. injection E as -> ->. done.
    - intros E. exists a. split; [apply elem_of_addr_keys; eauto | by rewrite E]. }
  assert (l.*1 = addr_keys want) as E1.
  { unfold l. assert (∀ k, Forall (λ a, is_Some (want !! a)) k → (omap (λ a, (λ w, (a, w)) <$> want !! a) k).*1 = k) as H.
    { induction 1 as [| a k [w Hw] _ IH]; [done |]. cbn [omap list_omap]. rewrite Hw. cbn. by rewrite IH. }
    apply H, Forall_forall. intros a. apply elem_of_addr_keys. }
  assert (NoDup l.*1) as Hnd by (rewrite E1; apply NoDup_addr_keys). split_and!; try done.
  apply map_eq. intros a. apply option_eq. intros w. rewrite <-Hin. symmetry. by apply elem_of_list_to_map.
Qed.

(** The members that go. *)
Definition removed_of (want : gmap Z Z) (ms : gmap Z Member) : list Z := filter (λ a, want !! a = None) (addr_keys ms).

Lemma removed_spec want ms a : a ∈ removed_of want ms ↔ is_Some (ms !! a) ∧ want !! a = None.
Proof. unfold removed_of. rewrite list_elem_of_filter, elem_of_addr_keys. tauto. Qed.

Lemma after_removed want l v v' :
  (list_to_map l : gmap Z Z) = want → after l (set_members (without (removed_of want (v_members v))) v) v' →
  absm <$> v_members v' = want_members want (absm <$> v_members v).
Proof.
  unfold after. intros -> ->. cbn [v_members set_members]. apply map_eq. intros a.
  rewrite lookup_union, !lookup_want_members, !lookup_fmap, lookup_without.
  destruct (want !! a) as [w |] eqn:Ew; cbn.
  - rewrite decide_False; [by destruct (v_members v !! a) |]. rewrite removed_spec, Ew. by intros [_ ?].
  - rewrite (left_id None _). destruct (decide _) as [| Hn]; [done |]. destruct (v_members v !! a) as [mb |] eqn:Em; [| done].
    destruct Hn. apply removed_spec. by rewrite Em; eauto.
Qed.

Lemma occ_le_512 (l : list Z) a : NoDup l → (occ a l <= 512)%nat.
Proof.
  intros Hnd. destruct (decide (a ∈ l)) as [Ha | Ha]; [rewrite (occ_NoDup a l Hnd Ha) | rewrite (proj2 (occ_zero a l) Ha)]; lia.
Qed.

Lemma rebuild_changed_lb L X Y e spec v (changed : bool) w :
  inv_in L (if changed then {[spec]} ∪ X else X) Y (obj w) (km w) → calm w → vips_ (obj w) !! spec = Some v →
  (changed = false → spec ∉ X) →
  ∃ v' w', (if changed then rebuild_locked e spec else mret ()) w = (Ok (), w') ∧
    inv_in L (X ∖ {[spec]}) Y (obj w') (km w') ∧ goes w w' ∧ obj w' = set_vips <[spec := v']> (obj w) ∧
    absv v' = absv v.
Proof.
  intros Hi Hc Hv HX. destruct changed.
  - destruct (rebuild_lb _ _ _ e spec v w Hi Hc Hv) as (r & w' & H & O & _ & Hi' & G & _).
    rewrite union_diff in Hi'. eexists _, w'. split_and!; try done. apply absv_rebuilt.
  - exists v, w. split_and!; try done; [| by apply goes_refl | destruct (obj w); unfold set_vips; cbn in *; by rewrite insert_id].
    eapply inv_stale; [exact Hi |]. intros sp _ Hsp. rewrite elem_of_difference, elem_of_singleton. split; [done |].
    intros ->. by apply HX.
Qed.

(** The reals of a VIP of the configuration are usable and in [B]. *)
Definition reals_fit (B : gset Z) (vc : Config.VipConfig) : Prop :=
  ∀ a, is_Some (want_of vc !! a) → a ≠ 0 ∧ a ∈ B.

Lemma valid_fits cfg B vc :
  Config.valid cfg → vc ∈ Config.vips cfg → Config.all_addrs (Config.vips cfg) ⊆ B → reals_fit B vc.
Proof.
  intros Hval Hvc HB a Ha. pose proof (Config.va_vips _ Hval) as Hvs. rewrite Forall_forall in Hvs.
  destruct (Hvs vc Hvc) as [V1 V2 _]. apply want_of_addr in Ha; [| done]. split.
  - apply list_elem_of_fmap in Ha as (r & -> & Hr). rewrite Forall_forall in V1. by apply V1.
  - apply HB. unfold Config.all_addrs. apply elem_of_list_to_set, list_elem_of_bind. eauto.
Qed.

Lemma apply_vip_lb X B e hash_changed vc w :
  let spec := Config.vc_spec vc in
  inv_in [] X ∅ (obj w) (km w) → calm w → room B [] (obj w) → reals_fit B vc →
  (vips_ (obj w) !! spec = None → Z.of_nat (size (vips_ (obj w))) < PB_MAX_VIPS) →
  (is_Some (vips_ (obj w) !! spec) → if hash_changed : bool then spec ∈ X else spec ∉ X) →
  ∃ w', apply_vip e hash_changed vc w = (Ok (), w') ∧ inv_in [] (X ∖ {[spec]}) ∅ (obj w') (km w') ∧ goes w w' ∧
    abs (obj w') = <[spec := want_vip (abs (obj w)) vc]> (abs (obj w)) ∧ same_settings (obj w) (obj w') ∧ room B [] (obj w').
Proof.
  intros spec Hi Hc HB Hfit Hsz HX. unfold apply_vip. fold spec. rewrite bind_get. unfold want_vip, old_members. fold spec. rewrite lookup_abs.
  destruct (vips_ (obj w) !! spec) as [v |] eqn:Hv.
  2: { destruct (create_lb [] X B e spec (vip_flags vc) (want_of vc) w Hi Hc Hv (Hsz eq_refl) Hfit) as (id & v' & w' & H & Hi' & G & V & A & S & R);
         [intros a; cbn; lia | done |].
       exists w'. split_and!; try done; [by erewrite bind_run by exact H |]. unfold abs. by rewrite V, fmap_insert, A. }
  cbn [fmap option_fmap option_map absv].
  destruct (flags_lb [] X ∅ e spec v (vip_flags vc) w Hi Hc Hv (not_elem_of_empty spec)) as (w1 & H1 & Hi1 & G1 & O1).
  erewrite bind_run by exact H1. cbv zeta. fold (removed_of (want_of vc) (v_members v)). set (rm := removed_of (want_of vc) (v_members v)).
  set (v1 := set_flags (vip_flags vc) v).
  assert (NoDup rm) as Hnd by (apply NoDup_filter, NoDup_addr_keys).
  destruct (remove_all_lb X ∅ B spec v1 rm w1 Hi1 (g_calm _ _ G1)) as (w2 & H2 & Hi2 & G2 & O2 & R2).
  { rewrite O1. apply lookup_insert_eq. }
  { done. }
  { intros a Ha%removed_spec. apply Ha. }
  { eapply room_update; [exact HB | by rewrite O1 |]. intros a. by apply (rm_members _ _ _ HB spec v). }
  erewrite bind_run by exact H2. destruct (want_list (want_of vc)) as (Wnd & Wmap & Win). set (l := omap _ _) in *.
  set (X2 := if bool_decide (rm = []) then X else {[spec]} ∪ X) in *.
  destruct (apply_reals_lb B ∅ e spec (pair spec <$> rm) l Wnd) with (X := X2) (ch := hash_changed || negb (bool_decide (rm = [])))
    (v := set_members (without rm) v1) (w := w2) as (ch & v3 & w3 & H3 & Hi3 & G3 & V3 & SB3 & A3 & S3 & R3 & C3); try done.
  { apply Forall_forall. intros [a weight] Ha%Win. apply Hfit. eauto. }
  { intros a. rewrite snd_pair. by apply occ_le_512. }
  { apply G2. }
  { rewrite O2. apply lookup_insert_eq. }
  { specialize (HX ltac:(eauto)). unfold X2. destruct hash_changed; [intros _ | cbn; intros Hn%negb_true_iff; rewrite Hn; by apply elem_of_union_l, elem_of_singleton].
    case_bool_decide; [done | by apply elem_of_union_r]. }
  erewrite bind_run by exact H3.
  destruct (rebuild_changed_lb (pair spec <$> rm) X2 ∅ e spec v3 ch w3 Hi3 (g_calm _ _ G3)) as (v4 & w4 & H4 & Hi4 & G4 & O4 & A4).
  { rewrite V3. apply lookup_insert_eq. }
  { intros ->. destruct (hash_changed || negb (bool_decide (rm = []))) eqn:Ec; [by specialize (C3 eq_refl) |].
    apply orb_false_iff in Ec as [-> Ec%negb_false_iff]. unfold X2. rewrite Ec. exact (HX ltac:(eauto)). }
  erewrite bind_run by exact H4.
  destruct (release_all_lb spec rm [] (X2 ∖ {[spec]}) ∅ e w4) as (tb & w5 & H5 & Hi5 & G5 & O5).
  { by rewrite app_nil_r. }
  { apply G4. }
  { rewrite not_elem_of_difference. right. by apply elem_of_singleton. }
  exists w5.
  assert (vips_ (obj w5) = <[spec := v4]> (vips_ (obj w))) as V5.
  { rewrite O5, O4. cbn [vips_ set_vips set_reals_]. rewrite V3, O2, O1. cbn [vips_ set_vips]. by rewrite !insert_insert_eq. }
  assert (absm <$> v_members v3 = want_members (want_of vc) (absm <$> v_members v)) as E3
    by exact (after_removed (want_of vc) l v1 v3 Wmap A3).
  assert (absv v4 = (vip_flags vc, want_members (want_of vc) (absm <$> v_members v))) as E4.
  { rewrite A4. unfold absv. rewrite E3. destruct SB3 as (_ & _ & ->). done. }
  split_and!.
  - exact H5.
  - eapply inv_stale; [exact Hi5 |]. intros sp _. unfold X2. rewrite !elem_of_difference. case_bool_decide; [done |].
    rewrite elem_of_union. tauto.
  - eapply goes_trans; [exact G1 |]. eapply goes_trans; [exact G2 |]. eapply goes_trans; [exact G3 |]. by eapply goes_trans.
  - unfold abs at 1. rewrite V5, fmap_insert, E4. done.
  - rewrite O5, O4. etrans; [| etrans; [exact S3 | done]]. by rewrite O2, O1.
  - destruct R3 as [R3 _ _]. split; [| by intros a ?%not_elem_of_nil | apply HB].
    intros sp u a. rewrite V5, lookup_insert. destruct (decide (spec = sp)) as [<- | ]; [| apply (rm_members _ _ _ HB)].
    intros [= <-] Ha. apply (R3 spec v3); [rewrite V3; apply lookup_insert_eq |].
    assert (absm <$> v_members v4 = absm <$> v_members v3) as E by (unfold absv in A4; by injection A4).
    apply (fmap_is_Some absm). rewrite <-lookup_fmap, <-E, lookup_fmap, fmap_is_Some. done.
Qed.

(** ** The whole reload *)

Lemma apply_vips_lb (W : gset VipSpec.t) B e hash_changed l :
  NoDup (Config.vc_spec <$> l) → (∀ vc, vc ∈ l → reals_fit B vc ∧ Config.vc_spec vc ∈ W) →
  Z.of_nat (size W) <= PB_MAX_VIPS →
  ∀ X w, inv_in [] X ∅ (obj w) (km w) → calm w → room B [] (obj w) → dom (vips_ (obj w)) ⊆ W →
  (∀ vc, vc ∈ l → is_Some (vips_ (obj w) !! Config.vc_spec vc) →
     if hash_changed : bool then Config.vc_spec vc ∈ X else Config.vc_spec vc ∉ X) →
  ∃ w', m_for l (apply_vip e hash_changed) w = (Ok (), w') ∧
    inv_in [] (X ∖ list_to_set (Config.vc_spec <$> l)) ∅ (obj w') (km w') ∧ goes w w' ∧
    abs (obj w') = list_to_map ((λ vc, (Config.vc_spec vc, want_vip (abs (obj w)) vc)) <$> l) ∪ abs (obj w) ∧
    same_settings (obj w) (obj w').
Proof.
  intros Hnd Hl HW. induction l as [| vc l IH]; intros X w Hi Hc HB Hd HX; cbn [m_for].
  { exists w. split_and!; try done; [| by apply goes_refl | cbn; by rewrite (left_id_L ∅ (∪))].
    eapply inv_stale; [exact Hi |]. intros sp _ ?. rewrite elem_of_difference. split; [done | by apply not_elem_of_empty]. }
  rewrite fmap_cons in Hnd. apply NoDup_cons in Hnd as [Hn Hnd]. destruct (Hl vc (list_elem_of_here _ _)) as [Hfit HvW].
  destruct (apply_vip_lb X B e hash_changed vc w Hi Hc HB Hfit) as (w1 & H1 & Hi1 & G1 & A1 & S1 & R1).
  { intros Hv. rewrite <-size_dom. assert ({[Config.vc_spec vc]} ∪ dom (vips_ (obj w)) ⊆ W) as Hsub.
    { intros sp [->%elem_of_singleton | ?]%elem_of_union; auto. }
    apply subseteq_size in Hsub. rewrite size_union, size_singleton in Hsub; [lia |].
    intros sp ->%elem_of_singleton. by apply not_elem_of_dom. }
  { apply HX, list_elem_of_here. }
  erewrite bind_run by exact H1. set (x := abs (obj w)) in *.
  assert (∀ sp, is_Some (vips_ (obj w1) !! sp) ↔ sp = Config.vc_spec vc ∨ is_Some (vips_ (obj w) !! sp)) as Hdom.
  { intros sp. rewrite <-(fmap_is_Some absv (vips_ (obj w1) !! sp)), <-lookup_abs, A1, lookup_insert_is_Some'. unfold x.
    rewrite lookup_abs, fmap_is_Some. naive_solver. }
  destruct (IH Hnd (λ vc' Hvc', Hl vc' (list_elem_of_further _ _ _ Hvc')) (X ∖ {[Config.vc_spec vc]}) w1 Hi1 (g_calm _ _ G1) R1)
    as (w2 & H2 & Hi2 & G2 & A2 & S2).
  { intros sp [-> | ?%elem_of_dom]%elem_of_dom%Hdom; auto. }
  { intros vc' Hin Hs. assert (Config.vc_spec vc' ≠ Config.vc_spec vc) as Hne
      by (intros E; apply Hn; rewrite <-E; by apply list_elem_of_fmap_2).
    apply Hdom in Hs as [? | Hs]; [done |]. specialize (HX vc' (list_elem_of_further _ _ _ Hin) Hs).
    destruct hash_changed; rewrite ?not_elem_of_difference, ?elem_of_difference, ?elem_of_singleton; auto. }
  exists w2. split_and!; try done; [| by eapply goes_trans | | by etrans].
  - eapply inv_stale; [exact Hi2 |]. intros sp _. rewrite fmap_cons, list_to_set_cons, !elem_of_difference, elem_of_union. tauto.
  - rewrite A2, A1, fmap_cons, list_to_map_cons.
    assert (list_to_map ((λ vc', (Config.vc_spec vc', want_vip (<[Config.vc_spec vc := want_vip x vc]> x) vc')) <$> l) =
            (list_to_map ((λ vc', (Config.vc_spec vc', want_vip x vc')) <$> l) : Abs)) as ->.
    { f_equal. apply list_fmap_ext. intros i vc' Hi'%list_elem_of_lookup_2. f_equal. unfold want_vip, old_members.
      rewrite lookup_insert_ne; [done |]. intros E. apply Hn. rewrite E. by apply list_elem_of_fmap_2. }
    rewrite <-insert_union_l, insert_union_r; [done |]. apply not_elem_of_list_to_map_1.
    rewrite <-list_fmap_compose. exact Hn.
Qed.

(** The settings that a configuration brings. *)
Definition settings_of (cfg : Config.t) (s s' : LbState.t) : Prop :=
  interface_ s' = interface_ s ∧ hash_ s' = Config.hash cfg ∧ next_hop_ s' = Config.next_hop cfg ∧
  health_enabled_ s' = Config.hc_enabled (Config.health cfg) ∧ initialized_ s' = true.

(** The VIPs that stay are looked up in the state before the removals. *)
Lemma spec_apply_kept cfg (x y : Abs) :
  (∀ sp, y !! sp = if decide (sp ∈ Config.vc_spec <$> Config.vips cfg) then x !! sp else None) →
  list_to_map ((λ vc, (Config.vc_spec vc, want_vip y vc)) <$> Config.vips cfg) ∪ y = spec_apply cfg x.
Proof.
  intros Hy. unfold spec_apply.
  assert ((λ vc, (Config.vc_spec vc, want_vip y vc)) <$> Config.vips cfg = (λ vc, (Config.vc_spec vc, want_vip x vc)) <$> Config.vips cfg) as ->.
  { apply list_fmap_ext. intros i vc Hi%list_elem_of_lookup_2. unfold want_vip, old_members. rewrite Hy.
    rewrite decide_True by (by apply list_elem_of_fmap_2). done. }
  apply map_eq. intros sp. destruct (list_to_map _ !! sp) as [z |] eqn:E.
  - rewrite (lookup_union_Some_l _ _ _ _ E). done.
  - rewrite lookup_union_r by done. apply not_elem_of_list_to_map_2 in E. rewrite <-list_fmap_compose in E. rewrite Hy.
    by rewrite decide_False.
Qed.

Lemma reload_run e cfg mac w :
  inv (obj w) (km w) → calm w → initialized_ (obj w) = true → Config.valid cfg → Mac.parse (if_address e) = Some mac →
  Z.of_nat (size (all_reals (abs (obj w)) ∪ Config.all_addrs (Config.vips cfg))) <= PB_MAX_REALS - 1 →
  ∃ w', apply e cfg w = (Ok (), w') ∧ inv (obj w') (km w') ∧ calm w' ∧
    (∃ ms, hist w' = hist w ++ ms ∧ Forall safe ms) ∧ conntrack (km w') = conntrack (km w) ∧
    config (km w') = <[0%nat := config_value mac cfg]> (config (km w)) ∧
    abs (obj w') = spec_apply cfg (abs (obj w)) ∧ settings_of cfg (obj w) (obj w').
Proof.
  intros Hi Hc Hinit Hval Hmac Hsz. unfold apply. rewrite bind_get, Hinit. cbv zeta. cbn [negb].
  unfold mbind at 1, M_bind at 1. cbn [mret M_ret].
  destruct (write_config_lb [] ∅ ∅ e cfg mac w Hi Hc Hmac) as (w1 & H1 & O1 & K1 & CT1 & Hi1 & Hc1 & ms1 & S1 & F1).
  erewrite bind_run by exact H1. rewrite bind_modify, bind_get, O1. cbn [obj].
  set (hc := negb (bool_decide (hash_ (obj w) = Config.hash cfg))).
  set (s2 := set_mode _ _ _ (obj w)). set (w2 := mk_world s2 _ _ _).
  set (X := if hc then dom (vips_ (obj w)) else (∅ : gset VipSpec.t)).
  assert (inv_in [] X ∅ (obj w2) (km w2)) as Hi2.
  { cbn [obj km w2]. rewrite O1 in Hi1. apply inv_mode.
    - eapply inv_stale; [exact Hi1 |]. by intros sp _ ?%not_elem_of_empty.
    - unfold X, hc. case_bool_decide as E; [by left | right]. intros sp ?. by apply elem_of_dom. }
  set (W := list_to_set (Config.vc_spec <$> Config.vips cfg) : gset VipSpec.t).
  destruct (delete_unwanted_lb W [] X e (spec_keys (vips_ s2)) w2 Hi2 Hc1) as (w3 & H3 & Hi3 & G3 & S3 & V3).
  erewrite bind_run by exact H3.
  set (B := all_reals (abs (obj w)) ∪ Config.all_addrs (Config.vips cfg)) in *.
  assert (∀ sp v, vips_ (obj w3) !! sp = Some v → vips_ (obj w) !! sp = Some v ∧ sp ∈ W) as Hsub.
  { intros sp v. rewrite V3. destruct (decide _) as [| Hn]; [done |]. cbn [vips_ obj w2 s2 set_mode]. intros Hv. split; [done |].
    destruct (decide (sp ∈ W)) as [| Hw]; [done |]. destruct Hn. split; [apply elem_of_spec_keys; cbn; eauto | done]. }
  destruct (apply_vips_lb W B e hc (Config.vips cfg)) with (X := X) (w := w3) as (w4 & H4 & Hi4 & G4 & A4 & S4).
  { apply Hval. }
  { intros vc Hvc. split; [apply (valid_fits cfg); [done | done | apply union_subseteq_r] |].
    apply elem_of_list_to_set, list_elem_of_fmap_2, Hvc. }
  { etrans; [| apply Hval]. apply inj_le. unfold W. rewrite size_list_to_set by apply Hval. by rewrite length_fmap. }
  { done. }
  { apply G3. }
  { split; [| by intros a ?%not_elem_of_nil | done]. intros sp v a [Hv _]%Hsub Ha. apply elem_of_union_l, elem_of_all_reals.
    exists sp, (v_flags v), (absm <$> v_members v). rewrite lookup_abs, Hv, lookup_fmap, fmap_is_Some. done. }
  { intros sp [v Hv]%elem_of_dom. by apply (Hsub sp v). }
  { intros vc _ [v Hv]. apply Hsub in Hv as [Hv _]. unfold X. destruct hc; [apply elem_of_dom; eauto | apply not_elem_of_empty]. }
  exists w4. split; [by erewrite bind_run by exact H4 |].
  assert (inv (obj w4) (km w4)) as Hi4'.
  { eapply inv_stale; [exact Hi4 |]. intros sp Hsp [HspX HspW]%elem_of_difference. destruct HspW.
    rewrite <-(fmap_is_Some absv (vips_ (obj w4) !! sp)), <-lookup_abs, A4, lookup_union_is_Some in Hsp. destruct Hsp as [Hsp | Hsp].
    - apply elem_of_list_to_set. destruct Hsp as [y Hy%elem_of_list_to_map_2].
      apply list_elem_of_fmap in Hy as (vc & [= -> _] & Hvc). by apply list_elem_of_fmap_2.
    - rewrite lookup_abs, fmap_is_Some in Hsp. destruct Hsp as [v Hv]. by apply (Hsub sp v). }
  split_and!; try done.
  - apply G4.
  - destruct (g_hist _ _ G3) as (ms3 & E3 & F3). destruct (g_hist _ _ G4) as (ms4 & E4 & F4).
    exists (ms1 ++ ms3 ++ ms4). rewrite E4, E3. cbn [hist w2]. rewrite S1, !app_assoc. split; [done |]. by rewrite !Forall_app.
  - destruct (g_rest _ _ G3) as [E3 _], (g_rest _ _ G4) as [E4 _]. by rewrite E4, E3.
  - destruct (g_rest _ _ G3) as [_ E3], (g_rest _ _ G4) as [_ E4]. by rewrite E4, E3.
  - rewrite A4. apply spec_apply_kept. intros sp. rewrite !lookup_abs, V3. cbn [vips_ obj w2 s2 set_mode].
    destruct (decide (sp ∈ Config.vc_spec <$> Config.vips cfg)) as [Hw | Hw].
    + rewrite decide_False; [done |]. intros [_ Hn]. by apply Hn, elem_of_list_to_set.
    + destruct (vips_ (obj w) !! sp) as [v |] eqn:Hv; [| by destruct (decide _)].
      rewrite decide_True; [done |]. split; [apply elem_of_spec_keys; cbn; eauto |]. unfold W. by rewrite elem_of_list_to_set.
  - assert (same_settings s2 (obj w4)) as (E1 & E2 & E3 & E4 & E5) by (etrans; [exact S3 | exact S4]).
    unfold settings_of. rewrite E1, E2, E3, E4, E5. done.
Qed.

(** C7: reloading the configuration on a running daemon. Any configuration
    that validates, with the reals it brings and the reals in use fitting in
    the table together, is applied without an error when no bpf call fails: the
    VIPs are then exactly the configured ones with the configured flags, reals
    and weights, reals that stay keep their health and draining state, the
    rings are all rebuilt for the configured hash, the model and the maps
    agree, established connections are untouched, and in every state of the
    maps on the way each VIP has a ring that names only reals that are there. *)
Theorem reload_refines (e : CEnv) (cfg : Config.t) (mac : pb_mac) (w : World LbState.t) :
  inv (obj w) (km w) → calm w → initialized_ (obj w) = true →
  Config.validate_config cfg = Ok () → Mac.parse (if_address e) = Some mac →
  Z.of_nat (size (all_reals (abs (obj w)) ∪ Config.all_addrs (Config.vips cfg))) <= PB_MAX_REALS - 1 →
  ∃ w', apply e cfg w = (Ok (), w') ∧ abs (obj w') = spec_apply cfg (abs (obj w)) ∧
    settings_of cfg (obj w) (obj w') ∧ config (km w') = <[0%nat := config_value mac cfg]> (config (km w)) ∧
    conntrack (km w') = conntrack (km w) ∧ inv (obj w') (km w') ∧ ∃ ms, hist w' = hist w ++ ms ∧ Forall safe ms.
Proof.
  intros Hi Hc Hinit Hval%Config.validate_iff Hmac Hsz.
  destruct (reload_run e cfg mac w Hi Hc Hinit Hval Hmac Hsz) as (w' & H & Hi' & _ & Hh & CT & K & A & S).
  exists w'. by split_and!.
Qed.

Definition real8 : Z := 0x0800000a.
Definition env_eth : CEnv := mk_cenv (λ _, []) 0 None §"02:00:00:00:00:01" 1.

(** Another hash, a new weight, a new real, and one VIP less. *)
Definition demo_config (vips : list Config.VipConfig) : Config.t :=
  Config.mk §"eth0" Config.Auto Maglev.ModeModulo (Config.mk_cidr 0x000010ac 0x0000ffff 16) None true 65536 false []
    [] [] Config.default_health vips.
Definition reload_config : Config.t :=
  demo_config [Config.mk_vip_config LbTheorems.vip80 false [Config.mk_real_config LbTheorems.real7 5; Config.mk_real_config real8 1]].

Lemma reload_refines_witness :
  ∃ w', apply env_eth reload_config (LbTheorems.two_world LbTheorems.table7_mac true) = (Ok (), w') ∧
    abs (obj w') = {[ LbTheorems.vip80 := (0, {[ LbTheorems.real7 := mk_amember 5 false true; real8 := mk_amember 1 false true ]}) ]} ∧
    hash_ (obj w') = Maglev.ModeModulo.
Proof.
  destruct (reload_refines env_eth reload_config (mk_pb_mac 2 0 0 0 0 1) (LbTheorems.two_world LbTheorems.table7_mac true)
    LbTheorems.two_world_inv (LbTheorems.two_calm _ _)) as (w' & H1 & H2 & H3 & _);
    [reflexivity | vm_compute; reflexivity | reflexivity | |].
  { change (abs (obj (LbTheorems.two_world LbTheorems.table7_mac true))) with (absv <$> LbTheorems.two_vips true).
    vm_compute. discriminate. }
  exists w'. split; [exact H1 |]. split; [| apply H3]. rewrite H2.
  change (abs (obj (LbTheorems.two_world LbTheorems.table7_mac true))) with (absv <$> LbTheorems.two_vips true). vm_compute. reflexivity.
Defined.

(** ** A reload that the table has no room for *)

Definition one_real_config (spec : VipSpec.t) (a : Z) : Config.t :=
  demo_config [Config.mk_vip_config spec false [Config.mk_real_config a 1]].

(** A VIP is to have one real, new to a table that is full. *)
Lemma apply_vip_throws L X e hash_changed spec v a w :
  inv_in L X ∅ (obj w) (km w) → calm w → vips_ (obj w) !! spec = Some v → v_flags v = 0 → a ≠ 0 →
  by_addr (reals_ (obj w)) !! a = None → next_free (reals_ (obj w)) = None →
  ∃ L' X' w', apply_vip e hash_changed (Config.mk_vip_config spec false [Config.mk_real_config a 1]) w = (Throw too_many_reals, w') ∧
    inv_in L' X' ∅ (obj w') (km w') ∧ calm w' ∧ obj w' = set_vips <[spec := set_members (λ _, ∅) v]> (obj w).
Proof.
  intros Hi Hc Hv Hfl Ha Hn Hfull. unfold apply_vip. cbn [Config.vc_spec]. rewrite bind_get, Hv. cbn [vip_flags Config.vc_no_conntrack].
  rewrite Hfl. cbn [Z.eqb negb]. unfold mbind at 1, M_bind at 1. cbn [mret M_ret]. cbv zeta.
  change (want_of _) with ({[ a := 1 ]} : gmap Z Z).
  assert (v_members v !! a = None) as Hm.
  { destruct (v_members v !! a) eqn:E; [| done]. destruct (member_id _ _ _ _ _ _ _ a Hi Hv) as [id ?]; [by eauto | congruence]. }
  fold (removed_of {[ a := 1 ]} (v_members v)). set (rm := removed_of {[ a := 1 ]} (v_members v)).
  assert (∀ b, b ∈ rm ↔ is_Some (v_members v !! b)) as Hrm.
  { intros b. unfold rm. rewrite removed_spec. split; [by intros [? _] |]. intros Hb. split; [done |].
    apply lookup_singleton_ne. intros <-. rewrite Hm in Hb. by destruct Hb. }
  assert (set_members (without rm) v = set_members (λ _, ∅) v) as Ev.
  { unfold set_members. f_equal. apply map_eq. intros b. rewrite lookup_without, lookup_empty.
    destruct (decide (b ∈ rm)) as [| Hb]; [done |]. rewrite Hrm in Hb. by apply eq_None_not_Some. }
  erewrite bind_run by exact (remove_all_run spec v rm w Hv). rewrite Ev. set (w1 := with_obj _ w).
  assert (inv_in ((pair spec <$> rm) ++ L) ({[spec]} ∪ X) ∅ (obj w1) (km w1)) as Hi1.
  { cbn [obj km w1 with_obj]. rewrite <-Ev. apply inv_del_members; [done | done | apply NoDup_filter, NoDup_addr_keys |].
    intros b. apply Hrm. }
  exists ((pair spec <$> rm) ++ L), ({[spec]} ∪ X), w1. split; [| by split_and!].
  assert (addr_keys ({[ a := 1 ]} : gmap Z Z) = [a]) as -> by (unfold addr_keys; rewrite map_to_list_singleton; reflexivity).
  cbn [omap list_omap]. rewrite lookup_singleton_eq. cbn [fmap option_fmap option_map apply_reals].
  apply bind_throw. rewrite bind_get.
  assert (vip_at (obj w1) spec = set_members (λ _, ∅) v) as -> by (unfold vip_at; cbn; by rewrite lookup_insert_eq).
  cbn [v_members set_members]. rewrite lookup_empty. apply bind_throw.
  destruct (add_member_lb _ _ _ e spec (set_members (λ _, ∅) v) a 1 w1 Hi1 Hc Ha) as [(_ & _ & H) | (w' & [E | E] & _)].
  - apply lookup_insert_eq.
  - apply lookup_empty.
  - rewrite (proj2 (occ_zero _ _)); [lia |]. intros Hin. destruct (held_id _ _ _ _ _ _ Hi1 Hin) as [id Hid]. cbn in Hid. congruence.
  - exact H.
  - by destruct E.
  - by destruct E.
Qed.

(** The only VIP is to have one real, new to a table that is full. *)
Lemma reload_throws L X e spec v a mac w :
  inv_in L X ∅ (obj w) (km w) → calm w → initialized_ (obj w) = true → Mac.parse (if_address e) = Some mac →
  vips_ (obj w) = {[ spec := v ]} → v_flags v = 0 → a ≠ 0 →
  by_addr (reals_ (obj w)) !! a = None → next_free (reals_ (obj w)) = None →
  ∃ L' X' w', apply e (one_real_config spec a) w = (Throw too_many_reals, w') ∧
    inv_in L' X' ∅ (obj w') (km w') ∧ calm w' ∧ initialized_ (obj w') = true ∧
    vips_ (obj w') = {[ spec := set_members (λ _, ∅) v ]} ∧ reals_ (obj w') = reals_ (obj w).
Proof.
  intros Hi Hc Hinit Hmac Hvs Hfl Ha Hn Hfull. unfold apply. rewrite bind_get, Hinit. cbv zeta. cbn [negb].
  unfold mbind at 1, M_bind at 1. cbn [mret M_ret].
  destruct (write_config_lb L X ∅ e (one_real_config spec a) mac w Hi Hc Hmac) as (w1 & H1 & O1 & _ & _ & Hi1 & Hc1 & _).
  erewrite bind_run by exact H1. rewrite bind_modify, bind_get, O1. cbn [obj Config.vips one_real_config demo_config fmap list_fmap Config.vc_spec].
  set (hc := negb _). set (s2 := set_mode _ _ _ (obj w)). set (w2 := mk_world s2 _ _ _).
  assert (vips_ (obj w2) = {[ spec := v ]}) as V2 by exact Hvs.
  assert (vips_ (obj w2) !! spec = Some v) as Hv by (rewrite V2; apply lookup_singleton_eq).
  assert (inv_in L ({[spec]} ∪ X) ∅ (obj w2) (km w2)) as Hi2.
  { rewrite O1 in Hi1. apply inv_mode.
    - eapply inv_stale; [exact Hi1 |]. intros sp _ ?. by apply elem_of_union_r.
    - right. intros sp [u Hu]. rewrite Hvs in Hu. apply lookup_singleton_Some in Hu as [<- _]. by apply elem_of_union_l, elem_of_singleton. }
  erewrite bind_run.
  2: { change (vips_ s2) with (vips_ (obj w2)). rewrite V2.
       assert (spec_keys ({[ spec := v ]} : gmap VipSpec.t Vip) = [spec]) as ->
         by (unfold spec_keys; rewrite map_to_list_singleton; reflexivity).
       cbn [m_for]. rewrite bool_decide_eq_true_2 by (apply elem_of_list_to_set, list_elem_of_here). reflexivity. }
  destruct (apply_vip_throws L ({[spec]} ∪ X) e hc spec v a w2 Hi2 Hc1 Hv Hfl Ha Hn Hfull) as (L' & X' & w' & H & Hi' & Hc' & O').
  exists L', X', w'. split_and!; try done.
  - apply bind_throw. cbn [m_for]. apply bind_throw. exact H.
  - by rewrite O'.
  - rewrite O'. cbn [vips_ set_vips]. rewrite V2. apply insert_singleton_eq.
  - by rewrite O'.
Qed.

Lemma all_reals_singleton spec flags (ms : gmap Z AMember) : all_reals {[ spec := (flags, ms) ]} = dom ms.
Proof.
  apply set_eq. intros a. rewrite elem_of_all_reals, elem_of_dom. split.
  - intros (sp & fl & ms' & [_ [= _ <-]]%lookup_singleton_Some & Ha). done.
  - intros Ha. exists spec, flags, ms. by rewrite lookup_singleton_eq.
Qed.

(** Adding reals to the only VIP. *)
Lemma fill_run e spec (l : list Z) ms w :
  inv (obj w) (km w) → calm w → abs (obj w) = {[ spec := (0, ms) ]} → NoDup l →
  (∀ a, a ∈ l → a ≠ 0 ∧ a ∉ dom ms) → Z.of_nat (size ms) + Z.of_nat (length l) <= PB_MAX_REALS - 1 →
  ∃ ms' w', m_for l (λ a, run_api e (AddReal spec a 1)) w = (Ok (), w') ∧ inv (obj w') (km w') ∧ calm w' ∧
    same_settings (obj w) (obj w') ∧ abs (obj w') = {[ spec := (0, ms') ]} ∧ dom ms' = list_to_set l ∪ dom ms.
Proof.
  intros Hi Hc Ha Hnd. revert ms w Hi Hc Ha. induction Hnd as [| a l Hn Hnd IH]; intros ms w Hi Hc Ha Hl Hsz; cbn [m_for].
  { exists ms, w. split_and!; try done. cbn. by rewrite (left_id_L ∅ (∪)). }
  destruct (Hl a (list_elem_of_here _ _)) as [Ha0 Had]. rewrite not_elem_of_dom in Had. cbn [length] in Hsz.
  pose proof (api_done_all e (AddReal spec a 1) w Hi Hc) as Hd. destruct (run_api e (AddReal spec a 1) w) as [r w1] eqn:E1.
  unfold api_done in Hd. rewrite Ha in Hd. cbn [spec_api] in Hd. rewrite lookup_singleton_eq, all_reals_singleton, size_dom in Hd.
  rewrite (proj2 (Z.eqb_neq a 0) Ha0), bool_decide_eq_false_2 in Hd by (rewrite Had; by intros []).
  change (Config.kMaxRealWeight <? 1) with false in Hd.
  rewrite (proj2 (Z.eqb_neq (Z.of_nat (size ms)) (PB_MAX_REALS - 1))), andb_false_r, insert_singleton_eq in Hd by lia.
  destruct Hd as (-> & A1 & Hi1 & G1 & S1). erewrite bind_run by exact E1.
  destruct (IH (<[a := mk_amember 1 false true]> ms) w1 Hi1 (g_calm _ _ G1) A1) as (ms' & w' & H & Hi' & Hc' & S & A & D).
  - intros b Hb. split; [by apply Hl, list_elem_of_further |]. rewrite dom_insert, elem_of_union, elem_of_singleton.
    intros [-> | Hbd]; [done |]. destruct (Hl b (list_elem_of_further _ _ _ Hb)). done.
  - rewrite map_size_insert_None by done. lia.
  - exists ms', w'. split_and!; try done; [by etrans |]. rewrite D, dom_insert_L, list_to_set_cons.
    by rewrite (assoc_L (∪)), (comm_L (∪) (list_to_set l)).
Qed.

(** A configuration that validates can be impossible to reload. On a VIP
    with 511 reals, the most the table holds, a new configuration with one other
    real fails with "too many reals", because the new real is added before the
    old ones are released; the failed reload has already taken the old reals out
    of the VIP and their ids are never released, so that reloading the same
    configuration again fails too. *)
Theorem full_reload_leaks :
  let cfg := one_real_config LbTheorems.vip80 1000 in
  let add_all :=
    _ ← run_api env_eth (AddVip LbTheorems.vip80 false);
    m_for (seqZ 1 511) (λ a, run_api env_eth (AddReal LbTheorems.vip80 a 1)) in
  Config.validate_config cfg = Ok () ∧
  ∃ w1 w2 w3, add_all LbTheorems.empty_world = (Ok (), w1) ∧
    apply env_eth cfg w1 = (Throw too_many_reals, w2) ∧
    v_members <$> vips_ (obj w2) !! LbTheorems.vip80 = Some ∅ ∧
    (∀ a, 1 <= a <= 511 → is_Some (id_of (reals_ (obj w2)) a)) ∧
    apply env_eth cfg w2 = (Throw too_many_reals, w3).
Proof.
  intros cfg add_all. split; [vm_compute; reflexivity |].
  pose proof (api_done_all env_eth (AddVip LbTheorems.vip80 false) LbTheorems.empty_world LbTheorems.empty_inv LbTheorems.empty_calm) as Hd.
  destruct (run_api env_eth (AddVip LbTheorems.vip80 false) LbTheorems.empty_world) as [r w0] eqn:E0. unfold api_done in Hd.
  change (abs (obj LbTheorems.empty_world)) with (∅ : Abs) in Hd. cbn [spec_api] in Hd.
  rewrite lookup_empty, bool_decide_eq_false_2, map_size_empty in Hd by (by intros []). destruct Hd as (-> & A0 & Hi0 & G0 & S0).
  destruct (fill_run env_eth LbTheorems.vip80 (seqZ 1 511) ∅ w0 Hi0 (g_calm _ _ G0) A0 (NoDup_seqZ 1 511))
    as (ms & w1 & H1 & Hi1 & Hc1 & S1 & A1 & D1).
  { intros a Ha%elem_of_seqZ. split; [lia |]. rewrite dom_empty. apply not_elem_of_empty. }
  { rewrite length_seqZ. done. }
  assert (∃ v, vips_ (obj w1) = {[ LbTheorems.vip80 := v ]} ∧ v_flags v = 0) as (v & Hv & Hfl).
  { assert (dom (vips_ (obj w1)) = {[LbTheorems.vip80]}) as Hdom by (rewrite <-dom_fmap_L with (f := absv); fold (abs (obj w1)); rewrite A1; apply dom_singleton_L).
    apply dom_singleton_inv_L in Hdom as [v Hv]. exists v. split; [done |]. unfold abs in A1. rewrite Hv, map_fmap_singleton in A1.
    apply (f_equal (lookup LbTheorems.vip80)) in A1. rewrite !lookup_singleton_eq in A1. by injection A1 as ->. }
  assert (dom (by_addr (reals_ (obj w1))) = list_to_set (seqZ 1 511)) as Hd.
  { rewrite (dom_reals _ _ _ _ Hi1), A1, all_reals_singleton, D1, dom_empty_L. apply (right_id_L ∅ (∪)). }
  assert (by_addr (reals_ (obj w1)) !! 1000 = None) as Hn.
  { apply not_elem_of_dom. rewrite Hd, elem_of_list_to_set, elem_of_seqZ. lia. }
  assert (next_free (reals_ (obj w1)) = None) as Hf.
  { apply (reals_ids _ _ _ _ _ Hi1). rewrite <-size_dom, Hd, size_list_to_set by apply NoDup_seqZ. by rewrite length_seqZ. }
  assert (initialized_ (obj w1) = true) as Hini.
  { assert (same_settings (obj LbTheorems.empty_world) (obj w1)) as (_ & _ & _ & _ & ->) by (etrans; [exact S0 | exact S1]). done. }
  destruct (reload_throws [] ∅ env_eth LbTheorems.vip80 v 1000 (mk_pb_mac 2 0 0 0 0 1) w1 Hi1 Hc1 Hini eq_refl Hv Hfl ltac:(lia) Hn Hf)
    as (L2 & X2 & w2 & H2 & Hi2 & Hc2 & Hini2 & V2 & R2).
  destruct (reload_throws L2 X2 env_eth LbTheorems.vip80 (set_members (λ _, ∅) v) 1000 (mk_pb_mac 2 0 0 0 0 1) w2 Hi2 Hc2 Hini2 eq_refl V2 Hfl ltac:(lia))
    as (_ & _ & w3 & H3 & _); [by rewrite R2 | by rewrite R2 |].
  exists w1, w2, w3. split_and!.
  - unfold add_all. erewrite bind_run by exact E0. exact H1.
  - exact H2.
  - rewrite V2, lookup_singleton_eq. done.
  - intros a Ha. unfold id_of. rewrite R2. apply elem_of_dom. rewrite Hd. apply elem_of_list_to_set, elem_of_seqZ. lia.
  - exact H3.
Qed.

End LbApply.
