(* ===== verification/LbBoot.v ===== *)
(** * The first apply: taking over from a previous daemon

    A daemon that starts finds the pinned maps of the one before it. The first
    [LbState::apply] reads the reals and the VIPs back, creates the configured
    VIPs under their old ids while packets keep using the old rings, and only
    then removes what the configuration does not have. *)

From Stdlib Require Import ZArith Lia.
From S2P Require Import Prelude Abi VipSpec Maglev Control RealTable Config LbState LbInv LbProps LbTheorems LbApply.

#[local] Set Warnings "-clear-no-such-hyp".

Module LbBoot.
Import RealTable LbState LbInv LbProps LbApply.

(** ** What is kept while the daemon starts *)

(** The table only grows: ids and known MACs stay. *)
Definition grows (tb tb' : RealTable.t) : Prop :=
  ∀ a id, by_addr tb !! a = Some id →
    by_addr tb' !! a = Some id ∧ ∀ mac, s_mac (slot tb id) = Some mac → s_mac (slot tb' id) = Some mac.

#[global] Instance grows_po : PreOrder grows.
Proof.
  split; [by intros tb a id |]. intros tb1 tb2 tb3 H1 H2 a id H. destruct (H1 a id H) as [E1 M1].
  destruct (H2 a id E1) as [E2 M2]. split; [done | auto].
Qed.

(** The VIPs in [S0] are in vip_map under their old ids. *)
Definition served (S0 : gmap VipSpec.t Z) (m : Maps) : Prop :=
  ∀ spec id, S0 !! spec = Some id → ∃ val, vip_map m !! VipSpec.key spec = Some val ∧ vv_vip_id val = id.

(** A ring names reals of the table only. *)
Definition names_table (tb : RealTable.t) (r : list Z) : Prop :=
  length r = Z.to_nat PB_RING_SIZE ∧ ∀ x, x ∈ r → x = PB_REAL_NONE ∨ ∃ a, by_addr tb !! a = Some x.

(** [S0]: VIPs of the previous daemon that stay.  [L]: addresses of acquired
    reals that are no members yet.  [N]: VIPs being created. *)
Record boot (S0 : gmap VipSpec.t Z) (L : list Z) (N : gset VipSpec.t) (s : LbState.t) (m : Maps) : Prop := {
  bt_tb : RealTable.inv (reals_ s);
  bt_mirror : mirror (reals_ s) m;
  bt_spec : ∀ spec v, vips_ s !! spec = Some v → v_spec v = spec;
  bt_id : ∀ spec v, vips_ s !! spec = Some v → 0 <= v_id v < PB_MAX_VIPS;
  bt_inj : ∀ spec spec' v v',
    vips_ s !! spec = Some v → vips_ s !! spec' = Some v' → v_id v = v_id v' → spec = spec';
  bt_old : ∀ spec id, adopted_vip_ids_ s !! spec = Some id →
    0 <= id < PB_MAX_VIPS ∧ vips_ s !! spec = None ∧
    (∀ sp v, vips_ s !! sp = Some v → v_id v ≠ id) ∧ (∀ sp, adopted_vip_ids_ s !! sp = Some id → sp = spec);
  bt_refs : ∀ a, refs_of (reals_ s) a = Z.of_nat (count a (vips_ s)) + Z.of_nat (occ a L);
  bt_in_ring : ∀ spec v a mb, vips_ s !! spec = Some v → spec ∉ N → v_members v !! a = Some mb →
    m_in_ring mb = true → eligible (reals_ s) a mb = true;
  bt_ring : ∀ spec v, vips_ s !! spec = Some v → spec ∉ N →
    ∃ r, rings m !! v_id v = Some r ∧
         Maglev.build_ring (backends_of (reals_ s) (v_members v)) (hash_ s) PB_RING_SIZE = Some (Ok r);
  bt_published : ∀ spec v, vips_ s !! spec = Some v → spec ∉ N →
    vip_map m !! VipSpec.key spec = Some (mk_vip_value (v_id v) (v_flags v));
  bt_map : ∀ k val, vip_map m !! k = Some val → ∃ spec, k = VipSpec.key spec ∧
    ((∃ v, vips_ s !! spec = Some v ∧ v_id v = vv_vip_id val) ∨ adopted_vip_ids_ s !! spec = Some (vv_vip_id val));
  bt_names : ∀ k val, vip_map m !! k = Some val → ∃ r, rings m !! vv_vip_id val = Some r ∧ names_table (reals_ s) r;
  bt_served : served S0 m;
  bt_kept : ∀ spec id, S0 !! spec = Some id →
    adopted_vip_ids_ s !! spec = Some id ∨ ∃ v, vips_ s !! spec = Some v ∧ v_id v = id
}.

(** What a packet meets while the daemon starts. *)
Definition boot_safe (S0 : gmap VipSpec.t Z) (m : Maps) : Prop := safe m ∧ served S0 m.

Section boot.
Context (S0 : gmap VipSpec.t Z).

Lemma boot_range L N s m k val : boot S0 L N s m → vip_map m !! k = Some val → 0 <= vv_vip_id val < PB_MAX_VIPS.
Proof.
  intros Hb Hk. destruct (bt_map _ _ _ _ _ Hb k val Hk) as (spec & _ & [(v & Hv & <-) | Ho]).
  - by apply (bt_id _ _ _ _ _ Hb spec).
  - apply (bt_old _ _ _ _ _ Hb spec _ Ho).
Qed.

(** A map state whose arrays show the table's reals. *)
Lemma boot_shows L N s m m1 :
  boot S0 L N s m → vip_map m1 = vip_map m → rings m1 = rings m →
  (∀ a id, by_addr (reals_ s) !! a = Some id → reals m1 !! Z.to_nat id = Some (mk_pb_real a 0)) → boot_safe S0 m1.
Proof.
  intros Hb Ev Er Hshow. split.
  - intros k val Hk. rewrite Ev in Hk. split; [by eapply boot_range |].
    destruct (bt_names _ _ _ _ _ Hb k val Hk) as (r & Hr & Hl & Hn). exists r. rewrite Er. split_and!; try done.
    intros x Hx. destruct (Hn x Hx) as [-> | (a & Ha)]; [by left | right].
    destruct (RealTable.inv_id _ _ _ (bt_tb _ _ _ _ _ Hb) Ha) as (H1 & H2 & H3). split; [done |]. exists a. auto.
  - intros spec id H. rewrite Ev. by apply (bt_served _ _ _ _ _ Hb).
Qed.

Lemma boot_is_safe L N s m : boot S0 L N s m → boot_safe S0 m.
Proof.
  intros Hb. apply (boot_shows L N s m m Hb); [done | done |].
  intros a id Ha. eapply mirror_real; [apply Hb | apply Hb | done].
Qed.

Lemma boot_member L N s m spec v a :
  boot S0 L N s m → vips_ s !! spec = Some v → is_Some (v_members v !! a) → is_Some (by_addr (reals_ s) !! a).
Proof.
  intros Hb Hv Ha. pose proof (bt_refs _ _ _ _ _ Hb a) as Hr. pose proof (count_pos a spec v _ Hv Ha).
  unfold refs_of in Hr. destruct (by_addr (reals_ s) !! a); [eauto | lia].
Qed.

(** ** Changes of the table *)

Lemma grows_ids tb tb' a : grows tb tb' → is_Some (by_addr tb !! a) → id_of tb' a = id_of tb a.
Proof. intros Hg [id Hid]. unfold id_of. rewrite Hid. by apply Hg. Qed.

Lemma grows_eligible tb tb' a mb : grows tb tb' → eligible tb a mb = true → eligible tb' a mb = true.
Proof.
  intros Hg. unfold eligible, mac_of, id_of. rewrite !andb_true_iff, !bool_decide_eq_true. intros [H [mac Hm]]. split; [done |].
  destruct (by_addr tb !! a) as [id |] eqn:E; [| done]. destruct (Hg a id E) as [-> H2]. cbn in *. rewrite (H2 mac Hm). eauto.
Qed.

Lemma boot_table L L' N s m tb' m' :
  boot S0 L N s m → grows (reals_ s) tb' → RealTable.inv tb' → mirror tb' m' →
  vip_map m' = vip_map m → rings m' = rings m →
  (∀ a, refs_of tb' a + Z.of_nat (occ a L) = refs_of (reals_ s) a + Z.of_nat (occ a L')) →
  boot S0 L' N (set_reals_ tb' s) m'.
Proof.
  intros Hb Hg Ht Hm Ev Er Hrefs. split; cbn [reals_ set_reals_ vips_ adopted_vip_ids_ hash_]; rewrite ?Ev, ?Er; try apply Hb; try done.
  - intros a. pose proof (bt_refs _ _ _ _ _ Hb a). specialize (Hrefs a). lia.
  - intros spec v a mb Hv HN Ha Hin. eapply grows_eligible; [done |]. by eapply (bt_in_ring _ _ _ _ _ Hb).
  - intros spec v Hv HN. destruct (bt_ring _ _ _ _ _ Hb spec v Hv HN) as (r & Hr & Hbd). exists r. split; [done |].
    rewrite (backends_ext (reals_ s)); [done |]. intros a Ha. apply grows_ids; [done |]. by eapply boot_member.
  - intros k val Hk. destruct (bt_names _ _ _ _ _ Hb k val Hk) as (r & Hr & Hl & Hn). exists r. split; [done |]. split; [done |].
    intros x Hx. destruct (Hn x Hx) as [-> | (a & Ha)]; [by left | right]. exists a. by apply Hg.
  - intros spec id H. unfold served in *. rewrite Ev. by apply (bt_served _ _ _ _ _ Hb).
Qed.

Lemma boot_between L N s m tb' m1 :
  boot S0 L N s m → grows (reals_ s) tb' → RealTable.inv tb' → between (reals_ s) tb' m1 → same_rest m m1 → boot_safe S0 m1.
Proof.
  intros Hb Hg Ht Hbt (Ev & Er & _). apply (boot_shows L N s m m1 Hb Ev Er). intros a id Ha.
  destruct (Hg a id Ha) as [Ha' _]. destruct (RealTable.inv_id _ _ _ (bt_tb _ _ _ _ _ Hb) Ha) as (H1 & H2 & H3).
  destruct (RealTable.inv_id _ _ _ Ht Ha') as (_ & _ & H4).
  destruct (Hbt id) as [[E _] | [[E _] | [E _]]]; [lia | | | congruence]; rewrite E; unfold real_of_slot; congruence.
Qed.

(** No bpf call failed, and every map state on the way is as promised. *)
Record starts (w w' : World LbState.t) : Prop := {
  st_calm : calm w';
  st_hist : ∃ ms, hist w' = hist w ++ ms ∧ Forall (boot_safe S0) ms;
  st_rest : conntrack (km w') = conntrack (km w) ∧ config (km w') = config (km w)
}.

Lemma starts_refl w : calm w → starts w w.
Proof. intros H. split; [done | | done]. exists []. by rewrite app_nil_r. Qed.

Lemma starts_trans w1 w2 w3 : starts w1 w2 → starts w2 w3 → starts w1 w3.
Proof.
  intros [_ (ms & E & F) C] [H (ms' & E' & F') C']. split; [done | | destruct C, C'; split; congruence].
  exists (ms ++ ms'). split; [by rewrite E', E, app_assoc |]. by apply Forall_app.
Qed.

Lemma starts_write w w' m : calm w' → hist w' = hist w ++ [m] → boot_safe S0 m →
  conntrack (km w') = conntrack (km w) ∧ config (km w') = config (km w) → starts w w'.
Proof. intros Hc Hh Hs Hct. split; [done | | done]. exists [m]. split; [done |]. by apply Forall_singleton. Qed.

Lemma boot_step {A} L L' N w (r : result A) wt :
  boot S0 L N (obj w) (km w) → step_ok (table_world w) r wt → is_ok r = true → calm wt → grows (reals_ (obj w)) (obj wt) →
  (∀ a, refs_of (obj wt) a + Z.of_nat (occ a L) = refs_of (reals_ (obj w)) a + Z.of_nat (occ a L')) →
  let w' := mk_world (set_reals_ (obj wt) (obj w)) (km wt) (hist wt) (sys wt) in
  boot S0 L' N (obj w') (km w') ∧ starts w w'.
Proof.
  intros Hb [S1 (ms & E & F) S3 S4] Hok Hc Hg Hr. cbn [obj km hist]. split.
  - destruct S4 as (V1 & V2 & _). eapply boot_table; eauto.
  - split; [done | | by destruct S4 as (_ & _ & ? & _ & ?)]. exists ms. split; [exact E |]. eapply Forall_impl; [exact F |].
    intros m1 [Hbt Hs]. eapply boot_between; eauto.
Qed.

(** ** Adding a member *)

Lemma boot_vips_bound L N s m : boot S0 L N s m → Z.of_nat (size (vips_ s)) <= PB_MAX_VIPS.
Proof.
  intros Hb. destruct (map_values v_id (vips_ s)) as (Hnd & Hl & Hin).
  { intros k k' x x'. apply (bt_inj _ _ _ _ _ Hb). }
  destruct (NoDup_seqZ_length _ 0 PB_MAX_VIPS Hnd) as [H1 _]; [| done | by rewrite Hl in H1].
  intros z (k & x & Hx & ->)%Hin. apply (bt_id _ _ _ _ _ Hb) in Hx. lia.
Qed.

Lemma boot_refs_bound L N s m a : boot S0 L N s m → (occ a L <= 1)%nat → refs_of (reals_ s) a + 1 < 2 ^ 32.
Proof.
  intros Hb HL. rewrite (bt_refs _ _ _ _ _ Hb a). pose proof (count_size a (vips_ s)) as Hc.
  pose proof (boot_vips_bound _ _ _ _ Hb) as Hm. unfold PB_MAX_VIPS in Hm. lia.
Qed.

(** The table's reals are in [B], which fits. *)
Definition fits (B : gset Z) (s : LbState.t) : Prop :=
  dom (by_addr (reals_ s)) ⊆ B ∧ Z.of_nat (size B) <= PB_MAX_REALS - 1.

Lemma fits_free B s a :
  RealTable.inv (reals_ s) → fits B s → a ∈ B → by_addr (reals_ s) !! a = None → next_free (reals_ s) ≠ None.
Proof.
  intros Ht [Hd Hs] Ha Hn Hf.
  assert ({[a]} ∪ dom (by_addr (reals_ s)) ⊆ B) as Hsub by (intros b [->%elem_of_singleton | Hb]%elem_of_union; auto).
  apply subseteq_size in Hsub. rewrite size_union, size_singleton in Hsub.
  2: { intros b ->%elem_of_singleton. by apply not_elem_of_dom. }
  apply (table_full _ Ht) in Hf. rewrite size_dom in Hsub. lia.
Qed.

Lemma boot_acquire B L N e a w :
  boot S0 L N (obj w) (km w) → calm w → a ≠ 0 → (occ a L <= 1)%nat → fits B (obj w) → a ∈ B →
  ∃ id w', real_op (acquire e a) w = (Ok id, w') ∧ boot S0 (a :: L) N (obj w') (km w') ∧ starts w w' ∧
    (∃ tb, obj w' = set_reals_ tb (obj w)) ∧ grows (reals_ (obj w)) (reals_ (obj w')) ∧ fits B (obj w') ∧
    is_Some (by_addr (reals_ (obj w')) !! a).
Proof.
  intros Hb Hc Ha HL [HB1 HB2] HaB. pose proof (bt_tb _ _ _ _ _ Hb) as Ht. pose proof (bt_mirror _ _ _ _ _ Hb) as Hm.
  pose proof (boot_refs_bound _ _ _ _ a Hb HL) as Hbd. set (tb := reals_ (obj w)) in *.
  destruct (by_addr tb !! a) as [id |] eqn:Ea.
  - destruct (acquire_known_run e a id (table_world w) Ht Hm Ea) as [H Hst].
    pose proof (inv_refs _ Ht id) as Hu. unfold is_u in Hu.
    assert (refs_of tb a = s_refs (slot tb id)) as Er by (unfold refs_of; by rewrite Ea).
    assert (∀ b, refs_of (tb_ref id tb) b = refs_of tb b + (if decide (a = b) then 1 else 0) ∧ mac_of (tb_ref id tb) b = mac_of tb b) as Hv.
    { intros b. unfold tb_ref. destruct (slot_views a id (mk_slot (s_addr (slot tb id)) (u32 (s_refs (slot tb id) + 1)) (s_mac (slot tb id))) tb b Ht Ea) as [V1 V2].
      rewrite V1, V2. cbn [s_refs s_mac]. destruct (decide (a = b)) as [<- | ]; [| split; [lia | done]].
      rewrite u32_id by (unfold is_u; lia). split; [lia |]. unfold mac_of, id_of. by rewrite Ea. }
    assert (grows tb (tb_ref id tb)) as Hg.
    { intros b i Hbi. split; [exact Hbi |]. intros mac Hmac. destruct (Hv b) as [_ E]. unfold mac_of, id_of in E.
      change (by_addr (tb_ref id tb)) with (by_addr tb) in E. rewrite Hbi in E. cbn in E. by rewrite E. }
    destruct (boot_step L (a :: L) N w _ _ Hb Hst eq_refl Hc Hg) as [G1 G2].
    { intros b. cbn [obj with_obj table_world]. fold tb. destruct (Hv b) as [-> _]. rewrite occ_cons. destruct (decide (a = b)); lia. }
    exists id. eexists. split; [exact (real_op_run _ _ _ _ H) |]. split_and!; try done. by exists (tb_ref id tb).
  - pose proof (acquire_fresh_run e a (table_world w) Ht Hm Ha Ea) as H. cbn [obj table_world] in H. fold tb in H.
    destruct (next_free tb) as [id |] eqn:En; [| by destruct (fits_free B (obj w) a Ht (conj HB1 HB2) HaB Ea)].
    destruct H as (r & wt & H & O & Hst & _ & C). destruct (C Hc) as [-> Hc'].
    destruct (next_free_spec tb id Ht En) as [Hid Hf].
    assert (∀ b, refs_of (obj wt) b = refs_of tb b + (if decide (a = b) then 1 else 0) ∧
                 mac_of (obj wt) b = mac_of tb b ∧
                 (∀ i, by_addr tb !! b = Some i → by_addr (obj wt) !! b = Some i ∧ slot (obj wt) i = slot tb i)) as Hv
      by (intros b; rewrite O; by apply fill_views).
    assert (grows tb (obj wt)) as Hg.
    { intros b i Hbi. destruct (Hv b) as (_ & _ & Hk). destruct (Hk i Hbi) as [-> ->]. done. }
    destruct (boot_step L (a :: L) N w _ _ Hb Hst eq_refl Hc' Hg) as [G1 G2].
    { intros b. fold tb. destruct (Hv b) as [-> _]. rewrite occ_cons. destruct (decide (a = b)); lia. }
    exists id. eexists. split; [exact (real_op_run _ _ _ _ H) |]. cbn [obj reals_ set_reals_] in *.
    split_and!; try done; [by exists (obj wt) | |].
    + split; [| done]. cbn [reals_ set_reals_]. rewrite O. cbn [by_addr tb_fill set_by_addr]. rewrite dom_insert.
      intros b [->%elem_of_singleton | ?]%elem_of_union; auto.
    + rewrite O. cbn [by_addr tb_fill set_by_addr]. rewrite lookup_insert_eq. eauto.
Qed.

Lemma boot_ask_mac B L N e a w :
  boot S0 L N (obj w) (km w) → calm w → fits B (obj w) →
  ∃ w', ask_mac e a w = (Ok (), w') ∧ boot S0 L N (obj w') (km w') ∧ starts w w' ∧
    (∃ tb, obj w' = set_reals_ tb (obj w)) ∧ grows (reals_ (obj w)) (reals_ (obj w')) ∧ fits B (obj w').
Proof.
  intros Hb Hc HB. unfold ask_mac. rewrite bind_get.
  assert (∃ w', (Ok () : result unit, w) = (Ok (), w') ∧ boot S0 L N (obj w') (km w') ∧ starts w w' ∧
    (∃ tb, obj w' = set_reals_ tb (obj w)) ∧ grows (reals_ (obj w)) (reals_ (obj w')) ∧ fits B (obj w')) as Hskip.
  { exists w. split_and!; try done; [by apply starts_refl | exists (reals_ (obj w)); by destruct (obj w)]. }
  destruct (mac_of (reals_ (obj w)) a) eqn:Em; [done |]. destruct (mac_lookup e) as [lookup |]; [| done].
  destruct (lookup (default a (next_hop_ (obj w)))) as [mac |]; [| done]. clear Hskip.
  pose proof (bt_tb _ _ _ _ _ Hb) as Ht. set (tb := reals_ (obj w)) in *.
  destruct (set_mac_run e a mac (table_world w) Ht (bt_mirror _ _ _ _ _ Hb)) as (r & wt & H & O & Hst & _ & C).
  destruct (C Hc) as [Hok Hc']. destruct r as [b |]; [clear Hok | done]. cbn [obj table_world] in O. fold tb in O.
  assert (by_addr (obj wt) = by_addr tb) as Eby by (rewrite O; unfold tb_set_mac; by destruct (by_addr tb !! a)).
  assert (grows tb (obj wt) ∧ ∀ c, refs_of (obj wt) c = refs_of tb c) as [Hg Hr].
  { rewrite O. unfold tb_set_mac. destruct (by_addr tb !! a) as [id |] eqn:Ea; [| done].
    pose proof (λ c, slot_views a id (mk_slot (s_addr (slot tb id)) (s_refs (slot tb id)) (Some mac)) tb c Ht Ea) as Hv. split.
    - intros c i Hci. split; [done |]. intros mac' Hm'. destruct (Hv c) as [_ V2]. unfold mac_of, id_of in V2, Em. rewrite Ea in Em.
      change (by_addr (set_slot id (mk_slot (s_addr (slot tb id)) (s_refs (slot tb id)) (Some mac)) tb)) with (by_addr tb) in V2. rewrite Hci in V2.
      cbn in V2, Em. rewrite V2. destruct (decide (a = c)) as [<- | ]; [congruence | done].
    - intros c. destruct (Hv c) as [-> _]. cbn. destruct (decide (a = c)) as [<- | ]; [| done]. unfold refs_of. by rewrite Ea. }
  destruct (boot_step L L N w _ _ Hb Hst eq_refl Hc' Hg) as [G1 G2].
  { intros c. fold tb. by rewrite Hr. }
  eexists. split; [by erewrite bind_run by exact (real_op_run _ _ _ _ H) |]. split_and!; try done; [by eexists |].
  destruct HB as [HB1 HB2]. split; [| done]. cbn [obj reals_ set_reals_]. by rewrite Eby.
Qed.

(** ** Creating a VIP *)

Lemma boot_new_vip L N s m spec id flags :
  boot S0 L N s m → vips_ s !! spec = None → 0 <= id < PB_MAX_VIPS →
  (∀ sp v, vips_ s !! sp = Some v → v_id v ≠ id) →
  (∀ sp id', adopted_vip_ids_ s !! sp = Some id' → id' = id ↔ sp = spec) →
  boot S0 L ({[spec]} ∪ N) (set_vips <[spec := mk_vip spec id flags 0 ∅]> (set_adopted (delete spec) s)) m.
Proof.
  intros Hb Hn Hid Hfresh Hold. set (v0 := mk_vip spec id flags 0 ∅).
  assert (∀ sp u, sp ∉ {[spec]} ∪ N → <[spec := v0]> (vips_ s) !! sp = Some u → (sp ∉ N) ∧ vips_ s !! sp = Some u) as Hoth.
  { intros sp u HZ. rewrite not_elem_of_union, not_elem_of_singleton in HZ. destruct HZ as [Hne HZ]. by rewrite lookup_insert_ne. }
  split; cbn [reals_ vips_ adopted_vip_ids_ hash_ set_vips set_adopted]; try apply Hb.
  - intros sp u. rewrite lookup_insert. destruct (decide (spec = sp)) as [<- | ]; [by intros [= <-] | apply (bt_spec _ _ _ _ _ Hb)].
  - intros sp u. rewrite lookup_insert. destruct (decide (spec = sp)) as [<- | ]; [by intros [= <-] | apply (bt_id _ _ _ _ _ Hb)].
  - intros sp sp' u u'. rewrite !lookup_insert.
    destruct (decide (spec = sp)) as [<- | ], (decide (spec = sp')) as [<- | ]; try done.
    + intros [= <-] Hu' E. by destruct (Hfresh sp' u' Hu').
    + intros Hu [= <-] E. by destruct (Hfresh sp u Hu).
    + apply (bt_inj _ _ _ _ _ Hb).
  - intros sp i [Hne Hi]%lookup_delete_Some. destruct (bt_old _ _ _ _ _ Hb sp i Hi) as (B1 & B2 & B3 & B4). split_and!; try lia.
    + by rewrite lookup_insert_ne.
    + intros sp' u. rewrite lookup_insert. destruct (decide (spec = sp')) as [<- | ]; [| apply B3].
      intros [= <-] E. cbn in E. apply Hne. symmetry. by apply (Hold sp i Hi).
    + intros sp' [_ Hi']%lookup_delete_Some. by apply B4.
  - intros a. rewrite count_insert_new by done. unfold ind. cbn [v_members v0].
    rewrite decide_False by (rewrite lookup_empty; by intros []). rewrite (bt_refs _ _ _ _ _ Hb a). lia.
  - intros sp u a mb Hu HX. destruct (Hoth sp u HX Hu) as [HX' Hu']. by apply (bt_in_ring _ _ _ _ _ Hb sp u).
  - intros sp u Hu HX. destruct (Hoth sp u HX Hu) as [HX' Hu']. by apply (bt_ring _ _ _ _ _ Hb sp u).
  - intros sp u Hu HX. destruct (Hoth sp u HX Hu) as [HX' Hu']. by apply (bt_published _ _ _ _ _ Hb sp u).
  - intros k val Hk. destruct (bt_map _ _ _ _ _ Hb k val Hk) as (sp & -> & H). exists sp. split; [done |].
    destruct H as [(u & Hu & E) | Ho].
    + left. exists u. rewrite lookup_insert_ne by congruence. done.
    + rewrite lookup_insert, lookup_delete. destruct (decide (spec = sp)) as [<- | ]; [left | by right].
      exists v0. split; [done |]. symmetry. by apply (Hold spec).
  - intros sp i Hi. destruct (bt_kept _ _ _ _ _ Hb sp i Hi) as [Ho | (u & Hu & E)].
    + rewrite lookup_insert, lookup_delete. destruct (decide (spec = sp)) as [<- | ]; [right | by left].
      exists v0. split; [done |]. symmetry. by apply (Hold spec).
    + right. exists u. rewrite lookup_insert_ne by congruence. done.
Qed.

Lemma boot_change L L' N s m spec v v' :
  boot S0 L N s m → vips_ s !! spec = Some v → spec ∈ N → v_spec v' = v_spec v → v_id v' = v_id v →
  (∀ a, ind a v' + occ a L' = ind a v + occ a L)%nat →
  boot S0 L' N (set_vips <[spec := v']> s) m.
Proof.
  intros Hb Hv HN E1 E2 Hrefs.
  assert (∀ sp u, <[spec := v']> (vips_ s) !! sp = Some u →
    ∃ u0, vips_ s !! sp = Some u0 ∧ v_spec u = v_spec u0 ∧ v_id u = v_id u0 ∧ (sp ∉ N → u = u0)) as Hold.
  { intros sp u. destruct (decide (sp = spec)) as [-> | Hne].
    - rewrite lookup_insert_eq. intros [= <-]. exists v. split_and!; done.
    - rewrite lookup_insert_ne by done. intros Hu. exists u. split_and!; done. }
  assert (∀ sp u0, vips_ s !! sp = Some u0 → ∃ u, <[spec := v']> (vips_ s) !! sp = Some u ∧ v_id u = v_id u0) as Hnew.
  { intros sp u0 Hu. destruct (decide (sp = spec)) as [-> | Hne].
    - exists v'. rewrite lookup_insert_eq. split; congruence.
    - exists u0. by rewrite lookup_insert_ne. }
  split; cbn [reals_ vips_ adopted_vip_ids_ hash_ set_vips]; try apply Hb.
  - intros sp u (u0 & H0 & S1 & _)%Hold. rewrite S1. by apply (bt_spec _ _ _ _ _ Hb).
  - intros sp u (u0 & H0 & _ & S2 & _)%Hold. rewrite S2. by apply (bt_id _ _ _ _ _ Hb sp).
  - intros sp sp' u u' (u0 & H0 & _ & S2 & _)%Hold (u0' & H0' & _ & S2' & _)%Hold. rewrite S2, S2'.
    by apply (bt_inj _ _ _ _ _ Hb).
  - intros sp i Hi. destruct (bt_old _ _ _ _ _ Hb sp i Hi) as (B1 & B2 & B3 & B4). split_and!; try lia; try done.
    + rewrite lookup_insert_ne; [done | congruence].
    + intros sp' u (u0 & H0 & _ & -> & _)%Hold. by apply (B3 sp').
  - intros a. rewrite (bt_refs _ _ _ _ _ Hb a). pose proof (count_insert a spec v v' _ Hv). specialize (Hrefs a). lia.
  - intros sp u a mb (u0 & H0 & _ & _ & E)%Hold HX. rewrite (E HX). by apply (bt_in_ring _ _ _ _ _ Hb sp).
  - intros sp u (u0 & H0 & _ & _ & E)%Hold HX. rewrite (E HX). by apply (bt_ring _ _ _ _ _ Hb sp).
  - intros sp u (u0 & H0 & _ & _ & E)%Hold HX. rewrite (E HX). by apply (bt_published _ _ _ _ _ Hb sp).
  - intros k val Hk. destruct (bt_map _ _ _ _ _ Hb k val Hk) as (sp & -> & [(u0 & Hu & E) | Ho]); exists sp; (split; [done |]); [left | by right].
    destruct (Hnew sp u0 Hu) as (u & Hu' & E'). exists u. split; [done | congruence].
  - intros sp i Hi. destruct (bt_kept _ _ _ _ _ Hb sp i Hi) as [Ho | (u0 & Hu & E)]; [by left | right].
    destruct (Hnew sp u0 Hu) as (u & Hu' & E'). exists u. split; [done | congruence].
Qed.

Lemma boot_add_member B N e spec v a weight w :
  boot S0 [] N (obj w) (km w) → calm w → a ≠ 0 → vips_ (obj w) !! spec = Some v → spec ∈ N → v_members v !! a = None →
  fits B (obj w) → a ∈ B →
  ∃ mb w', add_member_locked e spec a weight w = (Ok (), w') ∧ boot S0 [] N (obj w') (km w') ∧ starts w w' ∧
    vips_ (obj w') = <[spec := set_members <[a := mb]> v]> (vips_ (obj w)) ∧ absm mb = mk_amember weight false true ∧
    adopted_vip_ids_ (obj w') = adopted_vip_ids_ (obj w) ∧ same_settings (obj w) (obj w') ∧
    grows (reals_ (obj w)) (reals_ (obj w')) ∧ fits B (obj w').
Proof.
  intros Hb Hc Ha Hv HN Hm HB HaB. unfold add_member_locked.
  destruct (boot_acquire B [] N e a w Hb Hc Ha) as (id & w1 & H1 & Hb1 & St1 & (tb1 & O1) & Hg1 & HB1 & _); [cbn; lia | done | done |].
  erewrite bind_run by exact H1.
  destruct (boot_ask_mac B [a] N e a w1 Hb1 (st_calm _ _ St1) HB1) as (w2 & H2 & Hb2 & St2 & (tb2 & O2) & Hg2 & HB2).
  erewrite bind_run by exact H2. rewrite bind_get, bind_modify. unfold upd_vip, modify.
  assert (vips_ (obj w2) = vips_ (obj w)) as Ev by (by rewrite O2, O1).
  set (mb := new_member e weight (next_incarnation_ (obj w2))). exists mb. eexists. split; [reflexivity |]. cbn [obj km].
  assert (alter (set_members (emplace a mb)) spec (vips_ (obj w2)) = <[spec := set_members <[a := mb]> v]> (vips_ (obj w))) as Ea.
  { rewrite Ev, (alter_Some _ _ _ v Hv). unfold set_members. by rewrite emplace_None. }
  split_and!.
  - assert (boot S0 [] N (set_vips <[spec := set_members <[a := mb]> v]> (obj w2)) (km w2)) as Hb3.
    { eapply boot_change; [exact Hb2 | by rewrite Ev | done | done | done |]. intros b. unfold ind. cbn [v_members set_members].
      rewrite occ_cons. destruct (decide (a = b)) as [<- | Hne].
      - rewrite lookup_insert_eq, Hm. rewrite decide_True, decide_False by (eauto || by intros []). cbn; lia.
      - by rewrite lookup_insert_ne by done. }
    destruct Hb3. split; cbn [reals_ vips_ adopted_vip_ids_ hash_ set_vips set_next_incarnation] in *; rewrite ?Ea, ?Ev in *; assumption.
  - destruct (starts_trans _ _ _ St1 St2) as [? ? ?]. by split.
  - cbn. by rewrite Ea.
  - done.
  - cbn. by rewrite O2, O1.
  - cbn. by rewrite O2, O1.
  - cbn [reals_ set_vips set_next_incarnation]. by etrans.
  - exact HB2.
Qed.

(** The ring of a VIP names its members. *)
Lemma boot_ring_names L N s m spec v r :
  boot S0 L N s m → vips_ s !! spec = Some v →
  Maglev.build_ring (backends_of (reals_ s) (v_members v)) (hash_ s) PB_RING_SIZE = Some (Ok r) → names_table (reals_ s) r.
Proof.
  intros Hb Hv Hr. destruct (ring_built (reals_ s) (v_members v) (hash_ s)) as (r' & H1 & H2 & H3).
  rewrite H1 in Hr. injection Hr as <-. split; [done |]. intros x Hx.
  destruct (H3 x Hx) as [-> | (a & mb & Ha & _ & ->)]; [by left | right].
  destruct (boot_member _ _ _ _ _ _ a Hb Hv) as [id Hid]; [by eauto |]. exists a. unfold id_of. by rewrite Hid.
Qed.

Lemma boot_install L N s m spec v r :
  boot S0 L N s m → vips_ s !! spec = Some v → spec ∈ N →
  Maglev.build_ring (backends_of (reals_ s) (v_members v)) (hash_ s) PB_RING_SIZE = Some (Ok r) →
  boot S0 L N s (set_rings <[v_id v := r]> m).
Proof.
  intros Hb Hv HN Hr. split; cbn [rings vip_map set_rings]; try apply Hb.
  - by destruct (bt_mirror _ _ _ _ _ Hb).
  - intros sp u Hu HX. rewrite lookup_insert_ne; [by apply (bt_ring _ _ _ _ _ Hb sp) |].
    intros E. apply (bt_inj _ _ _ _ _ Hb spec sp v u Hv Hu) in E. by subst.
  - intros k val Hk. rewrite lookup_insert. destruct (decide (v_id v = vv_vip_id val)).
    + exists r. split; [done |]. by eapply boot_ring_names.
    + by apply (bt_names _ _ _ _ _ Hb k).
Qed.

Lemma boot_publish L N s m spec v r :
  boot S0 L N s m → vips_ s !! spec = Some v → rings m !! v_id v = Some r →
  (∀ a mb, v_members v !! a = Some mb → m_in_ring mb = true → eligible (reals_ s) a mb = true) →
  Maglev.build_ring (backends_of (reals_ s) (v_members v)) (hash_ s) PB_RING_SIZE = Some (Ok r) →
  boot S0 L (N ∖ {[spec]}) s (set_vip_map <[VipSpec.key spec := mk_vip_value (v_id v) (v_flags v)]> m).
Proof.
  intros Hb Hv Hrm Hin Hr.
  assert (∀ sp, sp ∉ N ∖ {[spec]} → sp = spec ∨ sp ∉ N) as HN by (intros sp H; rewrite not_elem_of_difference, elem_of_singleton in H; tauto).
  split; cbn [rings vip_map set_vip_map]; try apply Hb.
  - by destruct (bt_mirror _ _ _ _ _ Hb).
  - intros sp u a mb Hu [-> | HX]%HN; [| by apply (bt_in_ring _ _ _ _ _ Hb sp)]. rewrite Hv in Hu. injection Hu as <-. apply Hin.
  - intros sp u Hu [-> | HX]%HN; [| by apply (bt_ring _ _ _ _ _ Hb sp)]. rewrite Hv in Hu. injection Hu as <-. eauto.
  - intros sp u Hu HX. rewrite lookup_insert. destruct (decide (VipSpec.key spec = VipSpec.key sp)) as [<-%key_inj | Hne]; [congruence |].
    apply HN in HX as [-> | HX]; [done |]. by apply (bt_published _ _ _ _ _ Hb sp).
  - intros k val. rewrite lookup_insert. destruct (decide (VipSpec.key spec = k)) as [<- | Hne]; [| apply (bt_map _ _ _ _ _ Hb)].
    intros [= <-]. exists spec. split; [done |]. left. by exists v.
  - intros k val. rewrite lookup_insert. destruct (decide (VipSpec.key spec = k)) as [<- | Hne]; [| apply (bt_names _ _ _ _ _ Hb)].
    intros [= <-]. exists r. split; [done |]. by eapply boot_ring_names.
  - intros sp i Hi. cbn [vip_map set_vip_map]. rewrite lookup_insert. destruct (decide (VipSpec.key spec = VipSpec.key sp)) as [<-%key_inj | Hne].
    + eexists. split; [done |]. cbn. destruct (bt_kept _ _ _ _ _ Hb spec i Hi) as [Ho | (u & Hu & E)]; [| congruence].
      destruct (bt_old _ _ _ _ _ Hb spec i Ho) as (_ & ? & _). congruence.
    + by apply (bt_served _ _ _ _ _ Hb).
Qed.

Lemma boot_rebuild L N e spec v w :
  boot S0 L N (obj w) (km w) → calm w → vips_ (obj w) !! spec = Some v → spec ∈ N →
  ∃ r w', rebuild_locked e spec w = (Ok (), w') ∧
    obj w' = set_vips <[spec := rebuilt (reals_ (obj w)) v]> (obj w) ∧ rings (km w') !! v_id v = Some r ∧
    Maglev.build_ring (backends_of (reals_ (obj w)) (v_members (rebuilt (reals_ (obj w)) v))) (hash_ (obj w)) PB_RING_SIZE = Some (Ok r) ∧
    boot S0 L N (obj w') (km w') ∧ starts w w'.
Proof.
  intros Hb Hc Hv HN. destruct (rebuild_run e spec v w Hc Hv) as (r & w' & H & O & K & Hh & Hc' & Hr). exists r, w'.
  assert (boot S0 L N (obj w') (km w)) as Hb2.
  { rewrite O. eapply boot_change; try done. intros a. unfold ind. rewrite rebuilt_members.
    destruct (v_members v !! a); cbn; [rewrite !decide_True by eauto | rewrite !decide_False by (by intros [])]; lia. }
  assert (boot S0 L N (obj w') (km w')) as Hb3.
  { rewrite K. rewrite O in *. apply (boot_install L N _ _ spec (rebuilt (reals_ (obj w)) v)); [done | apply lookup_insert_eq | done | exact Hr]. }
  split_and!; try done.
  - rewrite K. apply lookup_insert_eq.
  - apply (starts_write _ _ (km w')); [done | done | by eapply boot_is_safe | by rewrite K].
Qed.

(** The VIPs and the pinned VIPs are in [W], which has enough ids. *)
Definition ids_fit (W : gset VipSpec.t) (s : LbState.t) : Prop :=
  dom (vips_ s) ∪ dom (adopted_vip_ids_ s) ⊆ W ∧ Z.of_nat (size W) <= PB_MAX_VIPS.

Lemma boot_allocate W L N s m spec :
  boot S0 L N s m → ids_fit W s → spec ∈ W → vips_ s !! spec = None → adopted_vip_ids_ s !! spec = None →
  ∃ id, allocate_vip_id s = Ok id ∧ 0 <= id < PB_MAX_VIPS ∧ (∀ sp v, vips_ s !! sp = Some v → v_id v ≠ id) ∧
        (∀ sp, adopted_vip_ids_ s !! sp ≠ Some id).
Proof.
  intros Hb [HW Hs] Hspec Hn Ho. unfold allocate_vip_id.
  set (used := (v_id ∘ snd <$> map_to_list (vips_ s)) ++ (snd <$> map_to_list (adopted_vip_ids_ s))).
  assert (Z.of_nat (length used) < PB_MAX_VIPS) as Hlen.
  { unfold used. rewrite length_app, !length_fmap, !length_map_to_list, <-!size_dom.
    assert ({[spec]} ∪ (dom (vips_ s) ∪ dom (adopted_vip_ids_ s)) ⊆ W) as Hsub by (intros sp [->%elem_of_singleton | ?]%elem_of_union; auto).
    apply subseteq_size in Hsub. rewrite size_union, size_singleton, size_union in Hsub; [lia | |].
    - intros sp [v Hv]%elem_of_dom [id Hid]%elem_of_dom. destruct (bt_old _ _ _ _ _ Hb sp id Hid) as (_ & ? & _). congruence.
    - intros sp ->%elem_of_singleton [H | H]%elem_of_union; apply elem_of_dom in H as [? ?]; congruence. }
  destruct (filter _ (seqZ 0 PB_MAX_VIPS)) as [| id l] eqn:Ef; cbn [head].
  - assert (seqZ 0 PB_MAX_VIPS ⊆+ used) as Hsub.
    { apply NoDup_submseteq; [apply NoDup_seqZ |]. intros id Hid. destruct (decide (id ∈ used)) as [| Hu]; [done | exfalso].
      assert (id ∈ filter (λ id, id ∉ used_vip_ids s) (seqZ 0 PB_MAX_VIPS)) as H.
      { apply list_elem_of_filter. split; [| done]. unfold used_vip_ids. by rewrite elem_of_list_to_set. }
      rewrite Ef in H. by apply not_elem_of_nil in H. }
    apply submseteq_length in Hsub. rewrite length_seqZ in Hsub. lia.
  - assert (id ∈ filter (λ id, id ∉ used_vip_ids s) (seqZ 0 PB_MAX_VIPS)) as [Hu Hid%elem_of_seqZ]%list_elem_of_filter
      by (rewrite Ef; apply list_elem_of_here).
    unfold used_vip_ids in Hu. rewrite elem_of_list_to_set, elem_of_app in Hu.
    exists id. split_and!; [done | lia | lia | |].
    + intros sp v Hv E. apply Hu. left. apply list_elem_of_fmap. exists (sp, v). split; [done |]. by apply elem_of_map_to_list.
    + intros sp Hsp. apply Hu. right. apply list_elem_of_fmap. exists (sp, id). split; [done |]. by apply elem_of_map_to_list.
Qed.

Lemma boot_take W L N e spec w :
  boot S0 L N (obj w) (km w) → calm w → ids_fit W (obj w) → spec ∈ W → vips_ (obj w) !! spec = None →
  ∃ id w', take_vip_id e spec w = (Ok id, w') ∧ obj w' = set_adopted (delete spec) (obj w) ∧ boot S0 L N (obj w) (km w') ∧
    starts w w' ∧ 0 <= id < PB_MAX_VIPS ∧ (∀ sp v, vips_ (obj w) !! sp = Some v → v_id v ≠ id) ∧
    (∀ sp id', adopted_vip_ids_ (obj w) !! sp = Some id' → id' = id ↔ sp = spec) ∧
    (∀ id', adopted_vip_ids_ (obj w) !! spec = Some id' → id = id').
Proof.
  intros Hb Hc HW Hspec Hn. unfold take_vip_id. rewrite bind_get.
  destruct (adopted_vip_ids_ (obj w) !! spec) as [id |] eqn:Ho.
  - rewrite bind_modify. destruct (bt_old _ _ _ _ _ Hb spec id Ho) as (B1 & B2 & B3 & B4).
    exists id. eexists. split; [reflexivity |]. cbn [obj km]. split_and!; try lia; try done.
    + by destruct (starts_refl w Hc); split.
    + intros sp id' Hsp. split; [intros ->; by apply B4 | intros ->; congruence].
    + by intros id' [= ->].
  - destruct (boot_allocate W L N _ _ spec Hb HW Hspec Hn Ho) as (id & -> & Hid & Hf1 & Hf2). unfold lift, mbind at 1, M_bind at 1.
    unfold reset_counters. set (f := set_stats _). destruct (map_write_run f w) as (err & w' & H & O & P & C).
    destruct (C Hc) as [-> Hc']. destruct P as [(_ & K & S) | (? & _)]; [| done].
    exists id, w'. split; [by erewrite bind_run by (erewrite bind_run by exact H; reflexivity) |].
    assert (boot S0 L N (obj w) (km w')) as Hb'.
    { rewrite K. split; try apply Hb. destruct (bt_mirror _ _ _ _ _ Hb). by split. }
    split_and!; try lia; try done.
    + rewrite O. destruct (obj w). unfold set_adopted. cbn in *. by rewrite delete_id.
    + apply (starts_write _ _ (km w')); [done | by rewrite S, K | by eapply boot_is_safe | by rewrite K].
    + intros sp id' Hsp. split; [intros ->; by destruct (Hf2 sp) | intros ->; congruence].
Qed.

(** The members of a VIP being created. *)
Lemma boot_add_all B N e spec (reals : gmap Z Z) l :
  NoDup l → (∀ a, a ∈ l → a ≠ 0 ∧ a ∈ B) →
  ∀ v w, boot S0 [] N (obj w) (km w) → calm w → vips_ (obj w) !! spec = Some v → spec ∈ N →
  (∀ a, a ∈ l → v_members v !! a = None) → fits B (obj w) →
  ∃ v' w', m_for l (λ a, add_member_locked e spec a (default 0 (reals !! a))) w = (Ok (), w') ∧
    boot S0 [] N (obj w') (km w') ∧ starts w w' ∧ vips_ (obj w') = <[spec := v']> (vips_ (obj w)) ∧
    same_but_members v v' ∧ adopted_vip_ids_ (obj w') = adopted_vip_ids_ (obj w) ∧ same_settings (obj w) (obj w') ∧
    grows (reals_ (obj w)) (reals_ (obj w')) ∧ fits B (obj w') ∧
    (∀ a, absm <$> v_members v' !! a = if decide (a ∈ l) then Some (mk_amember (default 0 (reals !! a)) false true)
                                       else absm <$> v_members v !! a).
Proof.
  intros Hnd Hl. induction Hnd as [| a l Ha Hnd IH]; intros v w Hb Hc Hv HN Hn HB; cbn [m_for].
  { exists v, w. split_and!; try done; [by apply starts_refl | by rewrite insert_id]. }
  destruct (Hl a (list_elem_of_here _ _)) as [Ha0 HaB].
  destruct (boot_add_member B N e spec v a (default 0 (reals !! a)) w Hb Hc Ha0 Hv HN (Hn a (list_elem_of_here _ _)) HB HaB)
    as (mb & w1 & H1 & Hb1 & St1 & V1 & E1 & A1 & S1 & Gr1 & R1).
  erewrite bind_run by exact H1.
  destruct (IH (λ b Hb', Hl b (list_elem_of_further _ _ _ Hb')) (set_members <[a := mb]> v) w1 Hb1 (st_calm _ _ St1))
    as (v' & w' & H & Hb' & St & V & SB & A & S & Gr & R & M).
  - rewrite V1. apply lookup_insert_eq.
  - done.
  - intros b Hbl. cbn [v_members set_members]. rewrite lookup_insert_ne by (by intros ->). by apply Hn, list_elem_of_further.
  - done.
  - exists v', w'. split_and!; try done.
    + by eapply starts_trans.
    + by rewrite V, V1, insert_insert_eq.
    + congruence.
    + by etrans.
    + by etrans.
    + intros b. rewrite M. cbn [v_members set_members]. destruct (decide (b ∈ l)) as [Hbl | Hbl].
      * rewrite decide_True; [done |]. by apply list_elem_of_further.
      * rewrite lookup_insert. destruct (decide (a = b)) as [<- | Hne].
        -- rewrite decide_True by apply list_elem_of_here. cbn. by rewrite E1.
        -- rewrite decide_False; [done |]. rewrite elem_of_cons. naive_solver.
Qed.

Lemma boot_entry L N e spec v r w :
  boot S0 L N (obj w) (km w) → calm w → vips_ (obj w) !! spec = Some v → rings (km w) !! v_id v = Some r →
  (∀ a mb, v_members v !! a = Some mb → m_in_ring mb = true → eligible (reals_ (obj w)) a mb = true) →
  Maglev.build_ring (backends_of (reals_ (obj w)) (v_members v)) (hash_ (obj w)) PB_RING_SIZE = Some (Ok r) →
  ∃ w', write_vip_entry e spec w = (Ok (), w') ∧ obj w' = obj w ∧ boot S0 L (N ∖ {[spec]}) (obj w') (km w') ∧ starts w w'.
Proof.
  intros Hb Hc Hv Hk Hin Hr. unfold write_vip_entry. rewrite bind_get. cbv zeta.
  assert (vip_at (obj w) spec = v) as -> by (unfold vip_at; by rewrite Hv). rewrite (bt_spec _ _ _ _ _ Hb spec v Hv).
  destruct (checked_write_run (set_vip_map <[VipSpec.key spec := mk_vip_value (v_id v) (v_flags v)]>)
    (λ err, §"write vip_map for " ++ VipSpec.to_str spec ++ §": " ++ errstr e err) w) as (r' & w' & H & O & P & C).
  destruct (C Hc) as [-> Hc']. destruct P as [K S]. exists w'.
  assert (boot S0 L (N ∖ {[spec]}) (obj w') (km w')) as Hb' by (rewrite O, K; by apply (boot_publish _ _ _ _ spec v r)).
  split_and!; try done. apply (starts_write _ _ (km w')); [done | by rewrite S, K | by eapply boot_is_safe | by rewrite K].
Qed.

Lemma boot_create W B e spec flags (reals : gmap Z Z) w :
  boot S0 [] ∅ (obj w) (km w) → calm w → ids_fit W (obj w) → spec ∈ W → vips_ (obj w) !! spec = None →
  (∀ a, is_Some (reals !! a) → a ≠ 0 ∧ a ∈ B) → fits B (obj w) →
  ∃ id v' w', create_vip_locked e spec flags reals w = (Ok id, w') ∧ boot S0 [] ∅ (obj w') (km w') ∧ starts w w' ∧
    vips_ (obj w') = <[spec := v']> (vips_ (obj w)) ∧ absv v' = (flags, want_members reals ∅) ∧
    (∀ id', adopted_vip_ids_ (obj w) !! spec = Some id' → v_id v' = id') ∧
    adopted_vip_ids_ (obj w') = delete spec (adopted_vip_ids_ (obj w)) ∧
    same_settings (obj w) (obj w') ∧ grows (reals_ (obj w)) (reals_ (obj w')) ∧ fits B (obj w') ∧ ids_fit W (obj w').
Proof.
  intros Hb Hc HW Hspec Hv Hr HB. unfold create_vip_locked.
  destruct (boot_take W [] ∅ e spec w Hb Hc HW Hspec Hv) as (id & w1 & H1 & O1 & Hb1 & St1 & Hid & Hfresh & Hold & Hkeep).
  erewrite bind_run by exact H1. rewrite bind_modify, O1. set (v0 := mk_vip spec id flags 0 ∅).
  set (s2 := set_vips <[spec := v0]> (set_adopted (delete spec) (obj w))).
  assert (set_vips (emplace spec v0) (set_adopted (delete spec) (obj w)) = s2) as ->
    by (unfold s2, set_vips; cbn [vips_ set_adopted]; by rewrite emplace_None).
  set (w2 := mk_world _ _ _ _).
  assert (boot S0 [] ({[spec]} ∪ ∅) (obj w2) (km w2)) as Hb2 by (by apply boot_new_vip).
  assert (starts w w2) as St2 by (by destruct St1; split).
  destruct (boot_add_all B ({[spec]} ∪ ∅) e spec reals (addr_keys reals)) with (v := v0) (w := w2)
    as (v3 & w3 & H3 & Hb3 & St3 & V3 & SB3 & A3 & S3 & Gr3 & R3 & M3); try done.
  { apply NoDup_addr_keys. }
  { intros a Ha%elem_of_addr_keys. by apply Hr. }
  { apply St2. }
  { apply lookup_insert_eq. }
  { by apply elem_of_union_l, elem_of_singleton. }
  erewrite bind_run by exact H3.
  destruct (boot_rebuild _ _ e spec v3 w3 Hb3 (st_calm _ _ St3)) as (r & w4 & H4 & O4 & K4 & Hr4 & Hb4 & St4).
  { rewrite V3. apply lookup_insert_eq. }
  { by apply elem_of_union_l, elem_of_singleton. }
  erewrite bind_run by exact H4. set (v4 := rebuilt (reals_ (obj w3)) v3) in *.
  assert (vips_ (obj w4) !! spec = Some v4) as Hv4 by (rewrite O4; apply lookup_insert_eq).
  destruct (boot_entry [] _ e spec v4 r w4 Hb4 (st_calm _ _ St4) Hv4 K4) as (w5 & H5 & O5 & Hb5 & St5).
  { intros a mb. rewrite O4. apply rebuilt_in_ring. }
  { rewrite O4. exact Hr4. }
  erewrite bind_run by exact H5. rewrite single_done in Hb5.
  assert (vips_ (obj w5) = <[spec := v4]> (vips_ (obj w))) as V5.
  { rewrite O5, O4. cbn [vips_ set_vips]. rewrite V3. cbn [vips_ set_vips w2 obj s2 set_adopted]. by rewrite !insert_insert_eq. }
  assert (adopted_vip_ids_ (obj w5) = delete spec (adopted_vip_ids_ (obj w))) as A5 by (rewrite O5, O4; exact A3).
  exists id, v4, w5. split_and!; try done.
  - eapply starts_trans; [exact St2 |]. eapply starts_trans; [exact St3 |]. by eapply starts_trans.
  - unfold v4. rewrite absv_rebuilt. unfold absv. destruct SB3 as (_ & _ & ->). cbn [v_flags v0]. f_equal.
    apply map_eq. intros a. rewrite lookup_fmap, M3, lookup_want_members, lookup_empty. cbn [v_members v0].
    destruct (reals !! a) as [weight |] eqn:Ea.
    + rewrite decide_True by (apply elem_of_addr_keys; eauto). done.
    + rewrite decide_False by (rewrite elem_of_addr_keys, Ea; by intros []). by rewrite lookup_empty.
  - intros id' Hid'. rewrite <-(Hkeep id' Hid'). unfold v4, rebuilt. cbn [v_id bump_generation set_members]. by destruct SB3 as (_ & -> & _).
  - rewrite O5, O4. etrans; [| exact S3]. done.
  - rewrite O5, O4. exact Gr3.
  - rewrite O5, O4. exact R3.
  - destruct HW as [HW1 HW2]. split; [| done]. rewrite V5, A5, dom_insert, dom_delete. intros sp.
    rewrite !elem_of_union, elem_of_singleton, elem_of_difference. intros [[-> | ?] | [? _]]; [done | apply HW1; set_solver..].
Qed.

(** Every VIP of the configuration is created. *)
Lemma boot_vips W B e hash_changed l :
  NoDup (Config.vc_spec <$> l) → (∀ vc, vc ∈ l → reals_fit B vc ∧ Config.vc_spec vc ∈ W) →
  ∀ w, boot S0 [] ∅ (obj w) (km w) → calm w → ids_fit W (obj w) → fits B (obj w) →
  (∀ vc, vc ∈ l → vips_ (obj w) !! Config.vc_spec vc = None) →
  ∃ w', m_for l (apply_vip e hash_changed) w = (Ok (), w') ∧ boot S0 [] ∅ (obj w') (km w') ∧ starts w w' ∧
    abs (obj w') = list_to_map ((λ vc, (Config.vc_spec vc, want_vip ∅ vc)) <$> l) ∪ abs (obj w) ∧
    (∀ vc id, vc ∈ l → adopted_vip_ids_ (obj w) !! Config.vc_spec vc = Some id →
       ∃ v, vips_ (obj w') !! Config.vc_spec vc = Some v ∧ v_id v = id) ∧
    (∀ sp v, vips_ (obj w) !! sp = Some v → vips_ (obj w') !! sp = Some v) ∧
    same_settings (obj w) (obj w') ∧ grows (reals_ (obj w)) (reals_ (obj w')).
Proof.
  intros Hnd Hl. induction l as [| vc l IH]; intros w Hb Hc HW HB Hn; cbn [m_for].
  { exists w. split_and!; try done; [by apply starts_refl | cbn; by rewrite (left_id_L ∅ (∪)) | by intros vc id ?%not_elem_of_nil]. }
  rewrite fmap_cons in Hnd. apply NoDup_cons in Hnd as [Hni Hnd]. destruct (Hl vc (list_elem_of_here _ _)) as [Hfit HvW].
  pose proof (Hn vc (list_elem_of_here _ _)) as Hv.
  destruct (boot_create W B e (Config.vc_spec vc) (vip_flags vc) (want_of vc) w Hb Hc HW HvW Hv Hfit HB)
    as (id & v1 & w1 & H1 & Hb1 & St1 & V1 & E1 & Id1 & A1 & S1 & Gr1 & R1 & W1).
  assert (apply_vip e hash_changed vc w = (Ok (), w1)) as Hav.
  { unfold apply_vip. cbv zeta. rewrite bind_get, Hv. by erewrite bind_run by exact H1. }
  erewrite bind_run by exact Hav.
  assert (∀ vc', vc' ∈ l → Config.vc_spec vc' ≠ Config.vc_spec vc) as Hne.
  { intros vc' Hin E. apply Hni. rewrite <-E. by apply list_elem_of_fmap_2. }
  destruct (IH Hnd (λ vc' Hvc', Hl vc' (list_elem_of_further _ _ _ Hvc')) w1 Hb1 (st_calm _ _ St1) W1 R1)
    as (w2 & H2 & Hb2 & St2 & E2 & Id2 & K2 & S2 & Gr2).
  { intros vc' Hin. rewrite V1, lookup_insert_ne by (intros E; by apply (Hne vc' Hin)). by apply Hn, list_elem_of_further. }
  assert (abs (obj w1) = <[Config.vc_spec vc := want_vip ∅ vc]> (abs (obj w))) as Ab1.
  { unfold abs at 1. rewrite V1, fmap_insert, E1. unfold want_vip, old_members. by rewrite lookup_empty. }
  assert ((list_to_map ((λ vc', (Config.vc_spec vc', want_vip ∅ vc')) <$> l) : Abs) !! Config.vc_spec vc = None) as Hnl.
  { apply not_elem_of_list_to_map_1. rewrite <-list_fmap_compose. exact Hni. }
  exists w2. split_and!; try done; [by eapply starts_trans | | | | by etrans | by etrans].
  - rewrite E2, Ab1, fmap_cons, list_to_map_cons, <-insert_union_l. by rewrite insert_union_r.
  - intros vc' id' [-> | Hin]%elem_of_cons Hid'.
    + exists v1. split; [| by apply Id1]. apply K2. rewrite V1. apply lookup_insert_eq.
    + apply Id2; [done |]. rewrite A1, lookup_delete_ne; [done |]. intros E. by apply (Hne vc' Hin).
  - intros sp v Hsp. apply K2. rewrite V1, lookup_insert_ne; [done | congruence].
Qed.

(** ** Removing what the configuration does not have *)

(** A pinned VIP that is gone. *)
Lemma boot_drop_pinned e spec id w :
  boot S0 [] ∅ (obj w) (km w) → calm w → adopted_vip_ids_ (obj w) !! spec = Some id → S0 !! spec = None →
  ∃ w', drop_pinned e spec w = (Ok (), w') ∧ obj w' = obj w ∧ boot S0 [] ∅ (obj w') (km w') ∧ starts w w' ∧
    vip_map (km w') = delete (VipSpec.key spec) (vip_map (km w)).
Proof.
  intros Hb Hc Ho HS. destruct (bt_old _ _ _ _ _ Hb spec id Ho) as (B1 & B2 & B3 & B4).
  unfold drop_pinned. rewrite bind_get, B2, Ho.
  destruct (map_write_run (set_vip_map (delete (VipSpec.key spec))) w) as (err & w1 & H1 & O1 & P1 & C1).
  destruct (C1 Hc) as [-> Hc1]. destruct P1 as [(_ & K1 & S1) | (? & _)]; [| done]. erewrite bind_run by exact H1.
  unfold remove_ring. destruct (map_write_run (set_rings (delete id)) w1) as (err & w2 & H2 & O2 & P2 & C2).
  destruct (C2 Hc1) as [-> Hc2]. destruct P2 as [(_ & K2 & S2) | (? & _)]; [| done]. erewrite bind_run by exact H2.
  assert (boot S0 [] ∅ (obj w) (km w1)) as Hb1.
  { rewrite K1. split; cbn [vip_map rings set_vip_map]; try apply Hb.
    - by destruct (bt_mirror _ _ _ _ _ Hb).
    - intros sp v Hv HN. rewrite lookup_delete_ne by (intros ->%key_inj; congruence). by apply (bt_published _ _ _ _ _ Hb).
    - intros k val [_ Hk]%lookup_delete_Some. by apply (bt_map _ _ _ _ _ Hb).
    - intros k val [_ Hk]%lookup_delete_Some. by apply (bt_names _ _ _ _ _ Hb k).
    - intros sp i Hi. cbn [vip_map set_vip_map]. rewrite lookup_delete_ne by (intros ->%key_inj; congruence).
      by apply (bt_served _ _ _ _ _ Hb). }
  assert (∀ k val, vip_map (km w1) !! k = Some val → vv_vip_id val ≠ id) as Hgone.
  { intros k val Hk Eid. rewrite K1 in Hk. cbn [vip_map set_vip_map] in Hk. apply lookup_delete_Some in Hk as [Hne Hk].
    destruct (bt_map _ _ _ _ _ Hb k val Hk) as (sp & -> & [(v & Hv & E) | Hsp]); rewrite Eid in *; [by apply (B3 sp v) |].
    apply B4 in Hsp as ->. done. }
  assert (boot S0 [] ∅ (obj w) (km w2)) as Hb2.
  { rewrite K2. split; cbn [vip_map rings set_rings]; try apply Hb1.
    - by destruct (bt_mirror _ _ _ _ _ Hb1).
    - intros sp v Hv HN. rewrite lookup_delete_ne by (intros E; by apply (B3 sp v)). by apply (bt_ring _ _ _ _ _ Hb1 sp).
    - intros k val Hk. rewrite lookup_delete_ne by (intros E; by apply (Hgone k val)). by apply (bt_names _ _ _ _ _ Hb1 k). }
  exists w2. rewrite O2, O1. split_and!; try done.
  - split; [done | | by rewrite K2, K1]. exists [km w1; km w2]. rewrite S2, S1, K2, K1, <-app_assoc. split; [done |].
    rewrite <-K1, <-K2, !Forall_cons. split_and!; [by eapply boot_is_safe | by eapply boot_is_safe | done].
  - by rewrite K2, K1.
Qed.

Lemma boot_drop_all e l :
  ∀ w, boot S0 [] ∅ (obj w) (km w) → calm w →
  (∀ spec, spec ∈ l → is_Some (adopted_vip_ids_ (obj w) !! spec) ∧ S0 !! spec = None) →
  ∃ w', m_for l (drop_pinned e) w = (Ok (), w') ∧ obj w' = obj w ∧ boot S0 [] ∅ (obj w') (km w') ∧ starts w w' ∧
    (∀ k, vip_map (km w) !! k = None → vip_map (km w') !! k = None) ∧
    (∀ spec, spec ∈ l → vip_map (km w') !! VipSpec.key spec = None).
Proof.
  induction l as [| spec l IH]; intros w Hb Hc Hl; cbn [m_for].
  { exists w. split_and!; try done; [by apply starts_refl | by intros sp ?%not_elem_of_nil]. }
  destruct (Hl spec (list_elem_of_here _ _)) as [[id Ho] HS].
  destruct (boot_drop_pinned e spec id w Hb Hc Ho HS) as (w1 & H1 & O1 & Hb1 & St1 & V1). erewrite bind_run by exact H1.
  destruct (IH w1 Hb1 (st_calm _ _ St1)) as (w2 & H2 & O2 & Hb2 & St2 & M2 & V2).
  { intros sp Hsp. rewrite O1. by apply Hl, list_elem_of_further. }
  exists w2. split_and!; try done; [congruence | by eapply starts_trans | |].
  - intros k Hk. apply M2. rewrite V1. apply lookup_delete_None. by right.
  - intros sp [-> | Hsp]%elem_of_cons; [| by apply V2]. apply M2. rewrite V1. apply lookup_delete_eq.
Qed.

(** The table after drop_unreferenced. *)
Lemma kept_views tb tb' :
  RealTable.inv tb → RealTable.inv tb' → (∀ id, id ∈ ids → slot tb' id = kept (slot tb id)) →
  (∀ a id, by_addr tb' !! a = Some id ↔ by_addr tb !! a = Some id ∧ 0 < s_refs (slot tb id)) ∧
  (∀ a id, by_addr tb' !! a = Some id → slot tb' id = slot tb id) ∧
  (∀ a, refs_of tb' a = refs_of tb a).
Proof.
  intros Ht Ht' Hs.
  assert (∀ id, 1 <= id < PB_MAX_REALS → slot tb' id = kept (slot tb id)) as Hs' by (intros id Hid; apply Hs, elem_of_seqZ; lia).
  assert (∀ a id, by_addr tb' !! a = Some id ↔ by_addr tb !! a = Some id ∧ 0 < s_refs (slot tb id)) as Hby.
  { intros a id. rewrite (inv_ids _ Ht'), (inv_ids _ Ht). split.
    - intros (H1 & H2 & H3). rewrite (Hs' id H1) in H3. unfold kept in H3. destruct (Z.ltb_spec 0 (s_refs (slot tb id))); [| done].
      split_and!; auto; lia.
    - intros ((H1 & H2 & H3) & H4). rewrite (Hs' id H1). unfold kept. rewrite (proj2 (Z.ltb_lt _ _) H4). split_and!; auto; lia. }
  assert (∀ a id, by_addr tb' !! a = Some id → slot tb' id = slot tb id) as Hsl.
  { intros a id Ha. pose proof (RealTable.inv_id _ _ _ Ht' Ha) as (H1 & _). rewrite (Hs' id H1). apply Hby in Ha as [_ Hr].
    unfold kept. by rewrite (proj2 (Z.ltb_lt _ _) Hr). }
  split_and!; [done | done |]. intros a. unfold refs_of. destruct (by_addr tb' !! a) as [id |] eqn:E.
  - rewrite (Hsl a id E). by apply Hby in E as [-> _].
  - destruct (by_addr tb !! a) as [id |] eqn:E'; [| done]. pose proof (inv_refs _ Ht id) as Hu. unfold is_u in Hu.
    destruct (Z.ltb_spec 0 (s_refs (slot tb id))); [| lia]. assert (by_addr tb' !! a = Some id) by (by apply Hby). congruence.
Qed.

(** The daemon is in its invariant once nothing pinned is left. *)
Lemma boot_done s m tb' m' :
  boot S0 [] ∅ s m → (∀ spec, is_Some (adopted_vip_ids_ s !! spec) → vip_map m !! VipSpec.key spec = None) →
  RealTable.inv tb' → mirror tb' m' → (∀ id, id ∈ ids → slot tb' id = kept (slot (reals_ s) id)) →
  vip_map m' = vip_map m → rings m' = rings m →
  inv (set_initialized true (set_reals_ tb' (set_adopted (λ _, ∅) s))) m'.
Proof.
  intros Hb Hgone Ht Hm Hs Ev Er. pose proof (bt_tb _ _ _ _ _ Hb) as Ht0.
  destruct (kept_views _ _ Ht0 Ht Hs) as (Hby & Hsl & Hrefs).
  assert (∀ spec v a, vips_ s !! spec = Some v → is_Some (v_members v !! a) →
    ∃ id, by_addr (reals_ s) !! a = Some id ∧ by_addr tb' !! a = Some id) as Hmem.
  { intros spec v a Hv Ha. pose proof (bt_refs _ _ _ _ _ Hb a) as Hr. pose proof (count_pos a spec v _ Hv Ha).
    unfold refs_of in Hr. destruct (by_addr (reals_ s) !! a) as [id |] eqn:Ea; [| lia]. exists id. split; [done |].
    apply Hby. split; [done |]. rewrite Hr. lia. }
  assert (∀ spec v, vips_ s !! spec = Some v → ∃ r, rings m !! v_id v = Some r ∧
    Maglev.build_ring (backends_of tb' (v_members v)) (hash_ s) PB_RING_SIZE = Some (Ok r)) as Hring.
  { intros spec v Hv. destruct (bt_ring _ _ _ _ _ Hb spec v Hv (not_elem_of_empty spec)) as (r & Hr & Hbd). exists r.
    split; [done |]. rewrite (backends_ext (reals_ s)); [done |]. intros a Ha.
    destruct (Hmem spec v a Hv Ha) as (id & E1 & E2). unfold id_of. congruence. }
  split; cbn [reals_ vips_ adopted_vip_ids_ hash_ set_initialized set_reals_ set_adopted]; rewrite ?Ev, ?Er; try apply Hb; try done.
  - intros a. rewrite Hrefs. apply Hb.
  - intros a id Ha. rewrite (Hsl a id Ha). by apply Hby in Ha as [_ ?].
  - intros spec v a mb Hv _ Ha Hin. pose proof (bt_in_ring _ _ _ _ _ Hb spec v a mb Hv (not_elem_of_empty spec) Ha Hin) as He.
    destruct (Hmem spec v a Hv ltac:(eauto)) as (id & E1 & E2). rewrite <-He. apply eligible_mac. unfold mac_of, id_of.
    rewrite E1, E2. cbn. by rewrite (Hsl a id E2).
  - intros k val. split.
    + intros Hk. destruct (bt_map _ _ _ _ _ Hb k val Hk) as (spec & -> & [(v & Hv & E) | Ho]).
      * rewrite (bt_published _ _ _ _ _ Hb spec v Hv (not_elem_of_empty spec)) in Hk. injection Hk as <-. exists spec, v. by split_and!.
      * rewrite (Hgone spec) in Hk by eauto. done.
    + intros (spec & v & Hv & _ & -> & ->). by apply (bt_published _ _ _ _ _ Hb).
  - intros spec v Hv _. destruct (Hring spec v Hv) as (r & Hr & Hbd). exists r. split; [done |].
    destruct (ring_built tb' (v_members v) (hash_ s)) as (r' & H1 & H2 & H3). rewrite H1 in Hbd. injection Hbd as <-.
    split; [done |]. intros x Hx. destruct (H3 x Hx) as [-> | (a & mb & Ha & _ & ->)]; [by left | right]. exists a.
    destruct (Hmem spec v a Hv ltac:(eauto)) as (id & _ & E2). unfold id_of. rewrite E2. cbn. split; [done |]. left. eauto.
  - intros spec v Hv _. by apply (Hring spec).
Qed.

(** Packets see no ring that names a dropped real. *)
Lemma boot_drop_safe s m tb' m1 :
  boot S0 [] ∅ s m → (∀ spec, is_Some (adopted_vip_ids_ s !! spec) → vip_map m !! VipSpec.key spec = None) →
  RealTable.inv tb' → (∀ id, id ∈ ids → slot tb' id = kept (slot (reals_ s) id)) →
  between (reals_ s) tb' m1 → same_rest m m1 → boot_safe S0 m1.
Proof.
  intros Hb Hgone Ht Hs Hbt (Ev & Er & _). pose proof (bt_tb _ _ _ _ _ Hb) as Ht0.
  destruct (kept_views _ _ Ht0 Ht Hs) as (Hby & Hsl & Hrefs). split.
  2: { intros spec id H. rewrite Ev. by apply (bt_served _ _ _ _ _ Hb). }
  intros k val Hk. rewrite Ev in Hk. split; [by eapply boot_range |].
  destruct (bt_map _ _ _ _ _ Hb k val Hk) as (spec & -> & [(v & Hv & E) | Ho]); [| by rewrite (Hgone spec) in Hk by eauto].
  destruct (bt_ring _ _ _ _ _ Hb spec v Hv (not_elem_of_empty spec)) as (r & Hr & Hbd). rewrite E in Hr.
  destruct (ring_built (reals_ s) (v_members v) (hash_ s)) as (r' & H1 & H2 & H3). rewrite H1 in Hbd. injection Hbd as <-.
  exists r'. rewrite Er. split_and!; try done. intros x Hx. destruct (H3 x Hx) as [-> | (a & mb & Ha & _ & ->)]; [by left | right].
  pose proof (bt_refs _ _ _ _ _ Hb a) as Hrf. pose proof (count_pos a spec v _ Hv ltac:(eauto)). unfold refs_of in Hrf. unfold id_of.
  destruct (by_addr (reals_ s) !! a) as [id |] eqn:Ea; [| lia]. change (default 0 (Some id)) with id.
  assert (by_addr tb' !! a = Some id) as Ea' by (apply Hby; split; [done | rewrite Hrf; lia]).
  destruct (RealTable.inv_id _ _ _ Ht0 Ea) as (R1 & R2 & R3). split; [done |]. exists a. split; [done |].
  pose proof (Hsl a id Ea') as Es. destruct (Hbt id) as [[Es1 _] | [[Es1 _] | [Es1 _]]]; [lia | | | congruence];
    rewrite Es1; unfold real_of_slot; congruence.
Qed.

(** ** Reading the pinned maps back *)

Definition spec_of (k : pb_vip_key) : VipSpec.t := VipSpec.mk (vk_addr k) (vk_port k) (vk_proto k).

Lemma spec_of_key spec : spec_of (VipSpec.key spec) = spec.
Proof. by destruct spec. Qed.

Definition adopt_into (A : gmap VipSpec.t Z) (l : list (pb_vip_key * pb_vip_value)) : gmap VipSpec.t Z :=
  foldl (λ A kv, <[spec_of kv.1 := vv_vip_id kv.2]> A) A l.

Lemma adopt_vips_run l w :
  calm w → ∃ w', adopt_vips l w = (Ok (), w') ∧ calm w' ∧ km w' = km w ∧ hist w' = hist w ∧
    obj w' = set_adopted (λ A, adopt_into A l) (obj w).
Proof.
  revert w. induction l as [| [k v] l IH]; intros w Hc; cbn [adopt_vips].
  { exists w. split_and!; try done. by destruct (obj w). }
  destruct (bpf_result_run w) as (err1 & w1 & H1 & O1 & K1 & S1 & C1). destruct (C1 Hc) as [-> Hc1].
  erewrite bind_run by exact H1. cbn [Z.eqb negb].
  destruct (bpf_result_run w1) as (err2 & w2 & H2 & O2 & K2 & S2 & C2). destruct (C2 Hc1) as [-> Hc2].
  erewrite bind_run by exact H2. cbn [Z.eqb negb]. rewrite bind_modify.
  set (w3 := mk_world _ _ _ _). destruct (IH w3 Hc2) as (w' & H & C & K & S & O).
  exists w'. split_and!; try done.
  - rewrite K. cbn [km w3]. congruence.
  - rewrite S. cbn [hist w3]. congruence.
  - rewrite O. cbn [obj w3]. rewrite O2, O1. done.
Qed.

Lemma adopt_into_spec A l :
  NoDup l.*1 → (∀ k, k ∈ l.*1 → k = VipSpec.key (spec_of k)) →
  ∀ spec id, adopt_into A l !! spec = Some id ↔
    (∃ val, (VipSpec.key spec, val) ∈ l ∧ vv_vip_id val = id) ∨ (A !! spec = Some id ∧ VipSpec.key spec ∉ l.*1).
Proof.
  revert A. induction l as [| [k v] l IH]; intros A Hnd Hk spec id; cbn [adopt_into foldl fst snd].
  { split; [intros H; right; split; [done | apply not_elem_of_nil] |].
    intros [(val & ?%not_elem_of_nil & _) | [? _]]; done. }
  apply NoDup_cons in Hnd as [Hn Hnd]. fold (adopt_into (<[spec_of k := vv_vip_id v]> A) l).
  rewrite (IH _ Hnd) by (intros k' Hk'; apply Hk; cbn; by apply list_elem_of_further).
  pose proof (Hk k (list_elem_of_here _ _)) as Ek. cbn [fst] in Ek, Hn.
  rewrite lookup_insert, fmap_cons, not_elem_of_cons. setoid_rewrite elem_of_cons. cbn [fst].
  destruct (decide (spec_of k = spec)) as [<- | Hne].
  - rewrite <-Ek. split.
    + intros [(val & Hin & E) | [[= <-] _]]; left; eauto.
    + intros [(val & [[= ->] | Hin] & E) | [_ Hno]]; [right | left; eauto | tauto]. split; [congruence | done].
  - assert (VipSpec.key spec ≠ k) as Hne' by (intros E; apply Hne; rewrite <-E; apply spec_of_key). split.
    + intros [(val & Hin & E) | [HA Hno]]; [left; eauto | right; tauto].
    + intros [(val & [[= E' _] | Hin] & E) | [HA Hno]]; [done | left; eauto | right; tauto].
Qed.

Lemma is_zero_spec mac : Mac.is_zero mac = true → mac = mac_zero.
Proof.
  destruct mac as [a b c d f g]. unfold Mac.is_zero. cbn. rewrite !andb_true_iff, !Z.eqb_eq.
  intros (-> & -> & -> & -> & -> & -> & _). done.
Qed.

(** The table that was read back shows the same maps. *)
Lemma adopted_mirror old tb m :
  RealTable.inv old → mirror old m → RealTable.inv tb →
  (∀ id, 0 <= id < PB_MAX_REALS → slot tb id = adopted (slot old id)) → mirror tb m.
Proof.
  intros Ho Hm Ht Hs. apply mirror_shows; [by apply inv_len |]. apply mirror_shows in Hm as (L1 & L2 & Sh); [| by apply inv_len].
  split_and!; try done. intros id Hid. destruct (Sh id Hid) as [S1 S2]. unfold shows. rewrite S1, S2, (Hs id Hid).
  unfold adopted. destruct (Z.eqb_spec (s_addr (slot old id)) 0) as [E | E].
  - rewrite (inv_free _ Ho id E). done.
  - split; [done |]. f_equal. destruct (Mac.is_zero (mac_of_slot (slot old id))) eqn:Ez; [| done].
    by apply is_zero_spec in Ez as ->.
Qed.

Lemma boot_start ifname s0 w :
  inv s0 (km w) → obj w = LbState.fresh ifname → calm w → S0 ⊆ (v_id <$> vips_ s0) →
  ∃ tb w', adopt_locked w = (Ok (), w') ∧ calm w' ∧ km w' = km w ∧ hist w' = hist w ∧
    obj w' = set_adopted (λ _, v_id <$> vips_ s0) (set_reals_ tb (LbState.fresh ifname)) ∧
    by_addr tb = by_addr (reals_ s0) ∧ (∀ id, 0 <= id < PB_MAX_REALS → slot tb id = adopted (slot (reals_ s0) id)) ∧
    boot S0 [] ∅ (obj w') (km w').
Proof.
  intros Hi Hobj Hc HS. pose proof (i_tb _ _ _ _ _ Hi) as Ht0. pose proof (i_mirror _ _ _ _ _ Hi) as Hm0.
  destruct (adopt_run (reals_ s0) (table_world w) Ht0 Hm0) as (wt & H1 & K1 & S1 & C1 & T1 & B1 & Sl1); [by cbn; rewrite Hobj | done |].
  set (w1 := mk_world (set_reals_ (obj wt) (obj w)) (km wt) (hist wt) (sys wt)).
  destruct (adopt_vips_run (map_to_list (vip_map (km w1))) w1 C1) as (w2 & H2 & C2 & K2 & S2 & O2).
  exists (obj wt), w2.
  assert (adopt_into ∅ (map_to_list (vip_map (km w1))) = v_id <$> vips_ s0) as EA.
  { change (km w1) with (km wt). rewrite K1. cbn [km table_world]. apply map_eq. intros spec. apply option_eq. intros id.
    rewrite adopt_into_spec; [| apply NoDup_fst_map_to_list |].
    - rewrite lookup_empty, lookup_fmap, fmap_Some. split.
      + intros [(val & Hin%elem_of_map_to_list & E) | [? _]]; [| done]. apply (i_map _ _ _ _ _ Hi) in Hin as (sp & v & Hv & _ & ->%key_inj & ->).
        exists v. split; [done |]. by rewrite <-E.
      + intros (v & Hv & ->). left. exists (mk_vip_value (v_id v) (v_flags v)). split; [| done]. apply elem_of_map_to_list.
        apply (i_map _ _ _ _ _ Hi). exists spec, v. by split_and!.
    - intros k ([k' val] & -> & Hin%elem_of_map_to_list)%list_elem_of_fmap.
      apply (i_map _ _ _ _ _ Hi) in Hin as (sp & v & _ & _ & E & _). cbn in E |- *. by rewrite E, spec_of_key. }
  assert (obj w2 = set_adopted (λ _, v_id <$> vips_ s0) (set_reals_ (obj wt) (LbState.fresh ifname))) as Ow.
  { rewrite O2. cbn [obj w1]. rewrite Hobj. unfold set_adopted. cbn. cbn in EA. by rewrite EA. }
  assert (km w2 = km w) as Kw by (rewrite K2; exact K1).
  split_and!; try done.
  - unfold adopt_locked. erewrite bind_run by exact (real_op_run _ _ _ _ H1). rewrite bind_get_km. exact H2.
  - rewrite S2. exact S1.
  - rewrite Ow, Kw. split; cbn [reals_ vips_ adopted_vip_ids_ hash_ set_adopted set_reals_ LbState.fresh]; try done.
    + by apply (adopted_mirror (reals_ s0)).
    + intros spec id (v & <- & Hv)%lookup_fmap_Some. split_and!.
      * by apply (i_id _ _ _ _ _ Hi spec).
      * by apply (i_id _ _ _ _ _ Hi spec).
      * apply lookup_empty.
      * intros sp u. by rewrite lookup_empty.
      * intros sp (u & E & Hu)%lookup_fmap_Some. by apply (i_inj _ _ _ _ _ Hi sp spec u v).
    + intros a. unfold refs_of. rewrite B1, occ_nil. change (count a ∅) with 0%nat. destruct (by_addr (reals_ s0) !! a) as [id |] eqn:Ea; [| done].
      destruct (RealTable.inv_id _ _ _ Ht0 Ea) as (R1 & _). rewrite Sl1 by lia. unfold adopted. by destruct (_ =? _).
    + intros k val Hk. apply (i_map _ _ _ _ _ Hi) in Hk as (spec & v & Hv & _ & -> & ->). exists spec. split; [done |]. right.
      by rewrite lookup_fmap, Hv.
    + intros k val Hk. apply (i_map _ _ _ _ _ Hi) in Hk as (spec & v & Hv & HY & -> & ->).
      destruct (i_names _ _ _ _ _ Hi spec v Hv HY) as (r & Hr & Hl & Hn). exists r. split; [done |]. split; [done |].
      intros x Hx. destruct (Hn x Hx) as [-> | (a & Ha & _)]; [by left | right]. exists a. by rewrite B1.
    + intros spec id Hid. apply (lookup_weaken _ _ _ _ Hid) in HS. apply lookup_fmap_Some in HS as (v & <- & Hv).
      exists (mk_vip_value (v_id v) (v_flags v)). split; [| done]. apply (i_map _ _ _ _ _ Hi). exists spec, v.
      by split_and!.
    + intros spec id Hid. left. by apply (lookup_weaken _ _ _ _ Hid).
Qed.

(** ** The whole first apply *)

(** Settings and the config map, before any VIP exists. *)
Lemma boot_settings e cfg mac w :
  boot S0 [] ∅ (obj w) (km w) → calm w → Mac.parse (if_address e) = Some mac → vips_ (obj w) = ∅ →
  let s' := set_mode (Config.hash cfg) (Config.next_hop cfg) (Config.hc_enabled (Config.health cfg)) (obj w) in
  ∃ w', write_config_map e cfg w = (Ok (), w') ∧ obj w' = obj w ∧ calm w' ∧
    boot S0 [] ∅ s' (km w') ∧ (∃ ms, hist w' = hist w ++ ms ∧ Forall (boot_safe S0) ms) ∧
    conntrack (km w') = conntrack (km w) ∧ config (km w') = <[0%nat := config_value mac cfg]> (config (km w)).
Proof.
  intros Hb Hc Hmac Hv s'. set (f := set_config (λ l, <[0%nat := config_value mac cfg]> l)).
  destruct (checked_write_run f (λ err, §"write config map: " ++ errstr e err) w) as (r & w1 & H & O & P & C).
  destruct (C Hc) as [-> Hc']. destruct P as [K S]. exists w1.
  assert (boot S0 [] ∅ (obj w) (km w1)) as Hb1.
  { rewrite K. split; try apply Hb. destruct (bt_mirror _ _ _ _ _ Hb). by split. }
  split_and!; try done.
  - unfold write_config_map. rewrite bind_get. erewrite bind_run by (unfold lift, read_interface_mac; rewrite Hmac; reflexivity). exact H.
  - split; cbn [reals_ vips_ adopted_vip_ids_ hash_ set_mode s']; try apply Hb1. intros spec v. by rewrite Hv, lookup_empty.
  - exists [km w1]. split; [cbn; by rewrite S, K |]. apply Forall_singleton. by eapply boot_is_safe.
  - by rewrite K.
  - by rewrite K.
Qed.

(** Dropping what was pinned and is not wanted. *)
Definition drop_rest (e : CEnv) : M LbState.t unit :=
  s ← get;
  _ ← m_for (spec_keys (adopted_vip_ids_ s)) (drop_pinned e);
  _ ← modify (set_adopted (λ _, ∅));
  _ ← real_op (drop_unreferenced e);
  modify (set_initialized true).

Lemma boot_drop_rest e w :
  boot S0 [] ∅ (obj w) (km w) → calm w → (∀ spec, is_Some (S0 !! spec) → is_Some (vips_ (obj w) !! spec)) →
  ∃ tb w', drop_rest e w = (Ok (), w') ∧ inv (obj w') (km w') ∧ starts w w' ∧
    obj w' = set_initialized true (set_reals_ tb (set_adopted (λ _, ∅) (obj w))) ∧
    (∀ a id, by_addr (reals_ (obj w)) !! a = Some id → 0 < s_refs (slot (reals_ (obj w)) id) →
       by_addr tb !! a = Some id ∧ slot tb id = slot (reals_ (obj w)) id).
Proof.
  intros Hb Hc HS. unfold drop_rest. rewrite bind_get.
  destruct (boot_drop_all e (spec_keys (adopted_vip_ids_ (obj w))) w Hb Hc) as (w1 & H1 & O1 & Hb1 & St1 & _ & V1).
  { intros spec Hsp%elem_of_spec_keys. split; [done |]. destruct (S0 !! spec) as [id |] eqn:E; [| done].
    destruct Hsp as [i Hi]. destruct (bt_old _ _ _ _ _ Hb spec i Hi) as (_ & Hn & _).
    destruct (HS spec) as [v Hv]; [by eauto | congruence]. }
  erewrite bind_run by exact H1. rewrite bind_modify. set (w2 := mk_world _ _ _ _).
  assert (∀ spec, is_Some (adopted_vip_ids_ (obj w1) !! spec) → vip_map (km w1) !! VipSpec.key spec = None) as Hgone
    by (intros spec Hsp; apply V1, elem_of_spec_keys; by rewrite <-O1).
  pose proof (bt_tb _ _ _ _ _ Hb1) as Ht1. pose proof (bt_mirror _ _ _ _ _ Hb1) as Hm1.
  destruct (drop_run e ids (table_world w2) Ht1 Hm1) as (r & wt & H2 & [T2 (ms & E2 & F2) M2 R2] & Cw & _ & K2); [apply ids_range.. |].
  destruct (Cw (st_calm _ _ St1)) as [-> Hc2]. specialize (K2 eq_refl). specialize (M2 eq_refl).
  destruct (kept_views _ _ Ht1 T2 K2) as (Hby & Hsl & _).
  erewrite bind_run by exact (real_op_run (drop_unreferenced e) w2 _ _ H2).
  exists (obj wt). eexists. split; [reflexivity |]. cbn [obj km]. destruct R2 as (E21 & E22 & E23 & E24 & E25).
  split_and!; try done.
  - apply (boot_done (obj w1) (km w1)); try done.
  - apply (starts_trans w w1); [done |]. split; [done | | done]. exists ms. split; [exact E2 |].
    eapply Forall_impl; [exact F2 |]. intros m1 [Hbt Hsr]. by apply (boot_drop_safe (obj w1) (km w1) (obj wt) m1).
  - cbn [obj w2]. by rewrite O1.
  - intros a id Ha Hr. rewrite <-O1 in Ha, Hr. assert (by_addr (obj wt) !! a = Some id) as Ha' by (apply Hby; done).
    split; [done |]. rewrite <-O1. by apply (Hsl a).
Qed.

End boot.

Definition cfg_specs (cfg : Config.t) : list VipSpec.t := Config.vc_spec <$> Config.vips cfg.

(** The VIPs of the previous daemon that the configuration has, by id. *)
Definition staying (cfg : Config.t) (s0 : LbState.t) : gmap VipSpec.t Z :=
  filter (λ kv, kv.1 ∈ cfg_specs cfg) (v_id <$> vips_ s0).

Lemma staying_spec cfg s0 spec id :
  staying cfg s0 !! spec = Some id ↔ spec ∈ cfg_specs cfg ∧ ∃ v, vips_ s0 !! spec = Some v ∧ v_id v = id.
Proof.
  unfold staying. rewrite map_lookup_filter_Some, lookup_fmap_Some. cbn. naive_solver.
Qed.

Lemma spec_apply_fresh cfg :
  list_to_map ((λ vc, (Config.vc_spec vc, want_vip ∅ vc)) <$> Config.vips cfg) ∪ (∅ : Abs) = spec_apply cfg ∅.
Proof. apply (right_id_L ∅ (∪)). Qed.

(** A configured real is a member of some VIP afterwards. *)
Lemma configured_member cfg s a :
  Config.valid cfg → abs s = spec_apply cfg ∅ → a ∈ Config.all_addrs (Config.vips cfg) →
  ∃ spec v, vips_ s !! spec = Some v ∧ is_Some (v_members v !! a).
Proof.
  intros Hval Habs (vc & Ha & Hvc)%elem_of_list_to_set%list_elem_of_bind.
  apply list_elem_of_fmap in Ha as ([b weight] & -> & Hr). cbn [Config.rc_addr].
  pose proof (Config.va_vips _ Hval) as Hvs. rewrite Forall_forall in Hvs. pose proof (Config.vv_nodup _ (Hvs vc Hvc)) as Hnd.
  assert (abs s !! Config.vc_spec vc = Some (want_vip ∅ vc)) as Hx.
  { rewrite Habs. apply elem_of_list_to_map_1.
    - rewrite <-list_fmap_compose. exact (Config.va_nodup _ Hval).
    - exact (list_elem_of_fmap_2 (λ vc, (Config.vc_spec vc, want_vip ∅ vc)) _ _ Hvc). }
  rewrite lookup_abs in Hx. destruct (vips_ s !! Config.vc_spec vc) as [v |] eqn:Hv; [| done]. injection Hx as _ Hm.
  exists (Config.vc_spec vc), v. split; [done |]. apply (fmap_is_Some absm). rewrite <-lookup_fmap, Hm, lookup_want_members.
  rewrite (proj2 (want_of_spec vc b weight Hnd) Hr). cbn. eauto.
Qed.

Lemma start_run e cfg mac ifname s0 w :
  inv s0 (km w) → calm w → obj w = LbState.fresh ifname → Config.valid cfg → Mac.parse (if_address e) = Some mac →
  Z.of_nat (size (all_reals (abs s0) ∪ Config.all_addrs (Config.vips cfg))) <= PB_MAX_REALS - 1 →
  Z.of_nat (size (dom (vips_ s0) ∪ list_to_set (cfg_specs cfg))) <= PB_MAX_VIPS →
  ∃ w', apply e cfg w = (Ok (), w') ∧ inv (obj w') (km w') ∧ calm w' ∧
    (∃ ms, hist w' = hist w ++ ms ∧ Forall (boot_safe (staying cfg s0)) ms) ∧
    conntrack (km w') = conntrack (km w) ∧ config (km w') = <[0%nat := config_value mac cfg]> (config (km w)) ∧
    abs (obj w') = spec_apply cfg ∅ ∧ settings_of cfg (obj w) (obj w') ∧
    (∀ spec id, staying cfg s0 !! spec = Some id → ∃ v, vips_ (obj w') !! spec = Some v ∧ v_id v = id) ∧
    (∀ a id, by_addr (reals_ s0) !! a = Some id → a ∈ Config.all_addrs (Config.vips cfg) →
       by_addr (reals_ (obj w')) !! a = Some id ∧
       ∀ mac, s_mac (slot (reals_ s0) id) = Some mac → Mac.is_zero mac = false → s_mac (slot (reals_ (obj w')) id) = Some mac).
Proof.
  intros Hi Hc Hobj Hval Hmac HszB HszW. set (S0 := staying cfg s0). set (B := all_reals (abs s0) ∪ _) in HszB. set (W := dom (vips_ s0) ∪ _) in HszW.
  unfold apply. rewrite bind_get, Hobj. cbn [initialized_ LbState.fresh negb]. cbv zeta.
  destruct (boot_start S0 ifname s0 w Hi Hobj Hc) as (tb & w1 & H1 & C1 & K1 & Hh1 & O1 & By1 & Sl1 & Hb1).
  { unfold S0, staying. apply map_filter_subseteq. }
  erewrite bind_run by exact H1.
  destruct (boot_settings S0 e cfg mac w1 Hb1 C1 Hmac) as (w2 & H2 & O2 & C2 & Hb2 & (ms2 & Hh2 & F2) & CT2 & Cf2); [by rewrite O1 |].
  erewrite bind_run by exact H2. rewrite bind_modify, O2, bind_get. set (hc := negb _). set (s3 := set_mode _ _ _ _) in *.
  set (w3 := mk_world _ _ _ _). cbn [obj w3]. assert (vips_ s3 = ∅) as Hv3 by (by unfold s3; rewrite O1).
  erewrite bind_run by (rewrite Hv3; reflexivity).
  assert (fits B s3) as HB3.
  { split; [| done]. unfold s3. rewrite O1. cbn [reals_ set_mode set_adopted set_reals_]. rewrite By1, (dom_reals _ _ _ _ Hi).
    apply union_subseteq_l. }
  assert (ids_fit W s3) as HW3.
  { split; [| done]. unfold s3. rewrite O1. cbn. rewrite dom_empty_L, (left_id_L ∅ (∪)), dom_fmap_L. apply union_subseteq_l. }
  destruct (boot_vips S0 W B e hc (Config.vips cfg)) with (w := w3) as (w4 & H4 & Hb4 & St4 & A4 & Id4 & _ & Se4 & Gr4); try done.
  { apply Hval. }
  { intros vc Hvc. split; [apply (valid_fits cfg); [done | done | apply union_subseteq_r] |].
    apply elem_of_union_r, elem_of_list_to_set, list_elem_of_fmap_2, Hvc. }
  { intros vc _. cbn [obj w3]. by rewrite Hv3, lookup_empty. }
  erewrite bind_run by exact H4. fold (drop_rest e).
  assert (abs (obj w4) = spec_apply cfg ∅) as Ab4.
  { rewrite A4. unfold abs at 1. cbn [obj w3]. rewrite Hv3, fmap_empty. apply spec_apply_fresh. }
  assert (∀ spec id, S0 !! spec = Some id → ∃ v, vips_ (obj w4) !! spec = Some v ∧ v_id v = id) as Hst4.
  { intros spec id ((vc & -> & Hvc)%list_elem_of_fmap & v & Hv & E)%staying_spec. apply Id4; [done |].
    cbn [obj w3]. unfold s3. rewrite O1. cbn. by rewrite lookup_fmap, Hv, <-E. }
  destruct (boot_drop_rest S0 e w4 Hb4 (st_calm _ _ _ St4)) as (tb5 & w5 & H5 & Hi5 & St5 & O5 & Kp5).
  { intros spec [id Hid]. destruct (Hst4 spec id Hid) as (v & Hv & _). eauto. }
  exists w5. destruct St4 as [_ (ms4 & Hh4 & F4) [CT4 Cf4]], St5 as [C5 (ms5 & Hh5 & F5) [CT5 Cf5]].
  split_and!; try done.
  - exists (ms2 ++ ms4 ++ ms5). rewrite Hh5, Hh4. cbn [hist w3]. rewrite Hh2, Hh1, !app_assoc. split; [done |]. by rewrite !Forall_app.
  - rewrite CT5, CT4. cbn [km w3]. by rewrite CT2, K1.
  - rewrite Cf5, Cf4. cbn [km w3]. by rewrite Cf2, K1.
  - rewrite O5. exact Ab4.
  - destruct Se4 as (E1 & E2 & E3 & E4 & _). unfold settings_of. rewrite O5. cbn [interface_ hash_ next_hop_ health_enabled_ initialized_ set_initialized set_reals_ set_adopted].
    rewrite E1, E2, E3, E4. cbn [obj w3]. unfold s3. rewrite O1. done.
  - intros spec id Hid. rewrite O5. by apply Hst4.
  - intros a id Ha Hcfg. assert (by_addr tb !! a = Some id) as Ha1 by (by rewrite By1).
    assert (reals_ (obj w3) = tb) as Etb by (cbn [obj w3]; unfold s3; by rewrite O1). rewrite Etb in Gr4.
    destruct (Gr4 a id Ha1) as [Ha4 M4]. destruct (configured_member cfg (obj w4) a Hval Ab4 Hcfg) as (spec & v & Hv & Hm).
    pose proof (bt_refs _ _ _ _ _ Hb4 a) as Hr. pose proof (count_pos a spec v _ Hv Hm). unfold refs_of in Hr. rewrite Ha4 in Hr.
    destruct (Kp5 a id Ha4) as [Ha5 S5]; [lia |]. rewrite O5. cbn [reals_ set_initialized set_reals_]. split; [done |].
    intros mac' Hm' Hz. rewrite S5. apply M4. destruct (RealTable.inv_id _ _ _ (i_tb _ _ _ _ _ Hi) Ha) as (R1 & R2 & R3).
    rewrite Sl1 by lia. unfold adopted. rewrite R3, (proj2 (Z.eqb_neq a 0) R2). cbn [s_mac]. unfold mac_of_slot. rewrite Hm'. change (default mac_zero (Some mac')) with mac'. by rewrite Hz.
Qed.

(** A daemon that restarts takes over without a gap. It finds the maps as
    the previous daemon left them between two calls, and the configuration
    validates and fits into the tables together with what is pinned; then the
    first apply succeeds when no bpf call fails. A VIP that stays keeps its id
    and is in vip_map under it in every state of the maps on the way, each with
    a ring that names only reals that are there; a real that stays keeps its id
    and its MAC, so that tracked connections, which are untouched, still lead to
    it; afterwards the VIPs are exactly the configured ones, all their reals UP,
    and the model and the maps agree. *)
Theorem restart_takes_over (e : CEnv) (cfg : Config.t) (mac : pb_mac) (ifname : str) (s0 : LbState.t) (w : World LbState.t) :
  inv s0 (km w) → calm w → obj w = LbState.fresh ifname →
  Config.validate_config cfg = Ok () → Mac.parse (if_address e) = Some mac →
  Z.of_nat (size (all_reals (abs s0) ∪ Config.all_addrs (Config.vips cfg))) <= PB_MAX_REALS - 1 →
  Z.of_nat (size (dom (vips_ s0) ∪ list_to_set (cfg_specs cfg))) <= PB_MAX_VIPS →
  ∃ w', apply e cfg w = (Ok (), w') ∧ inv (obj w') (km w') ∧ abs (obj w') = spec_apply cfg ∅ ∧
    settings_of cfg (obj w) (obj w') ∧ config (km w') = <[0%nat := config_value mac cfg]> (config (km w)) ∧
    conntrack (km w') = conntrack (km w) ∧
    (∃ ms, hist w' = hist w ++ ms ∧ Forall (λ m, safe m ∧ served (staying cfg s0) m) ms) ∧
    (∀ spec v0, vips_ s0 !! spec = Some v0 → spec ∈ cfg_specs cfg →
       ∃ v, vips_ (obj w') !! spec = Some v ∧ v_id v = v_id v0) ∧
    (∀ a id, id_of (reals_ s0) a = Some id → a ∈ Config.all_addrs (Config.vips cfg) →
       id_of (reals_ (obj w')) a = Some id ∧
       ∀ mac, mac_of (reals_ s0) a = Some mac → Mac.is_zero mac = false → mac_of (reals_ (obj w')) a = Some mac).
Proof.
  intros Hi Hc Hobj Hval%Config.validate_iff Hmac HB HW.
  destruct (start_run e cfg mac ifname s0 w Hi Hc Hobj Hval Hmac HB HW) as (w' & H & Hi' & _ & Hh & CT & Cf & A & S & Hv & Hr).
  exists w'. split_and!; try done.
  - intros spec v0 Hv0 Hs. apply Hv, staying_spec. eauto.
  - intros a id Ha Hcfg. destruct (Hr a id Ha Hcfg) as [Ha' Hm]. split; [exact Ha' |]. intros mac' Hm' Hz.
    unfold mac_of, id_of in *. rewrite Ha in Hm'. rewrite Ha'. by apply Hm.
Qed.

Lemma restart_takes_over_witness :
  let w := mk_world (LbState.fresh §"eth0") (LbTheorems.two_maps LbTheorems.table7_mac true) [] [] in
  ∃ w' v, apply env_eth reload_config w = (Ok (), w') ∧ vips_ (obj w') !! LbTheorems.vip80 = Some v ∧ v_id v = 0 ∧
    id_of (reals_ (obj w')) LbTheorems.real7 = Some 1 ∧ mac_of (reals_ (obj w')) LbTheorems.real7 = Some LbTheorems.mac7.
Proof.
  intros w. destruct LbTheorems.table7_mac_ok as (_ & T2 & _ & T4).
  destruct (restart_takes_over env_eth reload_config (mk_pb_mac 2 0 0 0 0 1) §"eth0" (LbTheorems.two_state LbTheorems.table7_mac true) w)
    as (w' & H1 & _ & _ & _ & _ & _ & _ & H2 & H3).
  { exact LbTheorems.two_world_inv. }
  { apply Forall_nil_2. }
  { reflexivity. }
  { vm_compute. reflexivity. }
  { reflexivity. }
  { change (abs (LbTheorems.two_state LbTheorems.table7_mac true)) with (absv <$> LbTheorems.two_vips true). vm_compute. discriminate. }
  { change (vips_ (LbTheorems.two_state LbTheorems.table7_mac true)) with (LbTheorems.two_vips true). vm_compute. discriminate. }
  destruct (H2 LbTheorems.vip80 (mk_vip LbTheorems.vip80 0 0 1 {[ LbTheorems.real7 := LbTheorems.member7 true ]})) as (v & Hv & Hid);
    [apply lookup_insert_eq | apply list_elem_of_here |].
  destruct (H3 LbTheorems.real7 1) as [H4 H5].
  { unfold id_of. change (reals_ _) with LbTheorems.table7_mac. rewrite T2. apply lookup_singleton_eq. }
  { apply elem_of_list_to_set, list_elem_of_here. }
  exists w', v. split; [exact H1 |]. split; [exact Hv |]. split; [exact Hid |]. split; [exact H4 |].
  apply H5; [exact T4 | reflexivity].
Defined.

End LbBoot.
