(* ===== verification/System.v ===== *)
(** * The two planes together

    The control plane's calls and the packets of the data plane as steps on one
    world, what holds after any sequence of them, and what a packet meets: the
    ring the control plane keeps in the kernel decides where it goes. *)

From Stdlib Require Import ZArith Lia.
From S2P Require Import Prelude Abi Hash VipSpec Maglev Dataplane DataplaneProps Control RealTable Config LbState LbInv LbProps LbTheorems LbApply.

#[local] Set Warnings "-clear-no-such-hyp".

Module System.
Import RealTable LbState LbInv LbProps Dataplane DataplaneProps.

(** ** Steps *)

Inductive lb_step : World LbState.t → World LbState.t → Prop :=
| step_api e c r w w' : run_api e c w = (r, w') → lb_step w w'
| step_health e h p rise fall r w w' : report_health e h p rise fall w = (r, w') → lb_step w w'
| step_neighbor e ip mac r w w' : neighbor_resolved e ip mac w = (r, w') → lb_step w w'
| step_reload e cfg mac r w w' :
    initialized_ (obj w) = true → Config.valid cfg → Mac.parse (if_address e) = Some mac →
    Z.of_nat (size (all_reals (abs (obj w)) ∪ Config.all_addrs (Config.vips cfg))) <= PB_MAX_REALS - 1 →
    apply e cfg w = (r, w') → lb_step w w'
| step_frame e p a c' w :
    bytes_ok p → length (headroom e) = 20%nat → xdp_packetbalance e (mk_ctx p (km w)) = Some (a, c') →
    lb_step w (mk_world (obj w) (maps c') (hist w ++ [maps c']) (sys w)).

(** The world is good, and so is every map state since [w0]. *)
Record good (w0 w : World LbState.t) : Prop := {
  gd_inv : inv (obj w) (km w);
  gd_calm : calm w;
  gd_hist : ∃ ms, hist w = hist w0 ++ ms ∧ Forall safe ms
}.

Lemma good_goes w0 w w' : good w0 w → inv (obj w') (km w') → goes w w' → good w0 w'.
Proof.
  intros [_ _ (ms & E & F)] Hi [Hc (ms' & E' & F') _]. split; [done | done |].
  exists (ms ++ ms'). split; [by rewrite E', E, app_assoc |]. by apply Forall_app.
Qed.

Lemma inv_same_config s m m' : inv s m → same_config m m' → inv s m'.
Proof. intros Hi []. by eapply inv_maps. Qed.

Lemma good_step w0 w w' : good w0 w → lb_step w w' → good w0 w'.
Proof.
  intros Hg Hs. pose proof (gd_inv _ _ Hg) as Hi. pose proof (gd_calm _ _ Hg) as Hc.
  destruct Hs as [e c r w w' H | e h p rise fall r w w' H | e ip mac r w w' H
    | e cfg mac r w w' Hin Hval Hmac Hsz H | e p a c' w Hp Hh H].
  - pose proof (api_done_all e c w Hi Hc) as Hd. rewrite H in Hd. unfold api_done in Hd.
    destruct (spec_api c (abs (obj w))) as [x | ex].
    + destruct Hd as (_ & _ & Hi' & G & _). by eapply good_goes.
    + by destruct Hd as [_ ->].
  - destruct (target_member (obj w) h) as [[v m] |] eqn:Ht; [destruct (pr_local_error p) eqn:El |].
    + rewrite report_skipped in H by auto. by injection H as _ <-.
    + destruct (report_run e h p rise fall w v m Hi Hc Ht El) as (w1 & H1 & Hi1 & G1 & _).
      rewrite H1 in H. injection H as _ <-. by eapply good_goes.
    + rewrite report_skipped in H by auto. by injection H as _ <-.
  - destruct (neighbor_run e ip mac w Hi Hc) as (w1 & H1 & Hi1 & G1 & _).
    rewrite H1 in H. injection H as _ <-. by eapply good_goes.
  - destruct (LbApply.reload_run e cfg mac w Hi Hc Hin Hval Hmac Hsz) as (w1 & H1 & Hi1 & Hc1 & (ms' & E' & F') & _).
    rewrite H1 in H. injection H as _ <-. destruct Hg as [_ _ (ms & E & F)]. split; [done | done |].
    exists (ms ++ ms'). split; [by rewrite E', E, app_assoc |]. by apply Forall_app.
  - assert (same_config (km w) (maps c')) as Hsame.
    { rewrite xdp_run in H by done. injection H as E. pose proof (same_run e (mk_ctx p (km w))) as Hr. by rewrite E in Hr. }
    pose proof (inv_same_config _ _ _ Hi Hsame) as Hi'. destruct Hg as [_ _ (ms & E & F)]. split; [done | done |].
    exists (ms ++ [maps c']). cbn [hist]. split; [by rewrite E, app_assoc |]. apply Forall_app. split; [done |].
    apply Forall_cons. split; [| done]. by eapply inv_safe.
Qed.

Lemma good_rtc w0 w w' : good w0 w → rtc lb_step w w' → good w0 w'.
Proof. intros Hg Hs. induction Hs as [w | w w1 w2 H _ IH]; [done |]. apply IH. by eapply good_step. Qed.

(** C5: whatever API calls, reloads that fit the table of reals, health
    reports, neighbour answers and packets follow each other, as long as no bpf
    call fails, the model and the kernel maps agree afterwards: vip_map holds exactly the configured VIPs, each with
    the ring that build_ring makes of its in-ring members, and these are UP, not
    draining, of positive weight and with a known MAC; ids are unique, and
    references are counted exactly. In every state of the maps on the way, each
    VIP a packet can match has a full ring and every slot of it is empty or
    names a real that is there. *)
Theorem control_plane_safe (w w' : World LbState.t) :
  inv (obj w) (km w) → calm w → rtc lb_step w w' →
  inv (obj w') (km w') ∧ ∃ ms, hist w' = hist w ++ ms ∧ Forall safe ms.
Proof.
  intros Hi Hc Hs. destruct (good_rtc w w w') as [H1 _ H2]; try done.
  split; [done | done | exists []; by rewrite app_nil_r].
Qed.

Lemma control_plane_safe_witness :
  ∃ w', rtc lb_step LbTheorems.empty_world w' ∧ inv (obj w') (km w') ∧ Forall safe (hist w').
Proof.
  destruct (run_api LbTheorems.env0 (AddVip LbTheorems.vip80 false) LbTheorems.empty_world) as [r1 w1] eqn:E1.
  destruct (run_api LbTheorems.env0 (AddReal LbTheorems.vip80 7 5) w1) as [r2 w2] eqn:E2.
  assert (rtc lb_step LbTheorems.empty_world w2) as Hs
    by (eapply rtc_l; [by eapply step_api | apply rtc_once; by eapply step_api]).
  destruct (control_plane_safe LbTheorems.empty_world w2 LbTheorems.empty_inv LbTheorems.empty_calm Hs) as [H1 (ms & H2 & H3)].
  exists w2. split; [exact Hs |]. split; [exact H1 |]. rewrite H2. exact H3.
Defined.

(** ** What a packet meets *)

(** The share of a member in its VIP's ring. *)
Definition share (m : Member) : Z := if m_in_ring m then m_weight m else 0.

(** The address of the member that owns a slot of the VIP's ring. *)
Definition slot_addr (tb : RealTable.t) (v : Vip) (r : list Z) (h : Z) : option Z :=
  x ← array_lookup r (h mod PB_RING_SIZE);
  if x =? PB_REAL_NONE then None else Maglev.owner (backends_of tb (v_members v)) x.

Section packet.
Context (s : LbState.t) (m : Maps) (Hi : inv s m).

Lemma ids_NoDup spec v : vips_ s !! spec = Some v → NoDup (Maglev.real_id <$> backends_of (reals_ s) (v_members v)).
Proof.
  intros Hv. pose proof (i_tb _ _ _ _ _ Hi) as Ht.
  assert (∀ l, NoDup l → (∀ a, a ∈ l → is_Some (v_members v !! a)) →
    NoDup (Maglev.real_id <$> omap (λ a, backend_of (reals_ s) a <$> v_members v !! a) l)) as H.
  { induction 1 as [| a l Hn Hnd IH]; intros Hl; [apply NoDup_nil_2 |]. cbn [omap list_omap].
    destruct (Hl a (list_elem_of_here _ _)) as [mb Hm]. rewrite Hm. cbn. apply NoDup_cons.
    split; [| apply IH; intros b Hb; by apply Hl, list_elem_of_further].
    intros (b & E & (c & Hc & Hb)%list_elem_of_omap)%list_elem_of_fmap.
    destruct (v_members v !! c) as [mc |] eqn:Hmc; [| done]. injection Hb as <-. cbn in E.
    destruct (member_id _ _ _ _ _ _ _ _ Hi Hv (ltac:(eauto) : is_Some (v_members v !! a))) as [i1 E1].
    destruct (member_id _ _ _ _ _ _ _ _ Hi Hv (ltac:(eauto) : is_Some (v_members v !! c))) as [i2 E2].
    unfold id_of in E. rewrite E1, E2 in E. cbn in E. subst i2.
    destruct (RealTable.inv_id _ _ _ Ht E1) as (_ & _ & A1). destruct (RealTable.inv_id _ _ _ Ht E2) as (_ & _ & A2).
    congruence. }
  apply H; [apply NoDup_addr_keys |]. intros a. apply elem_of_addr_keys.
Qed.

(** A slot of the kernel's ring: empty only when no member is in the ring, and
    otherwise the id of an eligible member. *)
Lemma ring_slot spec v h :
  vips_ s !! spec = Some v →
  ∃ r, rings m !! v_id v = Some r ∧
    match slot_addr (reals_ s) v r h with
    | None => ring_lookup m (v_id v) h = PB_REAL_NONE ∧ ∀ a mb, v_members v !! a = Some mb → m_in_ring mb = false
    | Some a => ∃ mb, v_members v !! a = Some mb ∧ eligible (reals_ s) a mb = true ∧
                      by_addr (reals_ s) !! a = Some (ring_lookup m (v_id v) h)
    end.
Proof.
  intros Hv. destruct (i_ring _ _ _ _ _ Hi spec v Hv (not_elem_of_empty spec)) as (r & Hr & Hb). exists r. split; [done |].
  destruct (Maglev.build_ring_ok (backends_of (reals_ s) (v_members v)) (hash_ s) PB_RING_SIZE) as (r' & E & Hl & Hnone & Hact).
  { apply Maglev.prime_PB_RING_SIZE. }
  { done. }
  { apply NoDup_active. rewrite addrs_of_backends. apply NoDup_addr_keys. }
  rewrite Hb in E. injection E as <-.
  assert (∃ x, array_lookup r (h mod PB_RING_SIZE) = Some x ∧ x ∈ r) as (x & Hx & Hxr).
  { pose proof (Z.mod_pos_bound h PB_RING_SIZE eq_refl) as Hm. unfold array_lookup.
    destruct (lookup_lt_is_Some_2 r (Z.to_nat (h mod PB_RING_SIZE))) as [x Hx].
    { rewrite Hl. unfold PB_RING_SIZE in *. lia. }
    exists x. rewrite Hl, Z2Nat.id by done. rewrite (proj2 (Z.leb_le _ _)), (proj2 (Z.ltb_lt _ _)) by lia.
    split; [done | by eapply list_elem_of_lookup_2]. }
  assert (ring_lookup m (v_id v) h = x) as Elook by (unfold ring_lookup; by rewrite Hr, Hx).
  unfold slot_addr. rewrite Hx, Elook. cbn [mbind option_bind].
  destruct (decide (Maglev.active (backends_of (reals_ s) (v_members v)) = [])) as [Ea | Ea].
  - rewrite (Hnone Ea) in Hxr. apply elem_of_replicate in Hxr as [-> _]. rewrite Z.eqb_refl. split; [done |].
    intros a mb Hmb. destruct (m_in_ring mb) eqn:Ein; [| done]. exfalso.
    assert (backend_of (reals_ s) a mb ∈ Maglev.active (backends_of (reals_ s) (v_members v))) as Hin.
    { apply list_elem_of_filter. split; [| apply elem_of_backends; eauto]. cbn. rewrite Ein.
      pose proof (i_in_ring _ _ _ _ _ Hi spec v a mb Hv (not_elem_of_empty _) Hmb Ein) as He.
      unfold eligible in He. rewrite !andb_true_iff in He. lia. }
    rewrite Ea in Hin. by apply not_elem_of_nil in Hin.
  - specialize (Hact Ea). rewrite Forall_forall in Hact. specialize (Hact x Hxr).
    apply list_elem_of_fmap in Hact as (b & -> & [Hw Hbl]%list_elem_of_filter).
    rewrite (Maglev.owner_in _ _ (ids_NoDup spec v Hv) Hbl).
    apply elem_of_backends in Hbl as (a & mb & Hmb & ->). cbn [backend_of Maglev.real_id Maglev.addr Maglev.weight] in *.
    destruct (member_id _ _ _ _ _ _ _ _ Hi Hv (ltac:(eauto) : is_Some (v_members v !! a))) as [i Ei].
    unfold id_of. rewrite Ei. change (default 0 (Some i)) with i.
    destruct (RealTable.inv_id _ _ _ (i_tb _ _ _ _ _ Hi) Ei) as (Hir & _ & _).
    replace (i =? PB_REAL_NONE) with false by (unfold PB_REAL_NONE, PB_MAX_REALS in *; lia).
    exists mb. split_and!; try done. apply (i_in_ring _ _ _ _ _ Hi spec v a mb Hv (not_elem_of_empty _) Hmb).
    destruct (m_in_ring mb); [done | lia].
Qed.

(** A member's real as the data plane resolves it. *)
Lemma resolve_member a id mac :
  by_addr (reals_ s) !! a = Some id → mac_of (reals_ s) a = Some mac →
  resolve m id = if mac_is_zero mac then None else Some (a, mac).
Proof.
  intros Hid Hmac. pose proof (i_tb _ _ _ _ _ Hi) as Ht. destruct (RealTable.inv_id _ _ _ Ht Hid) as (H1 & H2 & H3).
  destruct (i_mirror _ _ _ _ _ Hi) as [M1 M2]. pose proof (inv_len _ Ht) as Hl. unfold PB_MAX_REALS in *.
  destruct (lookup_lt_is_Some_2 (slots (reals_ s)) (Z.to_nat id)) as [sl Hsl]; [lia |].
  assert (slot (reals_ s) id = sl) as Esl by (unfold slot; by rewrite Hsl).
  unfold mac_of, id_of in Hmac. rewrite Hid in Hmac. cbn in Hmac. rewrite Esl in *.
  unfold resolve, array_lookup. rewrite M1, M2, !length_fmap, Hl, !list_lookup_fmap, Hsl. cbn [fmap option_fmap option_map].
  replace (PB_MAX_REALS <=? id) with false by (unfold PB_MAX_REALS; lia).
  change (Z.of_nat (Z.to_nat 512)) with 512.
  replace (0 <=? id) with true by lia. replace (id <? 512) with true by lia. cbn [andb mbind option_bind real_of_slot r_addr].
  rewrite H3. replace (a =? 0) with false by lia. unfold mac_of_slot. rewrite Hmac. done.
Qed.

End packet.

(** A packet of this length does not fit the tunnel. *)
Definition too_long (r : request) : bool := PB_MAX_PACKET_LEN <? rq_len r + PB_OUTER_LEN.

(** A request that no connection-table entry decides. *)
Lemma run_new_flow e r c :
  classify (maps c) (pkt c) = VForward r → ct_entry e r (maps c) = None →
  (run e c).1 = if too_long r then XDP_DROP else
                match resolve (maps c) (selected e r (maps c)) with
                | Some _ => if head_ok e then XDP_TX else XDP_DROP
                | None => XDP_DROP
                end.
Proof.
  intros Hc Hct. unfold run. rewrite Hc. unfold run_request, too_long. destruct (_ <? _); [done |].
  destruct (choose_spec e r (maps c)) as [E _]. pose proof (same_choose e r (maps c)) as Hs.
  destruct (choose e r (maps c)) as [id m1]. cbn [fst snd] in *. subst id.
  rewrite (resolve_same _ _ _ Hs). destruct (resolve (maps c) _) as [[a mac] |]; [| done]. by destruct (head_ok e).
Qed.

(** The VIP of a request, in the model. *)
Lemma request_vip s c r :
  inv s (maps c) → classify (maps c) (pkt c) = VForward r →
  ∃ spec v, vips_ s !! spec = Some v ∧ rq_vip r = mk_vip_value (v_id v) (v_flags v) ∧
    VipSpec.key spec = mk_vip_key (f_daddr (rq_flow r)) (f_dport (rq_flow r)) (f_proto (rq_flow r)) 0.
Proof.
  intros Hi Hc. assert (vip_of (maps c) (f_daddr (rq_flow r)) (f_dport (rq_flow r)) (f_proto (rq_flow r)) = Some (rq_vip r)) as Hv.
  { destruct (classify_inv _ _ _ Hc) as [(_ & -> & H & _) | (_ & -> & H & _)]; exact H. }
  unfold vip_of in Hv. apply (i_map _ _ _ _ _ Hi) in Hv as (spec & v & Hv & _ & Ek & Er). eauto.
Qed.

(** Where the ring sends a request. *)
Lemma request_slot e s c r spec v :
  inv s (maps c) → classify (maps c) (pkt c) = VForward r →
  vips_ s !! spec = Some v → rq_vip r = mk_vip_value (v_id v) (v_flags v) → ct_entry e r (maps c) = None →
  ∃ ring, rings (maps c) !! v_id v = Some ring ∧
    match slot_addr (reals_ s) v ring (flow_hash (rq_flow r)) with
    | None => resolve (maps c) (selected e r (maps c)) = None ∧ ∀ a mb, v_members v !! a = Some mb → m_in_ring mb = false
    | Some a => ∃ mb mac, v_members v !! a = Some mb ∧ eligible (reals_ s) a mb = true ∧ mac_of (reals_ s) a = Some mac ∧
                  resolve (maps c) (selected e r (maps c)) = if mac_is_zero mac then None else Some (a, mac)
    end.
Proof.
  intros Hi Hc Hv Er Hct. destruct (ring_slot s (maps c) Hi spec v (flow_hash (rq_flow r)) Hv) as (ring & Hr & Hs).
  exists ring. split; [done |]. unfold selected. rewrite Hct, Er. cbn [vv_vip_id].
  destruct (slot_addr _ _ _ _) as [a |].
  - destruct Hs as (mb & Hmb & He & Hid).
    assert (is_Some (mac_of (reals_ s) a)) as [mac Hmac].
    { unfold eligible in He. rewrite !andb_true_iff, bool_decide_eq_true in He. apply He. }
    exists mb, mac. split_and!; try done. by eapply resolve_member.
  - destruct Hs as [-> Hno]. by split.
Qed.

(** C4: what happens to every packet of a VIP that no entry of the connection
    table decides. The slot of its flow hash in build_ring of the VIP's in-ring
    members names a member that is UP, not draining, of positive weight and with
    a known MAC, or nothing, and nothing only when no member of the VIP is in the
    ring. In the first case the packet is sent to that member, unless it is too
    long for the tunnel, the MAC that is known is all zeroes, or the kernel gives
    no room for the outer header; in these cases, and when no member is in the
    ring, it is dropped. *)
Theorem packet_reaches_member (e : Env) (s : LbState.t) (c : Ctx) (r : request) :
  inv s (maps c) → maps_typed (maps c) → bytes_ok (pkt c) → length (headroom e) = 20%nat →
  classify (maps c) (pkt c) = VForward r → ct_entry e r (maps c) = None →
  ∃ spec v ring act c',
    VipSpec.key spec = mk_vip_key (f_daddr (rq_flow r)) (f_dport (rq_flow r)) (f_proto (rq_flow r)) 0 ∧
    vips_ s !! spec = Some v ∧
    Maglev.build_ring (backends_of (reals_ s) (v_members v)) (hash_ s) PB_RING_SIZE = Some (Ok ring) ∧
    xdp_packetbalance e c = Some (act, c') ∧
    match slot_addr (reals_ s) v ring (flow_hash (rq_flow r)) with
    | Some a =>
        ∃ mb mac, v_members v !! a = Some mb ∧ eligible (reals_ s) a mb = true ∧ mac_of (reals_ s) a = Some mac ∧
          if too_long r || mac_is_zero mac || negb (head_ok e) then act = XDP_DROP
          else act = XDP_TX ∧ le32 (pkt c') 30 = a
    | None => act = XDP_DROP ∧ ∀ a mb, v_members v !! a = Some mb → m_in_ring mb = false
    end.
Proof.
  intros Hi Hm Hp Hh Hc Hct. destruct (request_vip s c r Hi Hc) as (spec & v & Hv & Er & Ek).
  destruct (request_slot e s c r spec v Hi Hc Hv Er Hct) as (ring & Hring & Hs).
  exists spec, v, ring, (run e c).1, (run e c).2. split; [exact Ek |]. split; [exact Hv |]. split; [| split].
  - destruct (i_ring _ _ _ _ _ Hi spec v Hv (not_elem_of_empty spec)) as (ring' & E & Hb).
    rewrite Hring in E. injection E as <-. exact Hb.
  - rewrite (xdp_run e c Hp Hh). apply f_equal, surjective_pairing.
  - pose proof (run_new_flow e r c Hc Hct) as Hrun. destruct (slot_addr _ _ _ _) as [a |].
    + destruct Hs as (mb & mac & H1 & H2 & H3 & Hres). exists mb, mac. split_and!; try done. rewrite Hres in Hrun.
      destruct (too_long r), (mac_is_zero mac), (head_ok e); cbn [orb negb]; try exact Hrun. split; [exact Hrun |].
      destruct (run_tx_addr e c (run e c).2 r Hp Hm) as (mac' & Hres'); [rewrite <-Hrun; apply surjective_pairing | exact Hc |].
      rewrite Hres in Hres'. by injection Hres' as <- _.
    + destruct Hs as [Hres Hno]. rewrite Hres in Hrun. split; [by destruct (too_long r) | exact Hno].
Qed.

(** ** A second balancer *)

(** Two balancers give every member of a VIP they both serve the same share. *)
Definition same_shares (s1 s2 : LbState.t) : Prop :=
  ∀ spec v1 v2, vips_ s1 !! spec = Some v1 → vips_ s2 !! spec = Some v2 →
    ∀ a, share <$> v_members v1 !! a = share <$> v_members v2 !! a.

Lemma keys_same tb1 tb2 (ms1 ms2 : gmap Z Member) :
  (∀ a, share <$> ms1 !! a = share <$> ms2 !! a) →
  Maglev.hash_key <$> backends_of tb1 ms1 = Maglev.hash_key <$> backends_of tb2 ms2.
Proof.
  intros H. unfold backends_of. rewrite (addr_keys_ext ms1 ms2).
  - rewrite !list_fmap_omap. apply list_omap_ext, Forall_Forall2_diag, Forall_forall. intros a _. specialize (H a).
    destruct (ms1 !! a) as [m1 |], (ms2 !! a) as [m2 |]; try discriminate; [| reflexivity].
    injection H as H. unfold share in H. cbn. unfold Maglev.hash_key. cbn. by rewrite H.
  - intros a. specialize (H a). rewrite <-(fmap_is_Some share (ms1 !! a)), <-(fmap_is_Some share (ms2 !! a)). by rewrite H.
Qed.

Lemma ids_not_none s m spec v :
  inv s m → vips_ s !! spec = Some v → PB_REAL_NONE ∉ Maglev.real_id <$> backends_of (reals_ s) (v_members v).
Proof.
  intros Hi Hv (b & E & (a & mb & Hm & ->)%elem_of_backends)%list_elem_of_fmap.
  destruct (member_id _ _ _ _ _ _ _ _ Hi Hv (ltac:(eauto) : is_Some (v_members v !! a))) as [i Ei].
  cbn in E. unfold id_of in E. rewrite Ei in E. change (default 0 (Some i)) with i in E.
  destruct (RealTable.inv_id _ _ _ (i_tb _ _ _ _ _ Hi) Ei) as (Hr & _). unfold PB_REAL_NONE, PB_MAX_REALS in *. lia.
Qed.

(** The address in a slot of a ring is what its owner says. *)
Lemma slot_addr_owner s m spec v r h :
  inv s m → vips_ s !! spec = Some v →
  slot_addr (reals_ s) v r h = x ← array_lookup r (h mod PB_RING_SIZE); Maglev.owner (backends_of (reals_ s) (v_members v)) x.
Proof.
  intros Hi Hv. unfold slot_addr. destruct (array_lookup r (h mod PB_RING_SIZE)) as [x |]; [| reflexivity]. cbn [mbind option_bind].
  destruct (Z.eqb_spec x PB_REAL_NONE) as [-> |]; [| reflexivity].
  rewrite Maglev.owner_none; [reflexivity |]. exact (ids_not_none _ _ _ _ Hi Hv).
Qed.

Lemma array_bind {B} (f1 f2 : Z → option B) (r1 r2 : list Z) i :
  f1 <$> r1 = f2 <$> r2 → (array_lookup r1 i ≫= f1) = (array_lookup r2 i ≫= f2).
Proof.
  intros H. assert (length r1 = length r2) as Hl by (rewrite <-(length_fmap f1), H; apply length_fmap).
  unfold array_lookup. rewrite Hl. destruct (_ && _); [| reflexivity].
  assert (f1 <$> r1 !! Z.to_nat i = f2 <$> r2 !! Z.to_nat i) as Hi by (by rewrite <-!list_lookup_fmap, H).
  destruct (r1 !! _), (r2 !! _); try discriminate; [injection Hi as Hi; exact Hi | reflexivity].
Qed.

(** The slots of two balancers. *)
Lemma slots_agree s1 s2 m1 m2 spec v1 v2 r1 r2 h :
  inv s1 m1 → inv s2 m2 → hash_ s1 = hash_ s2 → same_shares s1 s2 →
  vips_ s1 !! spec = Some v1 → vips_ s2 !! spec = Some v2 → rings m1 !! v_id v1 = Some r1 → rings m2 !! v_id v2 = Some r2 →
  slot_addr (reals_ s1) v1 r1 h = slot_addr (reals_ s2) v2 r2 h.
Proof.
  intros Hi1 Hi2 Hh Hs Hv1 Hv2 Hr1 Hr2. rewrite (slot_addr_owner _ _ _ _ r1 h Hi1 Hv1), (slot_addr_owner _ _ _ _ r2 h Hi2 Hv2).
  apply array_bind.
  destruct (i_ring _ _ _ _ _ Hi1 spec v1 Hv1 (not_elem_of_empty spec)) as (r1' & E1 & B1). rewrite Hr1 in E1. injection E1 as <-.
  destruct (i_ring _ _ _ _ _ Hi2 spec v2 Hv2 (not_elem_of_empty spec)) as (r2' & E2 & B2). rewrite Hr2 in E2. injection E2 as <-.
  pose proof (Maglev.build_ring_keys (backends_of (reals_ s1) (v_members v1)) (backends_of (reals_ s2) (v_members v2))
    (hash_ s2) PB_RING_SIZE) as H. rewrite Hh in B1. rewrite B1, B2 in H. apply H.
  - rewrite (keys_same (reals_ s1) (reals_ s2) (v_members v1) (v_members v2)); [reflexivity | by eapply Hs].
  - exact (ids_NoDup s1 m1 Hi1 spec v1 Hv1).
  - exact (ids_NoDup s2 m2 Hi2 spec v2 Hv2).
  - exact (ids_not_none _ _ _ _ Hi1 Hv1).
  - exact (ids_not_none _ _ _ _ Hi2 Hv2).
Qed.

(** The flow of a request is read from the packet alone. *)
Lemma request_icmp m p r : classify m p = VForward r → rq_icmp r = (byte p 23 =? IPPROTO_ICMP).
Proof.
  unfold classify. do 7 (case_match; [discriminate |]). destruct (config m !! 0%nat) as [cfg |]; [| discriminate].
  destruct (Z.eqb_spec (byte p 23) IPPROTO_TCP) as [-> |]; [| destruct (Z.eqb_spec (byte p 23) IPPROTO_UDP) as [-> |]].
  - case_match; [discriminate |]. unfold classify_flow. destruct (vip_of _ _ _ _); [| discriminate]. by intros [= <-].
  - case_match; [discriminate |]. unfold classify_flow. destruct (vip_of _ _ _ _); [| discriminate]. by intros [= <-].
  - destruct (_ =? IPPROTO_ICMP); [| discriminate]. unfold classify_icmp. do 5 (case_match; [discriminate |]).
    destruct (vip_of _ _ _ _); [| discriminate]. by intros [= <-].
Qed.

Lemma same_flow m1 m2 p r1 r2 : classify m1 p = VForward r1 → classify m2 p = VForward r2 → rq_flow r1 = rq_flow r2.
Proof.
  intros H1 H2. pose proof (request_icmp _ _ _ H1) as I1. pose proof (request_icmp _ _ _ H2) as I2.
  destruct (classify_inv _ _ _ H1) as [(A1 & -> & _) | (A1 & -> & _)],
    (classify_inv _ _ _ H2) as [(A2 & -> & _) | (A2 & -> & _)]; try reflexivity; exfalso;
    rewrite A1 in I1; rewrite A2, <-I1 in I2; discriminate.
Qed.

(** What a frame sent for a new flow says about the slot of its ring. *)
Lemma sent_by_slot e s c c' :
  inv s (maps c) → maps_typed (maps c) → bytes_ok (pkt c) → length (headroom e) = 20%nat →
  xdp_packetbalance e c = Some (XDP_TX, c') → (∀ r, classify (maps c) (pkt c) = VForward r → ct_entry e r (maps c) = None) →
  ∃ r spec v ring, classify (maps c) (pkt c) = VForward r ∧ vips_ s !! spec = Some v ∧
    VipSpec.key spec = mk_vip_key (f_daddr (rq_flow r)) (f_dport (rq_flow r)) (f_proto (rq_flow r)) 0 ∧
    rings (maps c) !! v_id v = Some ring ∧
    slot_addr (reals_ s) v ring (flow_hash (rq_flow r)) = Some (le32 (pkt c') 30).
Proof.
  intros Hi Hm Hp Hh Hx Hct. rewrite (xdp_run e c Hp Hh) in Hx. injection Hx as Hr.
  destruct (run_tx _ _ _ Hr) as (r & _ & _ & _ & Hc & _).
  destruct (request_vip s c r Hi Hc) as (spec & v & Hv & Er & Ek).
  destruct (request_slot e s c r spec v Hi Hc Hv Er (Hct r Hc)) as (ring & Hring & Hs).
  exists r, spec, v, ring. split; [exact Hc |]. split; [exact Hv |]. split; [exact Ek |]. split; [exact Hring |].
  destruct (run_tx_addr e c c' r Hp Hm Hr Hc) as (mac & Hres). rewrite Hres in Hs.
  destruct (slot_addr _ _ _ _) as [a |].
  - destruct Hs as (_ & mac' & _ & _ & _ & E). destruct (mac_is_zero mac'); [discriminate E |]. injection E as <- _. reflexivity.
  - destruct Hs as [E _]. discriminate E.
Qed.

(** C10: two balancers that use the same hash and give the members of a VIP the
    same shares send a packet for which neither has a live entry in its
    connection table to the same backend, if both send it, whatever other flows
    they track, whatever ids they have for the VIPs and the reals, and in whatever
    order these were configured: flows survive the failover from one balancer to
    the other. *)
Theorem failover_agreement (e1 e2 : Env) (s1 s2 : LbState.t) (m1 m2 : Maps) (p : list Z) (c1 c2 : Ctx) :
  inv s1 m1 → inv s2 m2 → maps_typed m1 → maps_typed m2 →
  hash_ s1 = hash_ s2 → same_shares s1 s2 →
  bytes_ok p → length (headroom e1) = 20%nat → length (headroom e2) = 20%nat →
  (∀ r, classify m1 p = VForward r → ct_entry e1 r m1 = None) → (∀ r, classify m2 p = VForward r → ct_entry e2 r m2 = None) →
  xdp_packetbalance e1 (mk_ctx p m1) = Some (XDP_TX, c1) → xdp_packetbalance e2 (mk_ctx p m2) = Some (XDP_TX, c2) →
  le32 (pkt c1) 30 = le32 (pkt c2) 30.
Proof.
  intros Hi1 Hi2 Ht1 Ht2 Hh Hs Hp Hr1 Hr2 Hc1 Hc2 Hx1 Hx2.
  destruct (sent_by_slot e1 s1 (mk_ctx p m1) c1 Hi1 Ht1 Hp Hr1 Hx1 Hc1) as (r1 & spec1 & v1 & ring1 & C1 & V1 & K1 & R1 & S1).
  destruct (sent_by_slot e2 s2 (mk_ctx p m2) c2 Hi2 Ht2 Hp Hr2 Hx2 Hc2) as (r2 & spec2 & v2 & ring2 & C2 & V2 & K2 & R2 & S2).
  cbn [pkt maps] in *. pose proof (same_flow _ _ _ _ _ C1 C2) as Hf. rewrite Hf in K1, S1.
  rewrite <-K2 in K1. apply key_inj in K1 as ->.
  rewrite (slots_agree s1 s2 m1 m2 spec2 v1 v2 ring1 ring2 (flow_hash (rq_flow r2)) Hi1 Hi2 Hh Hs V1 V2 R1 R2) in S1.
  rewrite S2 in S1. injection S1 as ->. reflexivity.
Qed.

(** ** A packet at the balancer with two VIPs *)

(** 10.0.0.9:40000 to 10.0.0.100:80, TCP, a SYN. *)
Definition demo_syn : list Z :=
  [2;0;0;0;0;1; 2;0;0;0;0;9; 8;0] ++
  [0x45;0; 0;40; 0;0; 0;0; 64;6; 0;0; 10;0;0;9; 10;0;0;100] ++
  [0x9c;0x40; 0;80; 0;0;0;0; 0;0;0;0; 0x50;2; 0;0; 0;0; 0;0].

Lemma demo_syn_bytes : bytes_ok demo_syn.
Proof. decide_closed. Qed.

Definition demo_request (cfg : pb_config) : request :=
  mk_request (mk_flow 0x0900000a 0x6400000a 0x409c 0x5000 6) (mk_vip_value 0 0) cfg true true false 40 0.

Lemma demo_classified R A N CT S T :
  let cfg := mk_pb_config (mk_pb_mac 2 0 0 0 0 1) 0x000010ac 0x0000ffff 0 in
  classify (mk_maps {[ VipSpec.key LbTheorems.vip80 := mk_vip_value 0 0; VipSpec.key LbTheorems.vip443 := mk_vip_value 1 0 ]} R A N CT S T [cfg]) demo_syn =
  VForward (demo_request cfg).
Proof. vm_compute. reflexivity. Qed.

(** The table of another balancer, where the same real has id 2. *)
Definition table7_at2 : RealTable.t := tb_set_mac LbTheorems.real7 LbTheorems.mac7 (tb_fill LbTheorems.real7 2 RealTable.fresh).

Definition has_real7 (tb : RealTable.t) (i : Z) : Prop :=
  RealTable.inv tb ∧ by_addr tb = {[ LbTheorems.real7 := i ]} ∧ s_refs (slot tb i) = 1 ∧
  mac_of tb LbTheorems.real7 = Some LbTheorems.mac7 ∧ maps_typed (LbTheorems.two_maps tb true).

Lemma two_maps_typed tb b :
  Forall (λ r, is_u 32 (r_addr r)) (real_of_slot <$> slots tb) →
  Forall (λ x, Forall (is_u 8) [mac0 x; mac1 x; mac2 x; mac3 x; mac4 x; mac5 x]) (mac_of_slot <$> slots tb) →
  maps_typed (LbTheorems.two_maps tb b).
Proof. intros H1 H2. split; [exact H1 | exact H2]. Qed.

Lemma table7_mac_has : has_real7 LbTheorems.table7_mac 1.
Proof.
  destruct LbTheorems.table7_mac_ok as (H1 & H2 & H3 & H4). split; [exact H1 |]. split; [exact H2 |]. split; [exact H3 |].
  split; [exact H4 |]. apply two_maps_typed; decide_closed.
Qed.

Lemma table7_at2_has : has_real7 table7_at2 2.
Proof.
  assert (RealTable.inv (tb_fill LbTheorems.real7 2 RealTable.fresh)) as H by (apply inv_tb_fill; try done; apply inv_fresh).
  split; [apply (inv_update _ 2 1 (Some LbTheorems.mac7) H); done |].
  split; [reflexivity |]. split; [reflexivity |]. split; [reflexivity |]. apply two_maps_typed; decide_closed.
Qed.

Section demo.
Context (tb : RealTable.t) (i : Z) (Htb : has_real7 tb i).
Let s := LbTheorems.two_state tb true.
Let m := LbTheorems.two_maps tb true.

Lemma demo_inv : inv s m.
Proof. destruct Htb as (H1 & H2 & H3 & H4 & _). apply (LbTheorems.two_inv _ i); try done. Qed.

Lemma demo_mac : mac_of (reals_ s) LbTheorems.real7 = Some LbTheorems.mac7.
Proof. apply Htb. Qed.

Lemma demo_untracked e r : ct_entry e r m = None.
Proof. unfold ct_entry, ct_lookup. cbn [conntrack m LbTheorems.two_maps]. rewrite lookup_empty. by destruct (_ && _). Qed.

Lemma demo_member spec v : vips_ s !! spec = Some v → VipSpec.key spec = mk_vip_key 0x6400000a 0x5000 6 0 →
  v_members v = {[ LbTheorems.real7 := LbTheorems.member7 true ]}.
Proof. intros [[-> ->] | [-> ->]]%LbTheorems.two_lookup H; [reflexivity | discriminate H]. Qed.

Lemma demo_maps_typed : maps_typed m.
Proof. apply Htb. Qed.
End demo.

Lemma packet_reaches_member_witness :
  ∃ c', xdp_packetbalance demo_env (mk_ctx demo_syn (LbTheorems.two_maps LbTheorems.table7_mac true)) = Some (XDP_TX, c') ∧
    le32 (pkt c') 30 = LbTheorems.real7.
Proof.
  destruct (packet_reaches_member demo_env (LbTheorems.two_state LbTheorems.table7_mac true)
    (mk_ctx demo_syn (LbTheorems.two_maps LbTheorems.table7_mac true))
    (demo_request (mk_pb_config (mk_pb_mac 2 0 0 0 0 1) 0x000010ac 0x0000ffff 0)))
    as (spec & v & ring & act & c' & Hk & Hv & _ & Hx & Hm);
    [exact (demo_inv _ _ table7_mac_has) | exact (demo_maps_typed _ _ table7_mac_has)
    | exact demo_syn_bytes | reflexivity | apply demo_classified | apply demo_untracked |].
  rewrite (demo_member _ spec v Hv Hk) in Hm. destruct (slot_addr _ _ _ _) as [a |].
  - destruct Hm as (mb & mac & [<- _]%lookup_singleton_Some & _ & Hmac & Hact). rewrite (demo_mac _ _ table7_mac_has) in Hmac.
    injection Hmac as <-. change (too_long _ || _ || _) with false in Hact. destruct Hact as [-> Ha]. exists c'. split; [exact Hx | exact Ha].
  - destruct Hm as [_ Hno]. specialize (Hno _ _ (lookup_singleton_eq _ _)). discriminate Hno.
Defined.

(** A balancer with the real in its table sends the SYN. *)
Lemma demo_syn_sent tb i :
  has_real7 tb i → ∃ c', xdp_packetbalance demo_env (mk_ctx demo_syn (LbTheorems.two_maps tb true)) = Some (XDP_TX, c').
Proof.
  intros Htb. set (c := mk_ctx demo_syn (LbTheorems.two_maps tb true)).
  set (r := demo_request (mk_pb_config (mk_pb_mac 2 0 0 0 0 1) 0x000010ac 0x0000ffff 0)).
  assert (classify (maps c) (pkt c) = VForward r) as Hc by apply demo_classified.
  assert (ct_entry demo_env r (maps c) = None) as Hct by exact (demo_untracked tb demo_env r).
  destruct (request_slot demo_env _ c r LbTheorems.vip80 (mk_vip LbTheorems.vip80 0 0 1 {[ LbTheorems.real7 := LbTheorems.member7 true ]})
    (demo_inv _ _ Htb) Hc (lookup_insert_eq _ _ _) eq_refl Hct) as (ring & _ & Hs).
  pose proof (run_new_flow demo_env r c Hc Hct) as Hrun. change (too_long r) with false in Hrun. cbv iota in Hrun.
  destruct (slot_addr _ _ _ _) as [a |].
  - destruct Hs as (mb & mac & Hmb & _ & Hmac & Hres). cbn [v_members] in Hmb. apply lookup_singleton_Some in Hmb as [<- _]. rewrite (demo_mac _ _ Htb) in Hmac.
    injection Hmac as <-. rewrite Hres in Hrun. change (mac_is_zero LbTheorems.mac7) with false in Hrun.
    change (head_ok demo_env) with true in Hrun. cbv iota in Hrun.
    exists (run demo_env c).2. rewrite (xdp_run demo_env c); [| exact demo_syn_bytes | reflexivity].
    rewrite (surjective_pairing (run demo_env c)) at 1. rewrite Hrun. reflexivity.
  - destruct Hs as [_ Hno]. cbn [v_members] in Hno. specialize (Hno _ _ (lookup_singleton_eq _ _)). discriminate Hno.
Qed.

Lemma failover_agreement_witness :
  ∃ c1 c2, xdp_packetbalance demo_env (mk_ctx demo_syn (LbTheorems.two_maps LbTheorems.table7_mac true)) = Some (XDP_TX, c1) ∧
    xdp_packetbalance demo_env (mk_ctx demo_syn (LbTheorems.two_maps table7_at2 true)) = Some (XDP_TX, c2) ∧
    le32 (pkt c1) 30 = le32 (pkt c2) 30.
Proof.
  destruct (demo_syn_sent _ _ table7_mac_has) as (c1 & H1). destruct (demo_syn_sent _ _ table7_at2_has) as (c2 & H2).
  exists c1, c2. split; [exact H1 |]. split; [exact H2 |].
  apply (failover_agreement demo_env demo_env (LbTheorems.two_state LbTheorems.table7_mac true) (LbTheorems.two_state table7_at2 true)
    (LbTheorems.two_maps LbTheorems.table7_mac true) (LbTheorems.two_maps table7_at2 true) demo_syn c1 c2
    (demo_inv _ _ table7_mac_has) (demo_inv _ _ table7_at2_has)
    (demo_maps_typed _ _ table7_mac_has) (demo_maps_typed _ _ table7_at2_has));
    [reflexivity | | exact demo_syn_bytes | reflexivity | reflexivity | intros; apply demo_untracked
    | intros; apply demo_untracked | exact H1 | exact H2].
  intros spec v1 v2 E1 E2 a. change (vips_ (LbTheorems.two_state table7_at2 true)) with (vips_ (LbTheorems.two_state LbTheorems.table7_mac true)) in E2.
  rewrite E1 in E2. injection E2 as <-. reflexivity.
Defined.

End System.
