(* ===== verification/Faults.v ===== *)
(** * When bpf calls fail

    The control plane's methods with arbitrary results of every bpf call: what a
    call that throws half-way leaves behind, and that packets do not notice.  The
    arrays of reals are the exception: a failed write of them is reported with a
    message of its own, and nothing is promised about the calls after it. *)

From Stdlib Require Import ZArith Lia.
From S2P Require Import Prelude Abi Hash VipSpec Maglev Dataplane DataplaneProps Control RealTable Config LbState LbInv LbProps LbTheorems System.

#[local] Set Warnings "-clear-no-such-hyp".

Module Faults.
Import RealTable LbState LbInv LbProps Dataplane DataplaneProps.

(** ** Which exceptions a method can throw *)

(** The message of a failed write of the arrays of reals. *)
Definition table_error (ex : exn) : Prop :=
  ∃ rest, ex = runtime_error (§"write neigh[" ++ rest) ∨ ex = runtime_error (§"write reals[" ++ rest).

Definition table_fault {A} (r : result A) : Prop := ∃ ex, r = Throw ex ∧ table_error ex.

Definition throws {S A} (P : exn → Prop) (p : M S A) : Prop := ∀ w ex w', p w = (Throw ex, w') → P ex.

Section throws.
Context {S : Type} (P : exn → Prop).

Lemma throws_ret {A} (a : A) : throws P (mret a : M S A).
Proof. intros w ex w' H. discriminate H. Qed.
Lemma throws_get : throws P (get : M S S).
Proof. intros w ex w' H. discriminate H. Qed.
Lemma throws_modify f : throws P (modify f : M S unit).
Proof. intros w ex w' H. discriminate H. Qed.
Lemma throws_map_write f : throws P (map_write f : M S Z).
Proof. intros w ex w' H. destruct (map_write_run f w) as (err & w1 & E & _). congruence. Qed.
Lemma throws_bind {A B} (p : M S A) (k : A → M S B) : throws P p → (∀ a, throws P (k a)) → throws P (p ≫= k).
Proof.
  intros Hp Hk w ex w'. unfold mbind, M_bind. specialize (Hp w). destruct (p w) as [[a | e] w1]; [apply Hk |].
  intros [= -> ->]. by apply Hp with w'.
Qed.
Lemma throws_checked f msg : (∀ err, P (runtime_error (msg err))) → throws P (checked_write f msg : M S unit).
Proof.
  intros H. apply throws_bind; [apply throws_map_write |]. intros err. destruct (err =? 0); [apply throws_ret |].
  intros w ex w' [= <- _]. apply H.
Qed.
End throws.

Lemma write_slot_throws e id : throws table_error (write_slot e id).
Proof.
  assert (∀ m, throws table_error (write_neigh e id m)) as H1 by (intros m; apply throws_checked; intros err; eexists; by left).
  assert (∀ r, throws table_error (write_real e id r)) as H2 by (intros r; apply throws_checked; intros err; eexists; by right).
  apply throws_bind; [apply throws_get |]. intros tb. cbv zeta. destruct (negb _); apply throws_bind; auto.
Qed.

Lemma set_mac_throws e a mac : throws table_error (set_mac e a mac).
Proof.
  apply throws_bind; [apply throws_get |]. intros tb. destruct (id_of tb a); [| apply throws_ret]. cbv zeta.
  case_bool_decide; [apply throws_ret |]. apply throws_bind; [apply throws_modify | intros []].
  apply throws_bind; [apply write_slot_throws | intros []; apply throws_ret].
Qed.

Lemma release_throws e a : throws table_error (release e a).
Proof.
  apply throws_bind; [apply throws_get |]. intros tb. destruct (by_addr tb !! a); [| apply throws_ret]. cbv zeta.
  destruct (_ && _); [apply throws_modify |]. do 2 (apply throws_bind; [apply throws_modify | intros []]). apply write_slot_throws.
Qed.

(** acquire throws for a failed write, or with the ids as they were. *)
Lemma acquire_throws e a w ex w' :
  a ≠ 0 → acquire e a w = (Throw ex, w') → table_error ex ∨ by_addr (obj w') = by_addr (obj w).
Proof.
  intros Ha. unfold acquire. destruct (Z.eqb_spec a 0); [done |]. rewrite bind_get. destruct (by_addr (obj w) !! a).
  { cbv zeta. rewrite bind_modify. intros H. discriminate H. }
  generalize (Z.to_nat (PB_MAX_REALS - 1)). intros k. revert w. induction k as [| k IH]; intros w; cbn [acquire_loop].
  { intros [= <- <-]. by right. }
  rewrite bind_get. cbv zeta. rewrite bind_modify. destruct (negb _); [intros H; exact (IH _ H) |].
  rewrite !bind_modify. intros H. left. revert H. apply throws_bind.
  { apply throws_bind; [apply throws_map_write | intros; apply throws_ret]. }
  intros []. apply throws_bind; [apply write_slot_throws | intros []; apply throws_ret].
Qed.

(** ** Steps in which calls may fail *)

(** Every map state on the way is safe for packets. *)
Definition trail {S T} (w : World S) (w' : World T) : Prop := ∃ ms, hist w' = hist w ++ ms ∧ Forall safe ms.

Lemma trail_refl {S T} (w : World S) (w' : World T) : hist w' = hist w → trail w w'.
Proof. intros E. exists []. by rewrite app_nil_r. Qed.

Lemma trail_one {S T} (w : World S) (w' : World T) m : hist w' = hist w ++ [m] → safe m → trail w w'.
Proof. intros E H. exists [m]. split; [done | by constructor]. Qed.

Lemma trail_trans {S T U} (w1 : World S) (w2 : World T) (w3 : World U) : trail w1 w2 → trail w2 w3 → trail w1 w3.
Proof.
  intros (ms & E & F) (ms' & E' & F'). exists (ms ++ ms'). split; [by rewrite E', E, app_assoc | by apply Forall_app].
Qed.

(** A method of the table: safe on the way, and exact when it succeeds. *)
Lemma table_step_flt {A} L L' X Y w (r : result A) wt :
  inv_in L X Y (obj w) (km w) → keeps_for X L L' → step_ok (table_world w) r wt → keeps (obj w) L' (obj wt) →
  (∀ a, refs_of (obj wt) a + Z.of_nat (occ a L.*2) = refs_of (reals_ (obj w)) a + Z.of_nat (occ a L'.*2)) →
  (∀ a id, by_addr (obj wt) !! a = Some id → 0 < s_refs (slot (obj wt) id)) →
  let w' := mk_world (set_reals_ (obj wt) (obj w)) (km wt) (hist wt) (sys wt) in
  trail w w' ∧ (is_ok r = true → inv_in L' X Y (obj w') (km w')).
Proof.
  intros Hi HL [S1 (ms & E & F) S3 S4] Hk Hr Hl. cbn [obj km hist]. split.
  - exists ms. split; [exact E |]. eapply Forall_impl; [exact F |]. intros m1 [Hb Hs]. eapply table_safe; eauto.
  - intros Hok. destruct S4 as (V1 & V2 & _). eapply inv_table; eauto.
Qed.

(** acquire adds a reference, or throws before it changes anything. *)
Lemma acquire_flt L X Y e spec a w :
  inv_in L X Y (obj w) (km w) → a ≠ 0 → refs_of (reals_ (obj w)) a + 1 < 2 ^ 32 →
  let '(r, w') := real_op (acquire e a) w in
  trail w w' ∧
  match r with
  | Ok id => inv_in ((spec, a) :: L) X Y (obj w') (km w') ∧ (∃ tb, obj w' = set_reals_ tb (obj w)) ∧
             by_addr (reals_ (obj w')) !! a = Some id
  | Throw ex => w' = w ∨ table_error ex
  end.
Proof.
  intros Hi Ha Hb. pose proof (i_tb _ _ _ _ _ Hi) as Ht. pose proof (i_mirror _ _ _ _ _ Hi) as Hm.
  set (tb := reals_ (obj w)) in *. destruct (by_addr tb !! a) as [id |] eqn:Ea.
  - destruct (acquire_known_run e a id (table_world w) Ht Hm Ea) as [H Hst]. rewrite (real_op_run _ _ _ _ H).
    assert (∀ b, refs_of (tb_ref id tb) b = refs_of tb b + (if decide (a = b) then 1 else 0) ∧
                 mac_of (tb_ref id tb) b = mac_of tb b) as Hv by (intros b; by apply ref_views).
    destruct (table_step_flt L ((spec, a) :: L) X Y w _ _ Hi (keeps_cons X (spec, a) L) Hst) as [G1 G2].
    + intros b i Hbi _. split; [exact Hbi |]. destruct (Hv b) as [_ E]. unfold mac_of, id_of in E.
      change (by_addr tb !! b = Some i) in Hbi. rewrite Hbi in E. change (by_addr (tb_ref id tb)) with (by_addr tb) in E. rewrite Hbi in E. cbn in E.
      cbn [obj with_obj table_world]. fold tb. by rewrite E.
    + intros b. cbn [obj with_obj table_world]. fold tb. destruct (Hv b) as [-> _]. rewrite fmap_cons, occ_cons. cbn [snd].
      destruct (decide (a = b)); lia.
    + intros b i Hbi. pose proof (i_live _ _ _ _ _ Hi b i Hbi) as Hl. cbn [obj with_obj table_world]. fold tb.
      destruct (Hv b) as [E _]. unfold refs_of in E. change (by_addr (tb_ref id tb)) with (by_addr tb) in E.
      change (by_addr tb !! b = Some i) in Hbi. rewrite Hbi in E. fold tb in Hl. destruct (decide (a = b)); lia.
    + split; [exact G1 |]. split_and!; [by apply G2 | by exists (tb_ref id tb) | done].
  - pose proof (acquire_fresh_run e a (table_world w) Ht Hm Ha Ea) as H. cbn [obj table_world] in H. fold tb in H.
    destruct (next_free tb) as [id |] eqn:En.
    2: { rewrite (real_op_run _ _ _ _ H). split; [by apply trail_refl |]. left. by destruct w as [[]]. }
    destruct H as (r & wt & H & O & Hst & Hr & _). rewrite (real_op_run _ _ _ _ H).
    destruct (next_free_spec tb id Ht En) as [Hid Hf].
    assert (∀ b, refs_of (obj wt) b = refs_of tb b + (if decide (a = b) then 1 else 0) ∧
                 mac_of (obj wt) b = mac_of tb b ∧
                 (∀ i, by_addr tb !! b = Some i → by_addr (obj wt) !! b = Some i ∧ slot (obj wt) i = slot tb i)) as Hv
      by (intros b; rewrite O; by apply fill_views).
    destruct (table_step_flt L ((spec, a) :: L) X Y w _ _ Hi (keeps_cons X (spec, a) L) Hst) as [G1 G2].
    + intros b i Hbi _. destruct (Hv b) as (_ & _ & Hk). destruct (Hk i Hbi) as [K1 K2]. split; [done |]. by rewrite K2.
    + intros b. fold tb. destruct (Hv b) as [-> _]. rewrite fmap_cons, occ_cons. cbn [snd]. destruct (decide (a = b)); lia.
    + intros b i Hbi. destruct (Hv b) as (E & _ & Hk). destruct (decide (a = b)) as [<- | Hne].
      * unfold refs_of in E. rewrite Hbi, Ea in E. lia.
      * assert (by_addr tb !! b = Some i) as Hb' by (rewrite O in Hbi; cbn in Hbi; by rewrite lookup_insert_ne in Hbi).
        destruct (Hk i Hb') as [_ ->]. exact (i_live _ _ _ _ _ Hi b i Hb').
    + split; [exact G1 |]. destruct r as [x | ex].
      * rewrite (Hr x eq_refl). split_and!; [by apply G2 | by exists (obj wt) |]. cbn. rewrite O. apply lookup_insert_eq.
      * right. destruct (acquire_throws e a _ _ _ Ha H) as [? | Eb]; [done |]. exfalso. cbn [obj table_world] in Eb. fold tb in Eb.
        rewrite O in Eb. assert (by_addr tb !! a = Some id) as E by (rewrite <-Eb; apply lookup_insert_eq). congruence.
Qed.

Lemma set_mac_views a mac tb c :
  RealTable.inv tb →
  by_addr (tb_set_mac a mac tb) = by_addr tb ∧ refs_of (tb_set_mac a mac tb) c = refs_of tb c ∧
  (is_Some (mac_of tb c) → is_Some (mac_of (tb_set_mac a mac tb) c)).
Proof.
  intros Ht. rewrite mac_of_set_mac by done. unfold tb_set_mac. destruct (by_addr tb !! a) as [id |] eqn:Ea.
  - destruct (slot_views a id (mk_slot (s_addr (slot tb id)) (s_refs (slot tb id)) (Some mac)) tb c Ht Ea) as [V1 _].
    rewrite V1. split_and!; [done | | intros ?; repeat case_decide; eauto].
    destruct (decide (a = c)) as [<- | ]; [unfold refs_of; by rewrite Ea | done].
  - split_and!; try done. by rewrite decide_False by (by intros [_ []]).
Qed.

Lemma set_mac_flt L X Y e a mac w :
  inv_in L X Y (obj w) (km w) →
  let '(r, w') := real_op (set_mac e a mac) w in
  trail w w' ∧
  match r with
  | Ok _ => inv_in L X Y (obj w') (km w') ∧ obj w' = set_reals_ (tb_set_mac a mac (reals_ (obj w))) (obj w)
  | Throw ex => table_error ex
  end.
Proof.
  intros Hi. pose proof (i_tb _ _ _ _ _ Hi) as Ht. pose proof (i_mirror _ _ _ _ _ Hi) as Hm. set (tb := reals_ (obj w)) in *.
  destruct (set_mac_run e a mac (table_world w) Ht Hm) as (r & wt & H & O & Hst & _). rewrite (real_op_run _ _ _ _ H).
  cbn [obj table_world] in O. fold tb in O. pose proof (λ c, set_mac_views a mac tb c Ht) as Hv. rewrite <-O in Hv.
  destruct (table_step_flt L L X Y w _ _ Hi (λ sp c _ H, H) Hst) as [G1 G2].
  - intros c i Hci _. destruct (Hv c) as (Hby & _ & Hmac). rewrite Hby. split; [exact Hci |]. unfold mac_of, id_of in Hmac.
    rewrite Hby in Hmac. change (by_addr tb !! c = Some i) in Hci. rewrite Hci in Hmac. exact Hmac.
  - intros c. fold tb. destruct (Hv c) as (_ & -> & _). done.
  - intros c i Hci. destruct (Hv c) as (Hby & E & _). rewrite Hby in Hci. pose proof (i_live _ _ _ _ _ Hi c i Hci) as Hl. fold tb in Hl.
    unfold refs_of in E. rewrite Hby, Hci in E. lia.
  - split; [exact G1 |]. destruct r as [b | ex]; [split; [by apply G2 | cbn [obj]; by rewrite O] |]. by eapply set_mac_throws.
Qed.

Lemma release_flt L X Y e spec a w :
  inv_in ((spec, a) :: L) X Y (obj w) (km w) → spec ∉ X →
  let '(r, w') := real_op (release e a) w in
  trail w w' ∧
  match r with
  | Ok _ => inv_in L X Y (obj w') (km w') ∧ ∃ tb, obj w' = set_reals_ tb (obj w)
  | Throw ex => table_error ex
  end.
Proof.
  intros Hi HX. pose proof (i_tb _ _ _ _ _ Hi) as Ht. pose proof (i_mirror _ _ _ _ _ Hi) as Hm. set (tb := reals_ (obj w)) in *.
  destruct (release_run e a (table_world w) Ht Hm) as (r & wt & H & O & Hst & _). rewrite (real_op_run _ _ _ _ H).
  cbn [obj table_world] in O. fold tb in O.
  assert (∀ b, refs_of tb b = Z.of_nat (count b (vips_ (obj w))) + Z.of_nat (occ b L.*2) + (if decide (a = b) then 1 else 0)) as Hr.
  { intros b. pose proof (i_refs _ _ _ _ _ Hi b) as E. fold tb in E. rewrite fmap_cons, occ_cons in E. cbn [snd] in E. destruct (decide (a = b)); lia. }
  assert (keeps_for X ((spec, a) :: L) L) as Hkeep by (intros sp b Hsp [[= -> ->] | ?]%elem_of_cons; done).
  assert (0 < refs_of tb a) as Hpos by (rewrite Hr, decide_True by done; lia).
  pose proof (λ b, release_views a tb b Ht Hpos) as Hv. rewrite <-O in Hv.
  destruct (table_step_flt ((spec, a) :: L) L X Y w _ _ Hi Hkeep Hst) as [G1 G2].
  - intros b i Hbi Hheld. destruct (Hv b) as (V1 & V2 & _). change (by_addr tb !! b = Some i) in Hbi. destruct V2 as [V2 V3].
    { rewrite V1, Hr. destruct Hheld as [? | Hin]; [destruct (decide (a = b)); lia |].
      assert (occ b L.*2 ≠ 0%nat) by (by rewrite occ_zero; intros ?). destruct (decide (a = b)); lia. }
    rewrite V3. split; [done |]. unfold mac_of, id_of in V2. rewrite V3, Hbi in V2. cbn in V2. fold tb. by rewrite V2.
  - intros b. fold tb. destruct (Hv b) as [-> _]. rewrite fmap_cons, occ_cons. cbn [snd]. destruct (decide (a = b)); lia.
  - intros b i Hbi. destruct (Hv b) as (V1 & _ & V3). destruct V3 as [V3 V4]; [congruence |].
    assert (refs_of (obj wt) b = s_refs (slot (obj wt) i)) as E by (unfold refs_of; by rewrite Hbi).
    rewrite <-E, V1. destruct (by_addr tb !! b) as [j |] eqn:Ej; [| done].
    pose proof (i_live _ _ _ _ _ Hi b j Ej) as Hl. fold tb in Hl.
    assert (refs_of tb b = s_refs (slot tb j)) as E' by (unfold refs_of; by rewrite Ej).
    destruct (decide (a = b)) as [<- | ]; [specialize (V4 eq_refl) |]; lia.
  - split; [exact G1 |]. destruct r as [b | ex]; [split; [by apply G2 | by exists (obj wt)] |]. by eapply release_throws.
Qed.

(** Releasing a list of references. *)
Lemma release_all_flt spec l L X Y e w :
  inv_in ((pair spec <$> l) ++ L) X Y (obj w) (km w) → spec ∉ X →
  let '(r, w') := m_for l (λ a, real_op (release e a)) w in
  trail w w' ∧
  match r with
  | Ok _ => inv_in L X Y (obj w') (km w') ∧ ∃ tb, obj w' = set_reals_ tb (obj w)
  | Throw ex => table_error ex
  end.
Proof.
  intros Hi HX. revert w Hi. induction l as [| a l IH]; intros w Hi.
  { split; [by apply trail_refl |]. split; [done |]. exists (reals_ (obj w)). by destruct (obj w). }
  cbn [m_for]. pose proof (release_flt _ X Y e spec a w Hi HX) as H. unfold mbind, M_bind.
  destruct (real_op (release e a) w) as [[[] | ex] w1]; [| done]. destruct H as (T1 & Hi1 & tb1 & O1).
  specialize (IH w1 Hi1). destruct (m_for l _ w1) as [[[] | ex] w2]; destruct IH as [T2 H2].
  - split; [by eapply trail_trans |]. destruct H2 as (Hi2 & tb2 & O2). split; [done |]. exists tb2. by rewrite O2, O1.
  - split; [by eapply trail_trans | done].
Qed.

Lemma install_ring_flt {S} e id ring (w : World S) :
  length ring = Z.to_nat PB_RING_SIZE →
  let '(r, w') := install_ring e id ring w in
  obj w' = obj w ∧
  match r with
  | Ok _ => km w' = set_rings <[id := ring]> (km w) ∧ hist w' = hist w ++ [km w']
  | Throw _ => km w' = km w ∧ hist w' = hist w
  end.
Proof.
  intros Hl. unfold install_ring. rewrite Hl.
  replace (Z.of_nat (Z.to_nat PB_RING_SIZE) =? PB_RING_SIZE) with true by reflexivity. cbn [negb].
  destruct (bpf_result_run w) as (err1 & w1 & H1 & O1 & K1 & S1 & _). erewrite bind_run by exact H1.
  destruct (negb (err1 =? 0)); [done |].
  destruct (bpf_result_run w1) as (err2 & w2 & H2 & O2 & K2 & S2 & _). erewrite bind_run by exact H2.
  destruct (negb (err2 =? 0)).
  { destruct (bpf_result_run w2) as (cnt & w3 & H3 & O3 & K3 & S3 & _). erewrite bind_run by exact H3. cbn. split_and!; congruence. }
  destruct (checked_write_run (set_rings <[id := ring]>)
    (λ err, §"swap ring for vip_id " ++ VipSpec.to_string id ++ §": " ++ errstr e err) w2) as (r & w3 & H3 & O3 & P3 & _).
  rewrite H3. split; [congruence |]. destruct r as [[] | ex].
  - destruct P3 as [K3 S3]. rewrite S3, S2, S1, K3, K2, K1. done.
  - destruct P3 as (_ & K3 & S3). split; congruence.
Qed.

(** A rebuild swaps the ring in one step, or leaves the old one. *)
Lemma rebuild_flt L X Y e spec v w :
  inv_in L X Y (obj w) (km w) → vips_ (obj w) !! spec = Some v →
  let '(r, w') := rebuild_locked e spec w in
  trail w w' ∧ reals_ (obj w') = reals_ (obj w) ∧ dom (vips_ (obj w')) = dom (vips_ (obj w)) ∧
  match r with
  | Ok _ => inv_in L (X ∖ {[spec]}) Y (obj w') (km w')
  | Throw _ => inv_in L ({[spec]} ∪ X) Y (obj w') (km w')
  end ∧ ∃ v', vips_ (obj w') !! spec = Some v' ∧ v_id v' = v_id v ∧ v_flags v' = v_flags v.
Proof.
  intros Hi Hv. set (tb := reals_ (obj w)). set (v1 := set_members (mark_in_ring tb) v).
  destruct (ring_built tb (v_members v1) (hash_ (obj w))) as (r & Hr & Hlen & _).
  set (w1 := with_obj (set_vips <[spec := v1]> (obj w)) w).
  assert (inv_in L ({[spec]} ∪ X) Y (obj w1) (km w1)) as Hi1.
  { cbn [obj km w1 with_obj]. eapply inv_upd; try done. intros a. cbn [v_members v1 set_members]. rewrite lookup_mark. by rewrite fmap_is_Some. }
  assert (rebuild_locked e spec w = (_ ← install_ring e (v_id v) r; upd_vip spec bump_generation) w1) as ->.
  { unfold rebuild_locked. rewrite bind_get. unfold upd_vip. rewrite bind_modify, bind_get.
    assert (set_vips (alter (set_members (mark_in_ring (reals_ (obj w)))) spec) (obj w) = obj w1) as ->
      by (unfold set_vips, w1, with_obj; cbn; by rewrite (alter_Some _ _ _ v Hv)).
    change (mk_world (obj w1) (km w) (hist w) (sys w)) with w1.
    assert (vip_at (obj w1) spec = v1) as -> by (unfold vip_at; cbn; by rewrite lookup_insert_eq).
    cbn [obj w1 with_obj reals_ set_vips hash_]. fold tb. erewrite bind_run by (unfold lift; rewrite (ring_of_built tb _ _ r Hr); reflexivity). done. }
  pose proof (install_ring_flt e (v_id v) r w1 Hlen) as H. unfold mbind at 1, M_bind at 1.
  destruct (install_ring e (v_id v) r w1) as [[[] | ex] w2]; destruct H as (O2 & K2 & S2).
  - unfold upd_vip, modify. cbn [obj km hist].
    assert (set_vips (alter bump_generation spec) (obj w2) = set_vips <[spec := bump_generation v1]> (obj w)) as Eo.
    { rewrite O2. unfold w1, set_vips. cbn. rewrite (alter_Some _ _ _ v1) by apply lookup_insert_eq. by rewrite insert_insert_eq. }
    rewrite Eo. assert (inv_in L (X ∖ {[spec]}) Y (set_vips <[spec := bump_generation v1]> (obj w)) (km w2)) as Hi2.
    { rewrite <-union_diff, K2. eapply (inv_installed _ _ _ _ _ spec (bump_generation v1)); [| apply lookup_insert_eq | | exact Hr].
      - eapply inv_upd; try done. intros a. cbn [v_members v1 bump_generation set_members]. rewrite lookup_mark. by rewrite fmap_is_Some.
      - intros a mb. apply (rebuilt_in_ring tb v). }
    split_and!; [eapply trail_one; [exact S2 | by eapply inv_safe] | done | | done | exists (bump_generation v1); split; [apply lookup_insert_eq | done]].
    cbn [vips_ set_vips]. apply dom_insert_lookup_L. eauto.
  - rewrite O2. split_and!; [by apply trail_refl | done | | by rewrite K2 | exists v1; split; [apply lookup_insert_eq | done]].
    cbn [obj w1 with_obj vips_ set_vips]. apply dom_insert_lookup_L. eauto.
Qed.

(** ** The methods *)

(** The model and the maps agree but for at most [n] references that failed calls
    have left behind, rings that are out of date and VIPs that packets cannot match. *)
Definition fits (n : nat) (w : World LbState.t) : Prop :=
  ∃ L X Y, inv_in L X Y (obj w) (km w) ∧ (length L <= n)%nat.

Definition tolerated {A} (n : nat) (w : World LbState.t) (rw : result A * World LbState.t) : Prop :=
  trail w (snd rw) ∧ (¬ table_fault (fst rw) → fits (S n) (snd rw)).

Lemma tolerated_same {A} n w (r : result A) : fits n w → tolerated n w (r, w).
Proof. intros (L & X & Y & Hi & Hl). split; [by apply trail_refl |]. intros _. exists L, X, Y. split; [done | lia]. Qed.

Lemma tolerated_fits {A} n w (r : result A) w' : trail w w' → fits (S n) w' → tolerated n w (r, w').
Proof. intros T F. by split. Qed.

Lemma tolerated_fault {A} n w ex w' : trail w w' → table_error ex → tolerated n w (Throw ex : result A, w').
Proof. intros T E. split; [done |]. intros []. by exists ex. Qed.

Lemma tolerated_unit {A} n w (p : M LbState.t A) : tolerated n w (p w) → tolerated n w ((_ ← p; mret ()) w).
Proof.
  unfold mbind, M_bind. destruct (p w) as [[a | ex] w']; intros [T F]; (split; [exact T |]); intros Hn; apply F; intros (ex' & E & He).
  - discriminate E.
  - apply Hn. exists ex'. injection E as ->. done.
Qed.

Lemma occ_held a (L : held) : (occ a L.*2 <= length L)%nat.
Proof. rewrite <-(length_fmap snd L). apply occ_length. Qed.

Lemma refs_room L X Y s m a n : inv_in L X Y s m → (length L <= n)%nat → Z.of_nat n < 2 ^ 31 → refs_of (reals_ s) a + 1 < 2 ^ 32.
Proof.
  intros Hi Hl Hn. rewrite (i_refs _ _ _ _ _ Hi a). pose proof (count_size a (vips_ s)) as Hc.
  pose proof (proj1 (vips_ids _ _ _ _ _ Hi)) as Hm. unfold PB_MAX_VIPS in Hm. pose proof (occ_held a L). lia.
Qed.

(** A rebuild at the end of a method. *)
Lemma rebuild_tolerated n L X Y e spec v w w0 :
  inv_in L X Y (obj w) (km w) → (length L <= S n)%nat → vips_ (obj w) !! spec = Some v → trail w0 w →
  tolerated n w0 (rebuild_locked e spec w).
Proof.
  intros Hi Hl Hv T0. pose proof (rebuild_flt L X Y e spec v w Hi Hv) as H. destruct (rebuild_locked e spec w) as [r w'].
  destruct H as (T & _ & _ & Hi' & _). apply tolerated_fits; [by eapply trail_trans |].
  destruct r; (eexists _, _, _; split; [exact Hi' | done]).
Qed.

(** A member changes and the ring is rebuilt. *)
Lemma upd_rebuild_flt n e spec v a mb f w :
  fits n w → vips_ (obj w) !! spec = Some v → v_members v !! a = Some mb →
  tolerated n w ((_ ← upd_member spec a f; rebuild_locked e spec) w).
Proof.
  intros (L & X & Y & Hi & Hl) Hv Hm. unfold upd_member, upd_vip. rewrite bind_modify.
  eapply (rebuild_tolerated n L ({[spec]} ∪ X) Y e spec (set_members (alter f a) v)).
  - cbn [obj km]. assert (set_vips (alter (set_members (alter f a)) spec) (obj w) = set_vips <[spec := set_members (alter f a) v]> (obj w)) as ->
      by (unfold set_vips; by rewrite (alter_Some _ _ _ v Hv)).
    eapply inv_upd; try done. intros b. cbn [v_members set_members]. rewrite lookup_alter. destruct (decide (a = b)) as [<- | ]; [| done]. by rewrite fmap_is_Some.
  - lia.
  - cbn [obj vips_ set_vips]. by rewrite lookup_alter_eq, Hv.
  - by apply trail_refl.
Qed.

Lemma set_weight_flt n e vip a weight w : fits n w → tolerated n w (set_weight e vip a weight w).
Proof.
  intros Hf. unfold set_weight. destruct (_ <? _); [by apply tolerated_same |]. unfold vip_or_throw, mbind at 1, M_bind at 1.
  rewrite bind_get. destruct (vips_ (obj w) !! vip) as [v |] eqn:Hv; [| by apply tolerated_same]. cbn [mret M_ret].
  unfold member_or_throw. destruct (v_members v !! a) as [mb |] eqn:Hm; [| by apply tolerated_same].
  unfold mbind at 1, M_bind at 1. cbn [mret M_ret]. destruct (_ =? _); [by apply tolerated_same |]. by eapply upd_rebuild_flt.
Qed.

Lemma set_draining_flt n e vip a d w : fits n w → tolerated n w (set_draining e vip a d w).
Proof.
  intros Hf. unfold set_draining. unfold vip_or_throw, mbind at 1, M_bind at 1.
  rewrite bind_get. destruct (vips_ (obj w) !! vip) as [v |] eqn:Hv; [| by apply tolerated_same]. cbn [mret M_ret].
  unfold member_or_throw. destruct (v_members v !! a) as [mb |] eqn:Hm; [| by apply tolerated_same].
  unfold mbind at 1, M_bind at 1. cbn [mret M_ret]. destruct (eqb _ _); [by apply tolerated_same |]. by eapply upd_rebuild_flt.
Qed.

Lemma report_health_flt n e h p rise fall w : fits n w → tolerated n w (report_health e h p rise fall w).
Proof.
  intros Hf. unfold report_health. rewrite bind_get. destruct (vips_ (obj w) !! ht_vip h) as [v |] eqn:Hv; [| by apply tolerated_same].
  cbn [mbind option_bind]. destruct (v_members v !! ht_addr h) as [mb |] eqn:Hm; [| by apply tolerated_same].
  destruct (negb _); [by apply tolerated_same |]. destruct (pr_local_error p); [by apply tolerated_same |].
  assert (∀ mq (b again : bool) now, same_share mb mq → tolerated n w
    ((_ ← upd_member (ht_vip h) (ht_addr h) (λ _, mq);
      if again then _ ← upd_member (ht_vip h) (ht_addr h) (set_up b now); rebuild_locked e (ht_vip h) else mret ()) w)) as H.
  { intros mq b again now Hs.
    change (upd_member (ht_vip h) (ht_addr h) (λ _, mq)) with (modify (set_vips (alter (set_members (alter (λ _ : Member, mq) (ht_addr h))) (ht_vip h)))).
    rewrite bind_modify. set (w1 := mk_world _ _ _ _).
    assert (obj w1 = set_vips <[ht_vip h := set_members <[ht_addr h := mq]> v]> (obj w)) as E1.
    { unfold w1, set_vips. cbn [obj]. rewrite (alter_Some _ _ _ v Hv). unfold set_members. by rewrite (alter_Some _ _ _ mb Hm). }
    assert (fits n w1) as Hf1.
    { destruct Hf as (L & X & Y & Hi & Hl). exists L, X, Y. split; [| done]. rewrite E1. change (km w1) with (km w). by eapply upd_quiet. }
    destruct again.
    - pose proof (upd_rebuild_flt n e (ht_vip h) (set_members <[ht_addr h := mq]> v) (ht_addr h) mq (set_up b now) w1 Hf1) as [T F];
        [rewrite E1; apply lookup_insert_eq | apply lookup_insert_eq | by split].
    - destruct (tolerated_same n w1 (Ok () : result unit) Hf1) as [T F]. by split. }
  destruct (pr_ok p); by apply H.
Qed.

Lemma ask_mac_flt L X Y e a w :
  inv_in L X Y (obj w) (km w) →
  let '(r, w') := ask_mac e a w in
  trail w w' ∧ match r with Ok _ => inv_in L X Y (obj w') (km w') ∧ ∃ tb, obj w' = set_reals_ tb (obj w) | Throw ex => table_error ex end.
Proof.
  intros Hi. unfold ask_mac. rewrite bind_get.
  assert (trail w w ∧ inv_in L X Y (obj w) (km w) ∧ ∃ tb, obj w = set_reals_ tb (obj w)) as Hsame
    by (split_and!; [by apply trail_refl | done | exists (reals_ (obj w)); by destruct (obj w)]).
  destruct (mac_of (reals_ (obj w)) a); [done |]. destruct (mac_lookup e) as [lookup |]; [| done].
  destruct (lookup _) as [mac |]; [| done]. pose proof (set_mac_flt L X Y e a mac w Hi) as H. unfold mbind, M_bind.
  destruct (real_op (set_mac e a mac) w) as [[b | ex] w']; [| done]. destruct H as (T & Hi' & O). cbn. split_and!; eauto.
Qed.

Lemma add_member_flt L X Y e spec v a weight w :
  inv_in L X Y (obj w) (km w) → a ≠ 0 → refs_of (reals_ (obj w)) a + 1 < 2 ^ 32 →
  vips_ (obj w) !! spec = Some v → v_members v !! a = None →
  let '(r, w') := add_member_locked e spec a weight w in
  trail w w' ∧
  match r with
  | Ok _ => inv_in L ({[spec]} ∪ X) Y (obj w') (km w') ∧ is_Some (vips_ (obj w') !! spec)
  | Throw ex => w' = w ∨ table_error ex
  end.
Proof.
  intros Hi Ha Hroom Hv Hm. unfold add_member_locked. pose proof (acquire_flt L X Y e spec a w Hi Ha Hroom) as H.
  destruct (real_op (acquire e a) w) as [[id | ex] w1] eqn:E1; destruct H as [T1 H1].
  2: { by erewrite bind_throw by exact E1. }
  erewrite bind_run by exact E1. destruct H1 as (Hi1 & (tb1 & O1) & _). pose proof (ask_mac_flt _ X Y e a w1 Hi1) as H.
  destruct (ask_mac e a w1) as [[[] | ex] w2] eqn:E2; destruct H as [T2 H2].
  2: { erewrite bind_throw by exact E2. split; [by eapply trail_trans | by right]. }
  erewrite bind_run by exact E2. destruct H2 as (Hi2 & tb2 & O2). rewrite bind_get, bind_modify. unfold upd_vip, modify. cbn [obj km].
  assert (vips_ (obj w2) = vips_ (obj w)) as Ev by (by rewrite O2, O1).
  set (mb := new_member e weight (next_incarnation_ (obj w2))). set (v' := set_members <[a := mb]> v).
  assert (alter (set_members (emplace a mb)) spec (vips_ (obj w2)) = <[spec := v']> (vips_ (obj w))) as Ea.
  { rewrite Ev, (alter_Some _ _ _ v Hv). unfold v', set_members. by rewrite emplace_None. }
  split; [eapply trail_trans; [exact T1 | exact T2] |]. split.
  - assert (inv_in L ({[spec]} ∪ X) Y (set_vips <[spec := v']> (obj w2)) (km w2)) as Hi3 by (eapply inv_add_member; eauto; by rewrite Ev).
    destruct Hi3. split; cbn [reals_ vips_ adopted_vip_ids_ hash_ set_vips set_next_incarnation] in *; rewrite ?Ea, ?Ev in *; assumption.
  - cbn [vips_ set_vips set_next_incarnation]. rewrite Ea, lookup_insert_eq. eauto.
Qed.

Lemma add_real_flt n e vip a weight w : Z.of_nat n < 2 ^ 31 → fits n w → tolerated n w (add_real e vip a weight w).
Proof.
  intros Hn Hf. unfold add_real, vip_or_throw, mbind at 1, M_bind at 1. rewrite bind_get.
  destruct (vips_ (obj w) !! vip) as [v |] eqn:Hv; [| by apply tolerated_same]. cbn [mret M_ret].
  destruct (Z.eqb_spec a 0); [by apply tolerated_same |]. case_bool_decide as Hm; [by apply tolerated_same |]. apply eq_None_not_Some in Hm.
  destruct (_ <? _); [by apply tolerated_same |]. destruct Hf as (L & X & Y & Hi & Hl).
  pose proof (add_member_flt L X Y e vip v a weight w Hi ltac:(done) (refs_room _ _ _ _ _ a n Hi Hl Hn) Hv Hm) as H.
  destruct (add_member_locked e vip a weight w) as [[[] | ex] w1] eqn:E1; destruct H as [T1 H1].
  2: { erewrite bind_throw by exact E1. destruct H1 as [-> | He]; [by apply tolerated_same; exists L, X, Y | by apply tolerated_fault]. }
  erewrite bind_run by exact E1. destruct H1 as [Hi1 [v1 Hv1]].
  pose proof (rebuild_tolerated n L _ Y e vip v1 w1 w Hi1 ltac:(lia) Hv1 T1) as Hreb.
  destruct (rebuild_locked e vip w1) as [[[] | ex] w2] eqn:E2; [erewrite bind_run by exact E2 | erewrite bind_throw by exact E2].
  - rewrite bind_get. destruct Hreb as [T F]. split; [exact T |]. intros _. apply F. by intros (ex & ? & _).
  - destruct Hreb as [T F]. split; [exact T |]. intros Hx. apply F. intros (ex' & [= ->] & He). apply Hx. by exists ex'.
Qed.

(** del_real keeps the real's reference when its ring could not be rebuilt. *)
Lemma del_real_flt n e vip a w : fits n w → tolerated n w (del_real e vip a w).
Proof.
  intros Hf. unfold del_real, vip_or_throw, mbind at 1, M_bind at 1. rewrite bind_get.
  destruct (vips_ (obj w) !! vip) as [v |] eqn:Hv; [| by apply tolerated_same]. cbn [mret M_ret].
  unfold member_or_throw. destruct (v_members v !! a) as [mb |] eqn:Hm; [| by apply tolerated_same].
  unfold mbind at 1, M_bind at 1. cbn [mret M_ret]. destruct Hf as (L & X & Y & Hi & Hl).
  unfold remove_member_locked, upd_vip. rewrite bind_modify. set (w1 := mk_world _ _ _ _).
  assert (obj w1 = set_vips <[vip := set_members (delete a) v]> (obj w)) as O1 by (unfold w1, set_vips; cbn [obj]; by rewrite (alter_Some _ _ _ v Hv)).
  assert (inv_in ((vip, a) :: L) ({[vip]} ∪ X) Y (obj w1) (km w1)) as Hi1 by (rewrite O1; eapply inv_del_member; eauto).
  assert (trail w w1) as T1 by (by apply trail_refl).
  assert (vips_ (obj w1) !! vip = Some (set_members (delete a) v)) as Hv1 by (rewrite O1; apply lookup_insert_eq).
  pose proof (rebuild_flt _ _ _ e vip _ w1 Hi1 Hv1) as H.
  destruct (rebuild_locked e vip w1) as [[[] | ex] w2] eqn:E2; destruct H as (T2 & _ & _ & Hi2 & _).
  2: { erewrite bind_throw by exact E2. apply tolerated_fits; [by apply (trail_trans _ _ _ T1 T2) |]. eexists _, _, _. split; [exact Hi2 | cbn; lia]. }
  erewrite bind_run by exact E2. rewrite union_diff in Hi2.
  pose proof (release_flt L (X ∖ {[vip]}) Y e vip a w2 Hi2) as H. destruct (real_op (release e a) w2) as [[[] | ex] w3].
  - destruct H as (T3 & Hi3 & _); [rewrite not_elem_of_difference, elem_of_singleton; tauto |].
    apply tolerated_fits; [exact (trail_trans _ _ _ T1 (trail_trans _ _ _ T2 T3)) |]. eexists _, _, _. split; [exact Hi3 | lia].
  - destruct H as [T3 He]; [rewrite not_elem_of_difference, elem_of_singleton; tauto |].
    apply tolerated_fault; [exact (trail_trans _ _ _ T1 (trail_trans _ _ _ T2 T3)) | done].
Qed.

Lemma reset_counters_flt L X Y e i w :
  inv_in L X Y (obj w) (km w) →
  ∃ w', reset_counters e i w = (Ok (), w') ∧ obj w' = obj w ∧ inv_in L X Y (obj w') (km w') ∧ trail w w'.
Proof.
  intros Hi. unfold reset_counters. set (f := set_stats _). destruct (map_write_run f w) as (err & w' & H & O & P & _).
  exists w'. erewrite bind_run by exact H.
  assert (inv_in L X Y (obj w') (km w')) as Hi' by (rewrite O; destruct P as [(_ & -> & _) | (_ & -> & _)]; [by eapply inv_maps | done]).
  split_and!; try done. destruct P as [(_ & K & Sh) | (_ & K & Sh)]; [| by apply trail_refl].
  eapply trail_one; [exact Sh |]. rewrite <-K. by eapply inv_safe.
Qed.

(** A new VIP becomes visible to packets only with its ring in place. *)
Lemma add_vip_flt n e vip nc w : fits n w → tolerated n w (add_vip e vip nc w).
Proof.
  intros Hf. unfold add_vip. rewrite bind_get. case_bool_decide as Hv; [by apply tolerated_same |]. apply eq_None_not_Some in Hv.
  destruct Hf as (L & X & Y & Hi & Hl). unfold create_vip_locked, take_vip_id. unfold mbind at 1, M_bind at 1.
  rewrite bind_get, (i_adopted _ _ _ _ _ Hi), lookup_empty. pose proof (allocate_spec _ _ _ _ _ Hi) as Hal.
  destruct (allocate_vip_id (obj w)) as [id | ex]; unfold lift, mbind at 1, M_bind at 1; [| by apply tolerated_same; exists L, X, Y].
  destruct Hal as (Hid & Hfresh & _). destruct (reset_counters_flt _ _ _ e id w Hi) as (w1 & H1 & O1 & Hi1 & T1).
  erewrite bind_run by exact H1. cbn [mret M_ret]. rewrite bind_modify, O1.
  set (v0 := mk_vip vip id (if nc then PB_VIP_F_NO_CONNTRACK else 0) 0 ∅).
  assert (set_vips (emplace vip v0) (obj w) = set_vips <[vip := v0]> (obj w)) as -> by (unfold set_vips; by rewrite emplace_None).
  set (w2 := mk_world _ _ _ _). assert (inv_in L ({[vip]} ∪ X) ({[vip]} ∪ Y) (obj w2) (km w2)) as Hi2.
  { cbn [obj km w2]. rewrite O1 in Hi1. by apply inv_new_vip. }
  assert (trail w w2) as T2 by exact T1. change (addr_keys (∅ : gmap Z Z)) with (@nil Z). cbn [m_for]. unfold mbind at 1, M_bind at 1. cbn [mret M_ret].
  pose proof (rebuild_flt _ _ _ e vip v0 w2 Hi2 (lookup_insert_eq _ _ _)) as H.
  destruct (rebuild_locked e vip w2) as [[[] | ex] w3] eqn:E3; destruct H as (T3 & _ & _ & Hi3 & v3 & Hv3 & _).
  2: { erewrite bind_throw by exact E3. apply tolerated_fits; [by eapply trail_trans |]. eexists _, _, _. split; [exact Hi3 | lia]. }
  erewrite bind_run by exact E3. rewrite union_diff in Hi3. unfold write_vip_entry. unfold mbind at 1, M_bind at 1. rewrite bind_get.
  assert (vip_at (obj w3) vip = v3) as -> by (unfold vip_at; by rewrite Hv3). rewrite (i_spec _ _ _ _ _ Hi3 vip v3 Hv3). cbv zeta.
  destruct (checked_write_run (set_vip_map <[VipSpec.key vip := mk_vip_value (v_id v3) (v_flags v3)]>)
    (λ err, §"write vip_map for " ++ VipSpec.to_str vip ++ §": " ++ errstr e err) w3) as (r & w4 & H4 & O4 & P4 & _). rewrite H4.
  destruct r as [[] | ex].
  - destruct P4 as [K4 S4]. assert (inv_in L (X ∖ {[vip]}) (({[vip]} ∪ Y) ∖ {[vip]}) (obj w4) (km w4)) as Hi4.
    { rewrite O4, K4. apply inv_publish; [done | done |]. rewrite not_elem_of_difference, elem_of_singleton. tauto. }
    apply tolerated_fits; [| eexists _, _, _; split; [exact Hi4 | lia]]. apply (trail_trans _ _ _ T2), (trail_trans _ _ _ T3).
    eapply trail_one; [exact S4 |]. rewrite <-K4. by eapply inv_safe.
  - destruct P4 as (_ & K4 & S4). apply tolerated_fits; [apply (trail_trans _ _ _ T2), (trail_trans _ _ _ T3); by apply trail_refl |].
    eexists _, _, _. rewrite O4, K4. split; [exact Hi3 | lia].
Qed.

(** The removal of a VIP from vip_map, whose result is not looked at, succeeds. *)
Definition unpublishes (vip : VipSpec.t) (w : World LbState.t) : Prop :=
  hd 0 (sys w) = 0 ∨ vip_map (km w) !! VipSpec.key vip = None.

Lemma inv_absent L X Y s m spec :
  inv_in L X Y s m → vip_map m !! VipSpec.key spec = None → inv_in L X ({[spec]} ∪ Y) s m.
Proof.
  intros Hi Hn. eapply inv_maps; [apply (inv_unpublish _ _ _ _ _ spec Hi) | | done..]. cbn. by rewrite delete_id.
Qed.

(** The maps matter only through the rings of VIPs that are there. *)
Lemma inv_ring_view L X Y s m m' :
  inv_in L X Y s m → vip_map m' = vip_map m → reals m' = reals m → neigh m' = neigh m →
  (∀ spec v, vips_ s !! spec = Some v → rings m' !! v_id v = rings m !! v_id v) → inv_in L X Y s m'.
Proof.
  intros Hi E1 E2 E3 Er. split; try apply Hi.
  - destruct (i_mirror _ _ _ _ _ Hi). split; by rewrite ?E2, ?E3.
  - rewrite E1. apply Hi.
  - intros spec v Hv. rewrite (Er spec v Hv). by apply (i_names _ _ _ _ _ Hi).
  - intros spec v Hv. rewrite (Er spec v Hv). by apply (i_ring _ _ _ _ _ Hi).
Qed.

(** remove_ring: the ring is gone, or the kernel says that it never was there. *)
Lemma remove_ring_flt L X Y e spec v w :
  inv_in L X Y (obj w) (km w) → vips_ (obj w) !! spec = Some v → spec ∈ Y →
  let '(r, w') := remove_ring e (v_id v) w in
  trail w w' ∧ obj w' = obj w ∧
  match r with
  | Ok _ => inv_in ((pair spec <$> addr_keys (v_members v)) ++ L) (X ∖ {[spec]}) (Y ∖ {[spec]}) (set_vips (delete spec) (obj w)) (km w')
  | Throw _ => km w' = km w
  end.
Proof.
  intros Hi Hv HY. pose proof (inv_remove_vip _ _ _ _ _ spec v Hi Hv HY) as Hi'. unfold remove_ring.
  destruct (map_write_run (set_rings (delete (v_id v))) w) as (err & w1 & H & O & P & _). erewrite bind_run by exact H.
  assert (trail w w1) as T.
  { destruct P as [(_ & K & Sh) | (_ & K & Sh)]; [| by apply trail_refl]. eapply trail_one; [exact Sh | by eapply inv_safe]. }
  destruct (negb (err =? 0) && negb (err =? - ENOENT)) eqn:Ee; (split; [exact T |]); (split; [exact O |]); destruct P as [(-> & K & _) | (_ & K & _)].
  - done.
  - done.
  - by rewrite K.
  - rewrite K. eapply inv_ring_view; [exact Hi' | done..|]. intros sp u. cbn. intros [Hne Hu]%lookup_delete_Some. rewrite lookup_delete_ne; [done |].
    intros E. apply Hne. by apply (i_inj _ _ _ _ _ Hi spec sp v u).
Qed.

Lemma del_vip_flt n e vip w : unpublishes vip w → fits n w → tolerated n w (del_vip e vip w).
Proof.
  intros Hu Hf. unfold del_vip, vip_or_throw, mbind at 1, M_bind at 1. rewrite bind_get.
  destruct (vips_ (obj w) !! vip) as [v |] eqn:Hv; [| by apply tolerated_same]. cbn [mret M_ret].
  destruct Hf as (L & X & Y & Hi & Hl). unfold delete_vip_locked. rewrite bind_get, Hv.
  destruct (map_write_run (set_vip_map (delete (VipSpec.key vip))) w) as (err & w1 & H1 & O1 & P1 & _). erewrite bind_run by exact H1.
  assert (inv_in L X ({[vip]} ∪ Y) (obj w1) (km w1) ∧ trail w w1) as [Hi1 T1].
  { destruct P1 as [(_ & K1 & S1) | (Hne & K1 & S1)]; rewrite O1, K1.
    - split; [by apply inv_unpublish |]. eapply trail_one; [exact S1 |]. eapply inv_safe. by apply inv_unpublish.
    - split; [| by apply trail_refl]. apply inv_absent; [done |]. destruct Hu as [Hu | Hu]; [| done]. destruct Hne.
      clear -H1 Hu. unfold map_write, commit, bpf_result, mbind, M_bind in H1. rewrite Hu in H1. cbn in H1. injection H1 as <- _. done. }
  assert (vips_ (obj w1) !! vip = Some v) as Hv1 by (by rewrite O1).
  pose proof (remove_ring_flt _ _ _ e vip v w1 Hi1 Hv1) as H. destruct (remove_ring e (v_id v) w1) as [[[] | ex] w2] eqn:E2.
  all: destruct H as (T2 & O2 & H2); [apply elem_of_union_l, elem_of_singleton; done |].
  2: { erewrite bind_throw by exact E2. apply tolerated_fits; [by eapply trail_trans |]. eexists _, _, _. rewrite O2, H2. split; [exact Hi1 | lia]. }
  erewrite bind_run by exact E2. set (w2' := with_obj (set_vips (delete vip) (obj w2)) w2). rewrite <-O2 in H2.
  pose proof (release_all_flt vip _ L _ _ e w2' H2) as H3. unfold w2' in H3. rewrite release_all_vips in H3.
  unfold mbind, M_bind. destruct (m_for (addr_keys (v_members v)) (λ a, real_op (release e a)) w2) as [[[] | ex] w3].
  all: destruct H3 as [T3 H3]; [rewrite not_elem_of_difference, elem_of_singleton; tauto |].
  - apply tolerated_fits; [exact (trail_trans _ _ _ T1 (trail_trans _ _ _ T2 T3)) |]. eexists _, _, _. split; [apply H3 | lia].
  - apply tolerated_fault; [exact (trail_trans _ _ _ T1 (trail_trans _ _ _ T2 T3)) | done].
Qed.

(** ** Neighbour answers *)

Lemma set_each_flt L X Y e mac l acc w :
  inv_in L X Y (obj w) (km w) →
  let '(r, w') := set_each e mac l acc w in
  trail w w' ∧ match r with Ok _ => inv_in L X Y (obj w') (km w') | Throw ex => table_error ex end.
Proof.
  revert acc w. induction l as [| a l IH]; intros acc w Hi; cbn [set_each].
  { split; [by apply trail_refl | done]. }
  rewrite bind_get. cbv zeta. pose proof (set_mac_flt L X Y e a mac w Hi) as H. unfold mbind, M_bind.
  destruct (real_op (set_mac e a mac) w) as [[b | ex] w1]; [| done]. destruct H as (T1 & Hi1 & _).
  specialize (IH (if b && negb (bool_decide (is_Some (mac_of (reals_ (obj w)) a))) then {[a]} ∪ acc else acc) w1 Hi1).
  destruct (set_each _ _ _ _ w1) as [r w2]. destruct IH as [T2 H2]. split; [by apply (trail_trans _ _ _ T1 T2) | done].
Qed.

Lemma rebuild_each_flt L X Y e usable l w :
  inv_in L X Y (obj w) (km w) → (∀ sp, sp ∈ l → sp ∈ dom (vips_ (obj w))) →
  let '(r, w') := m_for l (rebuild_usable e usable) w in trail w w' ∧ ∃ X', inv_in L X' Y (obj w') (km w').
Proof.
  revert X w. induction l as [| sp l IH]; intros X w Hi Hl; cbn [m_for].
  { split; [by apply trail_refl | eauto]. }
  unfold mbind at 1, M_bind at 1. unfold rebuild_usable at 1. rewrite bind_get.
  assert (∀ sp', sp' ∈ l → sp' ∈ dom (vips_ (obj w))) as Hl' by (intros sp' ?; by apply Hl, list_elem_of_further).
  destruct (existsb _ _); [| by apply (IH X w)].
  destruct (proj1 (elem_of_dom _ _) (Hl sp (list_elem_of_here _ _))) as [v Hv].
  pose proof (rebuild_flt L X Y e sp v w Hi Hv) as H. destruct (rebuild_locked e sp w) as [[[] | ex] w1]; destruct H as (T1 & _ & D & Hi1 & _).
  - rewrite <-D in Hl'. specialize (IH _ w1 Hi1 Hl'). destruct (m_for l _ w1) as [r w2]. destruct IH as [T2 H2].
    split; [by apply (trail_trans _ _ _ T1 T2) | done].
  - split; [exact T1 | eauto].
Qed.

Lemma neighbor_resolved_flt n e ip mac w : fits n w → tolerated n w (neighbor_resolved e ip mac w).
Proof.
  intros Hf. unfold neighbor_resolved. rewrite bind_get. destruct (match next_hop_ (obj w) with Some _ => _ | None => _ end) as [l |]; [| by apply tolerated_same].
  destruct Hf as (L & X & Y & Hi & Hl). pose proof (set_each_flt L X Y e mac l ∅ w Hi) as H. unfold mbind at 1, M_bind at 1.
  destruct (set_each e mac l ∅ w) as [[usable | ex] w1]; destruct H as [T1 H1]; [| by apply tolerated_fault].
  case_bool_decide. { apply tolerated_fits; [done |]. exists L, X, Y. split; [done | lia]. }
  rewrite bind_get. pose proof (rebuild_each_flt L X Y e usable (spec_keys (vips_ (obj w1))) w1 H1) as H2.
  destruct (m_for _ _ w1) as [r w2]. destruct H2 as (T2 & X' & Hi2).
  { intros sp. rewrite elem_of_spec_keys. by rewrite elem_of_dom. }
  apply tolerated_fits; [by apply (trail_trans _ _ _ T1 T2) |]. exists L, X', Y. split; [done | lia].
Qed.

(** ** Sequences of calls *)

(** A call of the control plane or a packet, whatever its bpf calls return. *)
Inductive lb_call (w : World LbState.t) : result unit → World LbState.t → Prop :=
| call_api e c r w' :
    run_api e c w = (r, w') → match c with DelVip vip => unpublishes vip w | _ => True end → lb_call w r w'
| call_health e h p rise fall r w' : report_health e h p rise fall w = (r, w') → lb_call w r w'
| call_neighbor e ip mac r w' : neighbor_resolved e ip mac w = (r, w') → lb_call w r w'
| call_frame e p a c' :
    bytes_ok p → length (headroom e) = 20%nat → xdp_packetbalance e (mk_ctx p (km w)) = Some (a, c') →
    lb_call w (Ok ()) (mk_world (obj w) (maps c') (hist w ++ [maps c']) (sys w)).

(** The calls the daemon goes on after. *)
Definition fault_step (w w' : World LbState.t) : Prop := ∃ r, lb_call w r w' ∧ ¬ table_fault r.

Lemma api_flt n e c w :
  Z.of_nat n < 2 ^ 31 → match c with DelVip vip => unpublishes vip w | _ => True end → fits n w → tolerated n w (run_api e c w).
Proof.
  intros Hn Hu Hf. destruct c; cbn [run_api];
    [by apply tolerated_unit, add_vip_flt | by apply del_vip_flt | by apply tolerated_unit, add_real_flt
    | by apply del_real_flt | by apply set_weight_flt | by apply set_draining_flt].
Qed.

Lemma call_flt n w r w' : Z.of_nat n < 2 ^ 31 → fits n w → lb_call w r w' → tolerated n w (r, w').
Proof.
  intros Hn Hf Hc. destruct Hc as [e c r w' H Hu | e h p rise fall r w' H | e ip mac r w' H | e p a c' Hp Hh H].
  - rewrite <-H. by apply api_flt.
  - rewrite <-H. by apply report_health_flt.
  - rewrite <-H. by apply neighbor_resolved_flt.
  - assert (same_config (km w) (maps c')) as [].
    { rewrite xdp_run in H by done. injection H as E. pose proof (same_run e (mk_ctx p (km w))) as Hr. by rewrite E in Hr. }
    destruct Hf as (L & X & Y & Hi & Hl). assert (inv_in L X Y (obj w) (maps c')) as Hi' by (by eapply inv_maps).
    apply tolerated_fits; [eapply trail_one; [done | by eapply inv_safe] |]. exists L, X, Y. split; [done | lia].
Qed.

Lemma calls_flt n k w w' :
  Z.of_nat (k + n) < 2 ^ 31 → fits k w → nsteps fault_step n w w' → trail w w' ∧ fits (k + n) w'.
Proof.
  intros Hn Hf Hs. revert k Hn Hf. induction Hs as [w | n w w1 w2 (r & Hc & Hr) _ IH]; intros k Hn Hf.
  { rewrite Nat.add_0_r. split; [by apply trail_refl | done]. }
  destruct (call_flt k w r w1 ltac:(lia) Hf Hc) as [T1 F1]. destruct (IH (S k) ltac:(lia) (F1 Hr)) as [T2 F2].
  split; [by apply (trail_trans _ _ _ T1 T2) |]. by replace (k + S n)%nat with (S k + n)%nat by lia.
Qed.

(** C6: whatever the bpf calls return, packets never see a half-made change.
    After any number of API calls, health reports, neighbour answers and packets,
    of which any may have thrown half-way (but not for a failed write of the arrays
    of reals, and with the removals from vip_map working), every state of the maps
    on the way gives each VIP a packet can match a full ring whose slots are empty
    or name a real that is there; the model and the maps agree but for rings that
    are still the old ones, VIPs not visible yet and at most one reference to a
    real per call; and the next call, even one whose write of the arrays of reals
    fails, again leaves only such states. *)
Theorem faults_safe (n : nat) (w w1 w2 : World LbState.t) (r : result unit) :
  inv (obj w) (km w) → Z.of_nat n < 2 ^ 31 → nsteps fault_step n w w1 → lb_call w1 r w2 →
  fits n w1 ∧ ∃ ms, hist w2 = hist w ++ ms ∧ Forall safe ms.
Proof.
  intros Hi Hn Hs Hc. destruct (calls_flt n 0 w w1 Hn) as [T1 F1]; [by exists [], ∅, ∅ | done |].
  split; [done |]. destruct (call_flt n w1 r w2 Hn F1 Hc) as [T2 _]. exact (trail_trans _ _ _ T1 T2).
Qed.

(** The first VIP is added while the kernel is out of memory, then it gets a real. *)
Definition short_world : World LbState.t :=
  mk_world (obj LbTheorems.empty_world) (km LbTheorems.empty_world) [] [-28; 0; 0; -12].

Lemma faults_safe_witness :
  ∃ w1 r w2, run_api LbTheorems.env0 (AddVip LbTheorems.vip80 false) short_world =
      (Throw (runtime_error (§"swap ring for vip_id 0: ")), w1) ∧
    run_api LbTheorems.env0 (AddReal LbTheorems.vip80 7 5) w1 = (r, w2) ∧ fits 1 w1 ∧ Forall safe (hist w2).
Proof.
  set (rw1 := run_api LbTheorems.env0 (AddVip LbTheorems.vip80 false) short_world).
  assert (fst rw1 = Throw (runtime_error (§"swap ring for vip_id 0: "))) as E1 by (vm_compute; reflexivity).
  assert (rw1 = (Throw (runtime_error (§"swap ring for vip_id 0: ")), snd rw1)) as E1' by (rewrite <-E1; by destruct rw1).
  destruct (run_api LbTheorems.env0 (AddReal LbTheorems.vip80 7 5) (snd rw1)) as [r w2] eqn:E2.
  destruct (faults_safe 1 short_world (snd rw1) w2 r) as [F (ms & H & Hs)].
  - exact LbTheorems.empty_inv.
  - done.
  - apply nsteps_once. eexists. split; [eapply call_api; [exact E1' | exact I] |]. intros (ex & [= <-] & rest & [[=] | [=]]).
  - eapply call_api; [exact E2 | exact I].
  - exists (snd rw1), r, w2. split_and!; [exact E1' | exact E2 | exact F |]. rewrite H. exact Hs.
Defined.

(** delete_vip_locked does not look at the result of the removal from vip_map: when
    it fails, the VIP is gone for the control plane and its ring is removed, but
    packets still match it, and its id is free for the next VIP. *)
Theorem del_vip_unchecked (e : CEnv) (vip : VipSpec.t) (v : Vip) (w : World LbState.t) (err : Z) :
  inv (obj w) (km w) → vips_ (obj w) !! vip = Some v → v_members v = ∅ → sys w = [err] → err ≠ 0 →
  ∃ w', run_api e (DelVip vip) w = (Ok (), w') ∧ vips_ (obj w') = delete vip (vips_ (obj w)) ∧
    vip_map (km w') !! VipSpec.key vip = Some (mk_vip_value (v_id v) (v_flags v)) ∧
    rings (km w') !! v_id v = None ∧ ¬ safe (km w') ∧ (∀ spec u, vips_ (obj w') !! spec = Some u → v_id u ≠ v_id v).
Proof.
  intros Hi Hv Hm Hs He. set (w' := mk_world (set_vips (delete vip) (obj w)) (set_rings (delete (v_id v)) (km w))
    (hist w ++ [set_rings (delete (v_id v)) (km w)]) []).
  assert (vip_map (km w') !! VipSpec.key vip = Some (mk_vip_value (v_id v) (v_flags v))) as Hk
    by (cbn; apply (i_map _ _ _ _ _ Hi); exists vip, v; by split_and!).
  assert (rings (km w') !! v_id v = None) as Hr by apply lookup_delete_eq.
  exists w'. split_and!; try done.
  - cbn [run_api]. unfold del_vip, vip_or_throw, mbind at 1, M_bind at 1. rewrite bind_get, Hv. cbn [mret M_ret].
    unfold delete_vip_locked. rewrite bind_get, Hv, Hm. unfold mbind at 1, M_bind at 1, map_write, bpf_result, mbind at 1, M_bind at 1.
    rewrite Hs. cbn [hd tl]. rewrite (proj2 (Z.eqb_neq _ _) He). done.
  - intros Hsafe. destruct (Hsafe _ _ Hk) as (_ & r & E & _). cbn [vv_vip_id] in E. congruence.
  - intros spec u. cbn. intros [Hne Hu]%lookup_delete_Some E. apply Hne. symmetry. by apply (i_inj _ _ _ _ _ Hi spec vip u v).
Qed.

End Faults.
