(* ===== verification/Commands.v ===== *)
(** * The JSON commands (src/daemon/commands.cpp)

    One request line in, one response line out: the arguments are checked, the
    model is called, the result is shaped. The JSON library's parser and printer
    are arguments; a JSON value is the type [json]. *)

From Stdlib Require Import ZArith Lia Ascii String.
From S2P Require Import Prelude Abi VipSpec Maglev Dataplane DataplaneProps Counters Control RealTable Config LbState LbInv Reader LbProps LbTheorems System.

#[local] Set Warnings "-clear-no-such-hyp,-register-all,-unused-intro-pattern".

Module Commands.
Import LbState Reader.

(** ** JSON values *)

(** Integers are kept apart as the library does: signed 64-bit, and unsigned
    64-bit for what the parser reads without a sign. An object lists its keys
    once each. *)
Inductive json : Type :=
| JNull
| JBool (b : bool)
| JInt (z : Z)
| JUInt (z : Z)
| JFloat (text : str)
| JString (s : str)
| JArray (l : list json)
| JObject (l : list (str * json)).

(** out[key] = v *)
Fixpoint set_key (key : str) (v : json) (l : list (str * json)) : list (str * json) :=
  match l with
  | [] => [(key, v)]
  | kv :: l => if bool_decide (kv.1 = key) then (key, v) :: l else kv :: set_key key v l
  end.

Fixpoint get_key (key : str) (l : list (str * json)) : option json :=
  match l with
  | [] => None
  | kv :: l => if bool_decide (kv.1 = key) then Some kv.2 else get_key key l
  end.

(** req.contains(name) ? &req.at(name) : nullptr *)
Definition member_of (req : json) (name : str) : option json :=
  match req with JObject l => get_key name l | _ => None end.

(** get<int64_t>() of an integer. *)
Definition s64 (x : Z) : Z := (x + 2 ^ 63) mod 2 ^ 64 - 2 ^ 63.
Definition get_int64 (v : json) : option Z :=
  match v with JInt z | JUInt z => Some (s64 z) | _ => None end.

(** json::parse: a parse_error, another exception of the library, or a value. *)
Inductive parsed : Type :=
| PValue (v : json)
| PParseError (what : str)
| POtherError (what : str).

(** ** What the handler is given *)

Record Handler := mk_handler {
  h_parse : str → parsed;
  h_dump : json → str;                          (* resp.dump(-1, ' ', false, replace) *)
  h_reload : M LbState.t unit;                  (* hooks_.reload *)
  h_config : result json;                       (* hooks_.config *)
  h_ltr : bool;                                 (* call arguments are evaluated left to right *)
  h_now : Z;                                    (* monotonic_ns() *)
  h_ct_max : Z;                                 (* reader_: ct_max_entries_ *)
  h_answers : Maps → list answer;               (* the walk over the connection table *)
  h_rings : RingEnv                             (* the reads of a ring *)
}.

(** C++ leaves the order in which call arguments are evaluated to the compiler. *)
Definition eval2 {A B} (ltr : bool) (a : result A) (b : result B) : result (A * B) :=
  if ltr then x ← a; y ← b; Ok (x, y) else y ← b; x ← a; Ok (x, y).
Definition eval3 {A B C} (ltr : bool) (a : result A) (b : result B) (c : result C) : result (A * B * C) :=
  if ltr then x ← a; y ← b; z ← c; Ok (x, y, z) else z ← c; y ← b; x ← a; Ok (x, y, z).

(** ** Arguments *)

Definition arg (req : json) (name : str) : result json :=
  match member_of req name with
  | None => Throw (api_error (§"missing argument '" ++ name ++ §"'"))
  | Some v => Ok v
  end.

Definition arg_string (req : json) (name : str) : result str :=
  v ← arg req name;
  match v with JString s => Ok s | _ => Throw (api_error (§"argument '" ++ name ++ §"' must be a string")) end.

(** catch (const std::invalid_argument& e) { throw ApiError(e.what()); } *)
Definition as_api {A} (r : result A) : result A :=
  match r with Throw (invalid_argument what) => Throw (api_error what) | r => r end.

Definition arg_vip (req : json) : result VipSpec.t := as_api (s ← arg_string req §"vip"; VipSpec.parse s).

Definition arg_addr (req : json) (name : str) : result Z := as_api (s ← arg_string req name; VipSpec.parse_ipv4 s).

Definition arg_bool (req : json) (name : str) (fallback : bool) : result bool :=
  match member_of req name with
  | None => Ok fallback
  | Some (JBool b) => Ok b
  | Some _ => Throw (api_error (§"argument '" ++ name ++ §"' must be a boolean"))
  end.

Definition arg_uint (req : json) (name : str) (fallback : option Z) : result Z :=
  match member_of req name, fallback with
  | None, Some d => Ok d
  | _, _ =>
      v ← arg req name;
      let bad := Throw (api_error (§"argument '" ++ name ++ §"' must be a non-negative integer")) in
      match get_int64 v with
      | None => bad
      | Some n => if (n <? 0) || (2 ^ 32 - 1 <? n) then bad else Ok (u32 n)
      end
  end.

(** ** Shaping *)

Definition kCounterNames : list str :=
  [§"packets"; §"bytes"; §"ct_hit"; §"ct_miss"; §"hash"; §"syn"; §"tx"; §"pass"; §"drop_frag"; §"drop_opts"; §"drop_no_real";
   §"drop_adj_head"; §"drop_mtu"; §"drop_short"; §"drop_other"; §"icmp_pmtu_fwd"].

Definition counters_json (c : pb_stats) : json :=
  JObject (foldl (λ out nv, set_key nv.1 (JUInt nv.2) out) [] (zip kCounterNames c)).

Definition proto_name (p : Z) : str := if p =? 6 then §"tcp" else if p =? 17 then §"udp" else §"?".

Definition jnat (n : nat) : json := JUInt (Z.of_nat n).

Definition real_json (r : RealView) : json :=
  JObject [(§"addr", JString (VipSpec.ipv4_to_string (rv_addr r))); (§"real_id", JUInt (rv_real_id r));
           (§"weight", JUInt (rv_weight r)); (§"up", JBool (rv_up r)); (§"draining", JBool (rv_draining r));
           (§"in_ring", JBool (rv_in_ring r));
           (§"mac", match rv_mac r with Some m => JString (Mac.to_str m) | None => JNull end)].

Definition vip_json (v : VipView) : json :=
  JObject [(§"vip", JString (VipSpec.to_str (vw_spec v))); (§"vip_id", JUInt (vw_vip_id v)); (§"flags", JUInt (vw_flags v));
           (§"generation", JUInt (vw_generation v)); (§"reals", JArray (real_json <$> vw_reals v))].

(** ** Queries *)

Definition vip_list : M LbState.t json :=
  s ← get;
  mret (JArray (vip_json <$> snapshot s)).

Fixpoint stats_reals (l : list RealView) (reals : list (str * json)) : M LbState.t (list (str * json)) :=
  match l with
  | [] => mret reals
  | r :: l =>
      rs ← real_counters (rv_real_id r);
      stats_reals l (set_key (VipSpec.ipv4_to_string (rv_addr r))
                       (JObject [(§"packets", JUInt (rs_packets rs)); (§"bytes", JUInt (rs_bytes rs))]) reals)
  end.

Fixpoint stats_vips (only : option VipSpec.t) (l : list VipView) (vips reals : list (str * json)) (found : bool) :
    M LbState.t (list (str * json) * list (str * json) * bool) :=
  match l with
  | [] => mret (vips, reals, found)
  | v :: l =>
      if match only with Some x => negb (bool_decide (vw_spec v = x)) | None => false end
      then stats_vips only l vips reals found else
      c ← counters (vw_vip_id v);
      reals ← stats_reals (vw_reals v) reals;
      stats_vips only l (set_key (VipSpec.to_str (vw_spec v)) (counters_json c) vips) reals true
  end.

(** An optional argument. *)
Definition optional {A} (req : json) (name : str) (r : result A) : result (option A) :=
  match member_of req name with None => Ok None | Some _ => a ← r; Ok (Some a) end.

Definition stats (req : json) : M LbState.t json :=
  only ← lift (optional req §"vip" (arg_vip req));
  s ← get;
  '(vips, reals, found) ← stats_vips only (snapshot s) [] [] false;
  match only, found with
  | Some x, false => throw (unknown_vip x)
  | _, _ =>
      g ← counters PB_STATS_GLOBAL;
      mret (JObject [(§"global", counters_json g); (§"vips", JObject vips); (§"reals", JObject reals)])
  end.

Definition keep_flow (vip : option VipSpec.t) (real_id : option Z) (k : pb_ct_key) (v : pb_ct_value) : bool :=
  match vip with
  | Some x => (ck_daddr k =? VipSpec.addr_be x) && (ck_dport k =? VipSpec.port_be x) && (ck_proto k =? VipSpec.proto x)
  | None => true
  end &&
  match real_id with Some id => cv_real_id v =? id | None => true end.

(** The name of a real, or its id when the id is no longer allocated. *)
Definition real_name (names : gmap Z Z) (id : Z) : str :=
  match names !! id with Some a => VipSpec.ipv4_to_string a | None => §"#" ++ VipSpec.to_string id end.

Definition flow_json (names : gmap Z Z) (now : Z) (f : FlowRow) : json :=
  let k := fr_key f in
  let seen := cv_last_seen_ns (fr_value f) in
  JObject [(§"src", JString (VipSpec.ipv4_to_string (ck_saddr k))); (§"dst", JString (VipSpec.ipv4_to_string (ck_daddr k)));
           (§"sport", JUInt (VipSpec.port_from_be (ck_sport k))); (§"dport", JUInt (VipSpec.port_from_be (ck_dport k)));
           (§"proto", JString (proto_name (ck_proto k))); (§"real", JString (real_name names (cv_real_id (fr_value f))));
           (§"vip", JString (VipSpec.to_str (VipSpec.mk (ck_daddr k) (ck_dport k) (ck_proto k))));
           (§"age_ms", JUInt (if seen <? now then (now - seen) / 1000000 else 0)); (§"cpu", jnat (fr_cpu f))].

Definition flow_real (req : json) (s : LbState.t) : result (option Z) :=
  match member_of req §"real" with
  | None => Ok None
  | Some _ =>
      addr ← arg_addr req §"real";
      match real_id_of s addr with
      | None => Throw (api_error (§"unknown real " ++ VipSpec.ipv4_to_string addr))
      | Some id => Ok (Some id)
      end
  end.

Definition flows_cmd (h : Handler) (req : json) : M LbState.t json :=
  vip ← lift (optional req §"vip" (arg_vip req));
  s ← get;
  real_id ← lift (flow_real req s);
  limit ← lift (arg_uint req §"limit" (Some 1000));
  m ← get_km;
  mret (JArray (flow_json (real_addrs s) (h_now h) <$>
                Reader.flows (h_ct_max h) (h_answers h m) (Some (keep_flow vip real_id)) (Z.to_nat limit))).

(** std::map<uint32_t, uint64_t> by_id; for (id : ring) ++by_id[id]; *)
Definition by_id (ring : list Z) : gmap Z Z := foldl (λ m id, <[id := default 0 (m !! id) + 1]> m) ∅ ring.

Definition ring_slots (names : gmap Z Z) (ids : gmap Z Z) : list (str * json) :=
  foldl (λ slots id,
    let n := JUInt (default 0 (ids !! id)) in
    if id =? PB_REAL_NONE then set_key §"none" n slots else set_key (real_name names id) n slots)
    [(§"none", JUInt 0)] (addr_keys ids).

Definition ring_show (e : CEnv) (h : Handler) (req : json) : M LbState.t json :=
  spec ← lift (arg_vip req);
  s ← get;
  match LbState.find s spec with
  | None => throw (unknown_vip spec)
  | Some view =>
      ring ← read_ring e (h_rings h) (vw_vip_id view);
      mret (JObject [(§"size", jnat (length ring)); (§"hash", JString (Maglev.hash_mode_name (hash_mode s)));
                     (§"slots", JObject (ring_slots (real_addrs s) (by_id ring))); (§"generation", JUInt (vw_generation view))])
  end.

Definition health_json (v : VipView) (r : RealView) : json :=
  JObject [(§"vip", JString (VipSpec.to_str (vw_spec v))); (§"addr", JString (VipSpec.ipv4_to_string (rv_addr r)));
           (§"up", JBool (rv_up r)); (§"checked", JBool (rv_checked r)); (§"consecutive_ok", JUInt (rv_consecutive_ok r));
           (§"consecutive_fail", JUInt (rv_consecutive_fail r)); (§"last_change_ms", JInt (rv_last_change_ms r));
           (§"last_rtt_us", JUInt (rv_last_rtt_us r))].

Definition health_cmd : M LbState.t json :=
  s ← get;
  mret (JArray (snapshot s ≫= λ v, health_json v <$> vw_reals v)).

(** ** Dispatch *)

Definition dispatch (e : CEnv) (h : Handler) (req : json) : M LbState.t json :=
  cmd ← lift (arg_string req §"cmd");
  if bool_decide (cmd = §"ping") then mret (JString §"pong") else
  if bool_decide (cmd = §"vip.add") then
    no_ct ← lift (arg_bool req §"no_conntrack" false);
    vip ← lift (arg_vip req);
    id ← add_vip e vip no_ct;
    mret (JObject [(§"vip_id", JUInt id)])
  else if bool_decide (cmd = §"vip.del") then
    vip ← lift (arg_vip req);
    _ ← del_vip e vip;
    mret (JObject [])
  else if bool_decide (cmd = §"vip.list") then vip_list
  else if bool_decide (cmd = §"real.add") then
    '(vip, a, weight) ← lift (eval3 (h_ltr h) (arg_vip req) (arg_addr req §"addr") (arg_uint req §"weight" (Some 1)));
    id ← add_real e vip a weight;
    mret (JObject [(§"real_id", JUInt id)])       (* then reals_changed() wakes the resolver *)
  else if bool_decide (cmd = §"real.del") then
    '(vip, a) ← lift (eval2 (h_ltr h) (arg_vip req) (arg_addr req §"addr"));
    _ ← del_real e vip a;
    mret (JObject [])
  else if bool_decide (cmd = §"real.weight") then
    '(vip, a, weight) ← lift (eval3 (h_ltr h) (arg_vip req) (arg_addr req §"addr") (arg_uint req §"weight" None));
    _ ← set_weight e vip a weight;
    mret (JObject [])
  else if bool_decide (cmd = §"real.drain") || bool_decide (cmd = §"real.undrain") then
    '(vip, a) ← lift (eval2 (h_ltr h) (arg_vip req) (arg_addr req §"addr"));
    _ ← set_draining e vip a (bool_decide (cmd = §"real.drain"));
    mret (JObject [])
  else if bool_decide (cmd = §"stats") then stats req
  else if bool_decide (cmd = §"flows") then flows_cmd h req
  else if bool_decide (cmd = §"ring.show") then ring_show e h req
  else if bool_decide (cmd = §"health") then health_cmd
  else if bool_decide (cmd = §"reload") then
    _ ← h_reload h;                               (* then reals_changed() *)
    mret (JObject [])
  else if bool_decide (cmd = §"config") then lift (h_config h)
  else throw (api_error (§"unknown command '" ++ cmd ++ §"'")).

Definition what (ex : exn) : str :=
  match ex with invalid_argument s | runtime_error s | logic_error s | api_error s => s end.

Definition ok_response (v : json) : json := JObject [(§"ok", JBool true); (§"result", v)].
Definition error_response (s : str) : json := JObject [(§"ok", JBool false); (§"error", JString s)].

(** Never throws: every exception becomes a response. *)
Definition respond (e : CEnv) (h : Handler) (line : str) (w : World LbState.t) : json * World LbState.t :=
  match h_parse h line with
  | PParseError s => (error_response (§"bad json: " ++ s), w)
  | POtherError s => (error_response s, w)
  | PValue req =>
      match req with
      | JObject _ =>
          match dispatch e h req w with
          | (Ok v, w) => (ok_response v, w)
          | (Throw ex, w) => (error_response (what ex), w)
          end
      | _ => (error_response §"request must be a JSON object", w)
      end
  end.

Definition handle_line (e : CEnv) (h : Handler) (line : str) (w : World LbState.t) : str * World LbState.t :=
  let '(resp, w) := respond e h line w in (h_dump h resp, w).

(** ** Specification-level definitions *)

(** The call of the model a request asks for, when it is well formed. *)
Definition call_req (req : json) : option LbProps.api_call :=
  match arg_string req §"cmd" with
  | Throw _ => None
  | Ok cmd =>
      if bool_decide (cmd = §"ping") then None else
      if bool_decide (cmd = §"vip.add") then
        match arg_bool req §"no_conntrack" false, arg_vip req with Ok nc, Ok vip => Some (LbProps.AddVip vip nc) | _, _ => None end
      else if bool_decide (cmd = §"vip.del") then
        match arg_vip req with Ok vip => Some (LbProps.DelVip vip) | _ => None end
      else if bool_decide (cmd = §"vip.list") then None
      else if bool_decide (cmd = §"real.add") then
        match arg_vip req, arg_addr req §"addr", arg_uint req §"weight" (Some 1) with
        | Ok vip, Ok a, Ok wt => Some (LbProps.AddReal vip a wt) | _, _, _ => None end
      else if bool_decide (cmd = §"real.del") then
        match arg_vip req, arg_addr req §"addr" with Ok vip, Ok a => Some (LbProps.DelReal vip a) | _, _ => None end
      else if bool_decide (cmd = §"real.weight") then
        match arg_vip req, arg_addr req §"addr", arg_uint req §"weight" None with
        | Ok vip, Ok a, Ok wt => Some (LbProps.SetWeight vip a wt) | _, _, _ => None end
      else if bool_decide (cmd = §"real.drain") || bool_decide (cmd = §"real.undrain") then
        match arg_vip req, arg_addr req §"addr" with
        | Ok vip, Ok a => Some (LbProps.SetDraining vip a (bool_decide (cmd = §"real.drain"))) | _, _ => None end
      else None
  end.

Definition call_of (h : Handler) (line : str) : option LbProps.api_call :=
  match h_parse h line with PValue (JObject l) => call_req (JObject l) | _ => None end.

Definition asks_reload (h : Handler) (line : str) : Prop :=
  ∃ l, h_parse h line = PValue (JObject l) ∧ arg_string (JObject l) §"cmd" = Ok §"reload".

(** ** Lemmas: queries change nothing *)

(** The object, the maps and the history of the maps stay as they are. *)
Definition same_world (w w' : World LbState.t) : Prop := obj w' = obj w ∧ km w' = km w ∧ hist w' = hist w.

Definition reads {A} (p : M LbState.t A) : Prop := ∀ w, same_world w (p w).2.

Create HintDb reads discriminated.

Lemma reads_bind {A B} (p : M LbState.t A) (k : A → M LbState.t B) : reads p → (∀ a, reads (k a)) → reads (p ≫= k).
Proof.
  intros Hp Hk w. specialize (Hp w). unfold mbind, M_bind. destruct (p w) as [[a | ex] w1]; [| exact Hp].
  destruct (Hk a w1) as (E1 & E2 & E3), Hp as (F1 & F2 & F3). cbn in *. split_and!; congruence.
Qed.
Lemma reads_ret {A} (a : A) : reads (mret a).
Proof. intros w. done. Qed.
Lemma reads_throw {A} ex : reads (A := A) (throw ex).
Proof. intros w. done. Qed.
Lemma reads_lift {A} (r : result A) : reads (lift r).
Proof. intros w. done. Qed.
Lemma reads_get : reads get.
Proof. intros w. done. Qed.
Lemma reads_get_km : reads get_km.
Proof. intros w. done. Qed.
Lemma reads_bpf : reads bpf_result.
Proof. intros w. done. Qed.
#[export] Hint Resolve reads_bind reads_ret reads_throw reads_lift reads_get reads_get_km reads_bpf : reads.

Ltac reads_tac := repeat first [ progress (intros; cbv zeta) | apply reads_bind | solve [auto with reads] | case_match ].

Lemma reads_lookup {A} (f : Maps → list (list A)) k : reads (lookup_percpu f k).
Proof. unfold lookup_percpu. reads_tac. Qed.
Lemma reads_counters i : reads (counters i).
Proof. unfold counters. apply reads_bind; [apply reads_lookup | intros; apply reads_ret]. Qed.
Lemma reads_real_counters i : reads (real_counters i).
Proof. unfold real_counters. apply reads_bind; [apply reads_lookup | intros; apply reads_ret]. Qed.
#[export] Hint Resolve reads_counters reads_real_counters : reads.

Lemma reads_stats_reals l reals : reads (stats_reals l reals).
Proof. revert reals. induction l as [| r l IH]; intros reals; cbn [stats_reals]; reads_tac. Qed.
#[export] Hint Resolve reads_stats_reals : reads.

Lemma reads_stats_vips only l vips reals found : reads (stats_vips only l vips reals found).
Proof. revert vips reals found. induction l as [| v l IH]; intros; cbn [stats_vips]; reads_tac. Qed.
#[export] Hint Resolve reads_stats_vips : reads.

Lemma reads_stats req : reads (stats req).
Proof. unfold stats. reads_tac. Qed.
Lemma reads_flows h req : reads (flows_cmd h req).
Proof. unfold flows_cmd. reads_tac. Qed.
Lemma reads_read_ring e re id : reads (read_ring e re id).
Proof. unfold read_ring. reads_tac. Qed.
#[export] Hint Resolve reads_read_ring : reads.
Lemma reads_ring_show e h req : reads (ring_show e h req).
Proof. unfold ring_show. reads_tac. Qed.
Lemma reads_vip_list : reads vip_list.
Proof. unfold vip_list. reads_tac. Qed.
Lemma reads_health : reads health_cmd.
Proof. unfold health_cmd. reads_tac. Qed.
#[export] Hint Resolve reads_stats reads_flows reads_ring_show reads_vip_list reads_health : reads.

(** ** Lemmas: calls *)

(** A call has done what its specification says, and answered. *)
Definition call_done (c : LbProps.api_call) (w : World LbState.t) (r : result json) (w' : World LbState.t) : Prop :=
  match LbProps.spec_api c (LbProps.abs (obj w)) with
  | Ok x => (∃ v, r = Ok v) ∧ LbProps.abs (obj w') = x ∧ LbInv.inv (obj w') (km w') ∧ LbInv.goes w w'
  | Throw ex => r = Throw ex ∧ w' = w
  end.

Lemma call_branch {A} e c (p : M LbState.t A) (f : A → json) w :
  LbInv.inv (obj w) (km w) → calm w → LbProps.run_api e c w = (_ ← p; mret ()) w →
  call_done c w ((x ← p; mret (f x)) w).1 ((x ← p; mret (f x)) w).2.
Proof.
  intros Hi Hc Hrun. pose proof (LbProps.api_done_all e c w Hi Hc) as H. rewrite Hrun in H. unfold LbProps.api_done in H. unfold call_done.
  unfold mbind, M_bind in *. destruct (p w) as [[a | ex] w1]; cbn in *; destruct (LbProps.spec_api c (LbProps.abs (obj w))) as [x | ex'].
  - destruct H as (_ & H1 & H2 & H3 & _). split; [by eexists | split_and!; done].
  - by destruct H.
  - by destruct H.
  - destruct H as [[= ->] ->]. done.
Qed.

Lemma bind_unit {S} (p : M S unit) w : p w = (_ ← p; mret ()) w.
Proof. unfold mbind, M_bind. by destruct (p w) as [[[] | ex] w1]. Qed.

Lemma lift_bind {S A B} (r : result A) (k : A → M S B) w :
  (lift r ≫= k) w = match r with Ok a => k a w | Throw ex => (Throw ex, w) end.
Proof. by destruct r. Qed.

Lemma eval2_cases {A B} o (a : result A) (b : result B) :
  match a, b with
  | Ok x, Ok y => eval2 o a b = Ok (x, y)
  | _, _ => ∃ ex, eval2 o a b = Throw ex
  end.
Proof. destruct a, b, o; cbn; eauto. Qed.

Lemma eval3_cases {A B C} o (a : result A) (b : result B) (c : result C) :
  match a, b, c with
  | Ok x, Ok y, Ok z => eval3 o a b c = Ok (x, y, z)
  | _, _, _ => ∃ ex, eval3 o a b c = Throw ex
  end.
Proof. destruct a, b, c, o; cbn; eauto. Qed.

(** What a dispatched request does. *)
Definition request_done (c : option LbProps.api_call) (w : World LbState.t) (r : result json) (w' : World LbState.t) : Prop :=
  match c with Some c => call_done c w r w' | None => same_world w w' end.

Lemma done_reads c w (p : M LbState.t json) : c = None → reads p → request_done c w (p w).1 (p w).2.
Proof. intros -> H. apply H. Qed.

Lemma done_throw {A} c w ex (k : A → M LbState.t json) :
  c = None → request_done c w ((lift (Throw ex) ≫= k) w).1 ((lift (Throw ex) ≫= k) w).2.
Proof. intros ->. done. Qed.

Lemma dispatch_done e h req w :
  LbInv.inv (obj w) (km w) → calm w → arg_string req §"cmd" ≠ Ok §"reload" →
  request_done (call_req req) w (dispatch e h req w).1 (dispatch e h req w).2.
Proof.
  intros Hi Hc Hnr. unfold dispatch, call_req. destruct (arg_string req §"cmd") as [cmd | ex] eqn:Ecmd; [| by apply done_throw].
  rewrite !lift_bind.
  case_bool_decide as B; [apply done_reads; [reflexivity | apply reads_ret] |]. clear B.
  case_bool_decide as B; [| clear B].
  { rewrite lift_bind. destruct (arg_bool req _ _) as [nc |]; [| done]. rewrite lift_bind. destruct (arg_vip req) as [vip |]; [| done].
    by apply (call_branch e (LbProps.AddVip vip nc)). }
  case_bool_decide as B; [| clear B].
  { rewrite lift_bind. destruct (arg_vip req) as [vip |]; [| done].
    apply (call_branch e (LbProps.DelVip vip) (del_vip e vip) (λ _, JObject [])); [done | done | apply bind_unit]. }
  case_bool_decide as B; [apply done_reads; [reflexivity | apply reads_vip_list] |]. clear B.
  case_bool_decide as B; [| clear B].
  { pose proof (eval3_cases (h_ltr h) (arg_vip req) (arg_addr req §"addr") (arg_uint req §"weight" (Some 1))) as Ev.
    rewrite lift_bind. destruct (arg_vip req) as [vip |], (arg_addr req _) as [a |], (arg_uint req _ _) as [wt |];
      try (destruct Ev as [ex ->]; done). rewrite Ev. by apply (call_branch e (LbProps.AddReal vip a wt)). }
  case_bool_decide as B; [| clear B].
  { pose proof (eval2_cases (h_ltr h) (arg_vip req) (arg_addr req §"addr")) as Ev.
    rewrite lift_bind. destruct (arg_vip req) as [vip |], (arg_addr req _) as [a |]; try (destruct Ev as [ex ->]; done). rewrite Ev.
    apply (call_branch e (LbProps.DelReal vip a) (del_real e vip a) (λ _, JObject [])); [done | done | apply bind_unit]. }
  case_bool_decide as B; [| clear B].
  { pose proof (eval3_cases (h_ltr h) (arg_vip req) (arg_addr req §"addr") (arg_uint req §"weight" None)) as Ev.
    rewrite lift_bind. destruct (arg_vip req) as [vip |], (arg_addr req _) as [a |], (arg_uint req _ _) as [wt |];
      try (destruct Ev as [ex ->]; done). rewrite Ev.
    apply (call_branch e (LbProps.SetWeight vip a wt) (set_weight e vip a wt) (λ _, JObject [])); [done | done | apply bind_unit]. }
  destruct (bool_decide (cmd = §"real.drain") || bool_decide (cmd = §"real.undrain")).
  { pose proof (eval2_cases (h_ltr h) (arg_vip req) (arg_addr req §"addr")) as Ev.
    rewrite lift_bind. destruct (arg_vip req) as [vip |], (arg_addr req _) as [a |]; try (destruct Ev as [ex ->]; done). rewrite Ev.
    apply (call_branch e (LbProps.SetDraining vip a (bool_decide (cmd = §"real.drain"))) (set_draining e vip a _) (λ _, JObject []));
      [done | done | apply bind_unit]. }
  apply (done_reads None w (λ w, _)); [reflexivity |].
  case_bool_decide as B; [apply reads_stats |]. case_bool_decide; [apply reads_flows |].
  case_bool_decide; [apply reads_ring_show |]. case_bool_decide; [apply reads_health |].
  case_bool_decide as R; [by subst cmd |]. case_bool_decide; [apply reads_lift | apply reads_throw].
Qed.

(** C11: a request line does to the configured VIPs exactly what the call it asks
    for is specified to do, and the answer says so: ok when the call succeeds,
    and the specified error otherwise, with the daemon and the kernel maps
    exactly as they were. A line that is not JSON, is malformed, is an unknown
    command, or is a query changes nothing. (No bpf call fails; reload is the
    daemon's hook.) *)
Theorem request_refines (e : CEnv) (h : Handler) (line : str) (w : World LbState.t) :
  LbInv.inv (obj w) (km w) → calm w → ¬ asks_reload h line →
  let '(resp, w') := respond e h line w in
  match call_of h line with
  | Some c =>
      match LbProps.spec_api c (LbProps.abs (obj w)) with
      | Ok x => (∃ v, resp = ok_response v) ∧ LbProps.abs (obj w') = x ∧ LbInv.inv (obj w') (km w')
      | Throw ex => resp = error_response (what ex) ∧ w' = w
      end
  | None => obj w' = obj w ∧ km w' = km w ∧ hist w' = hist w
  end.
Proof.
  intros Hi Hc Hnr. unfold respond, call_of. unfold asks_reload in Hnr.
  destruct (h_parse h line) as [req | |]; [| done..]. destruct req as [| | | | | | | l]; try done.
  assert (arg_string (JObject l) §"cmd" ≠ Ok §"reload") as Hcmd by (intros E; apply Hnr; eauto).
  pose proof (dispatch_done e h (JObject l) w Hi Hc Hcmd) as Hd. unfold request_done, call_done in Hd.
  destruct (dispatch e h (JObject l) w) as [[v | ex] w']; cbn [fst snd] in Hd; destruct (call_req (JObject l)) as [c |]; try exact Hd.
  - destruct (LbProps.spec_api c _) as [x | ex]; [| by destruct Hd]. destruct Hd as (_ & H1 & H2 & _). split; [by eexists | done].
  - destruct (LbProps.spec_api c _) as [x | ex']; [by destruct Hd as ([? ?] & _) |]. destruct Hd as [[= ->] ->]. done.
Qed.

(** ** Lemmas: ring.show *)

Lemma get_set_eq key v l : get_key key (set_key key v l) = Some v.
Proof. induction l as [| kv l IH]; cbn; [by rewrite bool_decide_eq_true_2 |]. case_bool_decide; cbn; [by rewrite bool_decide_eq_true_2 | by rewrite bool_decide_eq_false_2]. Qed.

Lemma get_set_ne key key' v l : key ≠ key' → get_key key (set_key key' v l) = get_key key l.
Proof.
  intros Hne. induction l as [| kv l IH]; cbn; [by rewrite bool_decide_eq_false_2 by congruence |].
  case_bool_decide as E; cbn; [| by rewrite IH]. rewrite E, !bool_decide_eq_false_2 by congruence. done.
Qed.

(** Keys that are set once each. *)
Lemma get_folded {A} (name : A → str) (val : A → json) init l x :
  NoDup l → (∀ y, y ∈ l → name y = name x → y = x) →
  get_key (name x) (foldl (λ out y, set_key (name y) (val y) out) init l) =
  if bool_decide (Exists (λ y, name y = name x) l) then Some (val x) else get_key (name x) init.
Proof.
  intros Hnd Hinj. revert init. induction l as [| y l IH]; intros init; cbn [foldl]; [done |].
  apply NoDup_cons in Hnd as [Hy Hnd]. rewrite IH; [| done | intros z Hz; by apply Hinj, list_elem_of_further].
  destruct (decide (name y = name x)) as [E | E].
  - assert (y = x) as -> by (apply Hinj; [apply list_elem_of_here | done]).
    rewrite (bool_decide_eq_true_2 (Exists _ (x :: l))) by (by left). rewrite get_set_eq. by case_bool_decide.
  - rewrite get_set_ne by done. apply (f_equal (λ b : bool, if b then Some (val x) else get_key (name x) init)).
    apply bool_decide_ext. split; [intros H; by right |]. by intros [? | ?]%Exists_cons.
Qed.

Lemma by_id_from (ring : list Z) (acc : gmap Z Z) (id : Z) :
  foldl (λ m id, <[id := default 0 (m !! id) + 1]> m) acc ring !! id =
  if (occ id ring =? 0)%nat then acc !! id else Some (default 0 (acc !! id) + Z.of_nat (occ id ring)).
Proof.
  revert acc. induction ring as [| x ring IH]; intros acc; cbn [foldl]; [done |]. rewrite IH, occ_cons.
  destruct (decide (x = id)) as [-> | Hne].
  - rewrite lookup_insert_eq. cbn [Nat.add Nat.eqb]. change (default 0 (Some ?z)) with z.
    destruct (occ id ring) as [| n]; cbn [Nat.eqb]; f_equal; lia.
  - rewrite lookup_insert_ne by done. done.
Qed.

Lemma by_id_spec ring id : by_id ring !! id = if (occ id ring =? 0)%nat then None else Some (Maglev.slots_of id ring).
Proof. unfold by_id. rewrite by_id_from, lookup_empty. by destruct (_ =? _)%nat. Qed.

(** The names of the reals. *)
Lemma names_from (f : Z → Z) (l : list Z) (out : gmap Z Z) (id : Z) :
  NoDup (f <$> l) →
  foldl (λ out a, <[f a := a]> out) out l !! id =
  match head (filter (λ a, f a = id) l) with Some a => Some a | None => out !! id end.
Proof.
  revert out. induction l as [| a l IH]; intros out; cbn [foldl fmap list_fmap]; [done |]. intros [Ha Hnd]%NoDup_cons.
  rewrite IH, filter_cons by done. destruct (decide (f a = id)) as [<- | Hne].
  - rewrite filter_none, lookup_insert_eq; [done |]. intros b Hb E. apply Ha. rewrite <-E. by apply list_elem_of_fmap_2.
  - by rewrite lookup_insert_ne.
Qed.

Lemma real_addrs_id s m a id : LbInv.inv s m → RealTable.by_addr (reals_ s) !! a = Some id → real_addrs s !! id = Some a.
Proof.
  intros Hi Hid. pose proof (LbInv.i_tb _ _ _ _ _ Hi) as Ht. unfold real_addrs.
  assert (∀ b, b ∈ RealTable.addrs (reals_ s) ↔ is_Some (RealTable.by_addr (reals_ s) !! b)) as Hin by (intros b; apply LbInv.elem_of_addr_keys).
  assert (∀ b i, RealTable.by_addr (reals_ s) !! b = Some i → default 0 (RealTable.id_of (reals_ s) b) = i) as Hdef
    by (intros b i E; unfold RealTable.id_of; by rewrite E).
  rewrite (names_from (λ a, default 0 (RealTable.id_of (reals_ s) a))).
  - assert (filter (λ b, default 0 (RealTable.id_of (reals_ s) b) = id) (RealTable.addrs (reals_ s)) = [a]) as ->; [| done].
    apply Permutation_singleton_r, NoDup_Permutation; [apply NoDup_filter, LbInv.NoDup_addr_keys | apply NoDup_singleton |].
    intros b. rewrite list_elem_of_filter, list_elem_of_singleton, Hin. split; [| intros ->; split; [by apply Hdef | eauto]].
    intros [E [i Ei]]. rewrite (Hdef b i Ei) in E. subst i. destruct (RealTable.inv_id _ _ _ Ht Ei) as (_ & _ & <-).
    by destruct (RealTable.inv_id _ _ _ Ht Hid) as (_ & _ & <-).
  - apply NoDup_fmap_2_strong; [| apply LbInv.NoDup_addr_keys]. intros b c [i Ei]%Hin [j Ej]%Hin.
    rewrite (Hdef b i Ei), (Hdef c j Ej). intros ->. destruct (RealTable.inv_id _ _ _ Ht Ei) as (_ & _ & <-).
    by destruct (RealTable.inv_id _ _ _ Ht Ej) as (_ & _ & <-).
Qed.

Lemma elem_of_snapshot s x : x ∈ snapshot s ↔ ∃ sp u, vips_ s !! sp = Some u ∧ x = vip_view s sp u.
Proof.
  unfold snapshot. rewrite merge_sort_Permutation, list_elem_of_omap. setoid_rewrite LbInv.elem_of_spec_keys. split.
  - intros (sp & [u Hu] & E). rewrite Hu in E. injection E as <-. eauto.
  - intros (sp & u & Hu & ->). exists sp. rewrite Hu. split; [eauto | done].
Qed.

Lemma find_view s spec v : vips_ s !! spec = Some v → LbState.find s spec = Some (vip_view s spec v).
Proof.
  intros Hv. unfold LbState.find. pose proof (elem_of_snapshot s) as Hin.
  destruct (head (filter _ (snapshot s))) as [x |] eqn:Eh.
  - assert (x ∈ filter (λ v, vw_spec v = spec) (snapshot s)) as [Ex (sp & u & Hu & ->)%Hin]%list_elem_of_filter
      by (apply head_Some_elem_of; exact Eh).
    cbn in Ex. subst sp. rewrite Hv in Hu. by injection Hu as <-.
  - exfalso. apply head_None in Eh. assert (vip_view s spec v ∈ @nil VipView) as H; [| by apply not_elem_of_nil in H].
    rewrite <-Eh. apply list_elem_of_filter. split; [done |]. apply Hin. eauto.
Qed.

Lemma ipv4_inj a b : is_u 32 a → is_u 32 b → VipSpec.ipv4_to_string a = VipSpec.ipv4_to_string b → a = b.
Proof.
  intros Ha Hb E. pose proof (VipSpec.parse_ipv4_ipv4_to_string a Ha) as H1. rewrite E, VipSpec.parse_ipv4_ipv4_to_string in H1 by done. by injection H1.
Qed.

Lemma ipv4_not_none a : is_u 32 a → VipSpec.ipv4_to_string a ≠ §"none".
Proof. intros Ha E. pose proof (VipSpec.parse_ipv4_ipv4_to_string a Ha) as H. rewrite E in H. vm_compute in H. discriminate H. Qed.

(** The name of an id of a ring. *)
Definition slot_name (names : gmap Z Z) (id : Z) : str := if id =? PB_REAL_NONE then §"none" else real_name names id.

Lemma elem_of_by_id ring id : id ∈ addr_keys (by_id ring) ↔ occ id ring ≠ 0%nat.
Proof.
  rewrite LbInv.elem_of_addr_keys, by_id_spec. destruct (Nat.eqb_spec (occ id ring) 0); [| by split; eauto].
  split; [by intros [] | done].
Qed.

Lemma ring_slots_spec names ring id :
  (∀ x, x ∈ ring → slot_name names x = slot_name names id → x = id) →
  get_key (slot_name names id) (ring_slots names (by_id ring)) =
  if (occ id ring =? 0)%nat then get_key (slot_name names id) [(§"none", JUInt 0)] else Some (JUInt (Maglev.slots_of id ring)).
Proof.
  intros Hinj. unfold ring_slots.
  assert (∀ l init, foldl (λ slots id, let n := JUInt (default 0 (by_id ring !! id)) in
      if id =? PB_REAL_NONE then set_key §"none" n slots else set_key (real_name names id) n slots) init l =
    foldl (λ out y, set_key (slot_name names y) (JUInt (default 0 (by_id ring !! y))) out) init l) as ->.
  { induction l as [| x l IH]; intros init; [done |]. cbn [foldl]. rewrite IH. unfold slot_name at 3. by destruct (x =? PB_REAL_NONE). }
  assert (∀ y, y ∈ addr_keys (by_id ring) → slot_name names y = slot_name names id → y = id) as Hinj'.
  { intros y Hy. apply Hinj. apply elem_of_by_id in Hy. destruct (decide (y ∈ ring)) as [| Hn]; [done |]. by apply occ_zero in Hn. }
  rewrite get_folded by (done || apply LbInv.NoDup_addr_keys). rewrite by_id_spec.
  destruct (Nat.eqb_spec (occ id ring) 0) as [E | E].
  - rewrite bool_decide_eq_false_2; [done |]. intros (y & Hy & Hn)%Exists_exists. specialize (Hinj' y Hy Hn) as ->. by apply elem_of_by_id in Hy.
  - rewrite bool_decide_eq_true_2; [done |]. apply Exists_exists. exists id. split; [by apply elem_of_by_id | done].
Qed.

Section ring_names.
Context (s : LbState.t) (m : Maps) (spec : VipSpec.t) (v : Vip) (ring : list Z).
Context (Hi : LbInv.inv s m) (Hv : vips_ s !! spec = Some v).
Context (Hb : Maglev.build_ring (backends_of (reals_ s) (v_members v)) (hash_ s) PB_RING_SIZE = Some (Ok ring)).
Context (Hu : ∀ a, is_Some (v_members v !! a) → is_u 32 a).

(** The ids of a VIP's ring, by name. *)
Lemma slot_name_member a :
  is_Some (v_members v !! a) →
  slot_name (real_addrs s) (default 0 (RealTable.id_of (reals_ s) a)) = VipSpec.ipv4_to_string a.
Proof.
  intros Ha. destruct (LbInv.member_id _ _ _ _ _ _ _ _ Hi Hv Ha) as [i Ei]. unfold RealTable.id_of. rewrite Ei.
  change (default 0 (Some i)) with i. destruct (RealTable.inv_id _ _ _ (LbInv.i_tb _ _ _ _ _ Hi) Ei) as (Hr & _).
  unfold slot_name. replace (i =? PB_REAL_NONE) with false by (unfold PB_REAL_NONE, PB_MAX_REALS in *; lia).
  unfold real_name. by rewrite (real_addrs_id s m a i Hi Ei).
Qed.

Lemma ring_slot_name x : x ∈ ring → x = PB_REAL_NONE ∨ ∃ a, is_Some (v_members v !! a) ∧ x = default 0 (RealTable.id_of (reals_ s) a).
Proof.
  intros Hx. destruct (LbInv.ring_built (reals_ s) (v_members v) (hash_ s)) as (r' & E & _ & Hn). rewrite Hb in E. injection E as <-.
  destruct (Hn x Hx) as [-> | (a & mb & Ha & _ & ->)]; [by left | right; eauto].
Qed.

Lemma shown_member a :
  is_Some (v_members v !! a) →
  let n := Maglev.slots_of (default 0 (RealTable.id_of (reals_ s) a)) ring in
  get_key (VipSpec.ipv4_to_string a) (ring_slots (real_addrs s) (by_id ring)) = if n =? 0 then None else Some (JUInt n).
Proof.
  intros Ha. cbv zeta. rewrite <-(slot_name_member a Ha), ring_slots_spec.
  - rewrite (slot_name_member a Ha). unfold Maglev.slots_of. destruct (Nat.eqb_spec (occ (default 0 (RealTable.id_of (reals_ s) a)) ring) 0) as [-> | E].
    + cbn [get_key fst]. rewrite bool_decide_eq_false_2; [done |]. intros E. by apply (ipv4_not_none a (Hu a Ha)).
    + by rewrite (proj2 (Z.eqb_neq _ _)) by lia.
  - intros x Hx. rewrite (slot_name_member a Ha). destruct (ring_slot_name x Hx) as [-> | (b & Hb' & ->)].
    + intros E. exfalso. by apply (ipv4_not_none a (Hu a Ha)).
    + rewrite (slot_name_member b Hb'). intros E. by rewrite (ipv4_inj b a (Hu b Hb') (Hu a Ha) E).
Qed.

Lemma shown_none :
  get_key §"none" (ring_slots (real_addrs s) (by_id ring)) = Some (JUInt (Maglev.slots_of PB_REAL_NONE ring)).
Proof.
  change §"none" with (slot_name (real_addrs s) PB_REAL_NONE). rewrite ring_slots_spec.
  - unfold Maglev.slots_of. by destruct (Nat.eqb_spec (occ PB_REAL_NONE ring) 0) as [-> | E].
  - intros x Hx. destruct (ring_slot_name x Hx) as [-> | (b & Hb' & ->)]; [done |].
    rewrite (slot_name_member b Hb'). intros E. exfalso. by apply (ipv4_not_none b (Hu b Hb')).
Qed.
End ring_names.

(** C32: ring.show reports the ring the kernel uses: of 65537 slots, for each
    member the number that name it, and under none the empty ones; a member
    with no slot is not listed. *)
Theorem ring_show_exact (e : CEnv) (h : Handler) (req : json) (spec : VipSpec.t) (v : Vip) (w : World LbState.t) :
  LbInv.inv (obj w) (km w) → calm w → (∀ a, is_Some (v_members v !! a) → is_u 32 a) →
  arg_vip req = Ok spec → vips_ (obj w) !! spec = Some v →
  inner_id (h_rings h) (v_id v) ≠ 0 → (∀ r, serves (batches (h_rings h) r) r) →
  ∃ ring slots w',
    ring_show e h req w =
      (Ok (JObject [(§"size", JUInt PB_RING_SIZE); (§"hash", JString (Maglev.hash_mode_name (hash_ (obj w))));
                    (§"slots", JObject slots); (§"generation", JUInt (v_generation v))]), w') ∧
    rings (km w) !! v_id v = Some ring ∧
    Maglev.build_ring (backends_of (reals_ (obj w)) (v_members v)) (hash_ (obj w)) PB_RING_SIZE = Some (Ok ring) ∧
    get_key §"none" slots = Some (JUInt (Maglev.slots_of PB_REAL_NONE ring)) ∧
    ∀ a, is_Some (v_members v !! a) →
      let n := Maglev.slots_of (default 0 (RealTable.id_of (reals_ (obj w)) a)) ring in
      get_key (VipSpec.ipv4_to_string a) slots = if n =? 0 then None else Some (JUInt n).
Proof.
  intros Hi Hc Hu Hreq Hv Hid Hsv. destruct (LbInv.i_ring _ _ _ _ _ Hi spec v Hv (not_elem_of_empty spec)) as (ring & Hr & Hb).
  assert (length ring = Z.to_nat PB_RING_SIZE) as Hl.
  { destruct (LbInv.ring_built (reals_ (obj w)) (v_members v) (hash_ (obj w))) as (r' & E & H & _). rewrite Hb in E. by injection E as <-. }
  destruct (read_ring_run e (h_rings h) (v_id v) ring w Hc Hr Hl Hid (Hsv ring)) as (w' & Hrd & _).
  exists ring, (ring_slots (real_addrs (obj w)) (by_id ring)), w'. split; [| split; [exact Hr | split; [exact Hb | split]]].
  - unfold ring_show. rewrite lift_bind, Hreq, bind_get, (find_view _ _ _ Hv). cbn [vw_vip_id vw_generation vip_view].
    erewrite bind_run by exact Hrd. unfold jnat. rewrite Hl. change (Z.of_nat (Z.to_nat PB_RING_SIZE)) with PB_RING_SIZE. reflexivity.
  - exact (shown_none _ _ _ _ _ Hi Hv Hb Hu).
  - exact (shown_member _ _ _ _ _ Hi Hv Hb Hu).
Qed.

(** ** Witnesses *)

(** A handler that reads one line. *)
Definition demo_handler (req : json) : Handler :=
  mk_handler (λ _, PValue req) (λ _, []) (mret ()) (Ok JNull) true 0 0 (λ _, [])
    (mk_ring_env (λ _, 1) (λ r, [(- LbState.ENOENT, indexed r)])).

Lemma demo_serves req r : serves (batches (h_rings (demo_handler req)) r) r.
Proof. exists [], (indexed r). by split. Qed.

Definition add_request : json := JObject [(§"cmd", JString §"vip.add"); (§"vip", JString §"10.0.0.100:80/tcp")].

Lemma request_refines_witness :
  ∃ v w', respond LbTheorems.env0 (demo_handler add_request) [] LbTheorems.empty_world = (ok_response v, w') ∧
    LbProps.abs (obj w') = {[ LbTheorems.vip80 := (0, ∅) ]}.
Proof.
  pose proof (request_refines LbTheorems.env0 (demo_handler add_request) [] LbTheorems.empty_world
    LbTheorems.empty_inv LbTheorems.empty_calm) as H.
  destruct (respond LbTheorems.env0 (demo_handler add_request) [] LbTheorems.empty_world) as [resp w'].
  change (call_of (demo_handler add_request) []) with (Some (LbProps.AddVip LbTheorems.vip80 false)) in H. cbv iota in H.
  destruct H as ((v & ->) & H2 & _).
  - intros (l & [= <-] & E). vm_compute in E. discriminate E.
  - exists v, w'. split; [reflexivity | exact H2].
Defined.

Definition show_request : json := JObject [(§"cmd", JString §"ring.show"); (§"vip", JString §"10.0.0.100:80/tcp")].

Lemma ring_show_exact_witness :
  ∃ slots w' n, ring_show LbTheorems.env0 (demo_handler show_request) show_request (LbTheorems.two_world LbTheorems.table7_mac true) =
    (Ok (JObject [(§"size", JUInt PB_RING_SIZE); (§"hash", JString §"maglev"); (§"slots", JObject slots); (§"generation", JUInt 1)]), w') ∧
    get_key §"none" slots = Some (JUInt n).
Proof.
  destruct (ring_show_exact LbTheorems.env0 (demo_handler show_request) show_request LbTheorems.vip80
    (mk_vip LbTheorems.vip80 0 0 1 {[ LbTheorems.real7 := LbTheorems.member7 true ]}) (LbTheorems.two_world LbTheorems.table7_mac true)
    LbTheorems.two_world_inv (LbTheorems.two_calm _ _)) as (ring & slots & w' & H1 & _ & _ & H2 & _).
  - cbn [v_members]. intros a [mb [<- _]%lookup_singleton_Some]. decide_closed.
  - vm_compute. reflexivity.
  - apply lookup_insert_eq.
  - discriminate.
  - apply demo_serves.
  - exists slots, w', (Maglev.slots_of PB_REAL_NONE ring). split; [exact H1 | exact H2].
Defined.

End Commands.
