(* ===== verification/Libc.v ===== *)
(** * Numbers and words as the C++ library reads them

    std::stoul, std::stoi and std::atoi (strtoul and strtol underneath),
    inet_pton, the words std::istringstream extracts, and prefixes: what the
    command-line programs,
    the neighbour resolver and the metrics server use of the library. [Cli] is a
    program that can exit early. *)

From Stdlib Require Import ZArith Lia Ascii String.
From S2P Require Import Prelude VipSpec RealTable.

Module Libc.

(** ** Characters *)

Definition isspace (c : ascii) : bool :=
  let n := Z.of_nat (nat_of_ascii c) in (n =? 32) || ((9 <=? n) && (n <=? 13)).

(** The value of a letter or digit. *)
Definition digit_of (c : ascii) : Z :=
  let n := Z.of_nat (nat_of_ascii c) in
  if (48 <=? n) && (n <=? 57) then n - 48
  else if (97 <=? n) && (n <=? 122) then n - 87
  else if (65 <=? n) && (n <=? 90) then n - 55
  else 36.

Definition isdig (base : Z) (c : ascii) : bool := digit_of c <? base.

(** ** strtoul and strtol *)

Fixpoint skip_space (s : str) : str :=
  match s with c :: r => if isspace c then skip_space r else s | [] => [] end.

Definition sign (s : str) : bool * str :=
  match s with
  | c :: r => if bool_decide (c = "-"%char) then (true, r) else if bool_decide (c = "+"%char) then (false, r) else (false, s)
  | [] => (false, [])
  end.

(** In base 16 an 0x is skipped when a digit follows. *)
Definition skip_0x (base : Z) (s : str) : str :=
  match s with
  | z :: x :: d :: r =>
      if (base =? 16) && bool_decide (z = "0"%char) && (bool_decide (x = "x"%char) || bool_decide (x = "X"%char)) && isdig base d
      then d :: r else s
  | _ => s
  end.

Fixpoint scan (base : Z) (s : str) (v : Z) : Z * str :=
  match s with
  | c :: r => if isdig base c then scan base r (v * base + digit_of c) else (v, s)
  | [] => (v, [])
  end.

(** The sign, the magnitude and what follows the number; None without digits. *)
Definition strto (base : Z) (s : str) : option (bool * Z * str) :=
  let '(neg, s) := sign (skip_space s) in
  let s := skip_0x base s in
  match s with
  | c :: _ => if isdig base c then let '(v, rest) := scan base s 0 in Some (neg, v, rest) else None
  | [] => None
  end.

(** std::stoul(s, &used, base): a minus sign negates modulo 2^64. *)
Definition stoul (base : Z) (s : str) : result (Z * nat) :=
  match strto base s with
  | None => Throw (invalid_argument §"stoul")
  | Some (neg, v, rest) =>
      if 2 ^ 64 <=? v then Throw (logic_error §"stoul") else      (* std::out_of_range *)
      Ok (if neg then u64 (- v) else v, (length s - length rest)%nat)
  end.

(** std::stoi(s): an int, base 10. *)
Definition stoi (s : str) : result Z :=
  match strto 10 s with
  | None => Throw (invalid_argument §"stoi")
  | Some (neg, v, _) =>
      let n := if neg then - v else v in
      if (n <? - 2 ^ 31) || (2 ^ 31 - 1 <? n) then Throw (logic_error §"stoi") else Ok n
  end.

(** std::atoi(s), which is (int)strtol(s, nullptr, 10): the value is held to the
    range of a long, and its low 32 bits are the int. *)
Definition atoi (s : str) : Z :=
  match strto 10 s with
  | None => 0
  | Some (neg, v, _) =>
      let n := Z.max (- 2 ^ 63) (Z.min (2 ^ 63 - 1) (if neg then - v else v)) in
      (n + 2 ^ 31) mod 2 ^ 32 - 2 ^ 31
  end.

(** ** Addresses *)

(** inet_pton(AF_INET, s.c_str(), ...): four decimal octets without leading
    zeros. *)
Definition inet_pton (s : str) : option Z :=
  let s := RealTable.Mac.c_str s in
  match VipSpec.parse_ipv4 s with
  | Ok a => if bool_decide (VipSpec.ipv4_to_string a = s) then Some a else None
  | Throw _ => None
  end.

(** ** Strings *)

(** s.rfind(p, 0) == 0 *)
Fixpoint starts_with (p s : str) : bool :=
  match p, s with
  | [], _ => true
  | c :: p, d :: s => bool_decide (c = d) && starts_with p s
  | _, [] => false
  end.

(** The words operator>> extracts: maximal runs without white space. *)
Fixpoint words_from (s word : str) : list str :=
  match s with
  | [] => if bool_decide (word = []) then [] else [word]
  | c :: s =>
      if isspace c then (if bool_decide (word = []) then [] else [word]) ++ words_from s []
      else words_from s (word ++ [c])
  end.
Definition words (s : str) : list str := words_from s [].

(** ** Lemmas *)

Lemma digit_of_dec c : VipSpec.isdigit c = true → digit_of c = VipSpec.digit_val c ∧ isdig 10 c = true.
Proof.
  intros H%VipSpec.isdigit_range. unfold isdig, digit_of, VipSpec.digit_val in *.
  replace ((48 <=? _) && _) with true by lia. lia.
Qed.

Lemma isdig_dec c : isdig 10 c = VipSpec.isdigit c.
Proof.
  unfold isdig, digit_of, VipSpec.isdigit, VipSpec.digit_val. set (n := Z.of_nat (nat_of_ascii c)). clearbody n.
  destruct ((48 <=? n) && (n <=? 57)) eqn:E1; [lia |]. destruct ((97 <=? n) && (n <=? 122)) eqn:E2; [lia |].
  destruct ((65 <=? n) && (n <=? 90)) eqn:E3; lia.
Qed.

Lemma digit_not_space c : VipSpec.isdigit c = true → isspace c = false ∧ c ≠ "-"%char ∧ c ≠ "+"%char.
Proof.
  intros H%VipSpec.isdigit_range. unfold isspace, VipSpec.digit_val in *. split_and!; [lia | |]; intros ->; vm_compute in H; by destruct H as [H _].
Qed.

Lemma scan_dec d rest v :
  Forall (λ c, VipSpec.isdigit c = true) d → VipSpec.no_digit rest →
  scan 10 (d ++ rest) v = (foldl (λ acc c, acc * 10 + VipSpec.digit_val c) v d, rest).
Proof.
  intros Hd Hr. revert v. induction Hd as [| c d Hc Hd IH]; intros v; cbn [app scan foldl].
  - destruct rest as [| c r]; [done |]. cbn [scan]. cbn in Hr. by rewrite isdig_dec, Hr.
  - destruct (digit_of_dec c Hc) as [E1 E2]. by rewrite E2, E1, IH.
Qed.

(** A decimal number followed by something else. *)
Lemma strto_dec d rest :
  Forall (λ c, VipSpec.isdigit c = true) d → d ≠ [] → VipSpec.no_digit rest →
  strto 10 (d ++ rest) = Some (false, foldl (λ acc c, acc * 10 + VipSpec.digit_val c) 0 d, rest).
Proof.
  intros Hd Hne Hr. destruct d as [| c d]; [done |]. pose proof (Forall_inv Hd) as Hc.
  destruct (digit_not_space c Hc) as (E1 & E2 & E3). unfold strto. cbn [app skip_space sign]. rewrite E1.
  cbn [sign]. rewrite !bool_decide_eq_false_2 by done.
  assert (skip_0x 10 (c :: d ++ rest) = c :: d ++ rest) as -> by (unfold skip_0x; by repeat case_match).
  destruct (digit_of_dec c Hc) as [_ ->]. change (c :: d ++ rest) with ((c :: d) ++ rest). by rewrite scan_dec.
Qed.

Lemma stoul_dec n rest :
  0 <= n < 2 ^ 64 → VipSpec.no_digit rest →
  stoul 10 (VipSpec.to_string n ++ rest) = Ok (n, length (VipSpec.to_string n)).
Proof.
  intros Hn Hr. destruct (VipSpec.to_string_spec n 20) as (Hd & Hne & Hv & _); [lia.. |].
  unfold stoul. rewrite (strto_dec _ _ Hd Hne Hr), Hv. rewrite (proj2 (Z.leb_gt _ _)) by lia.
  rewrite length_app. f_equal. f_equal. lia.
Qed.

Lemma stoi_dec n rest :
  0 <= n < 2 ^ 31 → VipSpec.no_digit rest → stoi (VipSpec.to_string n ++ rest) = Ok n.
Proof.
  intros Hn Hr. destruct (VipSpec.to_string_spec n 20) as (Hd & Hne & Hv & _); [lia.. |].
  unfold stoi. rewrite (strto_dec _ _ Hd Hne Hr), Hv. by replace ((n <? _) || _) with false by lia.
Qed.

Lemma stoul_range base s n k : 0 < base → stoul base s = Ok (n, k) → 0 <= n < 2 ^ 64.
Proof.
  intros Hb. unfold stoul. assert (∀ s v, 0 <= v → 0 <= (scan base s v).1) as Hscan.
  { intros t. induction t as [| c t IH]; intros v Hv; cbn [scan]; [done |]. destruct (isdig base c) eqn:E; [| done].
    apply IH. assert (0 <= digit_of c); [| nia]. unfold digit_of.
    set (x := Z.of_nat (nat_of_ascii c)). repeat case_match; lia. }
  unfold strto. destruct (sign (skip_space s)) as [neg s1]. destruct (skip_0x base s1) as [| c r]; [done |].
  destruct (isdig base c); [| done]. specialize (Hscan (c :: r) 0 ltac:(done)). destruct (scan base (c :: r) 0) as [v rest]. cbn [fst] in Hscan.
  destruct (2 ^ 64 <=? v) eqn:E; [done |]. intros [= <- _]. destruct neg; [apply is_u_u64 | lia].
Qed.

Lemma starts_with_app p s : starts_with p (p ++ s) = true.
Proof. induction p as [| c p IH]; cbn; [done |]. by rewrite bool_decide_eq_true_2, IH. Qed.

Lemma starts_with_spec p s : starts_with p s = true ↔ p `prefix_of` s.
Proof.
  split; [| intros [r ->]; apply starts_with_app]. revert s. induction p as [| c p IH]; intros s H; [by exists s |].
  destruct s as [| d s]; [done |]. cbn in H. apply andb_true_iff in H as [->%bool_decide_eq_true_1 H].
  apply IH in H as [r ->]. by exists r.
Qed.

(** A list of words with white space between them. *)
Lemma words_from_app w s acc :
  Forall (λ c, isspace c = false) w → words_from (w ++ s) acc = words_from s (acc ++ w).
Proof.
  intros Hw. revert acc. induction Hw as [| c w Hc Hw IH]; intros acc; cbn [app words_from]; [by rewrite app_nil_r |].
  by rewrite Hc, IH, <-app_assoc.
Qed.

Lemma words_cons w sp s :
  Forall (λ c, isspace c = false) w → w ≠ [] → isspace sp = true → words (w ++ sp :: s) = w :: words s.
Proof.
  intros Hw Hne Hsp. unfold words. rewrite words_from_app by done. cbn [app words_from]. rewrite Hsp.
  by rewrite bool_decide_eq_false_2.
Qed.

Lemma words_space sp s : isspace sp = true → words (sp :: s) = words s.
Proof. intros H. unfold words. cbn [words_from]. by rewrite H. Qed.

Lemma words_last w : Forall (λ c, isspace c = false) w → w ≠ [] → words w = [w].
Proof.
  intros Hw Hne. unfold words. rewrite <-(app_nil_r w) at 1. rewrite words_from_app by done. cbn. by rewrite bool_decide_eq_false_2.
Qed.

(** The oddities of the library that its callers inherit. *)
Example stoul_examples :
  stoul 10 §"42" = Ok (42, 2%nat) ∧ stoul 10 §"12abc" = Ok (12, 2%nat) ∧
  stoul 10 §"-18446744073709551615" = Ok (1, 21%nat) ∧ stoul 16 §"0x2" = Ok (2, 3%nat) ∧
  is_ok (stoul 10 §"18446744073709551616") = false ∧ is_ok (stoul 10 §"x") = false ∧ stoi §" -7z" = Ok (-7).
Proof. repeat split; vm_compute; reflexivity. Qed.

End Libc.

(** ** Exiting early *)

Module Cli.

(** A step of a program: it goes on with a value, or exits. *)
Inductive cli (A : Type) : Type :=
| Go (a : A)
| Exit (status : Z) (text : str).       (* on stdout for 0, else on stderr *)
Arguments Go {A} a.
Arguments Exit {A} status text.

#[export] Instance cli_ret : MRet cli := @Go.
#[export] Instance cli_bind : MBind cli := λ A B k x,
  match x with Go a => k a | Exit n t => Exit n t end.

Lemma go_bind {A B} (a : A) (k : A → cli B) : Go a ≫= k = k a.
Proof. done. Qed.

Lemma bind_Go {A B} (x : cli A) (k : A → cli B) b : x ≫= k = Go b → ∃ a, x = Go a ∧ k a = Go b.
Proof. destruct x as [a | n t]; [by exists a | done]. Qed.

End Cli.
