(* ===== verification/Format.v ===== *)
(** * What pbctl prints (src/pbctl/format.cpp)

    Tables of left-aligned columns, and one printer per kind of answer. Reading
    a JSON value can throw, and reading a key that is not there of a constant
    object is undefined; the theorems show that neither happens on what the
    daemon answers. *)

From Stdlib Require Import ZArith Lia Ascii String.
From S2P Require Import Prelude Abi VipSpec Maglev Control RealTable Config LbState LbInv Reader LbTheorems ApiServer Commands Libc.

Module Format.
Import Commands.

(** ** Reading JSON values *)

Inductive acc (A : Type) : Type :=
| Val (a : A)
| Err (what : str)              (* an exception of the library *)
| Undef.                        (* undefined behaviour *)
Arguments Val {A} a.
Arguments Err {A} what.
Arguments Undef {A}.

#[export] Instance acc_ret : MRet acc := @Val.
#[export] Instance acc_bind : MBind acc := λ A B k x,
  match x with Val a => k a | Err s => Err s | Undef => Undef end.

(** What the printers use of the libraries: conversions of JSON values, the
    printing of a value, and the formatting of floating-point numbers. *)
Class Lib := {
  get_int : json → acc Z;                      (* get<int>() *)
  get_u64 : json → acc Z;                      (* get<uint64_t>() *)
  get_i64 : json → acc Z;                      (* get<int64_t>() *)
  dump : json → str;                           (* dump() *)
  dump2 : json → str;                          (* dump(2) *)
  type_error : str;                            (* the text of a type error *)
  percent : json → json → acc str;             (* percent(a.get<double>(), b.get<double>()) *)
  get_double : json → acc unit;                (* get<double>() *)
  ago : Z → str                                (* ago(epoch_ms) *)
}.

(** A number converts to every number type, modulo its width. *)
Definition s32 (x : Z) : Z := (x + 2 ^ 31) mod 2 ^ 32 - 2 ^ 31.

Class LibLaws (L : Lib) := {
  get_int_uint z : get_int (JUInt z) = Val (s32 z);
  get_u64_uint z : get_u64 (JUInt z) = Val (u64 z);
  get_i64_int z : get_i64 (JInt z) = Val (s64 z);
  get_double_uint z : get_double (JUInt z) = Val ();
  percent_uint a b : ∃ s, percent (JUInt a) (JUInt b) = Val s
}.

(** std::less<std::string>: keys by their unsigned characters. *)
Fixpoint str_leb (a b : str) : bool :=
  match a, b with
  | [], _ => true
  | _ :: _, [] => false
  | x :: a, y :: b =>
      if bool_decide (x = y) then str_leb a b else (nat_of_ascii x <? nat_of_ascii y)%nat
  end.
Definition key_le (x y : str * json) : Prop := str_leb x.1 y.1 = true.
#[export] Instance key_le_dec : RelDecision key_le.
Proof. intros x y. unfold key_le. apply _. Defined.

Section print.
Context `{L : Lib}.

(** v[key] of a constant value. *)
Definition item (v : json) (key : str) : acc json :=
  match v with
  | JObject l => match get_key key l with Some x => Val x | None => Undef end
  | _ => Err type_error
  end.

(** v.value(key, fallback) for a JSON fallback. *)
Definition value (v : json) (key : str) (fallback : json) : acc json :=
  match v with
  | JObject l => Val (default fallback (get_key key l))
  | _ => Err type_error
  end.

(** v.value("flags", 0) *)
Definition value_int (v : json) (key : str) (fallback : Z) : acc Z :=
  match v with
  | JObject l => match get_key key l with Some x => get_int x | None => Val fallback end
  | _ => Err type_error
  end.

(** for (x : v): the elements, the values in key order, nothing, or the value. *)
Definition elements (v : json) : list json :=
  match v with
  | JArray l => l
  | JObject l => (merge_sort key_le l).*2
  | JNull => []
  | _ => [v]
  end.

(** v.empty() *)
Definition empty (v : json) : bool :=
  match v with JNull | JArray [] | JObject [] => true | _ => false end.

(** v.items(): the pairs in key order; an array's keys are its indices, and the
    key of a lone value is empty. *)
Definition items (v : json) : list (str * json) :=
  match v with
  | JObject l => merge_sort key_le l
  | JArray l => imap (λ i x, (VipSpec.to_string (Z.of_nat i), x)) l
  | JNull => []
  | _ => [([], v)]
  end.

(** v.size() *)
Definition size (v : json) : nat := length (elements v).

(** A loop that can throw. *)
Fixpoint each {A B} (f : A → acc B) (l : list A) : acc (list B) :=
  match l with
  | [] => Val []
  | x :: l => y ← f x; ys ← each f l; Val (y :: ys)
  end.

(** ** Tables *)

Definition nl : str := [ApiServer.nl].

(** width[i] = max(width[i], r[i].size()) *)
Fixpoint widen (width : list nat) (r : list str) : list nat :=
  match r, width with
  | [], _ => width
  | c :: r, [] => length c :: widen [] r
  | c :: r, x :: width => Nat.max x (length c) :: widen width r
  end.

Definition spaces (n : nat) : str := replicate n " "%char.

Fixpoint table_line (width : list nat) (r : list str) : str :=
  match r, width with
  | [], _ => []
  | [c], _ => c
  | c :: r, x :: width => c ++ spaces (x - length c + 2) ++ table_line width r
  | c :: r, [] => c ++ spaces 2 ++ table_line [] r        (* no such row: every row was measured *)
  end.

(** Table::print of the header and the rows. *)
Definition table_print (rows : list (list str)) : str :=
  let width := foldl widen [] rows in
  mjoin ((λ r, table_line width r ++ nl) <$> rows).

(** ** Values *)

Definition to_cell (v : json) : str :=
  match v with
  | JString s => s
  | JBool b => if b then §"yes" else §"no"
  | JNull => §"-"
  | _ => dump v
  end.

(** str(v[key]) and str(v.value(key, json())) *)
Definition cell (v : json) (key : str) : acc str := x ← item v key; Val (to_cell x).
Definition cell_or (v : json) (key : str) (fallback : json) : acc str := x ← value v key fallback; Val (to_cell x).

(** ** The printers *)

Definition vip_head (v : json) : acc (list str) :=
  f ← value_int v §"flags" 0;
  vip ← cell v §"vip"; id ← cell v §"vip_id"; gen ← cell_or v §"generation" JNull;
  Val [vip; id; (if Z.odd f then §"no-ct" else §"-"); gen].

Definition vip_real_row (v r : json) : acc (list str) :=
  h ← vip_head v;
  a ← cell r §"addr"; i ← cell r §"real_id"; w ← cell r §"weight"; u ← cell r §"up"; d ← cell r §"draining";
  g ← cell_or r §"in_ring" JNull; m ← cell_or r §"mac" JNull;
  Val (h ++ [a; i; w; u; d; g; m]).

Definition vip_rows (v : json) : acc (list (list str)) :=
  _ ← value_int v §"flags" 0;
  reals ← item v §"reals";
  none ← (if empty reals then h ← vip_head v; Val [h ++ [§"(none)"]] else Val []);
  rows ← each (vip_real_row v) (elements reals);
  Val (none ++ rows).

Definition vips_header : list str :=
  [§"VIP"; §"ID"; §"FLAGS"; §"GEN"; §"REAL"; §"RID"; §"WEIGHT"; §"UP"; §"DRAIN"; §"IN_RING"; §"MAC"].

Definition print_vips (vips : json) : acc str :=
  rows ← each vip_rows (elements vips);
  Val (table_print (vips_header :: mjoin rows)).

Definition stat_cols : list str := [§"packets"; §"bytes"; §"ct_hit"; §"ct_miss"; §"hash"; §"syn"; §"tx"].

(** The sum of the counters whose name starts with drop_. *)
Fixpoint sum_drops (l : list (str * json)) (drops : Z) : acc Z :=
  match l with
  | [] => Val drops
  | kv :: l =>
      if Libc.starts_with §"drop_" kv.1 then n ← get_u64 kv.2; sum_drops l (u64 (drops + n))
      else sum_drops l drops
  end.

Definition stat_row (nc : str * json) : acc (list str) :=
  cells ← each (λ k, cell_or nc.2 k (JInt 0)) stat_cols;
  drops ← sum_drops (items nc.2) 0;
  Val (nc.1 :: cells ++ [VipSpec.to_string drops]).

Definition global_item (kv : str * json) : acc str :=
  n ← get_u64 kv.2;
  Val (if n =? 0 then [] else §" " ++ kv.1 ++ §"=" ++ VipSpec.to_string n).

Definition real_row (ac : str * json) : acc (list str) :=
  p ← cell ac.2 §"packets"; b ← cell ac.2 §"bytes"; Val [ac.1; p; b].

Definition stats_header : list str := [§"VIP"; §"PACKETS"; §"BYTES"; §"CT_HIT"; §"CT_MISS"; §"HASH"; §"SYN"; §"TX"; §"DROPS"].

Definition print_stats (s : json) : acc str :=
  vips ← item s §"vips";
  rows ← each stat_row (items vips);
  global ← item s §"global";
  g ← each global_item (items global);
  reals ← item s §"reals";
  r ← (if empty reals then Val [] else
         rrows ← each real_row (items reals); Val (nl ++ table_print ([§"REAL"; §"PACKETS"; §"BYTES"] :: rrows)));
  Val (table_print (stats_header :: rows) ++ nl ++ §"global:" ++ mjoin g ++ nl ++ r).

Definition flow_row (f : json) : acc (list str) :=
  each (cell f) [§"src"; §"sport"; §"dst"; §"dport"; §"proto"; §"real"; §"cpu"; §"age_ms"].

Definition flows_header : list str := [§"SRC"; §"SPORT"; §"DST"; §"DPORT"; §"PROTO"; §"REAL"; §"CPU"; §"AGE_MS"].

Definition print_flows (flows : json) : acc str :=
  rows ← each flow_row (elements flows);
  Val (table_print (flows_header :: rows) ++ VipSpec.to_string (Z.of_nat (size flows)) ++ §" flow entr" ++
       (if (size flows =? 1)%nat then §"y" else §"ies") ++ nl).

(** if (addr != "none" || n.get<uint64_t>() > 0) t.add(...) *)
Definition ring_row (size : json) (an : str * json) : acc (list (list str)) :=
  show ← (if negb (bool_decide (an.1 = §"none")) then Val true else n ← get_u64 an.2; Val (0 <? n));
  if (show : bool) then p ← percent an.2 size; Val [[an.1; to_cell an.2; p]] else Val [].

Definition print_ring (r : json) : acc str :=
  sz ← item r §"size";
  _ ← get_double sz;
  h ← cell r §"hash";
  n ← get_u64 sz;
  g ← cell r §"generation";
  slots ← item r §"slots";
  rows ← each (ring_row sz) (items slots);
  Val (§"hash " ++ h ++ §", " ++ VipSpec.to_string n ++ §" slots, generation " ++ g ++ nl ++ nl ++
       table_print ([§"REAL"; §"SLOTS"; §"SHARE"] :: mjoin rows)).

Definition health_row (h : json) : acc (list str) :=
  v ← cell h §"vip"; a ← cell h §"addr"; u ← cell h §"up"; c ← cell_or h §"checked" (JBool true);
  o ← cell h §"consecutive_ok"; f ← cell h §"consecutive_fail"; t ← cell h §"last_rtt_us";
  lc ← item h §"last_change_ms"; ms ← get_i64 lc;
  Val [v; a; u; c; o; f; t; ago ms].

Definition health_header : list str := [§"VIP"; §"REAL"; §"UP"; §"CHECKED"; §"OK"; §"FAIL"; §"RTT_US"; §"LAST_CHANGE"].

Definition print_health (rows : json) : acc str :=
  rs ← each health_row (elements rows);
  Val (table_print (health_header :: rs)).

Definition print_result (command : str) (result : json) : acc str :=
  if bool_decide (command = §"vip.list") then print_vips result else
  if bool_decide (command = §"stats") then print_stats result else
  if bool_decide (command = §"flows") then print_flows result else
  if bool_decide (command = §"ring.show") then print_ring result else
  if bool_decide (command = §"health") then print_health result else
  if bool_decide (command = §"config") then Val (dump2 result ++ nl) else
  match result with
  | JString s => Val (s ++ nl)
  | JObject (_ :: _) => Val (mjoin ((λ kv : str * json, kv.1 ++ §" " ++ to_cell kv.2 ++ nl) <$> items result))
  | _ => Val (§"ok" ++ nl)
  end.

End print.

(** ** Lemmas: every answer of the daemon can be printed *)

Section answers.
Context `{L : Lib} `{LL : !LibLaws L}.

Definition prints {A} (x : acc A) : Prop := ∃ a, x = Val a.

Lemma prints_ret {A} (a : A) : prints (Val a).
Proof. by exists a. Qed.

Lemma bind_val {A B} (a : A) (k : A → acc B) : Val a ≫= k = k a.
Proof. done. Qed.

Lemma prints_bind {A B} (x : acc A) (k : A → acc B) : prints x → (∀ a, prints (k a)) → prints (x ≫= k).
Proof. intros [a ->] Hk. apply Hk. Qed.

Lemma prints_each {A B} (f : A → acc B) l : Forall (λ x, prints (f x)) l → prints (each f l).
Proof.
  induction 1 as [| x l Hx _ IH]; cbn [each]; [apply prints_ret |].
  apply prints_bind; [done | intros y]. apply prints_bind; [done | intros ys]. apply prints_ret.
Qed.

(** An object of counters. *)
Definition uints (l : list (str * json)) : Prop := Forall (λ kv, ∃ n, kv.2 = JUInt n) l.
Definition counts (v : json) : Prop := ∃ l, v = JObject l ∧ uints l.
Definition real_counts (v : json) : Prop := ∃ p b, v = JObject [(§"packets", JUInt p); (§"bytes", JUInt b)].

Lemma Forall_set_key (P : json → Prop) key v l :
  P v → Forall (λ kv : str * json, P kv.2) l → Forall (λ kv, P kv.2) (set_key key v l).
Proof.
  intros Hv. induction 1 as [| kv l Hk Hl IH]; cbn [set_key]; [by repeat constructor |].
  case_bool_decide; by constructor.
Qed.

Lemma Forall_items (P : json → Prop) l :
  Forall (λ kv : str * json, P kv.2) l → Forall (λ kv, P kv.2) (items (JObject l)).
Proof. intros H. cbn [items]. by rewrite merge_sort_Permutation. Qed.

Lemma counters_json_counts c : counts (counters_json c).
Proof.
  eexists. split; [reflexivity |]. unfold uints. generalize (zip kCounterNames c). intros l.
  assert (Forall (λ kv : str * json, ∃ n, kv.2 = JUInt n) []) as H0 by constructor. revert H0.
  generalize (@nil (str * json)). induction l as [| x l IH]; intros out H; cbn [foldl]; [done |].
  apply IH. apply (Forall_set_key (λ v, ∃ n, v = JUInt n)); [eauto | done].
Qed.

Lemma prints_drops l d : uints l → prints (sum_drops l d).
Proof.
  intros H. revert d. induction H as [| kv l [n E] _ IH]; intros d; cbn [sum_drops]; [apply prints_ret |].
  destruct (Libc.starts_with _ _); [| apply IH]. rewrite E, get_u64_uint. apply IH.
Qed.

Lemma prints_stat_row nc : counts nc.2 → prints (stat_row nc).
Proof.
  intros (l & E & Hl). unfold stat_row. rewrite E. apply prints_bind.
  - apply prints_each, Forall_forall. intros k _. apply prints_ret.
  - intros cells. apply prints_bind; [| intros d; apply prints_ret]. by apply prints_drops, (Forall_items (λ v, ∃ n, v = JUInt n)).
Qed.

Lemma prints_global g : counts g → prints (each global_item (items g)).
Proof.
  intros (l & -> & Hl). apply prints_each. eapply Forall_impl; [by apply (Forall_items (λ v, ∃ n, v = JUInt n)) |].
  intros kv [n E]. unfold global_item. rewrite E, get_u64_uint. apply prints_ret.
Qed.

Lemma prints_real_row ac : real_counts ac.2 → prints (real_row ac).
Proof. intros (p & b & E). unfold real_row. rewrite E. apply prints_ret. Qed.

Lemma prints_stats g vips reals :
  counts g → Forall (λ kv : str * json, counts kv.2) vips → Forall (λ kv : str * json, real_counts kv.2) reals →
  prints (print_stats (JObject [(§"global", g); (§"vips", JObject vips); (§"reals", JObject reals)])).
Proof.
  intros Hg Hv Hr. unfold print_stats. change (item _ §"vips") with (Val (JObject vips)).
  change (item _ §"global") with (Val g). change (item _ §"reals") with (Val (JObject reals)).
  rewrite !bind_val. apply prints_bind.
  { apply prints_each. eapply Forall_impl; [by apply Forall_items |]. apply prints_stat_row. }
  intros rows. rewrite bind_val. apply prints_bind; [by apply prints_global |]. intros gs. rewrite bind_val.
  apply prints_bind; [| intros r; apply prints_ret]. destruct (empty _); [apply prints_ret |]. apply prints_bind; [| intros; apply prints_ret].
  apply prints_each. eapply Forall_impl; [by apply Forall_items |]. apply prints_real_row.
Qed.

(** What the stats command collects. *)
Lemma stats_reals_shape l reals w out w' :
  Forall (λ kv : str * json, real_counts kv.2) reals → stats_reals l reals w = (Ok out, w') →
  Forall (λ kv : str * json, real_counts kv.2) out.
Proof.
  revert reals w. induction l as [| r l IH]; intros reals w Hr; cbn [stats_reals]; [by intros [= <- _] |].
  unfold mbind, M_bind at 1. destruct (Reader.real_counters (LbState.rv_real_id r) w) as [[rs | ex] w1]; [| done].
  apply IH. apply (Forall_set_key real_counts); [| done]. by eexists _, _.
Qed.

Lemma stats_vips_shape only l vips reals found w vips' reals' found' w' :
  Forall (λ kv : str * json, counts kv.2) vips → Forall (λ kv : str * json, real_counts kv.2) reals →
  stats_vips only l vips reals found w = (Ok (vips', reals', found'), w') →
  Forall (λ kv : str * json, counts kv.2) vips' ∧ Forall (λ kv : str * json, real_counts kv.2) reals'.
Proof.
  revert vips reals found w. induction l as [| v l IH]; intros vips reals found w Hv Hr; cbn [stats_vips]; [by intros [= <- <- _ _] |].
  destruct (match only with Some _ => _ | None => _ end); [by apply IH |]. unfold mbind, M_bind at 1.
  destruct (Reader.counters (LbState.vw_vip_id v) w) as [[c | ex] w1]; [| done]. unfold M_bind at 1.
  destruct (stats_reals (LbState.vw_reals v) reals w1) as [[rs | ex] w2] eqn:E; [| done].
  apply IH; [| by eapply stats_reals_shape]. apply (Forall_set_key counts); [apply counters_json_counts | done].
Qed.

Lemma stats_prints req w v w' : stats req w = (Ok v, w') → prints (print_stats v).
Proof.
  unfold stats. rewrite lift_bind. destruct (optional req §"vip" (arg_vip req)) as [only | ex]; [| done].
  rewrite bind_get. unfold mbind, M_bind at 1.
  destruct (stats_vips only _ [] [] false w) as [[[[vips reals] found] | ex] w1] eqn:E; [| done].
  apply stats_vips_shape in E as [Hv Hr]; [| constructor..]. destruct only as [x |], found; try done;
    (unfold mbind, M_bind at 1; destruct (Reader.counters PB_STATS_GLOBAL w1) as [[g | ex] w2]; [| done]; intros [= <- _];
     apply prints_stats; [apply counters_json_counts | done | done]).
Qed.

Lemma ring_slots_uints names ids : uints (ring_slots names ids).
Proof.
  unfold ring_slots. assert (uints [(§"none", JUInt 0)]) as H0 by (repeat constructor; by eexists). revert H0.
  generalize [(§"none", JUInt 0)]. induction (LbState.addr_keys ids) as [| id l IH]; intros out H; cbn [foldl]; [done |].
  apply IH. destruct (id =? PB_REAL_NONE); (apply (Forall_set_key (λ v, ∃ n, v = JUInt n)); [by eexists | done]).
Qed.

Lemma prints_ring_row sz an : (∃ n, an.2 = JUInt n) → prints (ring_row (JUInt sz) an).
Proof.
  intros [n E]. unfold ring_row. rewrite E, get_u64_uint. destruct (percent_uint n sz) as [t Et].
  apply prints_bind; [destruct (negb _); apply prints_ret |]. intros [|]; [rewrite Et |]; apply prints_ret.
Qed.

Lemma ring_prints e h req w v w' : ring_show e h req w = (Ok v, w') → prints (print_ring v).
Proof.
  unfold ring_show. rewrite lift_bind. destruct (arg_vip req) as [spec | ex]; [| done]. rewrite bind_get.
  destruct (LbState.find (obj w) spec) as [view |]; [| done]. unfold mbind, M_bind.
  destruct (Reader.read_ring e (h_rings h) (LbState.vw_vip_id view) w) as [[ring | ex] w1]; [| done].
  intros [= <- _]. set (slots := ring_slots _ _). assert (uints slots) as Hs by apply ring_slots_uints. clearbody slots.
  unfold print_ring. change (item _ §"size") with (Val (jnat (length ring))). change (item _ §"slots") with (Val (JObject slots)).
  rewrite bind_val. unfold jnat. rewrite get_double_uint, bind_val, get_u64_uint.
  apply prints_bind; [apply prints_ret | intros hs]. rewrite bind_val.
  apply prints_bind; [apply prints_ret | intros gs]. rewrite bind_val.
  apply prints_bind; [| intros; apply prints_ret]. apply prints_each.
  eapply Forall_impl; [by apply (Forall_items (λ v, ∃ n, v = JUInt n)) |]. intros an. apply prints_ring_row.
Qed.

Lemma vips_print vs : prints (print_vips (JArray (vip_json <$> vs))).
Proof.
  unfold print_vips. apply prints_bind; [| intros; apply prints_ret]. apply prints_each. cbn [elements].
  apply Forall_fmap, Forall_forall. intros v _. cbn [compose]. unfold vip_rows. change (value_int _ §"flags" 0) with (get_int (JUInt (LbState.vw_flags v))).
  rewrite get_int_uint, bind_val. change (item _ §"reals") with (Val (JArray (real_json <$> LbState.vw_reals v))). rewrite bind_val.
  assert (prints (vip_head (vip_json v))) as Hh.
  { unfold vip_head. change (value_int _ §"flags" 0) with (get_int (JUInt (LbState.vw_flags v))). rewrite get_int_uint. apply prints_ret. }
  apply prints_bind; [destruct (empty _); [by apply prints_bind; [| intros; apply prints_ret] | apply prints_ret] |].
  intros none. apply prints_bind; [| intros; apply prints_ret]. apply prints_each. cbn [elements].
  apply Forall_fmap, Forall_forall. intros r _. cbn [compose]. unfold vip_real_row. apply prints_bind; [done | intros hd]. apply prints_ret.
Qed.

Lemma flows_print names now rows : prints (print_flows (JArray (flow_json names now <$> rows))).
Proof.
  unfold print_flows. apply prints_bind; [| intros; apply prints_ret]. apply prints_each. cbn [elements].
  apply Forall_fmap, Forall_forall. intros f _. apply prints_ret.
Qed.

Lemma health_print vs : prints (print_health (JArray (vs ≫= λ v, health_json v <$> LbState.vw_reals v))).
Proof.
  unfold print_health. apply prints_bind; [| intros; apply prints_ret]. apply prints_each. cbn [elements].
  apply Forall_forall. intros x (v & (r & -> & _)%list_elem_of_fmap & _)%list_elem_of_bind.
  unfold health_row. change (item _ §"last_change_ms") with (Val (JInt (LbState.rv_last_change_ms r))). do 7 (apply prints_bind; [apply prints_ret | intros ?]).
  rewrite bind_val, get_i64_int. apply prints_ret.
Qed.

Lemma small_answer_prints cmd v :
  cmd ∉ [§"vip.list"; §"stats"; §"flows"; §"ring.show"; §"health"] → prints (print_result cmd v).
Proof.
  intros H. unfold print_result. rewrite !bool_decide_eq_false_2 by (intros ->; apply H; rewrite !elem_of_cons; clear; tauto).
  destruct (bool_decide _); [apply prints_ret |]. destruct v as [| | | | | | | [|]]; apply prints_ret.
Qed.

End answers.

(** ** Theorems *)

(** C34: pbctl can print whatever the daemon answers: for every request the
    daemon answers with success, the printer of its command reads only keys that
    are there and numbers that are numbers, so it neither throws nor runs into
    undefined behaviour. *)
Theorem answers_print `{L : Lib} `{LL : !LibLaws L} (e : CEnv) (h : Handler) (req v : json) (cmd : str) (w w' : World LbState.t) :
  arg_string req §"cmd" = Ok cmd → dispatch e h req w = (Ok v, w') → ∃ text, print_result cmd v = Val text.
Proof.
  intros Hcmd. destruct (decide (cmd ∈ [§"vip.list"; §"stats"; §"flows"; §"ring.show"; §"health"])) as [Hin |];
    [| intros _; by apply small_answer_prints].
  unfold dispatch. rewrite Hcmd, lift_bind.
  rewrite !elem_of_cons, elem_of_nil in Hin. destruct Hin as [-> | [-> | [-> | [-> | [-> | []]]]]];
    repeat (rewrite bool_decide_eq_false_2 by discriminate); rewrite ?bool_decide_eq_true_2 by done; cbn [orb].
  - intros [= <- _]. apply vips_print.
  - apply stats_prints.
  - unfold flows_cmd. rewrite lift_bind. destruct (optional _ _ _) as [vip |]; [| done]. rewrite bind_get, lift_bind.
    destruct (flow_real _ _) as [id |]; [| done]. rewrite lift_bind. destruct (arg_uint _ _ _) as [limit |]; [| done].
    intros [= <- _]. apply flows_print.
  - apply ring_prints.
  - intros [= <- _]. apply health_print.
Qed.

(** ** Lemmas: tables *)

Definition widths (rows : list (list str)) : list nat := foldl widen [] rows.

(** Every cell of the row fits its column. *)
Definition fits (width : list nat) (r : list str) : Prop :=
  ∀ i c, r !! i = Some c → ∃ x, width !! i = Some x ∧ (length c <= x)%nat.

Lemma widen_fits width r : fits (widen width r) r.
Proof.
  revert width. induction r as [| c r IH]; intros width i d Hd; [done |].
  destruct width as [| x width], i as [| i]; cbn in *; try (injection Hd as <-; eexists; split; [done | lia]); by apply IH.
Qed.

Lemma widen_mono width r i x : width !! i = Some x → ∃ y, widen width r !! i = Some y ∧ (x <= y)%nat.
Proof.
  revert width i. induction r as [| c r IH]; intros width i H; [by exists x |].
  destruct width as [| z width]; [done |]. destruct i as [| i]; cbn in *; [| by apply IH].
  injection H as ->. eexists. split; [done | lia].
Qed.

Lemma widths_mono rows width i x : width !! i = Some x → ∃ y, foldl widen width rows !! i = Some y ∧ (x <= y)%nat.
Proof.
  revert width x. induction rows as [| r rows IH]; intros width x H; cbn [foldl]; [by exists x |].
  destruct (widen_mono width r i x H) as (y & Hy & ?). destruct (IH _ _ Hy) as (z & ? & ?). exists z. split; [done | lia].
Qed.

Lemma widths_fit rows r : r ∈ rows → fits (widths rows) r.
Proof.
  unfold widths. generalize (@nil nat). induction rows as [| r' rows IH]; intros width Hr; [by apply not_elem_of_nil in Hr |].
  apply elem_of_cons in Hr as [-> | Hr]; [| by apply IH]. intros i c Hc. cbn [foldl].
  destruct (widen_fits width r' i c Hc) as (x & Hx & ?). destruct (widths_mono rows _ _ _ Hx) as (y & ? & ?). exists y. split; [done | lia].
Qed.

(** Where column i starts. *)
Definition column (width : list nat) (i : nat) : nat := sum_list ((λ x, x + 2)%nat <$> take i width).

Lemma table_line_column width r i c :
  fits width r → r !! i = Some c → ∃ tail, drop (column width i) (table_line width r) = c ++ tail.
Proof.
  revert width i. induction r as [| d r IH]; intros width i Hf Hc; [done |].
  destruct (Hf 0%nat d eq_refl) as (x & Hx & Hl). destruct width as [| x' width]; [done |]. injection Hx as ->.
  assert (fits width r) as Hf' by (intros j e Hj; exact (Hf (S j) e Hj)).
  destruct i as [| i]; [injection Hc as -> |].
  - unfold column. rewrite take_0. cbn. destruct r; [exists []; by rewrite app_nil_r |]. by eexists.
  - cbn in Hc. destruct r as [| d' r']; [done |]. destruct (IH width i Hf' Hc) as [tail E]. exists tail. rewrite <-E.
    change (column (x :: width) (S i)) with (x + 2 + column width i)%nat.
    change (table_line (x :: width) (d :: d' :: r')) with (d ++ spaces (x - length d + 2) ++ table_line width (d' :: r')).
    rewrite app_assoc, <-drop_drop, drop_app_length'; [done |]. unfold spaces. rewrite length_app, length_replicate. lia.
Qed.

(** In a printed table every column starts at the same offset on every line
    and leaves two spaces to the widest cell of the column before it: cell i of
    a row is found where the first i columns and their gaps end, and it is no
    wider than its column. *)
Theorem table_aligned (rows : list (list str)) (r : list str) (i : nat) (c : str) :
  r ∈ rows → r !! i = Some c →
  ∃ before line after tail x,
    table_print rows = before ++ line ++ nl ++ after ∧
    drop (column (widths rows) i) line = c ++ tail ∧ widths rows !! i = Some x ∧ (length c <= x)%nat.
Proof.
  intros Hr Hc. pose proof (widths_fit rows r Hr) as Hf. destruct (table_line_column _ _ _ _ Hf Hc) as [tail Ht].
  destruct (Hf i c Hc) as (x & Hx & Hl). destruct (list_elem_of_split _ _ Hr) as (l1 & l2 & E).
  exists (mjoin ((λ r, table_line (widths rows) r ++ nl) <$> l1)), (table_line (widths rows) r),
    (mjoin ((λ r, table_line (widths rows) r ++ nl) <$> l2)), tail, x. split_and!; [| done..].
  unfold table_print. fold (widths rows). generalize (widths rows). intros width. rewrite E, fmap_app, join_app. cbn [fmap list_fmap mjoin list_join]. by rewrite <-!app_assoc.
Qed.

(** ** Witnesses *)

(** A library that prints numbers. *)
Definition num_of (v : json) : acc Z := match v with JUInt z | JInt z => Val z | _ => Err §"type error" end.
Definition demo_lib : Lib := {|
  get_int v := z ← num_of v; Val (s32 z); get_u64 v := z ← num_of v; Val (u64 z); get_i64 v := z ← num_of v; Val (s64 z);
  dump v := match v with JUInt z => VipSpec.to_string z | _ => [] end; dump2 v := []; type_error := §"type error";
  percent a b := x ← num_of a; y ← num_of b; Val (VipSpec.to_string (100 * x / y)); get_double v := _ ← num_of v; Val (); ago _ := §"now" |}.

Lemma demo_laws : LibLaws demo_lib.
Proof. constructor; intros; try reflexivity. by eexists. Qed.

Definition list_request : json := JObject [(§"cmd", JString §"vip.list")].

(** The list of a balancer with two VIPs. *)
Lemma answers_print_witness :
  let w := LbTheorems.two_world LbTheorems.table7_mac true in
  ∃ v1 v2 text, dispatch LbTheorems.env0 (demo_handler list_request) list_request w = (Ok (JArray [v1; v2]), w) ∧
    @print_result demo_lib §"vip.list" (JArray [v1; v2]) = Val text.
Proof.
  intros w. eexists _, _.
  assert (dispatch LbTheorems.env0 (demo_handler list_request) list_request w = (Ok (JArray [_; _]), w)) as Hd by reflexivity.
  destruct (@answers_print demo_lib demo_laws LbTheorems.env0 (demo_handler list_request) list_request _ §"vip.list" w w eq_refl Hd) as [text Ht].
  exists text. split; [exact Hd | exact Ht].
Defined.

Lemma table_aligned_witness :
  let rows := [[§"A"; §"B"]; [§"abc"; §"d"]] in
  ∃ before line after tail x,
    table_print rows = before ++ line ++ nl ++ after ∧
    drop (column (widths rows) 1) line = §"B" ++ tail ∧ widths rows !! 1%nat = Some x ∧ (1 <= x)%nat.
Proof. intros rows. apply (table_aligned rows [§"A"; §"B"] 1 §"B"); [apply elem_of_cons; left; reflexivity | reflexivity]. Defined.

End Format.
