(* ===== verification/Pbctl.v ===== *)
(** * The command-line client (src/pbctl/main.cpp, client.cpp)

    pbctl turns its words into one JSON request, sends it to the daemon's socket,
    and prints the answer. The words are parsed as the source does; the socket is
    a list of outcomes per call; the JSON library is a parser and printer. *)

From Stdlib Require Import ZArith Lia Ascii String.
From S2P Require Import Prelude Abi VipSpec Maglev Control RealTable Config LbState LbInv LbProps LbTheorems System ConfigFile ApiServer Commands Libc Format.

Module Pbctl.
Import Cli Commands.

Definition kUsage : str := §"usage: pbctl [--socket PATH] [--json] <command> ...

  vip add VIP [--no-conntrack]        VIP is ADDR:PORT/PROTO, e.g. 198.51.100.1:80/tcp
  vip del VIP
  vip list
  real add VIP ADDR [--weight N]
  real del VIP ADDR
  real weight VIP ADDR N
  real drain VIP ADDR                 no new flows; tracked flows continue
  real undrain VIP ADDR
  stats [--vip VIP]
  flows [--vip VIP] [--real ADDR] [--limit N]
  ring show VIP
  health
  reload                              re-read the daemon's YAML config
  config
  ping

  --socket PATH   daemon socket (default /run/packetbalance.sock, or $PBCTL_SOCKET)
  --json          print the raw JSON result
".

Definition usage {A} (msg : str) : cli A :=
  if bool_decide (msg = []) then Exit 0 kUsage
  else Exit 2 (§"pbctl: " ++ msg ++ §" (see pbctl --help)" ++ Format.nl).

(** ** Arguments *)

(** Positional arguments, and the options with their values, the latest first. *)
Record Args := mk_args {
  positional : list str;
  flags : list (str * str)
}.

Definition contains (v : list str) (s : str) : bool := bool_decide (s ∈ v).

Fixpoint args_from (value_flags bool_flags : list str) (words : list str) (a : Args) : cli Args :=
  match words with
  | [] => Go a
  | w :: words =>
      if negb (Libc.starts_with §"--" w) then args_from value_flags bool_flags words (mk_args (positional a ++ [w]) (flags a)) else
      if contains bool_flags w then args_from value_flags bool_flags words (mk_args (positional a) ((w, []) :: flags a)) else
      if contains value_flags w then
        match words with
        | [] => usage (w ++ §" needs a value")
        | v :: words => args_from value_flags bool_flags words (mk_args (positional a) ((w, v) :: flags a))
        end
      else usage (§"unknown option " ++ w)
  end.

Definition args (words value_flags bool_flags : list str) : cli Args := args_from value_flags bool_flags words (mk_args [] []).

Definition pos (a : Args) (i : nat) (what : str) : cli str :=
  match positional a !! i with None => usage (§"missing " ++ what) | Some s => Go s end.

Definition expect_count (a : Args) (n : nat) : cli unit :=
  match positional a !! n with Some s => usage (§"unexpected argument " ++ s) | None => Go () end.

Definition flag (a : Args) (f : str) : option str := ConfigFile.assoc f (flags a).

Definition vip_arg (s : str) : cli str :=
  match VipSpec.parse s with Ok _ => Go s | Throw ex => usage (what ex) end.

Definition number (s what : str) : cli Z :=
  match Libc.stoul 10 s with
  | Ok (n, used) => if (used =? length s)%nat then Go n else usage (§"bad " ++ what ++ §": " ++ s)
  | Throw _ => usage (§"bad " ++ what ++ §": " ++ s)
  end.

(** ** The request *)

Definition vip_command (verb : str) (rest : list str) : cli json :=
  if bool_decide (verb = §"add") then
    a ← args rest [] [§"--no-conntrack"];
    _ ← expect_count a 1;
    v ← pos a 0 §"VIP"; v ← vip_arg v;
    let req := [(§"cmd", JString §"vip.add"); (§"vip", JString v)] in
    match flag a §"--no-conntrack" with
    | None => Go (JObject req)
    | Some _ => Go (JObject (set_key §"no_conntrack" (JBool true) req))
    end
  else if bool_decide (verb = §"del") then
    a ← args rest [] [];
    _ ← expect_count a 1;
    v ← pos a 0 §"VIP"; v ← vip_arg v;
    Go (JObject [(§"cmd", JString §"vip.del"); (§"vip", JString v)])
  else if bool_decide (verb = §"list") then
    a ← args rest [] [];
    _ ← expect_count a 0;
    Go (JObject [(§"cmd", JString §"vip.list")])
  else usage §"vip needs add|del|list".

Definition real_command (verb : str) (rest : list str) : cli json :=
  if bool_decide (verb = §"add") then
    a ← args rest [§"--weight"] [];
    _ ← expect_count a 2;
    v ← pos a 0 §"VIP"; v ← vip_arg v;
    r ← pos a 1 §"ADDR";
    let req := [(§"cmd", JString §"real.add"); (§"vip", JString v); (§"addr", JString r)] in
    match flag a §"--weight" with
    | None => Go (JObject req)
    | Some s => n ← number s §"weight"; Go (JObject (set_key §"weight" (JUInt n) req))
    end
  else if bool_decide (verb = §"weight") then
    a ← args rest [] [];
    _ ← expect_count a 3;
    v ← pos a 0 §"VIP"; v ← vip_arg v;
    r ← pos a 1 §"ADDR";
    s ← pos a 2 §"WEIGHT"; n ← number s §"weight";
    Go (JObject [(§"cmd", JString §"real.weight"); (§"vip", JString v); (§"addr", JString r); (§"weight", JUInt n)])
  else if bool_decide (verb = §"del") || bool_decide (verb = §"drain") || bool_decide (verb = §"undrain") then
    a ← args rest [] [];
    _ ← expect_count a 2;
    v ← pos a 0 §"VIP"; v ← vip_arg v;
    r ← pos a 1 §"ADDR";
    Go (JObject [(§"cmd", JString (§"real." ++ verb)); (§"vip", JString v); (§"addr", JString r)])
  else usage §"real needs add|del|weight|drain|undrain".

(** if (a.has(f)) req[key] = conv(a.flag(f)); *)
Definition with_flag (a : Args) (f key : str) (conv : str → cli json) (req : list (str * json)) : cli (list (str * json)) :=
  match flag a f with None => Go req | Some s => v ← conv s; Go (set_key key v req) end.

Definition stats_command (words : list str) : cli json :=
  a ← args words [§"--vip"] [];
  _ ← expect_count a 0;
  req ← with_flag a §"--vip" §"vip" (λ s, v ← vip_arg s; Go (JString v)) [(§"cmd", JString §"stats")];
  Go (JObject req).

Definition flows_command (words : list str) : cli json :=
  a ← args words [§"--vip"; §"--real"; §"--limit"] [];
  _ ← expect_count a 0;
  req ← with_flag a §"--vip" §"vip" (λ s, v ← vip_arg s; Go (JString v)) [(§"cmd", JString §"flows")];
  req ← with_flag a §"--real" §"real" (λ s, Go (JString s)) req;
  req ← with_flag a §"--limit" §"limit" (λ s, n ← number s §"limit"; Go (JUInt n)) req;
  Go (JObject req).

Definition build_request (words : list str) : cli json :=
  match words with
  | [] => usage §"missing command"
  | noun :: tail =>
      let verb := default [] (head tail) in
      let rest := drop 1 tail in
      if bool_decide (noun ∈ [§"ping"; §"health"; §"reload"; §"config"]) then
        match tail with [] => Go (JObject [(§"cmd", JString noun)]) | w :: _ => usage (§"unexpected argument " ++ w) end
      else if bool_decide (noun = §"vip") then vip_command verb rest
      else if bool_decide (noun = §"real") then real_command verb rest
      else if bool_decide (noun = §"stats") then stats_command tail
      else if bool_decide (noun = §"flows") then flows_command tail
      else if bool_decide (noun = §"ring") then
        if negb (bool_decide (verb = §"show")) then usage §"ring needs show" else
        a ← args rest [] [];
        _ ← expect_count a 1;
        v ← pos a 0 §"VIP"; v ← vip_arg v;
        Go (JObject [(§"cmd", JString §"ring.show"); (§"vip", JString v)])
      else usage (§"unknown command " ++ noun)
  end.

(** ** The call *)

(** What read does: it is interrupted, fails, is at the end, or gives bytes. *)
Inductive read_result : Type :=
| ReadIntr
| ReadFail (strerror : str)
| ReadEnd
| Read (chunk : str).

(** The socket: each system call's outcome, an error as its text. *)
Record Net := mk_net {
  n_socket : option str;
  n_connect : option str;
  n_writes : list ApiServer.send_result;
  n_write_error : str;
  n_reads : list read_result
}.

(** The JSON library, as this program uses it. *)
Record Client := mk_client {
  c_dump : json → str;                  (* request.dump() *)
  c_parse : str → parsed
}.

(** while (resp.find('\n') == npos) { ... }; after the last outcome the daemon is gone. *)
Fixpoint read_line (reads : list read_result) (resp : str) : result str :=
  if bool_decide (ApiServer.nl ∈ resp) then Ok resp else
  match reads with
  | [] | ReadEnd :: _ => Ok resp
  | ReadIntr :: reads => read_line reads resp
  | ReadFail e :: _ => Throw (runtime_error (§"read: " ++ e))
  | Read chunk :: reads => read_line reads (resp ++ chunk)
  end.

Definition sun_path_size : nat := 108.

(** The bytes of the request line. *)
Definition request_line (c : Client) (request : json) : str := c_dump c request ++ [ApiServer.nl].

Definition call (c : Client) (net : Net) (socket_path : str) (request : json) : result json :=
  if (sun_path_size <=? length socket_path)%nat then Throw (runtime_error §"socket path too long") else
  match n_socket net with Some e => Throw (runtime_error (§"socket: " ++ e)) | None =>
  match n_connect net with
  | Some e => Throw (runtime_error (§"cannot connect to " ++ socket_path ++ §": " ++ e ++ §" (is packetbalance running?)"))
  | None =>
      let '(ok, _, _) := ApiServer.write_all (n_writes net) (request_line c request) in
      if negb ok then Throw (runtime_error (§"write: " ++ n_write_error net)) else
      resp ← read_line (n_reads net) [];
      if bool_decide (resp = []) then Throw (runtime_error §"daemon closed the connection without answering") else
      match c_parse c (match Config.find ApiServer.nl resp with Some i => take i resp | None => resp end) with
      | PValue v => Ok v
      | PParseError e | POtherError e => Throw (runtime_error (§"bad response from daemon: " ++ e))
      end
  end end.

(** ** main *)

Record Line := mk_line {
  l_socket : str;
  l_raw : bool;
  l_words : list str
}.

(** The global options. *)
Fixpoint globals (argv : list str) (l : Line) : cli Line :=
  match argv with
  | [] => Go l
  | a :: argv =>
      if bool_decide (a = §"--socket") then
        match argv with
        | [] => usage §"--socket needs a value"
        | p :: argv => globals argv (mk_line p (l_raw l) (l_words l))
        end
      else if bool_decide (a = §"--json") then globals argv (mk_line (l_socket l) true (l_words l))
      else if bool_decide (a ∈ [§"-h"; §"--help"; §"help"]) then usage []
      else globals argv (mk_line (l_socket l) (l_raw l) (l_words l ++ [a]))
  end.

Definition default_socket (env : option str) : str := default §"/run/packetbalance.sock" env.

(** What main leaves: the exit status, the standard output and error. *)
Record Outcome := mk_outcome {
  status : Z;
  out : str;
  err : str
}.

Definition fails (msg : str) : Outcome := mk_outcome 1 [] (§"error: " ++ msg ++ Format.nl).

Definition ended (n : Z) (text : str) : Outcome :=
  if n =? 0 then mk_outcome n text [] else mk_outcome n [] text.

Section main.
Context `{L : Format.Lib}.

(** resp.value("ok", false) and resp.value("error", ...) *)
Definition value_bool (v : json) (key : str) (fallback : bool) : result bool :=
  match v with
  | JObject l => match get_key key l with Some (JBool b) => Ok b | None => Ok fallback | _ => Throw (runtime_error Format.type_error) end
  | _ => Throw (runtime_error Format.type_error)
  end.
Definition value_string (v : json) (key fallback : str) : result str :=
  match v with
  | JObject l => match get_key key l with Some (JString s) => Ok s | None => Ok fallback | _ => Throw (runtime_error Format.type_error) end
  | _ => Throw (runtime_error Format.type_error)
  end.

(** What is done with the answer; None where the behaviour is undefined. *)
Definition show_answer (raw : bool) (request resp : json) : option Outcome :=
  match value_bool resp §"ok" false with
  | Throw ex => Some (fails (what ex))
  | Ok false =>
      match value_string resp §"error" §"unknown error" with
      | Throw ex => Some (fails (what ex))
      | Ok e => Some (fails e)
      end
  | Ok true =>
      match Format.item resp §"result" with
      | Format.Undef => None
      | Format.Err e => Some (fails e)
      | Format.Val result =>
          if raw then Some (mk_outcome 0 (Format.dump2 result ++ Format.nl) []) else
          match arg_string request §"cmd" with
          | Throw ex => Some (fails (what ex))
          | Ok cmd =>
              match Format.print_result cmd result with
              | Format.Undef => None
              | Format.Err e => Some (fails e)
              | Format.Val text => Some (mk_outcome 0 text [])
              end
          end
      end
  end.

Definition main (c : Client) (net : Net) (env : option str) (argv : list str) : option Outcome :=
  match (l ← globals argv (mk_line (default_socket env) false []); req ← build_request (l_words l); Go (l, req)) with
  | Exit n text => Some (ended n text)
  | Go (l, req) =>
      match call c net (l_socket l) req with
      | Throw ex => Some (fails (what ex))
      | Ok resp => show_answer (l_raw l) req resp
      end
  end.

End main.

(** ** Specification-level definitions *)

(** The command line an operator types for a call of the model. *)
Definition words_of (c : LbProps.api_call) : list str :=
  match c with
  | LbProps.AddVip v nc => ([§"vip"; §"add"; VipSpec.to_str v]) ++ (if nc then [§"--no-conntrack"] else [])
  | LbProps.DelVip v => [§"vip"; §"del"; VipSpec.to_str v]
  | LbProps.AddReal v a n => [§"real"; §"add"; VipSpec.to_str v; VipSpec.ipv4_to_string a; §"--weight"; VipSpec.to_string n]
  | LbProps.DelReal v a => [§"real"; §"del"; VipSpec.to_str v; VipSpec.ipv4_to_string a]
  | LbProps.SetWeight v a n => [§"real"; §"weight"; VipSpec.to_str v; VipSpec.ipv4_to_string a; VipSpec.to_string n]
  | LbProps.SetDraining v a b => [§"real"; (if b then §"drain" else §"undrain"); VipSpec.to_str v; VipSpec.ipv4_to_string a]
  end.

(** The calls that can be written: a VIP, an address and a 32-bit weight. *)
Definition call_typed (c : LbProps.api_call) : Prop :=
  match c with
  | LbProps.AddVip v _ | LbProps.DelVip v => VipSpec.valid v
  | LbProps.DelReal v a | LbProps.SetDraining v a _ => VipSpec.valid v ∧ is_u 32 a
  | LbProps.AddReal v a n | LbProps.SetWeight v a n => VipSpec.valid v ∧ is_u 32 a ∧ is_u 32 n
  end.

(** ** Lemmas: words *)

(** Words that start with a digit are no options. *)
Definition plain (w : str) : Prop := ∃ c r, w = c :: r ∧ VipSpec.isdigit c = true.

Lemma plain_app w r : plain w → plain (w ++ r).
Proof. intros (c & t & -> & H). by exists c, (t ++ r). Qed.

Lemma plain_to_string n : 0 <= n < 2 ^ 64 → plain (VipSpec.to_string n).
Proof.
  intros Hn. destruct (VipSpec.to_string_spec n 20) as (Hd & Hne & _); [lia.. |]. destruct (VipSpec.to_string n) as [| c r]; [done |].
  exists c, r. split; [done | by apply Forall_inv in Hd].
Qed.

Lemma plain_ipv4 a : plain (VipSpec.ipv4_to_string a).
Proof. unfold VipSpec.ipv4_to_string. apply plain_app, plain_to_string. pose proof (VipSpec.byte_of_range a 0 ltac:(done)). lia. Qed.

Lemma plain_vip v : plain (VipSpec.to_str v).
Proof. unfold VipSpec.to_str. apply plain_app, plain_ipv4. Qed.

Lemma plain_not_option w : plain w → Libc.starts_with §"--" w = false.
Proof.
  intros (c & r & -> & H). cbn. rewrite bool_decide_eq_false_2; [done |]. intros <-. vm_compute in H. discriminate H.
Qed.

Lemma plain_global w l : plain w → (w ∉ [§"--socket"; §"--json"; §"-h"; §"--help"; §"help"]) ∧ l ++ [w] ≠ [].
Proof.
  intros (c & r & -> & H). split; [| by destruct l]. rewrite !elem_of_cons, elem_of_nil.
  intros [E | [E | [E | [E | [E | []]]]]]; injection E as -> _; vm_compute in H; discriminate H.
Qed.

Create HintDb pbctl discriminated.
#[local] Hint Resolve plain_ipv4 plain_vip : pbctl.
#[local] Hint Constructors Forall : pbctl.

Lemma args_words vf bf ws rest a :
  Forall plain ws → args_from vf bf (ws ++ rest) a = args_from vf bf rest (mk_args (positional a ++ ws) (flags a)).
Proof.
  intros H. revert a. induction H as [| w ws Hw _ IH]; intros a; cbn [app args_from]; [destruct a; cbn; by rewrite app_nil_r |].
  rewrite plain_not_option by done. cbn [negb]. rewrite IH. cbn [positional flags]. by rewrite <-app_assoc.
Qed.

Lemma args_plain vf bf ws : Forall plain ws → args ws vf bf = Go (mk_args ws []).
Proof. intros H. unfold args. rewrite <-(app_nil_r ws) at 1. by rewrite args_words. Qed.

Lemma vip_arg_ok v : VipSpec.valid v → vip_arg (VipSpec.to_str v) = Go (VipSpec.to_str v).
Proof. intros H. unfold vip_arg. by rewrite VipSpec.parse_to_str. Qed.

Lemma number_ok n what : 0 <= n < 2 ^ 64 → number (VipSpec.to_string n) what = Go n.
Proof.
  intros H. unfold number. pose proof (Libc.stoul_dec n [] H I) as E. rewrite app_nil_r in E. rewrite E. by rewrite Nat.eqb_refl.
Qed.

(** The request of a call. *)
Definition request_of (c : LbProps.api_call) : json :=
  match c with
  | LbProps.AddVip v nc =>
      JObject ([(§"cmd", JString §"vip.add"); (§"vip", JString (VipSpec.to_str v))] ++ (if nc then [(§"no_conntrack", JBool true)] else []))
  | LbProps.DelVip v => JObject [(§"cmd", JString §"vip.del"); (§"vip", JString (VipSpec.to_str v))]
  | LbProps.AddReal v a n =>
      JObject [(§"cmd", JString §"real.add"); (§"vip", JString (VipSpec.to_str v)); (§"addr", JString (VipSpec.ipv4_to_string a)); (§"weight", JUInt n)]
  | LbProps.DelReal v a =>
      JObject [(§"cmd", JString §"real.del"); (§"vip", JString (VipSpec.to_str v)); (§"addr", JString (VipSpec.ipv4_to_string a))]
  | LbProps.SetWeight v a n =>
      JObject [(§"cmd", JString §"real.weight"); (§"vip", JString (VipSpec.to_str v)); (§"addr", JString (VipSpec.ipv4_to_string a)); (§"weight", JUInt n)]
  | LbProps.SetDraining v a b =>
      JObject [(§"cmd", JString (if b then §"real.drain" else §"real.undrain")); (§"vip", JString (VipSpec.to_str v)); (§"addr", JString (VipSpec.ipv4_to_string a))]
  end.

Lemma build_request_of c : call_typed c → build_request (words_of c) = Go (request_of c).
Proof.
  assert (∀ n, is_u 32 n → 0 <= n < 2 ^ 64) as Hw by (intros n Hn; apply (is_u_mono 32); [lia | done]).
  assert (∀ v, VipSpec.valid v → vip_arg (VipSpec.to_str v) = Go (VipSpec.to_str v)) as Ev by apply vip_arg_ok.
  assert (∀ n, is_u 32 n → ∀ w, number (VipSpec.to_string n) w = Go n) as En by (intros n Hn w; by apply number_ok, Hw).
  destruct c as [v nc | v | v a n | v a | v a n | v a b]; cbn [call_typed words_of request_of].
  - intros Hv. transitivity (vip_command §"add" ([VipSpec.to_str v] ++ (if nc then [§"--no-conntrack"] else []))); [by destruct nc |].
    unfold vip_command, args. rewrite bool_decide_eq_true_2, args_words by eauto with pbctl.
    specialize (Ev v Hv). revert Ev. generalize (VipSpec.to_str v). intros t Et. destruct nc; cbv -[vip_arg]; by rewrite Et.
  - intros Hv. transitivity (vip_command §"del" [VipSpec.to_str v]); [done |].
    unfold vip_command. rewrite !args_plain by eauto with pbctl. specialize (Ev v Hv). revert Ev. generalize (VipSpec.to_str v).
    intros t Et. cbv -[vip_arg]. by rewrite Et.
  - intros (Hv & Ha & Hn). transitivity (real_command §"add" ([VipSpec.to_str v; VipSpec.ipv4_to_string a] ++ [§"--weight"; VipSpec.to_string n])); [done |].
    unfold real_command, args. rewrite bool_decide_eq_true_2, args_words by eauto with pbctl.
    specialize (Ev v Hv). specialize (En n Hn). revert Ev En. generalize (VipSpec.to_str v), (VipSpec.ipv4_to_string a), (VipSpec.to_string n).
    intros t ip m Et Em. cbv -[vip_arg number]. by rewrite Et, Em.
  - intros (Hv & Ha). transitivity (real_command §"del" [VipSpec.to_str v; VipSpec.ipv4_to_string a]); [done |].
    unfold real_command. rewrite !args_plain by eauto with pbctl. specialize (Ev v Hv). revert Ev.
    generalize (VipSpec.to_str v), (VipSpec.ipv4_to_string a). intros t ip Et. cbv -[vip_arg number]. by rewrite Et.
  - intros (Hv & Ha & Hn). transitivity (real_command §"weight" [VipSpec.to_str v; VipSpec.ipv4_to_string a; VipSpec.to_string n]); [done |].
    unfold real_command. rewrite !args_plain by (repeat constructor; try apply plain_to_string; auto with pbctl).
    specialize (Ev v Hv). specialize (En n Hn). revert Ev En. generalize (VipSpec.to_str v), (VipSpec.ipv4_to_string a), (VipSpec.to_string n).
    intros t ip m Et Em. cbv -[vip_arg number]. by rewrite Et, Em.
  - intros (Hv & Ha). transitivity (real_command (if b then §"drain" else §"undrain") [VipSpec.to_str v; VipSpec.ipv4_to_string a]); [by destruct b |].
    unfold real_command. rewrite !args_plain by eauto with pbctl. specialize (Ev v Hv). revert Ev.
    generalize (VipSpec.to_str v), (VipSpec.ipv4_to_string a). intros t ip Et. destruct b; cbv -[vip_arg number]; by rewrite Et.
Qed.

Lemma uint_value n : is_u 32 n → get_int64 (JUInt n) = Some n.
Proof. intros Hn. cbn. f_equal. unfold s64, is_u in *. rewrite Z.mod_small; lia. Qed.

Lemma arg_vip_of v l : VipSpec.valid v → get_key §"vip" l = Some (JString (VipSpec.to_str v)) → arg_vip (JObject l) = Ok v.
Proof. intros Hv E. unfold arg_vip, arg_string, arg, member_of. rewrite E. cbn [mbind result_bind]. by rewrite VipSpec.parse_to_str. Qed.

Lemma arg_addr_of a l : is_u 32 a → get_key §"addr" l = Some (JString (VipSpec.ipv4_to_string a)) → arg_addr (JObject l) §"addr" = Ok a.
Proof. intros Ha E. unfold arg_addr, arg_string, arg, member_of. rewrite E. cbn [mbind result_bind]. by rewrite VipSpec.parse_ipv4_ipv4_to_string. Qed.

Lemma arg_weight_of n l d : is_u 32 n → get_key §"weight" l = Some (JUInt n) → arg_uint (JObject l) §"weight" d = Ok n.
Proof.
  intros Hn E. unfold arg_uint, arg, member_of. rewrite E. cbn [mbind result_bind]. rewrite uint_value by done.
  replace ((n <? 0) || (2 ^ 32 - 1 <? n)) with false by (unfold is_u in Hn; lia). by rewrite u32_id.
Qed.

Lemma call_req_of c : call_typed c → call_req (request_of c) = Some c.
Proof.
  destruct c as [v nc | v | v a n | v a | v a n | v a b]; cbn [call_typed request_of]; unfold call_req.
  - intros Hv. destruct nc; cbn [app]; (erewrite arg_vip_of; [| exact Hv | reflexivity]); reflexivity.
  - intros Hv. erewrite arg_vip_of; [| exact Hv | reflexivity]. reflexivity.
  - intros (Hv & Ha & Hn). erewrite arg_vip_of; [| exact Hv | reflexivity]. erewrite arg_addr_of; [| exact Ha | reflexivity].
    rewrite !(arg_weight_of n) by (exact Hn || reflexivity). reflexivity.
  - intros (Hv & Ha). erewrite arg_vip_of; [| exact Hv | reflexivity]. erewrite arg_addr_of; [| exact Ha | reflexivity]. reflexivity.
  - intros (Hv & Ha & Hn). erewrite arg_vip_of; [| exact Hv | reflexivity]. erewrite arg_addr_of; [| exact Ha | reflexivity].
    rewrite !(arg_weight_of n) by (exact Hn || reflexivity). reflexivity.
  - intros (Hv & Ha). erewrite arg_vip_of; [| exact Hv | reflexivity]. erewrite arg_addr_of; [| exact Ha | reflexivity]. by destruct b.
Qed.

(** Words that are no global options are kept. *)
Lemma globals_words ws l :
  Forall (λ w, w ∉ [§"--socket"; §"--json"; §"-h"; §"--help"; §"help"]) ws →
  globals ws l = Go (mk_line (l_socket l) (l_raw l) (l_words l ++ ws)).
Proof.
  intros H. revert l. induction H as [| w ws Hw _ IH]; intros l; cbn [globals]; [destruct l; cbn; by rewrite app_nil_r |].
  rewrite !not_elem_of_cons in Hw. destruct Hw as (? & ? & Hh). rewrite !bool_decide_eq_false_2 by (done || by rewrite !not_elem_of_cons).
  rewrite IH. cbn [l_socket l_raw l_words]. by rewrite <-app_assoc.
Qed.

Lemma globals_of c s raw : call_typed c → globals (words_of c) (mk_line s raw []) = Go (mk_line s raw (words_of c)).
Proof.
  intros Hc. apply globals_words. assert (∀ w, plain w → w ∉ [§"--socket"; §"--json"; §"-h"; §"--help"; §"help"]) as Hp.
  { intros w Hw. by apply (plain_global w []). }
  assert (∀ w, bool_decide (w ∉ [§"--socket"; §"--json"; §"-h"; §"--help"; §"help"]) = true → w ∉ [§"--socket"; §"--json"; §"-h"; §"--help"; §"help"]) as Hk.
  { intros w. apply bool_decide_eq_true_1. }
  pose proof plain_vip. pose proof plain_ipv4.
  assert (∀ n, is_u 32 n → plain (VipSpec.to_string n)) by (intros n Hn; apply plain_to_string, (is_u_mono 32); [lia | done]).
  destruct c as [v nc | v | v a n | v a | v a n | v a b]; cbn [words_of call_typed] in *; destruct_and?; [destruct nc |..];
    repeat apply Forall_cons_2; try apply Forall_nil_2; first [apply Hp; solve [auto] | apply Hk; reflexivity | apply Hk; by destruct b].
Qed.

(** Every call of the API has a command line: the words pbctl documents for
    it give exactly the request that asks the daemon for it, for every valid
    VIP, every address and every 32-bit weight. *)
Theorem command_line_roundtrip (c : LbProps.api_call) (socket : str) (raw : bool) :
  call_typed c →
  ∃ req, globals (words_of c) (mk_line socket raw []) = Go (mk_line socket raw (words_of c)) ∧
    build_request (words_of c) = Go req ∧ call_req req = Some c.
Proof.
  intros Hc. exists (request_of c). split; [by apply globals_of | split; [by apply build_request_of | by apply call_req_of]].
Qed.

(** ** Lemmas: what is sent is understood *)

Definition all_commands : list str :=
  [§"ping"; §"health"; §"reload"; §"config"; §"vip.add"; §"vip.del"; §"vip.list"; §"real.add"; §"real.weight"; §"real.del"; §"real.drain";
   §"real.undrain"; §"stats"; §"flows"; §"ring.show"].
Definition vip_commands : list str :=
  [§"vip.add"; §"vip.del"; §"real.add"; §"real.weight"; §"real.del"; §"real.drain"; §"real.undrain"; §"ring.show"].
Definition real_commands : list str := [§"real.add"; §"real.weight"; §"real.del"; §"real.drain"; §"real.undrain"].

(** A request whose command and arguments are the ones the daemon looks for. *)
Record understood (req : json) : Prop := {
  us_cmd : ∃ cmd, arg_string req §"cmd" = Ok cmd ∧ cmd ∈ all_commands ∧
    (cmd ∈ vip_commands → member_of req §"vip" ≠ None) ∧
    (cmd ∈ real_commands → ∃ s, arg_string req §"addr" = Ok s) ∧
    (cmd = §"real.weight" → ∃ n, member_of req §"weight" = Some (JUInt n));
  us_vip : ∀ j, member_of req §"vip" = Some j → ∃ v, arg_vip req = Ok v;
  us_flag : ∃ b, arg_bool req §"no_conntrack" false = Ok b
}.

Lemma usage_not_Go {A} msg (a : A) : usage msg ≠ Go a.
Proof. unfold usage. by destruct (bool_decide _). Qed.

Lemma vip_arg_Go s v : vip_arg s = Go v → v = s ∧ ∃ spec, VipSpec.parse s = Ok spec.
Proof. unfold vip_arg. destruct (VipSpec.parse s); [intros [= <-]; eauto | by intros ?%usage_not_Go]. Qed.

Ltac cli_inv :=
  repeat match goal with
  | H : usage _ = Go _ |- _ => by apply usage_not_Go in H
  | H : (_ ≫= _) = Go _ |- _ => let a := fresh "a" in let E := fresh "E" in apply bind_Go in H as (a & E & H)
  | H : vip_arg _ = Go _ |- _ => let sp := fresh "spec" in let P := fresh "P" in apply vip_arg_Go in H as (-> & sp & P)
  end.

(** The argument vip of a request, once its text is known to parse. *)
Lemma arg_vip_text l s spec : get_key §"vip" l = Some (JString s) → VipSpec.parse s = Ok spec → arg_vip (JObject l) = Ok spec.
Proof. intros E P. unfold arg_vip, arg_string, arg, member_of. rewrite E. cbn [mbind result_bind]. by rewrite P. Qed.

(** A command that needs no VIP. *)
Lemma understood_plain l cmd :
  get_key §"cmd" l = Some (JString cmd) → cmd ∈ all_commands → cmd ∉ vip_commands → get_key §"no_conntrack" l = None →
  (∀ j, get_key §"vip" l = Some j → ∃ s spec, j = JString s ∧ VipSpec.parse s = Ok spec) → understood (JObject l).
Proof.
  intros E Hc Hnv Hnc Hv. constructor.
  - exists cmd. split_and!; [unfold arg_string, arg, member_of; by rewrite E | done | done | |].
    + intros Hr. exfalso. apply Hnv. revert Hr. unfold real_commands, vip_commands. rewrite !elem_of_cons. tauto.
    + intros ->. exfalso. apply Hnv. unfold vip_commands. rewrite !elem_of_cons. tauto.
  - intros j Hj. destruct (Hv j Hj) as (s & spec & -> & P). exists spec. by eapply arg_vip_text.
  - exists false. unfold arg_bool, member_of. by rewrite Hnc.
Qed.

(** A command about a VIP. *)
Lemma understood_vip l cmd s spec :
  get_key §"cmd" l = Some (JString cmd) → cmd ∈ all_commands → get_key §"vip" l = Some (JString s) → VipSpec.parse s = Ok spec →
  (get_key §"no_conntrack" l = None ∨ ∃ b, get_key §"no_conntrack" l = Some (JBool b)) →
  (cmd ∈ real_commands → ∃ a, get_key §"addr" l = Some (JString a)) →
  (cmd = §"real.weight" → ∃ n, get_key §"weight" l = Some (JUInt n)) → understood (JObject l).
Proof.
  intros E Hc Hv P Hb Ha Hw. constructor.
  - exists cmd. split_and!; [unfold arg_string, arg, member_of; by rewrite E | done | | | done].
    + intros _. cbn [member_of]. by rewrite Hv.
    + intros Hr. destruct (Ha Hr) as [a Ea]. exists a. unfold arg_string, arg, member_of. by rewrite Ea.
  - intros j _. exists spec. by eapply arg_vip_text.
  - unfold arg_bool, member_of. destruct Hb as [-> | [b ->]]; eauto.
Qed.

Ltac listed := apply (bool_decide_eq_true_1 _); reflexivity.

Lemma with_flag_Go a f key conv req req' :
  with_flag a f key conv req = Go req' → req' = req ∨ ∃ s v, conv s = Go v ∧ req' = set_key key v req.
Proof.
  unfold with_flag. destruct (flag a f) as [s |]; [| intros [= <-]; by left]. intros H. cli_inv.
  injection H as <-. right. eauto.
Qed.

Lemma vip_command_understood verb rest req : vip_command verb rest = Go req → understood req.
Proof.
  unfold vip_command. case_bool_decide as B; clear B; [| case_bool_decide as B; clear B; [| case_bool_decide as B; clear B]]; intros H; cli_inv.
  - destruct (flag _ _); injection H as <-; cbn [set_key bool_decide];
      (eapply (understood_vip _ §"vip.add"); [reflexivity | listed | reflexivity | exact P | | intros Hr; exfalso; revert Hr; listed | discriminate]).
    + right. by exists true.
    + by left.
  - injection H as <-. eapply (understood_vip _ §"vip.del"); [reflexivity | listed | reflexivity | exact P | by left | intros Hr; exfalso; revert Hr; listed | discriminate].
  - injection H as <-. by eapply (understood_plain _ §"vip.list"); [reflexivity | listed | listed | reflexivity | discriminate].
Qed.

Lemma real_command_understood verb rest req : real_command verb rest = Go req → understood req.
Proof.
  unfold real_command. case_bool_decide as B; clear B; [| case_bool_decide as B; clear B]; [intros H; cli_inv.. |].
  - destruct (flag _ _); cli_inv; injection H as <-;
      (eapply (understood_vip _ §"real.add"); [reflexivity | listed | reflexivity | exact P | by left | by eexists | discriminate]).
  - injection H as <-. eapply (understood_vip _ §"real.weight"); [reflexivity | listed | reflexivity | exact P | by left | by eexists | by eexists].
  - destruct (bool_decide (verb = §"del")) eqn:B1; [| destruct (bool_decide (verb = §"drain")) eqn:B2; [| destruct (bool_decide (verb = §"undrain")) eqn:B3]];
      cbn [orb]; intros Hq; cli_inv; injection Hq as <-;
      match goal with H : bool_decide _ = true |- _ => apply bool_decide_eq_true_1 in H; subst verb end;
      (eapply understood_vip; [reflexivity | listed | reflexivity | exact P | by left | by eexists | discriminate]).
Qed.

Lemma flag_vip_Go s v : (x ← vip_arg s; Go (JString x)) = Go v → ∃ spec, v = JString s ∧ VipSpec.parse s = Ok spec.
Proof. intros H. cli_inv. injection H as <-. eauto. Qed.

(** A query whose filters were added by their options. *)
Lemma understood_query cmd l :
  get_key §"cmd" l = Some (JString cmd) → cmd ∈ [§"stats"; §"flows"] → get_key §"no_conntrack" l = None →
  (∀ j, get_key §"vip" l = Some j → ∃ s spec, j = JString s ∧ VipSpec.parse s = Ok spec) → understood (JObject l).
Proof.
  intros E Hc Hn Hv. apply (understood_plain l cmd); [done | | | done | done];
    rewrite !elem_of_cons, elem_of_nil in Hc; destruct Hc as [-> | [-> | []]]; listed.
Qed.

Lemma stats_command_understood words req : stats_command words = Go req → understood req.
Proof.
  unfold stats_command. intros H. cli_inv. injection H as <-. apply with_flag_Go in E1 as [-> | (s & v & Hv & ->)].
  - eapply (understood_query §"stats"); [reflexivity | listed | reflexivity | discriminate].
  - apply flag_vip_Go in Hv as (spec & -> & P). eapply (understood_query §"stats"); [reflexivity | listed | reflexivity |].
    intros j [= <-]. eauto.
Qed.

Lemma flows_command_understood words req : flows_command words = Go req → understood req.
Proof.
  unfold flows_command. intros H. cli_inv. injection H as <-.
  assert (get_key §"cmd" a1 = Some (JString §"flows") ∧ get_key §"no_conntrack" a1 = None ∧
    ∀ j, get_key §"vip" a1 = Some j → ∃ s spec, j = JString s ∧ VipSpec.parse s = Ok spec) as (H1 & H2 & H3).
  { apply with_flag_Go in E1 as [-> | (s & v & Hv & ->)]; [by split_and! |]. apply flag_vip_Go in Hv as (spec & -> & P).
    split_and!; [done | done |]. intros j [= <-]. eauto. }
  assert (∀ k (r r' : list (str * json)), k ∈ [§"cmd"; §"no_conntrack"; §"vip"] →
    (r' = r ∨ ∃ v, r' = set_key §"real" v r) → get_key k r' = get_key k r) as Hreal.
  { intros k r r' Hk [-> | [v ->]]; [done |]. apply get_set_ne. rewrite !elem_of_cons, elem_of_nil in Hk. destruct Hk as [-> | [-> | [-> | []]]]; discriminate. }
  assert (∀ k (r r' : list (str * json)), k ∈ [§"cmd"; §"no_conntrack"; §"vip"] →
    (r' = r ∨ ∃ v, r' = set_key §"limit" v r) → get_key k r' = get_key k r) as Hlim.
  { intros k r r' Hk [-> | [v ->]]; [done |]. apply get_set_ne. rewrite !elem_of_cons, elem_of_nil in Hk. destruct Hk as [-> | [-> | [-> | []]]]; discriminate. }
  assert (a2 = a1 ∨ ∃ v, a2 = set_key §"real" v a1) as Hr by (apply with_flag_Go in E2 as [-> | (? & v & _ & ->)]; eauto).
  assert (a3 = a2 ∨ ∃ v, a3 = set_key §"limit" v a2) as Hl by (apply with_flag_Go in E3 as [-> | (? & v & _ & ->)]; eauto).
  eapply (understood_query §"flows"); [| listed | |].
  - by rewrite (Hlim §"cmd" _ _ ltac:(listed) Hl), (Hreal §"cmd" _ _ ltac:(listed) Hr).
  - by rewrite (Hlim §"no_conntrack" _ _ ltac:(listed) Hl), (Hreal §"no_conntrack" _ _ ltac:(listed) Hr).
  - rewrite (Hlim §"vip" _ _ ltac:(listed) Hl), (Hreal §"vip" _ _ ltac:(listed) Hr). exact H3.
Qed.

(** Ends, if it ends early, with a usage error. *)
Definition exits2 {A} (x : cli A) : Prop := ∀ n t, x = Exit n t → n = 2 ∧ t ≠ [].

Lemma exits2_go {A} (a : A) : exits2 (Go a).
Proof. intros n t [=]. Qed.

Lemma exits2_usage {A} msg : msg ≠ [] → exits2 (A := A) (usage msg).
Proof. intros Hm n t. unfold usage. rewrite bool_decide_eq_false_2 by done. by intros [= <- <-]. Qed.

Lemma exits2_bind {A B} (x : cli A) (k : A → cli B) : exits2 x → (∀ a, exits2 (k a)) → exits2 (x ≫= k).
Proof. intros Hx Hk. destruct x as [a | n t]; [apply Hk |]. intros n' t' [= <- <-]. by apply Hx. Qed.

Lemma parse_error_named s ex : VipSpec.parse s = Throw ex → what ex ≠ [].
Proof.
  unfold VipSpec.parse, VipSpec.parse_ipv4, VipSpec.parse_port, mbind, result_bind.
  repeat case_match; intros [= <-]; simplify_eq; discriminate.
Qed.

Lemma exits2_vip_arg s : exits2 (vip_arg s).
Proof.
  unfold vip_arg. destruct (VipSpec.parse s) eqn:E; [apply exits2_go | apply exits2_usage]. by eapply parse_error_named.
Qed.

Lemma exits2_number s w : exits2 (number s w).
Proof. unfold number. destruct (Libc.stoul 10 s) as [[n used] |]; [destruct (_ =? _)%nat |]; try apply exits2_go; by apply exits2_usage. Qed.

Lemma exits2_pos a i w : exits2 (pos a i w).
Proof. unfold pos. destruct (_ !! _); [apply exits2_go | by apply exits2_usage]. Qed.

Lemma exits2_count a i : exits2 (expect_count a i).
Proof. unfold expect_count. destruct (_ !! _); [by apply exits2_usage | apply exits2_go]. Qed.

Lemma exits2_args ws vf bf : exits2 (args ws vf bf).
Proof.
  unfold args. generalize (mk_args [] []). remember (length ws) as n eqn:En. assert (length ws <= n)%nat as Hn by lia. clear En. revert ws Hn.
  induction n as [| n IH]; intros [| w ws] Hn a; cbn [args_from length] in *; try apply exits2_go; [lia |].
  destruct (negb _); [apply IH; lia |]. destruct (contains bf w); [apply IH; lia |]. destruct (contains vf w); [| by apply exits2_usage].
  destruct ws as [| v ws]; [apply exits2_usage; by destruct w | apply IH; cbn in Hn; lia].
Qed.

Lemma exits2_flag a f key conv req : (∀ s, exits2 (conv s)) → exits2 (with_flag a f key conv req).
Proof. intros H. unfold with_flag. destruct (flag a f); [| apply exits2_go]. apply exits2_bind; [done | intros; apply exits2_go]. Qed.

#[local] Hint Resolve exits2_go exits2_vip_arg exits2_number exits2_pos exits2_count exits2_args : pbctl.

Ltac exits2_tac :=
  repeat first [ solve [auto with pbctl] | apply exits2_bind; [| intros ?] | apply exits2_flag; intros ? | solve [apply exits2_usage; discriminate] | case_match ].

Lemma build_request_exits2 words : exits2 (build_request words).
Proof. unfold build_request, vip_command, real_command, stats_command, flows_command. exits2_tac. Qed.

Lemma build_request_understood words req : build_request words = Go req → understood req.
Proof.
  unfold build_request. destruct words as [| noun tail]; [by intros ?%usage_not_Go |]. case_bool_decide as B.
  { destruct tail; [| by intros ?%usage_not_Go]. intros [= <-]. apply (understood_plain _ noun); [done | | | done | discriminate];
      rewrite !elem_of_cons, elem_of_nil in B; destruct B as [-> | [-> | [-> | [-> | []]]]]; listed. }
  clear B. case_bool_decide as B; clear B; [apply vip_command_understood |]. case_bool_decide as B; clear B; [apply real_command_understood |].
  case_bool_decide as B; clear B; [apply stats_command_understood |]. case_bool_decide as B; clear B; [apply flows_command_understood |].
  case_bool_decide as B; clear B; [| by intros ?%usage_not_Go]. destruct (negb _); [by intros ?%usage_not_Go |]. intros H. cli_inv.
  injection H as <-. eapply (understood_vip _ §"ring.show"); [reflexivity | listed | reflexivity | exact P | by left | intros Hr; exfalso; revert Hr; listed | discriminate].
Qed.

(** Whatever words pbctl accepts, the daemon understands: the request names
    one of its commands, carries the VIP, the address and the weight the command
    needs, and every VIP in it parses. Words it does not accept end the program
    with status 2 and a message, before anything is sent. *)
Theorem requests_understood (words : list str) :
  match build_request words with
  | Go req => understood req
  | Exit n text => n = 2 ∧ text ≠ []
  end.
Proof.
  destruct (build_request words) as [req | n text] eqn:E; [by eapply build_request_understood | by eapply build_request_exits2].
Qed.

(** ** Lemmas: the exchange *)

Definition read_chunks (reads : list read_result) : list str :=
  omap (λ r, match r with Read chunk => Some chunk | _ => None end) reads.
Definition readable (reads : list read_result) : Prop :=
  Forall (λ r, match r with ReadIntr | Read _ => True | _ => False end) reads.

(** Reading stops in the chunk that has the newline. *)
Lemma read_line_ok reads resp line :
  readable reads → resp ++ mjoin (read_chunks reads) = line ++ [ApiServer.nl] → ApiServer.nl ∉ line →
  read_line reads resp = Ok (line ++ [ApiServer.nl]).
Proof.
  intros Hr. revert resp. induction Hr as [| r reads Hr _ IH]; intros resp E Hl; cbn [read_line].
  - change (mjoin (read_chunks [])) with (@nil ascii) in E. rewrite app_nil_r in E. rewrite E. by destruct (bool_decide _).
  - case_bool_decide as B.
    + f_equal. apply list_elem_of_split in B as (s1 & s2 & ->). rewrite <-app_assoc in E. change ((ApiServer.nl :: s2) ++ ?x) with (ApiServer.nl :: s2 ++ x) in E.
      destruct (decide (length s1 < length line)%nat) as [Hlt | Hge].
      * exfalso. apply Hl. apply list_elem_of_lookup. exists (length s1).
        rewrite <-(lookup_app_l line [ApiServer.nl]) by lia. rewrite <-E, lookup_app_r, Nat.sub_diag by lia. done.
      * assert (length s2 = 0%nat ∧ length s1 = length line) as [E2 E1].
        { apply (f_equal length) in E. rewrite !length_app in E. cbn in E. rewrite length_app in E. lia. }
        apply nil_length_inv in E2 as ->. apply app_inj_1 in E as [-> _]; [done | done].
    + destruct r as [| e | | chunk]; try done; [by apply IH |].
      apply IH; [| done]. rewrite <-app_assoc. exact E.
Qed.

Lemma find_line line : ApiServer.nl ∉ line → Config.find ApiServer.nl (line ++ [ApiServer.nl]) = Some (length line).
Proof. apply Config.find_app. Qed.

(** A request line is one request. *)
Lemma requests_one line :
  line ≠ [] → ApiServer.nl ∉ line → last line ≠ Some ApiServer.cr → ApiServer.requests (line ++ [ApiServer.nl]) = [line].
Proof.
  intros Hne Hl Hcr. unfold ApiServer.requests.
  assert ((ApiServer.split_lines (line ++ [ApiServer.nl]) []).1 = [line]) as ->.
  { rewrite ApiServer.split_app, ApiServer.split_none by done. reflexivity. }
  cbn [fmap list_fmap]. assert (ApiServer.strip_cr line = line) as ->.
  { unfold ApiServer.strip_cr. destruct (last line) as [ch |] eqn:E; [| done]. rewrite bool_decide_eq_false_2; [done |]. intros ->. by apply Hcr. }
  by rewrite filter_cons_True.
Qed.

Lemma bounded_short chunks buf :
  (length (buf ++ mjoin chunks) <= ApiServer.kMaxRequestBytes)%nat → ApiServer.bounded chunks buf.
Proof.
  revert buf. induction chunks as [| ch chunks IH]; intros buf H; cbn [ApiServer.bounded]; [done |].
  change (mjoin (ch :: chunks)) with (ch ++ mjoin chunks) in H. rewrite app_assoc in H.
  assert (∀ s l, length (ApiServer.split_lines s l).2 <= length (l ++ s))%nat as Hlen.
  { intros s. induction s as [| x s IHs]; intros l; cbn; [rewrite app_nil_r; lia |]. case_bool_decide.
    - specialize (IHs []). destruct (ApiServer.split_lines s []) as [ls r]. cbn in *. rewrite length_app. cbn. lia.
    - specialize (IHs (l ++ [x])). rewrite <-app_assoc in IHs. exact IHs. }
  specialize (Hlen (buf ++ ch) []). cbn [app] in Hlen. rewrite length_app in H. split; [lia |].
  apply IH. rewrite length_app. lia.
Qed.

(** The exchange between client and daemon: the streams are cut and the calls
    interrupted at will, but nothing is lost. *)
Record exchange (c : Client) (net : Net) (req : json) (recvs : list ApiServer.recv_result) (sends : list ApiServer.send_result) (answer : str) : Prop := {
  x_socket : n_socket net = None;
  x_connect : n_connect net = None;
  x_writes : ApiServer.reliable (n_writes net) ∧ (length (request_line c req) <= ApiServer.room (n_writes net))%nat;
  x_recvs : Forall (λ r, r ≠ ApiServer.RecvEnd) recvs ∧ mjoin (ApiServer.chunks_of recvs) = request_line c req;
  x_sends : ApiServer.reliable sends ∧ (length (answer ++ [ApiServer.nl]) <= ApiServer.room sends)%nat;
  x_reads : readable (n_reads net) ∧ mjoin (read_chunks (n_reads net)) = answer ++ [ApiServer.nl]
}.

(** What is used of the JSON library on the two messages: a value is written on
    one line and read back. *)
Record faithful (dump : json → str) (parse : str → parsed) (v : json) : Prop := {
  f_line : (ApiServer.nl ∉ dump v) ∧ last (dump v) ≠ Some ApiServer.cr ∧ dump v ≠ [];
  f_back : parse (dump v) = PValue v
}.

Lemma call_ok c net path req recvs sends answer resp :
  exchange c net req recvs sends answer → (length path < sun_path_size)%nat →
  (ApiServer.nl ∉ answer) → answer ≠ [] → c_parse c answer = PValue resp → call c net path req = Ok resp.
Proof.
  intros X Hp Hl Hne E. unfold call. rewrite (proj2 (Nat.leb_gt _ _) Hp), (x_socket _ _ _ _ _ _ X), (x_connect _ _ _ _ _ _ X).
  destruct (x_writes _ _ _ _ _ _ X) as [Hw1 Hw2]. destruct (ApiServer.write_all_ok _ _ Hw1 Hw2) as (rest & -> & _). cbn [negb].
  destruct (x_reads _ _ _ _ _ _ X) as [Hr1 Hr2]. rewrite (read_line_ok _ [] answer Hr1 Hr2 Hl). cbn [mbind result_bind].
  rewrite bool_decide_eq_false_2 by (by destruct answer). by rewrite find_line, take_app_length, E.
Qed.

(** The daemon's side. *)
Lemma daemon_ok {S} (handler : str → S → str * S) c net req recvs sends answer (s s' : S) :
  exchange c net req recvs sends answer → handler (c_dump c req) s = (answer, s') →
  (ApiServer.nl ∉ c_dump c req) → last (c_dump c req) ≠ Some ApiServer.cr → c_dump c req ≠ [] →
  (length (request_line c req) <= ApiServer.kMaxRequestBytes)%nat →
  ApiServer.cn_state (ApiServer.serve handler recvs [] (ApiServer.mk_conn s [] sends)) = s' ∧
  ApiServer.cn_out (ApiServer.serve handler recvs [] (ApiServer.mk_conn s [] sends)) = answer ++ [ApiServer.nl].
Proof.
  intros X Hh Hl Hcr Hne Hlen. destruct (x_recvs _ _ _ _ _ _ X) as [Hr1 Hr2]. destruct (x_sends _ _ _ _ _ _ X) as [Hs1 Hs2].
  pose proof (requests_one _ Hne Hl Hcr) as Hq. fold (request_line c req) in Hq. unfold ApiServer.requests in Hq. rewrite <-Hr2 in Hq.
  assert (ApiServer.answer_all handler [c_dump c req] s = (answer ++ [ApiServer.nl], s')) as Ha by (cbn; by rewrite Hh).
  pose proof (ApiServer.serve_ok handler recvs [] (ApiServer.mk_conn s [] sends) (not_elem_of_nil _) Hr1) as H.
  unfold ApiServer.reqs in H. rewrite Hq in H. cbn [ApiServer.cn_state ApiServer.cn_sends] in H. rewrite Ha in H.
  destruct H as (H1 & H2 & _); [apply bounded_short; by rewrite Hr2 | done | done |].
  cbn [ApiServer.cn_state ApiServer.cn_out] in H1, H2. rewrite Ha in H1, H2. by split.
Qed.

(** An answer of the daemon to a call, shown. *)
Lemma show_error `{L : Format.Lib} raw req text : show_answer raw req (error_response text) = Some (fails text).
Proof. reflexivity. Qed.

Lemma show_ok `{L : Format.Lib} raw c v :
  call_typed c → ∃ text, show_answer raw (request_of c) (ok_response v) = Some (mk_outcome 0 text []).
Proof.
  intros Hc. unfold show_answer. change (value_bool (ok_response v) §"ok" false) with (Ok true).
  change (Format.item (ok_response v) §"result") with (Format.Val v). destruct raw; [by eexists |].
  assert (∃ cmd, arg_string (request_of c) §"cmd" = Ok cmd ∧ cmd ∉ [§"vip.list"; §"stats"; §"flows"; §"ring.show"; §"health"]) as (cmd & -> & Hn).
  { destruct c as [v' nc | v' | v' a n | v' a | v' a n | v' a b]; eexists; (split; [reflexivity |]); try destruct b; listed. }
  destruct (Format.small_answer_prints cmd v Hn) as [text ->]. by eexists.
Qed.

(** C12: end to end, the command line does what it says. When an operator types
    the words of a call and client and daemon can talk, the daemon performs
    exactly the specified call: pbctl exits with 0 and prints the answer when it
    succeeds, and otherwise exits with 1 and prints the specified error, with the
    daemon and the kernel maps exactly as they were. The byte streams may be cut
    and the system calls interrupted anywhere; no bpf call fails. *)
Theorem pbctl_performs `{L : Format.Lib} (e : CEnv) (h : Handler) (c : Client) (net : Net) (env : option str) (a : LbProps.api_call)
    (recvs : list ApiServer.recv_result) (sends : list ApiServer.send_result) (w : World LbState.t) :
  call_typed a → LbInv.inv (obj w) (km w) → calm w → (length (default_socket env) < sun_path_size)%nat →
  (length (request_line c (request_of a)) <= ApiServer.kMaxRequestBytes)%nat →
  faithful (c_dump c) (h_parse h) (request_of a) →
  faithful (h_dump h) (c_parse c) (respond e h (c_dump c (request_of a)) w).1 →
  exchange c net (request_of a) recvs sends (handle_line e h (c_dump c (request_of a)) w).1 →
  let w' := ApiServer.cn_state (ApiServer.serve (handle_line e h) recvs [] (ApiServer.mk_conn w [] sends)) in
  match LbProps.spec_api a (LbProps.abs (obj w)) with
  | Ok x => (∃ text, main c net env (words_of a) = Some (mk_outcome 0 text [])) ∧ LbProps.abs (obj w') = x ∧ LbInv.inv (obj w') (km w')
  | Throw ex => main c net env (words_of a) = Some (fails (what ex)) ∧ w' = w
  end.
Proof.
  intros Ha Hi Hc Hpath Hlen Freq Fans X. destruct (f_line _ _ _ Freq) as (R1 & R2 & R3). destruct (f_line _ _ _ Fans) as (A1 & A2 & A3).
  assert (main c net env (words_of a) = show_answer false (request_of a) (respond e h (c_dump c (request_of a)) w).1) as Hmain.
  { unfold main. rewrite globals_of, go_bind by done. cbn [l_words]. rewrite build_request_of, go_bind by done. cbn [l_socket l_raw].
    assert (handle_line e h (c_dump c (request_of a)) w = (h_dump h (respond e h (c_dump c (request_of a)) w).1, (respond e h (c_dump c (request_of a)) w).2)) as Eh
      by (unfold handle_line; by destruct (respond _ _ _ _)).
    rewrite Eh in X. by rewrite (call_ok _ _ _ _ _ _ _ _ X Hpath A1 A3 (f_back _ _ _ Fans)). }
  assert (handle_line e h (c_dump c (request_of a)) w = ((handle_line e h (c_dump c (request_of a)) w).1, (respond e h (c_dump c (request_of a)) w).2)) as Eh
    by (unfold handle_line; by destruct (respond _ _ _ _)).
  destruct (daemon_ok _ _ _ _ _ _ _ _ _ X Eh R1 R2 R3 Hlen) as [-> _]. rewrite Hmain. unfold respond. rewrite (f_back _ _ _ Freq).
  destruct (request_of a) as [| | | | | | | l] eqn:Er; try (by destruct a). rewrite <-Er.
  pose proof (dispatch_done e h (request_of a) w Hi Hc) as Hd. rewrite (call_req_of a Ha) in Hd. unfold request_done, call_done in Hd.
  assert (arg_string (request_of a) §"cmd" ≠ Ok §"reload") as Hnr by (destruct a as [| | | | | ? ? []]; discriminate).
  specialize (Hd Hnr). destruct (dispatch e h (request_of a) w) as [[v | ex] w1]; cbn [fst snd] in *; destruct (LbProps.spec_api a _) as [x | ex'].
  - destruct Hd as (_ & H1 & H2 & _). split; [by apply show_ok | done].
  - by destruct Hd.
  - by destruct Hd as ((? & ?) & _).
  - destruct Hd as [[= ->] ->]. done.
Qed.

(** ** Witnesses *)

Lemma vip80_valid : VipSpec.valid LbTheorems.vip80.
Proof. split_and!; [decide_closed | decide_closed | discriminate | by left]. Qed.

Lemma command_line_roundtrip_witness :
  ∃ req, globals (words_of (LbProps.DelVip LbTheorems.vip80)) (mk_line [] true []) = Go (mk_line [] true [§"vip"; §"del"; §"10.0.0.100:80/tcp"]) ∧
    build_request [§"vip"; §"del"; §"10.0.0.100:80/tcp"] = Go req ∧ call_req req = Some (LbProps.DelVip LbTheorems.vip80).
Proof. apply (command_line_roundtrip (LbProps.DelVip LbTheorems.vip80) [] true). apply vip80_valid. Defined.

Definition demo_req : json := request_of (LbProps.DelVip LbTheorems.vip80).
Definition demo_answer : json := error_response (what (LbState.unknown_vip LbTheorems.vip80)).
Definition demo_daemon : Handler :=
  mk_handler (λ _, PValue demo_req) (λ _, §"r") (mret ()) (Ok JNull) true 0 0 (λ _, []) (h_rings (demo_handler JNull)).
Definition demo_client : Client := mk_client (λ _, §"q") (λ _, PValue demo_answer).
Definition demo_net : Net := mk_net None None (replicate 2 (ApiServer.Sent 1)) [] [Read §"r"; ReadIntr; Read [ApiServer.nl]].

Lemma pbctl_performs_witness :
  @main Format.demo_lib demo_client demo_net None [§"vip"; §"del"; §"10.0.0.100:80/tcp"] =
    Some (fails (what (LbState.unknown_vip LbTheorems.vip80))) ∧
  ApiServer.cn_state (ApiServer.serve (handle_line LbTheorems.env0 demo_daemon) [ApiServer.Recv §"q"; ApiServer.Recv [ApiServer.nl]] []
    (ApiServer.mk_conn LbTheorems.empty_world [] (replicate 2 (ApiServer.Sent 1)))) = LbTheorems.empty_world.
Proof.
  pose proof (@pbctl_performs Format.demo_lib LbTheorems.env0 demo_daemon demo_client demo_net None (LbProps.DelVip LbTheorems.vip80)
    [ApiServer.Recv §"q"; ApiServer.Recv [ApiServer.nl]] (replicate 2 (ApiServer.Sent 1)) LbTheorems.empty_world
    vip80_valid LbTheorems.empty_inv LbTheorems.empty_calm) as H.
  change (LbProps.spec_api (LbProps.DelVip LbTheorems.vip80) (LbProps.abs (obj LbTheorems.empty_world)))
    with (@Throw LbProps.Abs (LbState.unknown_vip LbTheorems.vip80)) in H. cbv beta iota zeta in H. apply H; clear H.
  - vm_compute. lia.
  - apply ApiServer.short_enough. vm_compute. discriminate.
  - constructor; [split_and!; [listed | discriminate | discriminate] | reflexivity].
  - constructor; [split_and!; [listed | discriminate | discriminate] | reflexivity].
  - constructor; [reflexivity | reflexivity | | | |].
    + split; [repeat constructor; by right | vm_compute; lia].
    + split; [repeat constructor; discriminate | reflexivity].
    + split; [repeat constructor; by right | vm_compute; lia].
    + split; [repeat constructor | reflexivity].
Defined.

End Pbctl.
