(* ===== verification/PeriodicThread.v ===== *)
(** * The worker thread (src/daemon/periodic_thread.h)

    A loop that runs a step, waits, and can be woken or stopped; the health
    checker and the neighbour resolver each run in one. The worker, and the
    threads that call wake() and stop(), are interleaved at the points where the
    mutex is taken or given up. A worker that waits on the condition variable is
    blocked: it moves again only after a notification, when the pause is over, or
    when the system wakes it for no reason. *)

From Stdlib Require Import Lia.
From S2P Require Import Prelude.

Module PeriodicThread.

(** Where the worker is. *)
Inductive pc : Type :=
| Top                   (* while (!stopping_), with the lock *)
| InStep                (* step() runs, without the lock *)
| Blocked               (* in cv_.wait_for, waiting for a notification *)
| Unblocked             (* in cv_.wait_for, to take the lock and look at the predicate *)
| TimedOut              (* in cv_.wait_for, the pause is over; to take the lock *)
| Done
| Crashed.              (* step() threw: std::terminate *)

Record t := mk {
  at_ : pc;
  stopping_ : bool;
  woken_ : bool;
  runs : nat            (* the steps begun so far *)
}.

Definition start : t := mk Top false false 0.

(** [this] { return stopping_ || woken_; } *)
Definition pred (s : t) : bool := stopping_ s || woken_ s.

(** After the wait: woken_ = false, and back to the loop's condition. *)
Definition again (s : t) : t := mk Top (stopping_ s) false (runs s).

(** One move of the worker. wait_for with a predicate is
    while (!pred()) if (wait_until(lock, deadline) == timeout) return pred(); *)
Inductive worker : t → t → Prop :=
| w_begin s : at_ s = Top → stopping_ s = false → worker s (mk InStep (stopping_ s) (woken_ s) (S (runs s)))
| w_exit s : at_ s = Top → stopping_ s = true → worker s (mk Done (stopping_ s) (woken_ s) (runs s))
| w_throw s : at_ s = InStep → worker s (mk Crashed (stopping_ s) (woken_ s) (runs s))
| w_no_wait s : at_ s = InStep → pred s = true → worker s (again s)
| w_wait s : at_ s = InStep → pred s = false → worker s (mk Blocked (stopping_ s) (woken_ s) (runs s))
| w_woken s : at_ s = Unblocked → pred s = true → worker s (again s)
| w_wait_on s : at_ s = Unblocked → pred s = false → worker s (mk Blocked (stopping_ s) (woken_ s) (runs s))
| w_timed_out s : at_ s = TimedOut → worker s (again s).

(** What the worker does not do itself: the pause ends, or the wait returns
    without a notification. *)
Inductive system : t → t → Prop :=
| s_pause_over s : at_ s = Blocked → system s (mk TimedOut (stopping_ s) (woken_ s) (runs s))
| s_spurious s : at_ s = Blocked → system s (mk Unblocked (stopping_ s) (woken_ s) (runs s)).

(** cv_.notify_all(): a blocked worker is blocked no more; one that does not
    wait yet is not concerned. *)
Definition notify_all (s : t) : t :=
  mk (match at_ s with Blocked => Unblocked | p => p end) (stopping_ s) (woken_ s) (runs s).

(** wake(), and stop() up to the join; each holds the mutex throughout. *)
Definition wake (s : t) : t := notify_all (mk (at_ s) (stopping_ s) true (runs s)).

Definition stop (s : t) : t := notify_all (mk (at_ s) true (woken_ s) (runs s)).

Inductive client : t → t → Prop :=
| c_wake s : client s (wake s)
| c_stop s : client s (stop s).

(** [n] moves of the worker, among any number of calls and of events of the
    system. *)
Inductive exec : nat → t → t → Prop :=
| x_none s : exec 0 s s
| x_client n s1 s2 s3 : client s1 s2 → exec n s2 s3 → exec n s1 s3
| x_system n s1 s2 s3 : system s1 s2 → exec n s2 s3 → exec n s1 s3
| x_worker n s1 s2 s3 : worker s1 s2 → exec n s2 s3 → exec (S n) s1 s3.

(** ** Lemmas *)

(** The worker has not returned, and the process is alive. *)
Definition running (s : t) : Prop := match at_ s with Done | Crashed => False | _ => True end.

(** The worker can always move, unless it is blocked. *)
Lemma worker_progress s : running s → at_ s ≠ Blocked → ∃ s', worker s s'.
Proof.
  unfold running. destruct (at_ s) eqn:E; intros H Hb; try done.
  - destruct (stopping_ s) eqn:F; eexists; [by apply w_exit | by apply w_begin].
  - eexists. by apply w_throw.
  - destruct (pred s) eqn:F; eexists; [by apply w_woken | by apply w_wait_on].
  - eexists. by apply w_timed_out.
Qed.

(** Any step of the thread or around it. *)
Definition any_step (s s' : t) : Prop := client s s' ∨ system s s' ∨ worker s s'.

Lemma exec_stable (Q : t → Prop) n s s' : (∀ s s', any_step s s' → Q s → Q s') → exec n s s' → Q s → Q s'.
Proof.
  intros Hq. induction 1 as [| n s1 s2 s3 H _ IH | n s1 s2 s3 H _ IH | n s1 s2 s3 H _ IH]; intros HQ; [done | ..];
    apply IH; eapply Hq; try exact HQ; unfold any_step; auto.
Qed.

(** Executions as long as [P] counts down the moves the worker has left, or up
    to where [Q] holds for good. *)
Lemma exec_bounded (P : nat → t → Prop) (Q : t → Prop) :
  (∀ s s', any_step s s' → Q s → Q s') →
  (∀ n s s', client s s' ∨ system s s' → P n s → Q s' ∨ P n s') →
  (∀ n s s', worker s s' → P n s → Q s' ∨ ∃ k, (k < n)%nat ∧ P k s') →
  ∀ n s s' b, exec n s s' → P b s → Q s' ∨ ∃ k, (n + k <= b)%nat ∧ P k s'.
Proof.
  intros Hq Hc Hw n s s' b Hx. revert b.
  induction Hx as [s | n s1 s2 s3 H Hx IH | n s1 s2 s3 H Hx IH | n s1 s2 s3 H Hx IH]; intros b HP; [by right; exists b | | |].
  1, 2: destruct (Hc b s1 s2 (ltac:(auto)) HP) as [HQ | HP2]; [left; by eapply exec_stable | by apply IH].
  destruct (Hw _ _ _ H HP) as [HQ | (k & Hk & HP2)]; [left; by eapply exec_stable |].
  destruct (IH k HP2) as [? | (k' & ? & ?)]; [by left |]. right. exists k'. split; [lia | done].
Qed.

(** The moves a worker that need not wait has to make to the end of the loop's
    body. *)
Definition moves_left (s : t) : nat := match at_ s with Done | Crashed => 0 | Top => 1 | _ => 2 end.

(** A thread that is being stopped. *)
Definition stopped (r : nat) (n : nat) (s : t) : Prop :=
  stopping_ s = true ∧ runs s = r ∧ at_ s ≠ Blocked ∧ n = moves_left s.

Lemma exec_stopped r n s s' b : exec n s s' → stopped r b s → ∃ k, (n + k <= b)%nat ∧ stopped r k s'.
Proof.
  intros Hx Hs. destruct (exec_bounded (stopped r) (λ _, False)) with n s s' b as [[] | ?]; try done; clear; unfold stopped, moves_left.
  - intros n s s' [H | H] (H1 & H2 & H3 & H4); right; destruct H; [cbn; by destruct (at_ s).. | done | done].
  - intros n s s' H (H1 & H2 & H3 & H4). right. destruct H as [s E F | s E F | s E | s E F | s E F | s E F | s E F | s E]; rewrite E in H4;
      unfold pred in *; try (rewrite H1 in F; discriminate F); eexists; (split; [| cbn; done]); lia.
Qed.

(** A wake-up that is still to be answered: the worker is not blocked, and has
    at most two moves to make. *)
Definition due (r : nat) (n : nat) (s : t) : Prop :=
  runs s = r ∧ running s ∧ at_ s ≠ Blocked ∧ (woken_ s = true ∨ at_ s = Top) ∧ n = moves_left s.

(** It is answered, or there is no one to answer it. *)
Definition over (r : nat) (s : t) : Prop := stopping_ s = true ∨ at_ s = Crashed ∨ (r < runs s)%nat.

Lemma over_stable r s s' : any_step s s' → over r s → over r s'.
Proof.
  unfold over. intros [[] | [[] | []]] [Ho | [Ho | Ho]]; cbn; solve [by left | congruence | by right; left; rewrite Ho | right; right; lia].
Qed.

Lemma exec_due r n s s' b : exec n s s' → due r b s → over r s' ∨ ∃ k, (n + k <= b)%nat ∧ due r k s'.
Proof.
  apply exec_bounded; clear; [apply over_stable | |]; unfold due, over, moves_left, running.
  - intros n s s' [H | H] (H1 & H2 & H3 & H4 & H5); destruct H; [right | by left; left | done | done]. cbn. by destruct (at_ s); auto 10.
  - intros n s s' H (H1 & H2 & H3 & H4 & H5). destruct H as [s E F | s E F | s E | s E F | s E F | s E F | s E F | s E]; rewrite E in *; cbn.
    + left. right. right. lia.
    + by left; left.
    + by left; right; left.
    + right. eexists. split; [| split_and!; try done; by right]. lia.
    + destruct H4 as [H4 | ?]; [| done]. unfold pred in F. by rewrite H4, orb_true_r in F.
    + right. eexists. split; [| split_and!; try done; by right]. lia.
    + destruct H4 as [H4 | ?]; [| done]. unfold pred in F. by rewrite H4, orb_true_r in F.
    + right. eexists. split; [| split_and!; try done; by right]. lia.
Qed.

(** ** Theorems *)

(** C19: no wake-up is lost. After wake(), wherever the worker was and whatever
    other calls, ends of pauses and spurious wake-ups follow, a step that began
    after the call is running or over by the time the worker has made two moves;
    until then the worker is not blocked, so it can make its next move without
    the pause having to pass and without another notification. The exceptions
    are a thread that is being stopped and a step that throws, which ends the
    process. *)
Theorem wake_not_lost (n : nat) (s s' : t) :
  running s → exec n (wake s) s' →
  stopping_ s' = true ∨ at_ s' = Crashed ∨ (runs s < runs s')%nat ∨ (n < 2)%nat ∧ ∃ s'', worker s' s''.
Proof.
  intros Hr Hx. destruct (exec_due (runs s) n (wake s) s' (moves_left (wake s)) Hx) as [H | (k & Hk & _ & H1 & H2 & _ & ->)].
  - unfold due, running, wake, notify_all in *. cbn. by destruct (at_ s); auto 10.
  - unfold over in H. tauto.
  - right. right. right. split; [| by apply worker_progress]. unfold moves_left, running in *. destruct (at_ s'), (at_ (wake s)); try done; lia.
Qed.

(** stop() ends the thread: once it is called no further step begins, the
    worker makes at most two more moves, and it can always make its next one,
    without waiting, until it is done, so that the join returns. *)
Theorem stop_ends (n : nat) (s s' : t) :
  exec n (stop s) s' → runs s' = runs s ∧ (n <= 2)%nat ∧ (at_ s' = Done ∨ at_ s' = Crashed ∨ ∃ s'', worker s' s'').
Proof.
  intros Hx. destruct (exec_stopped (runs s) n (stop s) s' (moves_left (stop s)) Hx) as (k & Hk & _ & H2 & H3 & _).
  - unfold stopped, stop, notify_all. cbn. by destruct (at_ s).
  - split_and!; [done | unfold moves_left in Hk; destruct (at_ (stop s)); lia |].
    destruct (at_ s') eqn:E; auto; right; right; apply worker_progress; unfold running; by rewrite E.
Qed.

(** ** Witnesses *)

(** A worker that is blocked when it is woken can move at once, and is in its
    next step two moves later. *)
Lemma wake_not_lost_witness :
  let s := mk Blocked false false 1 in
  let s' := mk InStep false false 2 in
  (∃ s1, worker (wake s) s1) ∧ exec 2 (wake s) s' ∧ (runs s < runs s')%nat.
Proof.
  intros s s'. assert (exec 2 (wake s) s') as Hx.
  { eapply x_worker; [apply w_woken; reflexivity |]. eapply x_worker; [apply w_begin; reflexivity |]. apply x_none. }
  split; [| split; [exact Hx |]].
  - destruct (wake_not_lost 0 s (wake s) I (x_none _)) as [H | [H | [H | [_ H]]]]; [discriminate H | discriminate H | cbn in H; lia | exact H].
  - destruct (wake_not_lost 2 s s' I Hx) as [H | [H | [H | [H _]]]]; [discriminate H | discriminate H | exact H | lia].
Defined.

Lemma stop_ends_witness :
  let s' := mk Done true false 1 in
  exec 2 (stop (mk Blocked false false 1)) s' ∧ runs s' = 1%nat ∧ (2 <= 2)%nat.
Proof.
  intros s'. assert (exec 2 (stop (mk Blocked false false 1)) s') as Hx.
  { eapply x_worker; [apply w_woken; reflexivity |]. eapply x_worker; [apply w_exit; reflexivity |]. apply x_none. }
  destruct (stop_ends 2 (mk Blocked false false 1) s' Hx) as (H1 & H2 & _). split; [exact Hx | split; [exact H1 | exact H2]].
Defined.

End PeriodicThread.
