(* ===== verification/UniqueFd.v ===== *)
(** * The owning file descriptor (src/daemon/unique_fd.h)

    Objects that own a descriptor each, the descriptors the process has open, and
    every member function as an operation on them. *)

From Stdlib Require Import ZArith Lia.
From S2P Require Import Prelude.

#[local] Set Warnings "-clear-no-such-hyp".

Module UniqueFd.

(** The objects by their address, with their [fd_]; the open descriptors; those
    that a caller has taken out with release(); the numbers closed so far, and
    whether one of them was not open. *)
Record t := mk {
  objs : gmap nat Z;
  open_ : gset Z;
  released : gset Z;
  closed : list Z;
  bad : bool
}.

Definition none : t := mk ∅ ∅ ∅ [] false.

Definition set_obj (o : nat) (x : Z) (s : t) : t := mk (<[o := x]> (objs s)) (open_ s) (released s) (closed s) (bad s).
Definition fd_ (s : t) (o : nat) : Z := default (-1) (objs s !! o).

Definition close (x : Z) (s : t) : t :=
  mk (objs s) (open_ s ∖ {[x]}) (released s) (closed s ++ [x]) (bad s || negb (bool_decide (x ∈ open_ s))).

(** ** Member functions *)

Definition valid (s : t) (o : nat) : bool := 0 <=? fd_ s o.

(** void reset(int fd = -1) *)
Definition reset (o : nat) (x : Z) (s : t) : t :=
  let s := if valid s o then close (fd_ s o) s else s in
  set_obj o x s.

(** std::exchange(o.fd_, -1) *)
Definition exchange (o : nat) (s : t) : Z * t := (fd_ s o, set_obj o (-1) s).

Definition construct (o : nat) (x : Z) (s : t) : t := set_obj o x s.

Definition move_construct (o o' : nat) (s : t) : t :=
  let '(x, s) := exchange o' s in construct o x s.

Definition move_assign (o o' : nat) (s : t) : t :=
  if (o =? o')%nat then s else
  let '(x, s) := exchange o' s in reset o x s.

(** The destructor, after which the object is gone. *)
Definition destroy (o : nat) (s : t) : t :=
  let s := reset o (-1) s in
  mk (delete o (objs s)) (open_ s) (released s) (closed s) (bad s).

Definition release (o : nat) (s : t) : Z * t := exchange o s.

(** ** Uses *)

(** A system call made a descriptor, or failed with -1. *)
Definition made (x : Z) (s : t) : t := if 0 <=? x then mk (objs s) ({[x]} ∪ open_ s) (released s) (closed s) (bad s) else s.

Definition keep (x : Z) (s : t) : t := if 0 <=? x then mk (objs s) (open_ s) ({[x]} ∪ released s) (closed s) (bad s) else s.

Inductive use (s : t) : t → Prop :=
| u_construct o x : objs s !! o = None → -1 <= x → x ∉ open_ s → use s (construct o x (made x s))
| u_reset o x : is_Some (objs s !! o) → -1 <= x → x ∉ open_ s → use s (reset o x (made x s))
| u_move_construct o o' : objs s !! o = None → is_Some (objs s !! o') → use s (move_construct o o' s)
| u_move_assign o o' : is_Some (objs s !! o) → is_Some (objs s !! o') → use s (move_assign o o' s)
| u_release o : is_Some (objs s !! o) → use s (let '(x, s') := release o s in keep x s')
| u_destroy o : is_Some (objs s !! o) → use s (destroy o s)
| u_other x : x ∈ released s → use s (let s := close x s in mk (objs s) (open_ s) (released s ∖ {[x]}) (closed s) (bad s)).

(** ** The invariant *)

(** Each open descriptor has exactly one owner. *)
Record inv (s : t) : Prop := {
  i_open : ∀ x, x ∈ open_ s ↔ 0 <= x ∧ ((∃ o, objs s !! o = Some x) ∨ x ∈ released s);
  i_one : ∀ o o' x, objs s !! o = Some x → objs s !! o' = Some x → 0 <= x → o = o';
  i_released : ∀ o x, objs s !! o = Some x → 0 <= x → x ∉ released s;
  i_range : ∀ o x, objs s !! o = Some x → -1 <= x;
  i_kept : ∀ x, x ∈ released s → 0 <= x;
  i_good : bad s = false
}.

#[local] Ltac fields := cbn [objs open_ released closed bad set_obj close].

Lemma fd_at s o x : objs s !! o = Some x → fd_ s o = x.
Proof. unfold fd_. by intros ->. Qed.

(** An object takes a descriptor that nobody owns. *)
Lemma inv_take s o x : inv s → (∀ y, objs s !! o = Some y → y = -1) → -1 <= x → x ∉ open_ s → inv (set_obj o x (made x s)).
Proof.
  intros [I1 I2 I3 I4 I6 I5] Ho Hx Hn. unfold made, set_obj. destruct (Z.leb_spec 0 x); split; fields; try done.
  - intros y. rewrite elem_of_union, elem_of_singleton, I1. split.
    + intros [-> | [Hy [[o' E] | Hr]]]; [split; [done |]; left; exists o; apply lookup_insert_eq | | auto].
      split; [done |]. left. exists o'. rewrite lookup_insert_ne; [done |]. intros ->. specialize (Ho y E). lia.
    + intros [Hy [[o' [[-> ->] | [Hne E]]%lookup_insert_Some] | Hr]]; eauto.
  - intros o1 o2 y [[<- <-] | [N1 E1]]%lookup_insert_Some [[<- E2] | [N2 E2]]%lookup_insert_Some Hy; try done; [| | by eapply I2].
    + exfalso. apply Hn, I1. eauto.
    + exfalso. subst y. apply Hn, I1. eauto.
  - intros o1 y [[<- <-] | [N1 E1]]%lookup_insert_Some Hy; [| by eapply I3]. intros Hr. apply Hn, I1. auto.
  - intros o1 y [[<- <-] | [N1 E1]]%lookup_insert_Some; eauto.
  - intros y. rewrite I1. split; (intros [Hy [[o' E] | Hr]]; [| by auto]); split; try done; left; exists o'.
    + rewrite lookup_insert_ne; [done |]. intros ->. specialize (Ho y E). lia.
    + apply lookup_insert_Some in E as [[-> <-] | [_ E]]; [lia | done].
  - intros o1 o2 y [[<- <-] | [N1 E1]]%lookup_insert_Some [[<- E2] | [N2 E2]]%lookup_insert_Some Hy; try done; try lia. by eapply I2.
  - intros o1 y [[<- <-] | [N1 E1]]%lookup_insert_Some Hy; [lia | by eapply I3].
  - intros o1 y [[<- <-] | [N1 E1]]%lookup_insert_Some; eauto.
Qed.

(** Between two steps of a member function: the object has given up its descriptor. *)
Definition drop (o : nat) (s : t) : t := set_obj o (-1) (if valid s o then close (fd_ s o) s else s).

Lemma inv_drop s o : inv s → is_Some (objs s !! o) → inv (drop o s).
Proof.
  intros [I1 I2 I3 I4 I6 I5] [x E]. unfold drop, valid. rewrite (fd_at s o x E). pose proof (I4 o x E) as Hx.
  destruct (Z.leb_spec 0 x) as [H0 | H0]; cbv iota.
  - assert (x ∈ open_ s) as Ho by (apply I1; eauto). split; fields; try done.
    + intros y. rewrite elem_of_difference, elem_of_singleton, I1. split.
      * intros [[Hy [[o' E'] | Hr]] Hne]; [| by auto]. split; [done |]. left. exists o'. rewrite lookup_insert_ne; [done |]. congruence.
      * intros [Hy [[o' [[_ <-] | [Hne E']]%lookup_insert_Some] | Hr]]; [lia | |].
        -- split; [eauto |]. intros ->. apply Hne. by eapply I2.
        -- split; [auto |]. intros ->. by apply (I3 o x).
    + intros o1 o2 y [[<- <-] | [N1 E1]]%lookup_insert_Some [[<- E2] | [N2 E2]]%lookup_insert_Some Hy; try lia. by eapply I2.
    + intros o1 y [[<- <-] | [N1 E1]]%lookup_insert_Some Hy; [lia | by eapply I3].
    + intros o1 y [[<- <-] | [N1 E1]]%lookup_insert_Some; [lia | eauto].
    + by rewrite I5, bool_decide_eq_true_2.
  - assert (x = -1) as -> by lia. assert (set_obj o (-1) s = s) as -> by (unfold set_obj; rewrite insert_id by done; by destruct s). done.
Qed.

(** A descriptor goes from one object to another. *)
Lemma inv_move s o o' x :
  inv s → o ≠ o' → objs s !! o' = Some x → (∀ y, objs s !! o = Some y → y = -1) → inv (set_obj o x (set_obj o' (-1) s)).
Proof.
  intros [I1 I2 I3 I4 I6 I5] Hne E Ho.
  assert (∀ o1 y, <[o := x]> (<[o' := -1]> (objs s)) !! o1 = Some y → 0 <= y →
    (o1 = o ∧ y = x) ∨ (o1 ≠ o ∧ o1 ≠ o' ∧ objs s !! o1 = Some y)) as Hl.
  { intros o1 y [[<- <-] | [N1 [[<- <-] | [N2 E1]]%lookup_insert_Some]]%lookup_insert_Some Hy; [auto | lia |]. right. auto. }
  assert (∀ o1 y, o1 ≠ o' → objs s !! o1 = Some y → 0 <= y → y ≠ x) as Hx by (intros o1 y N1 E1 Hy ->; apply N1; by eapply I2).
  split; fields; try done.
  - intros y. rewrite I1. split; (intros [Hy [[o1 E1] | Hr]]; [| by auto]); (split; [done |]); left.
    + destruct (decide (o1 = o')) as [-> | N1]; [exists o; rewrite lookup_insert_eq; congruence |]. exists o1.
      rewrite !lookup_insert_ne; [done | done |]. intros <-. specialize (Ho y E1). lia.
    + destruct (Hl o1 y E1 Hy) as [[-> ->] | (_ & _ & E2)]; eauto.
  - intros o1 o2 y E1 E2 Hy. destruct (Hl _ _ E1 Hy) as [[-> ->] | (N1 & N1' & F1)], (Hl _ _ E2 Hy) as [[-> F2] | (N2 & N2' & F2)]; try done.
    + exfalso. by apply (Hx o2 x).
    + exfalso. by apply (Hx o1 y).
    + by eapply I2.
  - intros o1 y E1 Hy. destruct (Hl _ _ E1 Hy) as [[-> ->] | (_ & _ & F1)]; by eapply I3.
  - intros o1 y [[<- <-] | [N1 [[<- <-] | [N2 E1]]%lookup_insert_Some]]%lookup_insert_Some; [eauto | lia | eauto].
Qed.

Lemma inv_release s o : inv s → is_Some (objs s !! o) → inv (let '(x, s') := release o s in keep x s').
Proof.
  intros Hi [x E]. pose proof Hi as [I1 I2 I3 I4 I6 I5]. unfold release, exchange, keep. rewrite (fd_at s o x E).
  destruct (Z.leb_spec 0 x) as [H0 | H0].
  - split; fields; try done.
    + intros y. rewrite I1, elem_of_union, elem_of_singleton. split.
      * intros [Hy [[o1 E1] | Hr]]; [| by auto]. split; [done |]. destruct (decide (o1 = o)) as [-> | N]; [right; left; congruence |].
        left. exists o1. by rewrite lookup_insert_ne.
      * intros [Hy [[o1 [[<- <-] | [N E1]]%lookup_insert_Some] | [-> | Hr]]]; [lia | eauto ..].
    + intros o1 o2 y [[<- <-] | [N1 E1]]%lookup_insert_Some [[<- E2] | [N2 E2]]%lookup_insert_Some Hy; try lia. by eapply I2.
    + intros o1 y [[<- <-] | [N1 E1]]%lookup_insert_Some Hy; [lia |]. rewrite not_elem_of_union, not_elem_of_singleton.
      split; [| by eapply I3]. intros ->. apply N1. by eapply I2.
    + intros o1 y [[<- <-] | [N1 E1]]%lookup_insert_Some; [lia | eauto].
    + intros y [->%elem_of_singleton | Hr]%elem_of_union; eauto.
  - pose proof (I4 o x E). assert (x = -1) as -> by lia. assert (set_obj o (-1) s = s) as -> by (unfold set_obj; rewrite insert_id by done; by destruct s). done.
Qed.

Lemma inv_destroy s o : inv s → is_Some (objs s !! o) → inv (destroy o s).
Proof.
  intros Hi Ho. pose proof (inv_drop s o Hi Ho) as [I1 I2 I3 I4 I6 I5]. change (reset o (-1) s) with (drop o s) in *.
  unfold destroy. change (reset o (-1) s) with (drop o s). set (s1 := drop o s) in *.
  assert (objs s1 !! o = Some (-1)) as E by (unfold s1, drop; destruct (valid s o); apply lookup_insert_eq). clearbody s1.
  split; fields; try done.
  - intros y. rewrite I1. split; (intros [Hy [[o1 E1] | Hr]]; [| by auto]); (split; [done |]); left; exists o1.
    + apply lookup_delete_Some. split; [| done]. intros <-. rewrite E in E1. injection E1 as <-. lia.
    + by apply lookup_delete_Some in E1 as [_ E1].
  - intros o1 o2 y [_ E1]%lookup_delete_Some [_ E2]%lookup_delete_Some. by eapply I2.
  - intros o1 y [_ E1]%lookup_delete_Some. by eapply I3.
  - intros o1 y [_ E1]%lookup_delete_Some. eauto.
Qed.

Lemma inv_other s x : inv s → x ∈ released s →
  inv (let s := close x s in mk (objs s) (open_ s) (released s ∖ {[x]}) (closed s) (bad s)).
Proof.
  intros [I1 I2 I3 I4 I6 I5] Hx. split; fields; try done.
  - intros y. rewrite elem_of_difference, elem_of_singleton, I1, elem_of_difference, elem_of_singleton. split; [naive_solver |].
    intros [Hy [[o E] | [Hr Hne]]]; [| by auto]. split; [eauto |]. intros ->. by eapply I3.
  - intros o y E Hy. rewrite not_elem_of_difference. left. by eapply I3.
  - intros y [Hy _]%elem_of_difference. eauto.
  - rewrite I5, bool_decide_eq_true_2; [done |]. apply I1. eauto.
Qed.

(** reset closes the old descriptor, then takes the new one. *)
Lemma reset_made s o x : inv s → is_Some (objs s !! o) → -1 <= x → x ∉ open_ s → reset o x (made x s) = set_obj o x (made x (drop o s)).
Proof.
  intros Hi [y E] Hx Hn. assert (fd_ (made x s) o = y) as E' by (unfold made; destruct (0 <=? x); by apply fd_at).
  unfold reset, drop, valid. rewrite E', (fd_at s o y E). destruct (Z.leb_spec 0 y) as [H0 | H0]; cbv zeta iota.
  - assert (y ∈ open_ s) as Ho by (apply (i_open s Hi); eauto). assert (x ≠ y) by congruence.
    unfold made, set_obj, close. destruct (0 <=? x); fields; rewrite insert_insert_eq; [| done].
    f_equal; [set_solver |]. by rewrite !bool_decide_eq_true_2 by set_solver.
  - unfold made, set_obj. destruct (0 <=? x); fields; by rewrite insert_insert_eq.
Qed.

Lemma inv_use s s' : inv s → use s s' → inv s'.
Proof.
  intros Hi Hu. destruct Hu as [o x Ho Hx Hn | o x Ho Hx Hn | o o' Ho [x E] | o o' Ho [x E] | o Ho | o Ho | x Hx].
  - apply inv_take; try done. by rewrite Ho.
  - rewrite reset_made by done. apply inv_take; [by apply inv_drop | | done |].
    + unfold drop. intros y. destruct (valid s o); fields; rewrite lookup_insert_eq; congruence.
    + unfold drop. destruct (valid s o); fields; set_solver.
  - unfold move_construct, exchange, construct. rewrite (fd_at s o' x E). apply inv_move; try done; [congruence | by rewrite Ho].
  - unfold move_assign, exchange. destruct (Nat.eqb_spec o o') as [| Hne]; [done |]. rewrite (fd_at s o' x E).
    assert (reset o x (set_obj o' (-1) s) = set_obj o x (set_obj o' (-1) (drop o s))) as ->.
    { destruct Ho as [y Ey]. unfold reset, drop, valid. rewrite (fd_at s o y Ey), (fd_at (set_obj o' (-1) s) o y) by (fields; by rewrite lookup_insert_ne).
      unfold set_obj, close. destruct (0 <=? y); fields; f_equal; by rewrite (insert_insert_ne _ o' o), insert_insert_eq. }
    assert (∀ o1 y, objs (drop o s) !! o1 = Some y ↔ (o1 = o ∧ y = -1) ∨ (o1 ≠ o ∧ objs s !! o1 = Some y)) as Hd.
    { intros o1 y. unfold drop. destruct (valid s o); fields; rewrite lookup_insert_Some; naive_solver. }
    apply inv_move; [by apply inv_drop | done | apply Hd; auto |]. intros y [[_ ?] | [[] _]]%Hd; done.
  - by apply inv_release.
  - by apply inv_destroy.
  - by apply inv_other.
Qed.

(** ** Theorem *)

(** Whatever is done with handles, each open descriptor has exactly one owner, a
    handle or whoever released it, nothing is closed that is not open, and when the
    handles are gone and nothing was released, nothing is left open: everything is
    closed exactly once, on every path. *)
Theorem closed_exactly_once (s : t) :
  rtc use none s →
  bad s = false ∧
  (∀ x, x ∈ open_ s ↔ 0 <= x ∧ ((∃ o, objs s !! o = Some x) ∨ x ∈ released s)) ∧
  (∀ o o' x, objs s !! o = Some x → objs s !! o' = Some x → 0 <= x → o = o' ∧ x ∉ released s) ∧
  (objs s = ∅ → released s = ∅ → open_ s = ∅).
Proof.
  intros Hs. assert (inv s) as Hi.
  { assert (inv none) as H0 by (split; try done; [intros x; cbn; split; [done | by intros [_ [[o ?] | ?]]] | done..]).
    revert H0. induction Hs as [s | s s1 s2 Hu _ IH]; [done |]. intros Hi. apply IH. by eapply inv_use. }
  destruct Hi as [I1 I2 I3 I4 I6 I5]. split_and!; try done.
  - intros o o' x E E' Hx. split; [by eapply I2 | by eapply I3].
  - intros E1 E2. apply set_eq. intros x. rewrite I1, E1, E2. split; [by intros [_ [[o ?] | ?]] | done].
Qed.

Lemma closed_exactly_once_witness :
  ∃ s, rtc use none s ∧ closed s = [3; 4] ∧ open_ s = ∅ ∧ bad s = false.
Proof.
  set (s1 := construct 0 3 (made 3 none)). set (s2 := construct 1 4 (made 4 s1)). set (s3 := move_assign 0 1 s2).
  set (s4 := destroy 0 s3). set (s5 := destroy 1 s4).
  assert (rtc use none s5) as Hs.
  { eapply rtc_l; [apply (u_construct none 0 3); [reflexivity | lia | apply (bool_decide_eq_false_1 _); reflexivity] |].
    eapply rtc_l; [apply (u_construct s1 1 4); [reflexivity | lia | apply (bool_decide_eq_false_1 _); reflexivity] |].
    eapply rtc_l; [apply (u_move_assign s2 0 1); eexists; reflexivity |].
    eapply rtc_l; [apply (u_destroy s3 0); eexists; reflexivity |]. apply rtc_once, (u_destroy s4 1). eexists. reflexivity. }
  destruct (closed_exactly_once s5 Hs) as (H1 & _ & _ & H2). exists s5. split; [exact Hs |]. split; [reflexivity |].
  split; [apply H2; reflexivity | exact H1].
Defined.

End UniqueFd.
