(* ===== verification/HealthChecker.v ===== *)
(** * The health checker (src/daemon/health_checker.cpp)

    One round starts a non-blocking connect to every target, waits for all of
    them with poll under one deadline, and reports a result per target to the
    model. The system calls and the clock are arguments, indexed by the number
    of clock readings so far; the wait loop runs on fuel, and a round is proved
    to end. What sequences of reports do to a member is proved of report_health
    through the automaton of LbHealth.v. *)

From Stdlib Require Import ZArith Lia.
From S2P Require Import Prelude Abi VipSpec Control RealTable Config LbState LbInv LbProps LbHealth LbTheorems System PeriodicThread.

Module HealthChecker.
Import LbState Config.

(** ** The surroundings *)

Definition EINTR := 4.
Definition EAGAIN := 11.
Definition ENOMEM := 12.
Definition ENFILE := 23.
Definition EMFILE := 24.
Definition EADDRNOTAVAIL := 99.
Definition ENOBUFS := 105.
Definition EINPROGRESS := 115.

Inductive poll_result : Type :=
| PollFail (errno : Z)
| PollReady (revents : list bool).      (* which of the descriptors have events *)

Record ProbeEnv := mk_probe_env {
  pe_clock : nat → Z;                           (* the n-th reading of the steady clock, in ns *)
  pe_socket : nat → Z + Z;                      (* socket() for the i-th target: errno or descriptor *)
  pe_connect : Z → Z → Z → option Z;            (* connect(fd, address, port): errno, or success *)
  pe_poll : nat → list Z → Z → poll_result;     (* poll after n readings: descriptors, timeout in ms *)
  pe_so_error : nat → Z → Z;                    (* SO_ERROR of a descriptor after n readings *)
  pe_strerror : Z → str
}.

Definition is_local (err : Z) : bool :=
  (err =? EMFILE) || (err =? ENFILE) || (err =? ENOBUFS) || (err =? ENOMEM) || (err =? EADDRNOTAVAIL) || (err =? EAGAIN).

(** int of a longer integer *)
Definition s32 (x : Z) : Z := (x + 2 ^ 31) mod 2 ^ 32 - 2 ^ 31.

(** ** A round of probes *)

(** What is kept per target: its result, socket, start and whether it is pending. *)
Record Probe := mk_state {
  p_result : ProbeResult;
  p_sock : option Z;
  p_started : Z;
  p_pending : bool
}.

Section probe.
Context (env : ProbeEnv).

(** finish(i, ok, detail); [n] is the number of clock readings so far. *)
Definition finish (p : Probe) (ok : bool) (detail : str) (n : nat) : Probe * nat :=
  let rtt := u32 (Z.quot (pe_clock env n - p_started p) 1000) in
  (mk_state (mk_probe ok rtt detail (pr_local_error (p_result p))) None (p_started p) false, S n).

(** results[i].local_error = is_local(err); *)
Definition set_local (err : Z) (p : Probe) : Probe :=
  let r := p_result p in
  mk_state (mk_probe (pr_ok r) (pr_rtt_us r) (pr_detail r) (is_local err)) (p_sock p) (p_started p) (p_pending p).

Definition fail_with (err : Z) (r : Probe * nat) : Probe * nat := (set_local err r.1, r.2).

Definition start_one (i : nat) (t : HealthTarget) (n : nat) : Probe * nat :=
  let started := pe_clock env n in
  let n := S n in
  let idle := mk_state (mk_probe false 0 [] false) None started false in
  match pe_socket env i with
  | inl err => fail_with err (finish idle false (§"socket: " ++ pe_strerror env err) n)
  | inr fd =>
      let open := mk_state (p_result idle) (Some fd) started false in
      match pe_connect env fd (ht_addr t) (VipSpec.port_be (ht_vip t)) with
      | None => finish open true §"connected" n
      | Some err =>
          if err =? EINPROGRESS then (mk_state (p_result idle) (Some fd) started true, n)
          else fail_with err (finish open false (pe_strerror env err) n)
      end
  end.

Fixpoint start_all (i : nat) (targets : list HealthTarget) (n : nat) : list Probe * nat :=
  match targets with
  | [] => ([], n)
  | t :: targets =>
      let '(p, n) := start_one i t n in
      let '(ps, n) := start_all (S i) targets n in
      (p :: ps, n)
  end.

(** The descriptors that are polled. *)
Definition pollfds (ps : list Probe) : list Z := omap (λ p, if p_pending p then p_sock p else None) ps.

(** The probes with events are over; SO_ERROR says how. *)
Fixpoint take_ready (at_ : nat) (ps : list Probe) (revents : list bool) (n : nat) : list Probe * nat :=
  match ps with
  | [] => ([], n)
  | p :: ps =>
      match p_pending p, p_sock p, revents with
      | true, Some fd, r :: revents =>
          let '(p, n) :=
            if r then
              let err := pe_so_error env at_ fd in
              finish p (err =? 0) (if err =? 0 then §"connected" else pe_strerror env err) n
            else (p, n) in
          let '(ps, n) := take_ready at_ ps revents n in
          (p :: ps, n)
      | _, _, _ => let '(ps, n) := take_ready at_ ps revents n in (p :: ps, n)
      end
  end.

Fixpoint wait_loop (fuel : nat) (deadline : Z) (ps : list Probe) (n : nat) : option (list Probe * nat) :=
  match fuel with
  | O => None
  | S fuel =>
      match pollfds ps with
      | [] => Some (ps, n)
      | fds =>
          let left := Z.quot (deadline - pe_clock env n) 1000000 in
          let n := S n in
          if left <=? 0 then Some (ps, n) else
          match pe_poll env n fds (s32 left) with
          | PollFail errno => if errno =? EINTR then wait_loop fuel deadline ps n else Some (ps, n)
          | PollReady revents =>
              let '(ps, n') := take_ready n ps revents n in
              wait_loop fuel deadline ps n'
          end
      end
  end.

(** The probes still pending have run out of time. *)
Fixpoint expire (timeout_ms : Z) (ps : list Probe) (n : nat) : list Probe * nat :=
  match ps with
  | [] => ([], n)
  | p :: ps =>
      let '(p, n) := if p_pending p then finish p false (§"timeout after " ++ VipSpec.to_string timeout_ms ++ §" ms") n else (p, n) in
      let '(ps, n) := expire timeout_ms ps n in
      (p :: ps, n)
  end.

Definition probe_all (fuel : nat) (targets : list HealthTarget) (timeout_ms : Z) (n : nat) : option (list ProbeResult * nat) :=
  let '(ps, n) := start_all 0 targets n in
  let deadline := pe_clock env n + timeout_ms * 1000000 in
  match wait_loop fuel deadline ps (S n) with
  | None => None
  | Some (ps, n) => let '(ps, n) := expire timeout_ms ps n in Some (p_result <$> ps, n)
  end.

End probe.

(** ** A step of the checker *)

(** state_.report_health(targets[i], results[i], p.rise, p.fall) for every i *)
Definition report_all (e : CEnv) (rise fall : Z) (round : list (HealthTarget * ProbeResult)) : M LbState.t unit :=
  m_for round (λ tr, report_health e tr.1 tr.2 rise fall).

(** The sleep until the next round. *)
Definition pause (interval_ms start stop : Z) : Z :=
  let spent := Z.quot (stop - start) 1000000 in
  if spent <? interval_ms then interval_ms - spent else 0.

(** The targets come from the state the round starts in; other calls may run
    while the probes are under way, and the reports meet the state they left. *)
Definition step (env : ProbeEnv) (fuel : nat) (e : CEnv) (p : HealthCheckConfig) (before : LbState.t) (w : World LbState.t) :
    option (result Z * World LbState.t) :=
  let start := pe_clock env 0 in
  let targets := health_targets before in
  match probe_all env fuel targets (hc_timeout_ms p) 1 with
  | None => None
  | Some (results, n) =>
      match report_all e (hc_rise p) (hc_fall p) (zip targets results) w with
      | (Throw ex, w) => Some (Throw ex, w)
      | (Ok _, w) => Some (Ok (pause (hc_interval_ms p) start (pe_clock env n)), w)
      end
  end.

(** ** What is relied on of the system *)

(** The clock does not go back; poll returns without events only when its
    timeout has passed; and it is interrupted by signals only up to some point. *)
Record env_ok (env : ProbeEnv) (N : nat) : Prop := {
  ok_clock n : pe_clock env n <= pe_clock env (S n);
  ok_revents n fds t revs : pe_poll env n fds t = PollReady revs → length revs = length fds;
  ok_timeout n fds t revs : pe_poll env (S n) fds t = PollReady revs → (true ∉ revs) →
    0 <= t ∧ pe_clock env n + t * 1000000 <= pe_clock env (S n);
  ok_signals n fds t : (N <= n)%nat → pe_poll env n fds t ≠ PollFail EINTR
}.

(** Why the wait of a round ended with probes pending. [lo] is the reading of
    the clock the deadline was computed from, the first after all connects were
    started; at a reading of the same round, up to [hi], less than a millisecond
    was left of it, or poll failed. *)
Definition gave_up_at (env : ProbeEnv) (timeout_ms : Z) (lo hi : nat) : Prop :=
  ∃ j, (lo <= j <= hi)%nat ∧
    (pe_clock env lo + timeout_ms * 1000000 < pe_clock env j + 1000000 ∨
     ∃ fds tmo err, pe_poll env j fds tmo = PollFail err ∧ err ≠ EINTR).

(** What a result may be based on: the calls for this target, and what the
    polls of this round said. *)
Inductive verdict (env : ProbeEnv) (timeout_ms : Z) (lo hi : nat) (i : nat) (t : HealthTarget) (r : ProbeResult) : Prop :=
| v_no_socket err :
    pe_socket env i = inl err → pr_ok r = false → pr_local_error r = is_local err → verdict env timeout_ms lo hi i t r
| v_connected fd :
    pe_socket env i = inr fd → pe_connect env fd (ht_addr t) (VipSpec.port_be (ht_vip t)) = None →
    pr_ok r = true → pr_local_error r = false → verdict env timeout_ms lo hi i t r
| v_refused fd err :
    pe_socket env i = inr fd → pe_connect env fd (ht_addr t) (VipSpec.port_be (ht_vip t)) = Some err → err ≠ EINPROGRESS →
    pr_ok r = false → pr_local_error r = is_local err → verdict env timeout_ms lo hi i t r
| v_answered fd n fds tmo revs k :
    pe_socket env i = inr fd → pe_connect env fd (ht_addr t) (VipSpec.port_be (ht_vip t)) = Some EINPROGRESS →
    (lo <= n <= hi)%nat → pe_poll env n fds tmo = PollReady revs → fds !! k = Some fd → revs !! k = Some true →
    pr_ok r = (pe_so_error env n fd =? 0) → pr_local_error r = false → verdict env timeout_ms lo hi i t r
| v_timeout fd :
    pe_socket env i = inr fd → pe_connect env fd (ht_addr t) (VipSpec.port_be (ht_vip t)) = Some EINPROGRESS →
    gave_up_at env timeout_ms lo hi → pr_ok r = false → pr_local_error r = false → verdict env timeout_ms lo hi i t r.

(** ** Lemmas: a round ends *)

Lemma clock_mono env N n m : env_ok env N → (n <= m)%nat → pe_clock env n <= pe_clock env m.
Proof. intros H. induction 1 as [| m _ IH]; [lia |]. pose proof (ok_clock _ _ H m). lia. Qed.

Lemma take_ready_spec env at_ ps revs n :
  let '(ps', n') := take_ready env at_ ps revs n in
  (n <= n')%nat ∧ length ps' = length ps ∧ (length (pollfds ps') <= length (pollfds ps))%nat ∧
  (length revs = length (pollfds ps) → true ∈ revs → (length (pollfds ps') < length (pollfds ps))%nat) ∧
  ∀ j p, ps !! j = Some p → ∃ p', ps' !! j = Some p' ∧
    (p' = p ∨ ∃ fd k d m, p_pending p = true ∧ p_sock p = Some fd ∧ pollfds ps !! k = Some fd ∧ revs !! k = Some true ∧
       p' = (finish env p (pe_so_error env at_ fd =? 0) d m).1).
Proof.
  revert revs n. induction ps as [| p ps IH]; intros revs n; cbn [take_ready].
  { split_and!; try done. cbn. intros E H. apply nil_length_inv in E as ->. by apply not_elem_of_nil in H. }
  destruct (p_pending p) eqn:Ep; [destruct (p_sock p) as [fd |] eqn:Es |].
  2, 3: specialize (IH revs n); destruct (take_ready env at_ ps revs n) as [ps' n']; destruct IH as (H1 & H2 & H3 & H4 & H5);
    unfold pollfds in *; cbn [omap list_omap]; rewrite Ep, ?Es; cbn [length]; (split_and!; [done | by f_equal | done | done |]);
    (intros [| j] q Hq; [injection Hq as <-; exists p; auto |]); exact (H5 j q Hq).
  destruct revs as [| r revs].
  - specialize (IH [] n). destruct (take_ready env at_ ps [] n) as [ps' n']. destruct IH as (H1 & H2 & H3 & H4 & H5).
    unfold pollfds in *. cbn [omap list_omap]. rewrite Ep, Es. cbn [length]. split_and!; [done | lia | lia | done |].
    intros [| j] q Hq; [injection Hq as <-; exists p; auto |]. destruct (H5 j q Hq) as (q' & Hq' & [-> | (fd' & k & d & m & _ & _ & _ & Hk & _)]);
      [by exists q; auto | by rewrite lookup_nil in Hk].
  - destruct r.
    + set (d := if pe_so_error env at_ fd =? 0 then _ else _). specialize (IH revs (S n)). cbn [finish].
      destruct (take_ready env at_ ps revs (S n)) as [ps' n'] eqn:Er. destruct IH as (H1 & H2 & H3 & H4 & H5).
      unfold pollfds in *. cbn [omap list_omap p_pending]. rewrite Ep, Es. cbn [length]. split_and!; [lia | lia | lia | lia |].
      intros [| j] q Hq.
      * injection Hq as <-. eexists. split; [reflexivity |]. right. exists fd, 0%nat, d, n. done.
      * destruct (H5 j q Hq) as (q' & Hq' & [-> | (fd' & k & d' & m & ? & ? & ? & ? & ?)]); [by exists q; auto |].
        exists q'. split; [done |]. right. by exists fd', (S k), d', m.
    + specialize (IH revs n). destruct (take_ready env at_ ps revs n) as [ps' n']. destruct IH as (H1 & H2 & H3 & H4 & H5).
      unfold pollfds in *. cbn [omap list_omap]. rewrite Ep, Es. cbn [length]. split_and!; [done | lia | lia | |].
      * intros E [? | Hin]%elem_of_cons; [done |]. injection E as E. specialize (H4 E Hin). lia.
      * intros [| j] q Hq; [injection Hq as <-; exists p; auto |].
        destruct (H5 j q Hq) as (q' & Hq' & [-> | (fd' & k & d' & m & ? & ? & ? & ? & ?)]); [by exists q; auto |].
        exists q'. split; [done |]. right. by exists fd', (S k), d', m.
Qed.

(** No whole millisecond is left. *)
Lemma expired deadline now : Z.quot (deadline - now) 1000000 <= 0 → deadline < now + 1000000.
Proof.
  intros H. destruct (Z.le_gt_cases 0 (deadline - now)) as [H0 | H0]; [| lia]. rewrite Z.quot_div_nonneg in H by lia.
  pose proof (Z.div_mod (deadline - now) 1000000 ltac:(lia)). pose proof (Z.mod_pos_bound (deadline - now) 1000000 ltac:(lia)). nia.
Qed.

(** Once poll has timed out, no time is left. *)
Lemma no_time_left deadline now now' timeout :
  deadline - now <= timeout * 1000000 → timeout < 2 ^ 32 → 0 < Z.quot (deadline - now) 1000000 →
  0 <= s32 (Z.quot (deadline - now) 1000000) → now + s32 (Z.quot (deadline - now) 1000000) * 1000000 <= now' →
  Z.quot (deadline - now') 1000000 <= 0.
Proof.
  intros Hd Ht Hpos Hs He. set (q := Z.quot (deadline - now) 1000000) in *.
  assert (0 < deadline - now) as Hp.
  { destruct (Z.lt_ge_cases 0 (deadline - now)); [done |]. exfalso. subst q.
    pose proof (Z.quot_opp_l (deadline - now) 1000000). pose proof (Z.quot_pos (- (deadline - now)) 1000000). lia. }
  assert (q = (deadline - now) / 1000000) as Eq by (apply Z.quot_div_nonneg; lia).
  pose proof (Z.div_mod (deadline - now) 1000000 ltac:(lia)) as Hdm. pose proof (Z.mod_pos_bound (deadline - now) 1000000 ltac:(lia)) as Hm.
  assert (q < 2 ^ 32) as Hq by (rewrite Eq in *; nia). assert (s32 q = q) as E.
  { unfold s32 in *. destruct (Z.lt_ge_cases q (2 ^ 31)) as [Hlt | Hge].
    - rewrite Z.mod_small; lia.
    - exfalso. replace (q + 2 ^ 31) with ((q - 2 ^ 31) + 1 * 2 ^ 32) in Hs by lia. rewrite Z.mod_add, Z.mod_small in Hs by lia. lia. }
  rewrite E in He. assert (deadline - now' < 1000000) by (rewrite Eq in He; lia).
  destruct (Z.le_gt_cases 0 (deadline - now')) as [H0 | H0].
  - rewrite Z.quot_small; lia.
  - rewrite <-(Z.opp_involutive (deadline - now')), Z.quot_opp_l by lia. pose proof (Z.quot_pos (- (deadline - now')) 1000000). lia.
Qed.

Section round.
Context (env : ProbeEnv) (N : nat) (Hok : env_ok env N).

(** What is known of a probe while the round lasts. *)
Definition sound (timeout_ms : Z) (lo hi : nat) (i : nat) (t : HealthTarget) (p : Probe) : Prop :=
  if p_pending p then
    ∃ fd, p_sock p = Some fd ∧ pe_socket env i = inr fd ∧
      pe_connect env fd (ht_addr t) (VipSpec.port_be (ht_vip t)) = Some EINPROGRESS ∧ pr_local_error (p_result p) = false
  else verdict env timeout_ms lo hi i t (p_result p).

Definition all_sound (timeout_ms : Z) (lo hi : nat) (targets : list HealthTarget) (ps : list Probe) : Prop :=
  length ps = length targets ∧
  ∀ i t p, targets !! i = Some t → ps !! i = Some p → sound timeout_ms lo hi i t p.

Lemma start_one_sound tmo lo hi i t n : sound tmo lo hi i t (start_one env i t n).1 ∧ (n <= (start_one env i t n).2)%nat.
Proof.
  unfold start_one, sound. destruct (pe_socket env i) as [err | fd] eqn:Es; [split; [by eapply v_no_socket | cbn; lia] |].
  destruct (pe_connect env fd (ht_addr t) (VipSpec.port_be (ht_vip t))) as [err |] eqn:Ec; [| split; [by eapply v_connected | cbn; lia]].
  destruct (Z.eqb_spec err EINPROGRESS) as [-> | Hne]; [split; [| cbn; lia] | split; [by eapply v_refused | cbn; lia]].
  cbn. by exists fd.
Qed.

Lemma start_all_sound tmo lo hi i targets n :
  let '(ps, n') := start_all env i targets n in
  length ps = length targets ∧ (∀ j t p, targets !! j = Some t → ps !! j = Some p → sound tmo lo hi (i + j) t p) ∧ (n <= n')%nat.
Proof.
  revert i n. induction targets as [| t targets IH]; intros i n; cbn [start_all]; [done |].
  pose proof (start_one_sound tmo lo hi i t n) as [H1 H2]. destruct (start_one env i t n) as [p n1]. cbn [fst snd] in *.
  specialize (IH (S i) n1). destruct (start_all env (S i) targets n1) as [ps n2]. destruct IH as (H3 & H4 & H5).
  split_and!; [by cbn; f_equal | | lia]. intros [| j] t' p' Ht Hp; cbn in *.
  - injection Ht as <-. injection Hp as <-. by rewrite Nat.add_0_r.
  - rewrite <-Nat.add_succ_comm. by apply H4.
Qed.

Lemma all_sound_mono tmo lo hi hi' targets ps :
  (hi <= hi')%nat → all_sound tmo lo hi targets ps → all_sound tmo lo hi' targets ps.
Proof.
  intros Hle [Hl Hs]. split; [done |]. intros i t p Ht Hp. specialize (Hs i t p Ht Hp). unfold sound in *.
  destruct (p_pending p); [done |]. destruct Hs as [| | | fd n fds tm revs k ? ? Hn | fd ? ? (j & Hj & Hg)].
  - by eapply v_no_socket.
  - by eapply v_connected.
  - by eapply v_refused.
  - eapply v_answered; try done. lia.
  - eapply v_timeout; try done. exists j. split; [lia | done].
Qed.

(** Events turn pending probes into answers. *)
Lemma take_ready_sound tmo lo hi targets ps at_ revs n ps' n' fds left :
  all_sound tmo lo hi targets ps → (lo <= at_ <= hi)%nat → pe_poll env at_ fds left = PollReady revs → fds = pollfds ps →
  take_ready env at_ ps revs n = (ps', n') → all_sound tmo lo hi targets ps'.
Proof.
  intros [Hl Hs] Hat Hpoll -> E. pose proof (take_ready_spec env at_ ps revs n) as H. rewrite E in H.
  destruct H as (_ & Hl' & _ & _ & Hp). split; [by rewrite Hl' |]. intros i t p' Ht Hp'.
  destruct (lookup_lt_is_Some_2 ps i) as [p Hi]; [rewrite <-Hl'; by eapply lookup_lt_Some |].
  destruct (Hp i p Hi) as (q & Hq & Hcase). rewrite Hp' in Hq. injection Hq as <-. specialize (Hs i t p Ht Hi).
  destruct Hcase as [-> | (fd & k & d & m & E1 & E2 & E3 & E4 & ->)]; [done |].
  unfold sound in Hs. rewrite E1 in Hs. destruct Hs as (fd' & F1 & F2 & F3 & F4). rewrite E2 in F1. injection F1 as <-.
  unfold sound. cbn [finish fst p_pending p_result]. by eapply (v_answered _ _ _ _ _ _ _ fd at_ (pollfds ps) left revs k).
Qed.

Lemma wait_loop_total targets timeout lo fuel ps n :
  let deadline := pe_clock env lo + timeout * 1000000 in
  all_sound timeout lo n targets ps → (lo <= n)%nat → deadline - pe_clock env n <= timeout * 1000000 → timeout < 2 ^ 32 →
  (length (pollfds ps) + (N - n) + 2 <= fuel)%nat →
  ∃ ps' n', wait_loop env fuel deadline ps n = Some (ps', n') ∧ (n <= n')%nat ∧ all_sound timeout lo n' targets ps' ∧
    (pollfds ps' = [] ∨ gave_up_at env timeout lo n').
Proof.
  intros deadline. revert ps n. induction fuel as [| fuel IH]; intros ps n Hs Hlo Hd Ht Hf; [lia |]. cbn [wait_loop].
  destruct (pollfds ps) as [| fd fds] eqn:Efd; [by exists ps, n; auto |]. rewrite <-Efd. set (left := Z.quot (deadline - pe_clock env n) 1000000) in *.
  assert (all_sound timeout lo (S n) targets ps) as Hs1 by (eapply all_sound_mono; [| done]; lia).
  destruct (Z.leb_spec left 0) as [Hle | Hgt].
  { do 2 eexists. split_and!; [reflexivity | lia | done |]. right. exists n. split; [lia |]. left. by apply expired. }
  pose proof (ok_clock _ _ Hok n) as Hck. destruct (pe_poll env (S n) (pollfds ps) (s32 left)) as [err | revs] eqn:Epoll.
  - destruct (Z.eqb_spec err EINTR) as [-> | Hne].
    + destruct (IH ps (S n) Hs1) as (ps' & n' & H1 & H2 & H3); [lia | lia | done | |].
      { destruct (decide (N <= S n)%nat) as [Hge |].
        - by destruct (ok_signals _ _ Hok (S n) (pollfds ps) (s32 left) Hge).
        - rewrite Efd. cbn [length] in *. lia. }
      exists ps', n'. split_and!; [done | lia | apply H3..].
    + do 2 eexists. split_and!; [reflexivity | lia | done |]. right. exists (S n). split; [lia |]. right. eauto 10.
  - destruct (take_ready env (S n) ps revs (S n)) as [ps' n'] eqn:Er.
    pose proof (take_ready_sound timeout lo (S n) targets ps (S n) _ _ _ _ _ _ Hs1 ltac:(lia) Epoll eq_refl Er) as Hs'.
    pose proof (take_ready_spec env (S n) ps revs (S n)) as Hspec. rewrite Er in Hspec. destruct Hspec as (G1 & G2 & G3 & G4 & _).
    apply (all_sound_mono _ _ _ n') in Hs'; [| done].
    pose proof (ok_revents _ _ Hok _ _ _ _ Epoll) as Hrl. pose proof (clock_mono _ _ (S n) n' Hok G1) as Hck'.
    destruct (decide (true ∈ revs)) as [Hev | Hno].
    + specialize (G4 Hrl Hev). destruct (IH ps' n' Hs') as (ps2 & n2 & H1 & H2 & H3); [lia | lia | done | |].
      { rewrite Efd in G4. cbn [length] in *. lia. }
      exists ps2, n2. split_and!; [done | lia | apply H3..].
    + destruct (ok_timeout _ _ Hok _ _ _ _ Epoll Hno) as [H0 H1]. destruct fuel as [| fuel]; [cbn [length] in Hf; lia |]. cbn [wait_loop].
      destruct (pollfds ps') as [| fd' fds'] eqn:Efd'; [exists ps', n'; split_and!; [done | lia | done | by left] |].
      assert (Z.quot (deadline - pe_clock env n') 1000000 <= 0) as Hz.
      { apply (no_time_left deadline (pe_clock env n) _ timeout); try done. fold left. lia. }
      rewrite (proj2 (Z.leb_le _ _) Hz). do 2 eexists. split_and!; [reflexivity | lia | eapply all_sound_mono; [| done]; lia |].
      right. exists n'. split; [lia |]. left. by apply expired.
Qed.

Lemma expire_sound lo hi targets timeout ps n :
  let G := gave_up_at env timeout lo hi in
  all_sound timeout lo hi targets ps → (pollfds ps = [] ∨ G) →
  ∀ i t r, targets !! i = Some t → (p_result <$> (expire env timeout ps n).1) !! i = Some r → verdict env timeout lo hi i t r.
Proof.
  intros G [Hl Hs] Hg. assert (∀ i p, ps !! i = Some p → p_pending p = true → is_Some (p_sock p) → G) as Hpend.
  { intros i p Hi Hp [fd Hfd]. destruct Hg as [Hnil |]; [| done]. exfalso. apply (not_elem_of_nil (A := Z) fd). rewrite <-Hnil.
    apply list_elem_of_omap. exists p. split; [by eapply list_elem_of_lookup_2 |]. by rewrite Hp. }
  clear Hg. intros i t r Ht. assert (∀ p, ps !! i = Some p → sound timeout lo hi i t p) as Hs' by (intros p; by apply Hs). clear Hs Hl Ht targets.
  assert (∀ p, ps !! i = Some p → p_pending p = true → is_Some (p_sock p) → G) as Hp' by (intros p; by apply Hpend). clear Hpend.
  enough (∀ j, (∀ p, ps !! j = Some p → sound timeout lo hi i t p) → (∀ p, ps !! j = Some p → p_pending p = true → is_Some (p_sock p) → G) →
    (p_result <$> (expire env timeout ps n).1) !! j = Some r → verdict env timeout lo hi i t r) as H by (apply (H i); done).
  clear Hs' Hp'. revert n. induction ps as [| p ps IH]; intros n j Hs Hp; [done |]. cbn [expire].
  destruct (if p_pending p then _ else _) as [p' n'] eqn:Ep. specialize (IH n'). destruct (expire env timeout ps n') as [ps' n'']. cbn [fst fmap list_fmap] in *.
  destruct j as [| j]; [| cbn in *; by apply IH]. cbn in *. intros [= <-]. specialize (Hs p eq_refl). specialize (Hp p eq_refl). unfold sound in Hs.
  apply (f_equal fst) in Ep. destruct (p_pending p); [| cbn [fst] in Ep; by subst p']. unfold finish in Ep. cbn [fst] in Ep. subst p'. destruct Hs as (fd & F1 & F2 & F3 & F4).
  cbn [p_result]. eapply v_timeout; try done. by apply Hp; rewrite ?F1.
Qed.

Lemma expire_grows timeout ps n : (n <= (expire env timeout ps n).2)%nat.
Proof.
  revert n. induction ps as [| p ps IH]; intros n; cbn [expire]; [done |]. unfold finish. destruct (p_pending p).
  - specialize (IH (S n)). destruct (expire env timeout ps (S n)) as [ps' n'']. cbn in *. lia.
  - specialize (IH n). by destruct (expire env timeout ps n) as [ps' n''].
Qed.

Lemma expire_length timeout ps n : length (expire env timeout ps n).1 = length ps.
Proof.
  revert n. induction ps as [| p ps IH]; intros n; cbn [expire]; [done |]. destruct (if p_pending p then _ else _) as [p' n'].
  specialize (IH n'). destruct (expire env timeout ps n') as [ps' n'']. cbn in *. by f_equal.
Qed.

End round.

(** ** Theorems: probing *)

Lemma probe_all_run (env : ProbeEnv) (N fuel : nat) (targets : list HealthTarget) (timeout_ms : Z) :
  env_ok env N → timeout_ms < 2 ^ 32 → (length targets + N + 2 <= fuel)%nat →
  let lo := (start_all env 0 targets 1).2 in
  ∃ results n, probe_all env fuel targets timeout_ms 1 = Some (results, n) ∧ (lo < n)%nat ∧ length results = length targets ∧
    ∀ i t r, targets !! i = Some t → results !! i = Some r → verdict env timeout_ms lo n i t r.
Proof.
  intros Hok Ht Hf. unfold probe_all. pose proof (start_all_sound env) as Hstart.
  destruct (start_all env 0 targets 1) as [ps lo] eqn:Es. cbn [snd].
  specialize (Hstart timeout_ms lo (S lo) 0%nat targets 1%nat). rewrite Es in Hstart. destruct Hstart as (H1 & H2 & H3).
  assert (length (pollfds ps) <= length targets)%nat as Hlen.
  { rewrite <-H1. unfold pollfds. clear. induction ps as [| p ps IH]; cbn; [lia |]. case_match; cbn; lia. }
  pose proof (ok_clock _ _ Hok lo). destruct (wait_loop_total env N Hok targets timeout_ms lo fuel ps (S lo)) as (ps' & n' & -> & Hn & Hs' & Hend); try lia.
  - split; [done |]. intros i t p. apply H2.
  - pose proof (expire_grows env timeout_ms ps' n') as Hg. pose proof (expire_length env timeout_ms ps' n') as Hle.
    assert (all_sound env timeout_ms lo (expire env timeout_ms ps' n').2 targets ps') as Hs'' by (by eapply all_sound_mono).
    pose proof (expire_sound env _ _ _ timeout_ms ps' n' Hs'') as He.
    destruct (expire env timeout_ms ps' n') as [ps'' n'']. cbn [fst snd] in *. exists (p_result <$> ps''), n''.
    split_and!; [done | lia | rewrite length_fmap, Hle; apply Hs' |]. apply He.
    destruct Hend as [? | (j & Hj & Hgu)]; [by left | right]. exists j. split; [lia | done].
Qed.

(** C17: a round of probes ends, and every verdict rests on evidence. Whatever the
    peers do, after at most as many polls as there are targets and signals, and
    two more, every target has exactly one result: success only after a completed
    handshake, local error only when the socket or the connect failed for a
    reason local to the balancer, and a timeout only when, at a reading of the
    clock in this round, less than a millisecond was left of the time-out counted
    from the moment the last connect had been started, or when poll itself
    failed in this round. *)
Theorem probes_judged (env : ProbeEnv) (N fuel : nat) (targets : list HealthTarget) (timeout_ms : Z) :
  env_ok env N → timeout_ms < 2 ^ 32 → (length targets + N + 2 <= fuel)%nat →
  let lo := (start_all env 0 targets 1).2 in
  ∃ results n, probe_all env fuel targets timeout_ms 1 = Some (results, n) ∧ (lo < n)%nat ∧ length results = length targets ∧
    ∀ i t r, targets !! i = Some t → results !! i = Some r → verdict env timeout_ms lo n i t r.
Proof. apply probe_all_run. Qed.

(** A balancer out of memory: the handshake is under way when poll fails. *)
Definition no_memory_env : ProbeEnv :=
  mk_probe_env (λ _, 0) (λ _, inr 5) (λ _ _ _, Some EINPROGRESS) (λ _ _ _, PollFail ENOMEM) (λ _ _, 0) (λ _, []).

(** When poll fails for a reason local to the balancer, the reals are blamed:
    a probe in progress is reported as a timeout that counts against the real,
    although the same error from socket or connect would not count. *)
Theorem poll_failure_blames_reals :
  let t := mk_target LbTheorems.vip80 LbTheorems.real7 1 in
  is_local ENOMEM = true ∧
  probe_all no_memory_env 3 [t] 500 1 = Some ([mk_probe false 0 §"timeout after 500 ms" false], 5%nat).
Proof. split; reflexivity. Qed.

(** ** Lemmas: a round of reports *)

(** The members a report concerns. *)
Definition key_of (h : HealthTarget) : VipSpec.t * Z := (ht_vip h, ht_addr h).

Definition member_at (s : LbState.t) (k : VipSpec.t * Z) : option Member := v ← vips_ s !! k.1; v_members v !! k.2.

(** What a probe says about a member, if it is about this incarnation of it. *)
Definition heard (now rise fall : Z) (round : list (HealthTarget * ProbeResult)) (k : VipSpec.t * Z) (m : Member) : Member :=
  foldl (λ m tr, if bool_decide (key_of tr.1 = k) && (m_incarnation m =? ht_incarnation tr.1)
                 then LbProps.health_step now rise fall tr.2 m else m) m round.

(** Equal but for the place in the ring. *)
Definition alike (m m' : Member) : Prop := set_in_ring false m = set_in_ring false m'.

Lemma alike_step now rise fall r m m' :
  alike m m' → alike (LbProps.health_step now rise fall r m) (LbProps.health_step now rise fall r m').
Proof.
  unfold alike, LbProps.health_step, set_in_ring. intros [= E1 E2 E3 E4 E5 E6 E7 E8].
  destruct (pr_local_error r); [congruence |]. destruct (pr_ok r); cbn; rewrite E3, ?E4, ?E5; case_match; cbn; congruence.
Qed.

Lemma alike_heard now rise fall round k m m' :
  alike m m' → alike (heard now rise fall round k m) (heard now rise fall round k m').
Proof.
  revert m m'. unfold heard. induction round as [| tr round IH]; intros m m' H; cbn [foldl]; [done |]. apply IH.
  assert (m_incarnation m = m_incarnation m') as -> by (unfold alike, set_in_ring in H; congruence).
  destruct (_ && _); [by apply alike_step | done].
Qed.

(** The member after one report. *)
Lemma reported_member e h r rise fall w k m :
  LbInv.inv (obj w) (km w) → calm w → member_at (obj w) k = Some m →
  ∃ w' m', report_health e h r rise fall w = (Ok (), w') ∧ LbInv.inv (obj w') (km w') ∧ LbInv.goes w w' ∧
    reals_ (obj w') = reals_ (obj w) ∧ health_enabled_ (obj w') = health_enabled_ (obj w) ∧
    member_at (obj w') k = Some m' ∧ alike m' (heard (epoch_ms e) rise fall [(h, r)] k m).
Proof.
  intros Hi Hc Hm. unfold heard. cbn [foldl fst snd].
  destruct (LbProps.target_member (obj w) h) as [[v mh] |] eqn:Ht; [destruct (pr_local_error r) eqn:El |].
  - exists w, m. rewrite LbProps.report_skipped by auto. split_and!; try done; [by apply LbInv.goes_refl |].
    unfold LbProps.health_step. rewrite El. by destruct (_ && _).
  - destruct (LbProps.report_run e h r rise fall w v mh Hi Hc Ht El) as (w' & H & Hi' & G & O & _).
    unfold LbProps.target_member in Ht. destruct (vips_ (obj w) !! ht_vip h) as [v' |] eqn:Ev; [| done]. cbn in Ht.
    destruct (v_members v' !! ht_addr h) as [m' |] eqn:Em; [| done]. cbn in Ht.
    destruct (m_incarnation m' =? ht_incarnation h) eqn:Ei; [| done]. injection Ht as -> ->.
    set (mn := LbProps.health_step (epoch_ms e) rise fall r mh).
    assert (∀ a x, v_members v !! a = Some x → ∃ y, v_members (LbProps.reported (epoch_ms e) rise fall r (reals_ (obj w)) (ht_addr h) v mh) !! a = Some y ∧
      alike y (if decide (a = ht_addr h) then mn else x)) as Hrep.
    { intros a x Hx. unfold LbProps.reported. fold mn. assert (∃ y, v_members (set_members <[ht_addr h := mn]> v) !! a = Some y ∧
        y = if decide (a = ht_addr h) then mn else x) as (y & Hy & ->).
      { cbn [v_members set_members]. destruct (decide (a = ht_addr h)) as [-> | Hne]; [rewrite lookup_insert_eq | rewrite lookup_insert_ne by done]; eauto. }
      destruct (eqb (m_up mn) (m_up mh)); [by eexists; split |]. rewrite LbInv.rebuilt_members, Hy. eexists. split; [reflexivity | done]. }
    destruct k as [spec a]. unfold member_at in *. cbn [fst snd] in *.
    destruct (decide (spec = ht_vip h)) as [-> | Hs].
    + rewrite Ev in Hm. cbn in Hm. destruct (Hrep a m Hm) as (y & Hy & Ha). exists w', y.
      split; [exact H | split; [exact Hi' | split; [exact G |]]]. rewrite O. cbn [reals_ health_enabled_ vips_ set_vips].
      split; [done | split; [done |]]. rewrite lookup_insert_eq. cbn. split; [exact Hy |]. unfold key_of.
      destruct (decide (a = ht_addr h)) as [-> | Hne].
      * rewrite Em in Hm. injection Hm as ->. by rewrite bool_decide_eq_true_2, Ei.
      * by rewrite bool_decide_eq_false_2 by congruence.
    + exists w', m. split; [exact H | split; [exact Hi' | split; [exact G |]]]. rewrite O. cbn [reals_ health_enabled_ vips_ set_vips].
      split; [done | split; [done |]]. rewrite lookup_insert_ne by done. split; [exact Hm |]. unfold key_of.
      by rewrite bool_decide_eq_false_2 by congruence.
  - exists w, m. rewrite LbProps.report_skipped by auto. split_and!; try done; [by apply LbInv.goes_refl |].
    destruct (bool_decide (key_of h = k)) eqn:Ek; [| done]. apply bool_decide_eq_true_1 in Ek. subst k. cbn [andb].
    unfold LbProps.target_member in Ht. unfold member_at, key_of in Hm. cbn [fst snd] in Hm.
    destruct (vips_ (obj w) !! ht_vip h) as [v' |]; [| done]. cbn in Ht, Hm. rewrite Hm in Ht. cbn in Ht.
    by destruct (m_incarnation m =? ht_incarnation h).
Qed.

Lemma report_all_run e rise fall round w k m :
  LbInv.inv (obj w) (km w) → calm w → member_at (obj w) k = Some m →
  ∃ w' m', report_all e rise fall round w = (Ok (), w') ∧ LbInv.inv (obj w') (km w') ∧ LbInv.goes w w' ∧
    reals_ (obj w') = reals_ (obj w) ∧ health_enabled_ (obj w') = health_enabled_ (obj w) ∧
    member_at (obj w') k = Some m' ∧ alike m' (heard (epoch_ms e) rise fall round k m).
Proof.
  revert w m. induction round as [| [h r] round IH]; intros w m Hi Hc Hm; unfold report_all in *; cbn [m_for].
  { exists w, m. split_and!; try done. by apply LbInv.goes_refl. }
  destruct (reported_member e h r rise fall w k m Hi Hc Hm) as (w1 & m1 & H1 & Hi1 & G1 & R1 & E1 & M1 & A1).
  erewrite bind_run by exact H1. destruct (IH w1 m1 Hi1 (LbInv.g_calm _ _ G1) M1) as (w2 & m2 & H2 & Hi2 & G2 & R2 & E2 & M2 & A2).
  exists w2, m2. split_and!; try done; [by eapply LbInv.goes_trans | congruence | congruence |].
  etransitivity; [exact A2 |]. change (heard (epoch_ms e) rise fall ((h, r) :: round) k m) with
    (heard (epoch_ms e) rise fall round k (heard (epoch_ms e) rise fall [(h, r)] k m)). by apply alike_heard.
Qed.

(** ** Lemmas: targets *)

Lemma elem_of_targets s h :
  h ∈ health_targets s ↔
  health_enabled_ s = true ∧ VipSpec.proto (ht_vip h) = 6 ∧
  ∃ v m, vips_ s !! ht_vip h = Some v ∧ v_members v !! ht_addr h = Some m ∧ m_incarnation m = ht_incarnation h.
Proof.
  unfold health_targets. destruct (health_enabled_ s); cbn [negb]; [| split; [by intros ?%not_elem_of_nil | by intros [? _]]].
  rewrite list_elem_of_bind. setoid_rewrite LbInv.elem_of_spec_keys. split.
  - intros (spec & Hh & [v Hv]). destruct (Z.eqb_spec (VipSpec.proto spec) 6) as [Hp |]; [| by apply not_elem_of_nil in Hh].
    cbn [negb] in Hh. unfold vip_at in Hh. rewrite Hv in Hh. apply list_elem_of_omap in Hh as (a & _ & E). cbn in E.
    destruct (v_members v !! a) as [m |] eqn:Em; [| done]. injection E as <-. cbn. split_and!; [done | done | eauto].
  - intros (_ & Hp & v & m & Hv & Hm & Hi). exists (ht_vip h). split; [| eauto]. rewrite Hp. cbn [Z.eqb Pos.eqb negb].
    unfold vip_at. rewrite Hv. apply list_elem_of_omap. exists (ht_addr h). cbn. rewrite Hm. split; [apply LbInv.elem_of_addr_keys; eauto |].
    cbn. rewrite Hi. by destruct h.
Qed.

Lemma NoDup_targets s : NoDup (key_of <$> health_targets s).
Proof.
  unfold health_targets. destruct (negb (health_enabled_ s)); [constructor |]. pose proof (LbInv.NoDup_spec_keys (vips_ s)) as Hnd.
  induction (spec_keys (vips_ s)) as [| spec l IH]; [constructor |]. apply NoDup_cons in Hnd as [Hs Hnd]. cbn [mbind list_bind].
  rewrite fmap_app. apply NoDup_app. split_and!; [| | by apply IH].
  - destruct (negb _); [constructor |]. set (ms := v_members (vip_at s spec)). pose proof (LbInv.NoDup_addr_keys ms) as Ha. revert Ha.
    generalize (addr_keys ms). intros la. induction la as [| a la IHa]; intros Ha; [constructor |]. apply NoDup_cons in Ha as [Ha1 Ha2].
    cbn. destruct (ms !! a); cbn; [| by apply IHa]. constructor; [| by apply IHa].
    intros (h & E & (b & Hb & Eb)%list_elem_of_omap)%list_elem_of_fmap. destruct (ms !! b); [| done]. injection Eb as <-.
    unfold key_of in E. cbn in E. congruence.
  - intros k (h & -> & Hh)%list_elem_of_fmap (h' & E & (sp & Hh' & Hsp)%list_elem_of_bind)%list_elem_of_fmap.
    assert (∀ sp h, (h ∈ if negb (VipSpec.proto sp =? 6) then [] else omap (λ a, (λ m, mk_target sp a (m_incarnation m)) <$> v_members (vip_at s sp) !! a)
      (addr_keys (v_members (vip_at s sp)))) → ht_vip h = sp) as Hv.
    { intros sp0 h0 H0. destruct (negb (VipSpec.proto sp0 =? 6)); [by apply not_elem_of_nil in H0 |]. apply list_elem_of_omap in H0 as (a & _ & Ea).
      destruct (v_members _ !! a); [| done]. by injection Ea as <-. }
    apply Hs. apply Hv in Hh, Hh'. unfold key_of in E. injection E as E _. congruence.
Qed.

Lemma heard_other now rise fall round k m : (k ∉ key_of <$> round.*1) → heard now rise fall round k m = m.
Proof.
  revert m. induction round as [| [h r] round IH]; intros m Hk; [done |]. cbn in Hk. apply not_elem_of_cons in Hk as [H1 H2].
  unfold heard in *. cbn [foldl fst]. rewrite bool_decide_eq_false_2 by congruence. by apply IH.
Qed.

Lemma health_step_incarnation now rise fall r m : m_incarnation (LbProps.health_step now rise fall r m) = m_incarnation m.
Proof. unfold LbProps.health_step. repeat case_match; done. Qed.

(** A target is heard once. *)
Lemma heard_once now rise fall targets results i t r m :
  NoDup (key_of <$> targets) → targets !! i = Some t → results !! i = Some r → m_incarnation m = ht_incarnation t →
  heard now rise fall (zip targets results) (key_of t) m = LbProps.health_step now rise fall r m.
Proof.
  revert results i. induction targets as [| h targets IH]; intros results i Hnd Ht Hr Hi; [done |].
  destruct results as [| r' results]; [done |]. apply NoDup_cons in Hnd as [Hh Hnd]. change (zip (h :: targets) (r' :: results)) with ((h, r') :: zip targets results).
  destruct i as [| i]; cbn in Ht, Hr.
  - injection Ht as ->. injection Hr as ->. unfold heard. cbn [foldl fst snd]. rewrite bool_decide_eq_true_2, Hi, Z.eqb_refl by done. cbn [andb].
    apply heard_other. intros (h & E & Hin)%list_elem_of_fmap. apply Hh. rewrite E. apply list_elem_of_fmap_2.
    revert results Hin. clear. induction targets as [| x l IH]; intros [| y results] Hin; cbn in Hin; try by apply not_elem_of_nil in Hin.
    apply elem_of_cons in Hin as [-> | Hin]; [apply list_elem_of_here |]. by eapply list_elem_of_further, IH.
  - unfold heard. cbn [foldl fst snd]. rewrite bool_decide_eq_false_2; [by apply IH with i |].
    intros E. apply Hh. rewrite E. apply list_elem_of_fmap_2. by eapply list_elem_of_lookup_2.
Qed.

(** ** Theorems: reports one after the other *)

(** Reports at any times, about any targets. *)
Definition report_seq (rise fall : Z) (rs : list (CEnv * HealthTarget * ProbeResult)) : M LbState.t unit :=
  m_for rs (λ x, report_health x.1.1 x.1.2 x.2 rise fall).

(** The results that count for an incarnation of a member: those of its own
    probes that did not fail for a reason local to the balancer. *)
Definition counted (k : VipSpec.t * Z) (incarnation : Z) (rs : list (CEnv * HealthTarget * ProbeResult)) : list bool :=
  omap (λ x, if bool_decide (key_of x.1.2 = k) && (incarnation =? ht_incarnation x.1.2) && negb (pr_local_error x.2)
             then Some (pr_ok x.2) else None) rs.

Lemma alike_view m m' : alike m m' → LbHealth.view m = LbHealth.view m' ∧ m_incarnation m = m_incarnation m'.
Proof. unfold alike, LbHealth.view, set_in_ring. intros H. split; congruence. Qed.

Lemma report_seq_run rise fall rs w k m :
  LbInv.inv (obj w) (km w) → calm w → member_at (obj w) k = Some m →
  ∃ w' m', report_seq rise fall rs w = (Ok (), w') ∧ LbInv.inv (obj w') (km w') ∧ member_at (obj w') k = Some m' ∧
    LbHealth.view m' = foldl (LbHealth.bstep rise fall) (LbHealth.view m) (counted k (m_incarnation m) rs).
Proof.
  revert w m. induction rs as [| [[e h] r] rs IH]; intros w m Hi Hc Hm; unfold report_seq in *; cbn [m_for fst snd]; [by exists w, m |].
  destruct (reported_member e h r rise fall w k m Hi Hc Hm) as (w1 & m1 & H1 & Hi1 & G1 & _ & _ & M1 & A1).
  erewrite bind_run by exact H1. destruct (IH w1 m1 Hi1 (LbInv.g_calm _ _ G1) M1) as (w2 & m2 & H2 & Hi2 & M2 & V2).
  exists w2, m2. split_and!; try done. rewrite V2. destruct (alike_view _ _ A1) as [V1 I1].
  unfold heard in V1, I1. cbn [foldl fst snd] in V1, I1. unfold counted. cbn [omap list_omap fst snd].
  destruct (bool_decide (key_of h = k) && (m_incarnation m =? ht_incarnation h)) eqn:Eb; cbn [andb].
  - rewrite health_step_incarnation in I1. rewrite I1. destruct (pr_local_error r) eqn:El; cbn [negb].
    + unfold LbProps.health_step in V1. rewrite El in V1. by rewrite V1.
    + cbn [foldl]. by rewrite V1, LbHealth.view_step.
  - by rewrite V1, I1.
Qed.

(** C16: report_health changes the state of a member only on evidence, and always
    on enough of it. Over any sequence of reports, about this member and others,
    at any times: an UP member stays UP as long as no [fall] of the results that
    count for it fail in a row (its failures so far included), a DOWN one stays
    DOWN as long as no [rise] in a row succeed, and after [fall] failures (or
    [rise] successes) in a row it is DOWN (UP), whatever came before. Results
    about other members or an earlier incarnation, and probes that failed for a
    reason local to the balancer, do not count. No bpf call may fail, and the
    member's counters start below their thresholds. *)
Theorem health_hysteresis (rise fall : Z) (rs : list (CEnv * HealthTarget * ProbeResult)) (w : World LbState.t)
    (k : VipSpec.t * Z) (m : Member) :
  LbInv.inv (obj w) (km w) → calm w → member_at (obj w) k = Some m →
  1 <= rise < 2 ^ 32 → 1 <= fall < 2 ^ 32 → LbHealth.below rise fall (LbHealth.view m) →
  let results := counted k (m_incarnation m) rs in
  ∃ w' m', report_seq rise fall rs w = (Ok (), w') ∧ member_at (obj w') k = Some m' ∧
    (m_up m = true → ¬ LbHealth.has_run false (Z.to_nat fall) (replicate (Z.to_nat (m_consecutive_fail m)) false ++ results) → m_up m' = true) ∧
    (m_up m = false → ¬ LbHealth.has_run true (Z.to_nat rise) (replicate (Z.to_nat (m_consecutive_ok m)) true ++ results) → m_up m' = false) ∧
    (∀ l, results = l ++ replicate (Z.to_nat fall) false → m_up m' = false) ∧
    (∀ l, results = l ++ replicate (Z.to_nat rise) true → m_up m' = true).
Proof.
  intros Hi Hc Hm Hr Hf Hb results. destruct (report_seq_run rise fall rs w k m Hi Hc Hm) as (w' & m' & H & _ & M & V).
  exists w', m'. split; [exact H |]. split; [exact M |]. change (m_up m') with (LbHealth.up_of (LbHealth.view m')). rewrite V.
  by apply LbHealth.hysteresis.
Qed.

(** ** Theorems: rounds of reports *)

(** Rounds in which every probe of one member fails, for no local reason. *)
Inductive failing (e : CEnv) (rise fall : Z) (k : VipSpec.t * Z) : nat → World LbState.t → World LbState.t → Prop :=
| failing_0 w : failing e rise fall k 0 w w
| failing_S n w w1 w2 results :
    length results = length (health_targets (obj w)) →
    (∀ i t r, health_targets (obj w) !! i = Some t → results !! i = Some r → key_of t = k → pr_ok r = false ∧ pr_local_error r = false) →
    report_all e rise fall (zip (health_targets (obj w)) results) w = (Ok (), w1) →
    failing e rise fall k n w1 w2 → failing e rise fall k (S n) w w2.

Lemma failing_run e rise fall k n w w' m :
  LbInv.inv (obj w) (km w) → calm w → health_enabled_ (obj w) = true → VipSpec.proto k.1 = 6 → member_at (obj w) k = Some m →
  failing e rise fall k n w w' →
  ∃ m', member_at (obj w') k = Some m' ∧ LbInv.inv (obj w') (km w') ∧ LbInv.goes w w' ∧
    LbHealth.view m' = foldl (LbHealth.bstep rise fall) (LbHealth.view m) (replicate n false).
Proof.
  intros Hi Hc He Hp Hm H. revert m Hi Hc He Hm. induction H as [w | n w w1 w2 results Hl Hf Hr _ IH]; intros m Hi Hc He Hm.
  { exists m. split_and!; try done. by apply LbInv.goes_refl. }
  destruct (report_all_run e rise fall (zip (health_targets (obj w)) results) w k m Hi Hc Hm) as (w1' & m1 & H1 & Hi1 & G1 & _ & E1 & M1 & A1).
  rewrite Hr in H1. injection H1 as <-.
  assert (mk_target k.1 k.2 (m_incarnation m) ∈ health_targets (obj w)) as Hin.
  { apply elem_of_targets. cbn. unfold member_at in Hm. destruct (vips_ (obj w) !! k.1) as [v |]; [| done]. cbn in Hm. split_and!; eauto. }
  apply list_elem_of_lookup in Hin as [i Hti]. destruct (lookup_lt_is_Some_2 results i) as [r Hri]; [rewrite Hl; by eapply lookup_lt_Some |].
  assert (key_of (mk_target k.1 k.2 (m_incarnation m)) = k) as Hk by by destruct k.
  destruct (Hf i _ r Hti Hri Hk) as [Hok Hloc].
  pose proof (heard_once (epoch_ms e) rise fall _ _ i _ r m (NoDup_targets (obj w)) Hti Hri eq_refl) as Hh. rewrite Hk in Hh. rewrite Hh in A1.
  destruct (IH m1 Hi1 (LbInv.g_calm _ _ G1)) as (m2 & M2 & Hi2 & G2 & V2); [congruence | done |].
  exists m2. split_and!; try done; [by eapply LbInv.goes_trans |]. rewrite V2. cbn [replicate foldl]. f_equal.
  rewrite <-Hok, <-(LbHealth.view_step (epoch_ms e)) by done. unfold LbHealth.view. unfold alike, set_in_ring in A1. congruence.
Qed.

(** C18: a real that stops answering leaves the ring. With health checks on and no
    bpf call failing, after [fall] rounds in a row in which the probe of a member
    of a TCP VIP fails for a reason of its own (its counters being below their
    thresholds before), the member is DOWN and out of the ring the kernel uses,
    whatever happens to the other reals; model and maps agree, and every state of
    the maps on the way is safe for packets. *)
Theorem failing_real_leaves (e : CEnv) (rise fall : Z) (k : VipSpec.t * Z) (w w' : World LbState.t) (m : Member) :
  LbInv.inv (obj w) (km w) → calm w → health_enabled_ (obj w) = true → VipSpec.proto k.1 = 6 → member_at (obj w) k = Some m →
  1 <= rise < 2 ^ 32 → 1 <= fall < 2 ^ 32 → LbHealth.below rise fall (LbHealth.view m) →
  failing e rise fall k (Z.to_nat fall) w w' →
  ∃ m', member_at (obj w') k = Some m' ∧ m_up m' = false ∧ m_in_ring m' = false ∧
    LbInv.inv (obj w') (km w') ∧ ∃ ms, hist w' = hist w ++ ms ∧ Forall LbInv.safe ms.
Proof.
  intros Hi Hc He Hp Hm Hr Hf Hb H. destruct (failing_run e rise fall k _ w w' m Hi Hc He Hp Hm H) as (m' & M' & Hi' & G & V).
  assert (m_up m' = false) as Hup.
  { change (m_up m') with (LbHealth.up_of (LbHealth.view m')). rewrite V. destruct (LbHealth.view m) as [[u o] f].
    apply LbHealth.fails_down; try done. destruct Hb as (_ & ? & _). lia. }
  exists m'. split_and!; try done; [| by destruct G].
  destruct (m_in_ring m') eqn:Er; [| done]. unfold member_at in M'. destruct (vips_ (obj w') !! k.1) as [v |] eqn:Ev; [| done]. cbn in M'.
  pose proof (LbInv.i_in_ring _ _ _ _ _ Hi' k.1 v k.2 m' Ev (not_elem_of_empty _) M' Er) as Hel. unfold eligible in Hel. rewrite Hup in Hel. by rewrite andb_false_r in Hel.
Qed.

(** One report, whoever it is about. *)
Lemma report_ok e h r rise fall w :
  LbInv.inv (obj w) (km w) → calm w →
  ∃ w', report_health e h r rise fall w = (Ok (), w') ∧ LbInv.inv (obj w') (km w') ∧ calm w' ∧ System.lb_step w w'.
Proof.
  intros Hi Hc. assert (∀ w', report_health e h r rise fall w = (Ok (), w') → System.lb_step w w') as Hs by (intros w' H; by eapply System.step_health).
  destruct (LbProps.target_member (obj w) h) as [[v m] |] eqn:Ht; [destruct (pr_local_error r) eqn:El |].
  - exists w. assert (report_health e h r rise fall w = (Ok (), w)) as H by (apply LbProps.report_skipped; auto). auto.
  - destruct (LbProps.report_run e h r rise fall w v m Hi Hc Ht El) as (w' & H & Hi' & G & _). exists w'. split_and!; auto. apply G.
  - exists w. assert (report_health e h r rise fall w = (Ok (), w)) as H by (apply LbProps.report_skipped; auto). auto.
Qed.

Lemma report_all_ok e rise fall round w :
  LbInv.inv (obj w) (km w) → calm w →
  ∃ w', report_all e rise fall round w = (Ok (), w') ∧ LbInv.inv (obj w') (km w') ∧ calm w' ∧ rtc System.lb_step w w'.
Proof.
  revert w. induction round as [| [h r] round IH]; intros w Hi Hc; unfold report_all in *; cbn [m_for]; [exists w; by split_and! |].
  destruct (report_ok e h r rise fall w Hi Hc) as (w1 & H1 & Hi1 & C1 & S1). erewrite bind_run by exact H1.
  destruct (IH w1 Hi1 C1) as (w2 & H2 & Hi2 & C2 & S2). exists w2. split_and!; try done. by eapply rtc_l.
Qed.

(** A step of the checker always comes to its end and keeps its pace: with
    fuel for the targets and the signals, it reports every target by steps of the
    control plane, none of which throws while no bpf call fails, and then sleeps
    for at most the interval, and until the interval is over when the round was
    shorter. *)
Theorem step_ends (env : ProbeEnv) (N fuel : nat) (e : CEnv) (p : HealthCheckConfig) (before : LbState.t) (w : World LbState.t) :
  env_ok env N → 0 <= hc_timeout_ms p < 2 ^ 32 → 0 <= hc_interval_ms p → (length (health_targets before) + N + 2 <= fuel)%nat →
  LbInv.inv (obj w) (km w) → calm w →
  ∃ ms n w', step env fuel e p before w = Some (Ok ms, w') ∧ rtc System.lb_step w w' ∧ LbInv.inv (obj w') (km w') ∧
    0 <= ms <= hc_interval_ms p ∧
    let spent := (pe_clock env n - pe_clock env 0) / 1000000 in
    ms = Z.max 0 (hc_interval_ms p - spent).
Proof.
  intros Hok Ht Hint Hf Hi Hc. destruct (probe_all_run env N fuel (health_targets before) (hc_timeout_ms p) Hok) as (results & n & Hp & _); [lia | done |].
  destruct (report_all_ok e (hc_rise p) (hc_fall p) (zip (health_targets before) results) w Hi Hc) as (w' & Hr & Hi' & _ & Hs).
  unfold step. rewrite Hp, Hr. pose proof (clock_mono _ _ 0 n Hok ltac:(lia)) as Hck. unfold pause. set (d := pe_clock env n - pe_clock env 0).
  assert (0 <= d) by (subst d; lia). rewrite Z.quot_div_nonneg by lia. pose proof (Z.div_pos d 1000000 ltac:(lia) ltac:(lia)).
  eexists _, n, w'. split; [reflexivity |]. split; [exact Hs |]. split; [exact Hi' |]. subst d. destruct (Z.ltb_spec ((pe_clock env n - pe_clock env 0) / 1000000) (hc_interval_ms p)); lia.
Qed.

(** A balancer whose probe is refused at once. *)
Definition refused_env : ProbeEnv :=
  mk_probe_env (λ _, 0) (λ _, inr 5) (λ _ _ _, Some 111) (λ _ _ _, PollFail ENOMEM) (λ _ _, 0) (λ _, []).

(** When the kernel refuses the new ring of a member that goes DOWN, the
    exception leaves the step, and nothing in the worker thread catches it, so
    the daemon is terminated. *)
Theorem failed_report_ends_daemon :
  let p := mk_health true 1000 500 1 1 in
  let before := LbTheorems.two_state LbTheorems.table7_mac true in
  match step refused_env 4 LbTheorems.env0 p before (mk_world before (fresh_maps 1) [] [- ENOMEM]) with
  | Some (r, w') => r = Throw (runtime_error §"create ring map: ") ∧ (m_up <$> member_at (obj w') (LbTheorems.vip80, LbTheorems.real7)) = Some false
  | None => False
  end ∧
  ∀ s, PeriodicThread.at_ s = PeriodicThread.InStep → ∃ s', PeriodicThread.worker s s' ∧ PeriodicThread.at_ s' = PeriodicThread.Crashed.
Proof. split; [vm_compute; done |]. intros s H. eexists. split; [by apply PeriodicThread.w_throw | done]. Qed.

(** ** Witnesses *)

(** A microsecond passes between readings, and every socket is ready at once. *)
Definition quick_env : ProbeEnv :=
  mk_probe_env (λ n, Z.of_nat n * 1000) (λ i, inr (Z.of_nat i)) (λ fd _ _, if fd =? 0 then None else Some EINPROGRESS)
    (λ _ fds _, match fds with [] => PollFail ENOMEM | _ => PollReady (replicate (length fds) true) end) (λ _ _, 0) (λ _, []).

Lemma quick_ok : env_ok quick_env 0.
Proof.
  constructor; cbn.
  - intros n. lia.
  - intros n [| fd fds] t revs; [done |]. intros [= <-]. cbn. by rewrite length_replicate.
  - intros n [| fd fds] t revs; [done |]. intros [= <-] H. exfalso. apply H. cbn. apply list_elem_of_here.
  - intros n [| fd fds] t _; discriminate.
Qed.

(** 400 ms pass between readings; the first target connects at once, the others
    never answer. *)
Definition slow_env : ProbeEnv :=
  mk_probe_env (λ n, Z.of_nat n * 400000000) (λ i, inr (Z.of_nat i)) (λ fd _ _, if fd =? 0 then None else Some EINPROGRESS)
    (λ _ fds t, if (0 <=? t) && (t <=? 400) then PollReady (replicate (length fds) false) else PollFail ENOMEM) (λ _ _, 0) (λ _, []).

Lemma slow_ok : env_ok slow_env 0.
Proof.
  constructor; cbn.
  - intros n. lia.
  - intros n fds t revs. destruct (_ && _); [| done]. intros [= <-]. by rewrite length_replicate.
  - intros n fds t revs. destruct (Z.leb_spec 0 t), (Z.leb_spec t 400); try done. intros _ _. cbn. lia.
  - intros n fds t _. destruct (_ && _); discriminate.
Qed.

Lemma probes_judged_witness :
  let t := mk_target LbTheorems.vip80 LbTheorems.real7 1 in
  ∃ results n, probe_all slow_env 4 [t; t] 500 1 = Some (results, n) ∧ pr_ok <$> results = [true; false] ∧
    gave_up_at slow_env 500 (start_all slow_env 0 [t; t] 1).2 n.
Proof.
  intros t. destruct (probes_judged slow_env 0 4 [t; t] 500 slow_ok) as (results & n & H & _ & _ & Hv); [lia | cbn; lia |].
  exists results, n. split; [exact H |]. assert (pr_ok <$> results = [true; false]) as Hr by (vm_compute in H; injection H as <- _; reflexivity).
  split; [exact Hr |]. destruct results as [| r0 [| r1 rs]]; try discriminate Hr. injection Hr as _ Hr1 _.
  destruct (Hv 1%nat t r1 eq_refl eq_refl) as [err E | fd E E' | fd err E E' Hne | fd k fds tmo revs j E _ _ Hp _ Ht _ _ | fd _ _ Hg _ _].
  - discriminate E.
  - injection E as <-. discriminate E'.
  - injection E as <-. injection E' as <-. by destruct Hne.
  - cbn in Hp. destruct (_ && _); [| discriminate Hp]. injection Hp as <-. apply lookup_replicate in Ht as [Ht _]. discriminate Ht.
  - exact Hg.
Defined.

(** Three failures take 10.0.0.7 down with fall = 3 although a probe fails locally
    in between; with one of them about an earlier incarnation it stays up. *)
Lemma health_hysteresis_witness :
  let w := LbTheorems.two_world LbTheorems.table7_mac true in
  let k := (LbTheorems.vip80, LbTheorems.real7) in
  let bad i := (LbTheorems.env0, mk_target LbTheorems.vip80 LbTheorems.real7 i, mk_probe false 0 [] false) in
  let mine := (LbTheorems.env0, mk_target LbTheorems.vip80 LbTheorems.real7 1, mk_probe false 0 [] true) in
  (∃ w' m', report_seq 2 3 [bad 1; bad 1; mine; bad 1] w = (Ok (), w') ∧ member_at (obj w') k = Some m' ∧ m_up m' = false) ∧
  (∃ w' m', report_seq 2 3 [bad 1; bad 0; mine; bad 1] w = (Ok (), w') ∧ member_at (obj w') k = Some m' ∧ m_up m' = true).
Proof.
  intros w k bad mine. assert (member_at (obj w) k = Some (LbTheorems.member7 true)) as Hm by reflexivity.
  assert (1 <= 2 < 2 ^ 32 ∧ 1 <= 3 < 2 ^ 32) as [Hr Hf] by lia.
  assert (LbHealth.below 2 3 (LbHealth.view (LbTheorems.member7 true))) as Hb by (cbn; lia). split.
  - pose proof (health_hysteresis 2 3 [bad 1; bad 1; mine; bad 1] w k (LbTheorems.member7 true) LbTheorems.two_world_inv
      (LbTheorems.two_calm _ _) Hm Hr Hf Hb) as H. destruct H as (w' & m' & H & M & _ & _ & Hd & _).
    exists w', m'. split; [exact H |]. split; [exact M |]. apply (Hd []). reflexivity.
  - pose proof (health_hysteresis 2 3 [bad 1; bad 0; mine; bad 1] w k (LbTheorems.member7 true) LbTheorems.two_world_inv
      (LbTheorems.two_calm _ _) Hm Hr Hf Hb) as H. destruct H as (w' & m' & H & M & Hu & _).
    exists w', m'. split; [exact H |]. split; [exact M |]. apply Hu; [reflexivity |].
    intros (l1 & l2 & E). apply (f_equal length) in E. rewrite !length_app, !length_replicate in E.
    set (n := length (counted _ _ _)) in E. assert (n = 2%nat) by reflexivity.
    change (m_consecutive_fail (LbTheorems.member7 true)) with 0 in E. lia.
Defined.

Lemma step_ends_witness :
  ∃ ms w', step quick_env 3 LbTheorems.env0 (mk_health true 1000 500 3 2) (obj (LbTheorems.two_world LbTheorems.table7_mac true))
    (LbTheorems.two_world LbTheorems.table7_mac true) = Some (Ok ms, w') ∧ 0 <= ms <= 1000.
Proof.
  destruct (step_ends quick_env 0 3 LbTheorems.env0 (mk_health true 1000 500 3 2) (obj (LbTheorems.two_world LbTheorems.table7_mac true))
    (LbTheorems.two_world LbTheorems.table7_mac true) quick_ok) as (ms & n & w' & H1 & _ & _ & H2 & _).
  - vm_compute. split; [discriminate | reflexivity].
  - vm_compute. discriminate.
  - change (health_targets (obj (LbTheorems.two_world LbTheorems.table7_mac true))) with [mk_target LbTheorems.vip80 LbTheorems.real7 1]. cbn. lia.
  - apply LbTheorems.two_world_inv.
  - apply LbTheorems.two_calm.
  - exists ms, w'. split; [exact H1 | exact H2].
Defined.

Lemma member7_below : LbHealth.below 2 1 (LbHealth.view (LbTheorems.member7 true)).
Proof. cbn. lia. Qed.

Lemma one_below : 1 <= 2 < 2 ^ 32 ∧ 1 <= 1 < 2 ^ 32.
Proof. lia. Qed.

Lemma failing_real_leaves_witness :
  ∃ w' m', failing LbTheorems.env0 2 1 (LbTheorems.vip80, LbTheorems.real7) 1 (LbTheorems.two_world LbTheorems.table7_mac true) w' ∧
    member_at (obj w') (LbTheorems.vip80, LbTheorems.real7) = Some m' ∧ m_up m' = false ∧ m_in_ring m' = false.
Proof.
  set (w := LbTheorems.two_world LbTheorems.table7_mac true). set (k := (LbTheorems.vip80, LbTheorems.real7)).
  assert (health_targets (obj w) = [mk_target LbTheorems.vip80 LbTheorems.real7 1]) as Et by reflexivity.
  destruct (report_all_ok LbTheorems.env0 2 1 (zip (health_targets (obj w)) [mk_probe false 0 [] false]) w
    LbTheorems.two_world_inv (LbTheorems.two_calm _ _)) as (w' & Hr & _).
  assert (failing LbTheorems.env0 2 1 k 1 w w') as Hf.
  { eapply failing_S; [| | exact Hr | apply failing_0]; [rewrite Et; reflexivity |]. intros i t r _ Hri _. destruct i; [injection Hri as <-; split; reflexivity | discriminate Hri]. }
  assert (health_enabled_ (obj w) = true) as E1 by reflexivity.
  assert (VipSpec.proto k.1 = 6) as E2 by reflexivity.
  assert (member_at (obj w) k = Some (LbTheorems.member7 true)) as E3 by reflexivity.
  assert (LbHealth.below 2 1 (LbHealth.view (LbTheorems.member7 true))) as E4 by exact member7_below.
  pose proof (failing_real_leaves LbTheorems.env0 2 1 k w w' (LbTheorems.member7 true) LbTheorems.two_world_inv (LbTheorems.two_calm _ _)
    E1 E2 E3 (proj1 one_below) (proj2 one_below) E4 Hf) as H. clearbody w. destruct H as (m' & H1 & H2 & H3 & _).
  exists w', m'. split; [exact Hf | split; [exact H1 | split; [exact H2 | exact H3]]].
Defined.

End HealthChecker.
