(* ===== verification/NeighborResolver.v ===== *)
(** * The neighbour resolver (src/daemon/neighbor_resolver.cpp)

    Reads the kernel's ARP table from its text, and in each step asks for the
    addresses that matter, looks them up and tells the model. Sending the probe
    datagrams has no effect on the daemon's state and is left out; the text the
    kernel shows afterwards is an argument. *)

From Stdlib Require Import ZArith Lia Ascii String.
From S2P Require Import Prelude Abi VipSpec Control RealTable LbState LbInv LbProps LbTheorems System Libc.

Module NeighborResolver.
Import LbState.

(** ** Reading the table *)

(** The lines std::getline reads: a last line without newline counts. *)
Fixpoint getlines (s line : str) : list str :=
  match s with
  | [] => if bool_decide (line = []) then [] else [line]
  | c :: s => if bool_decide (c = ascii_of_nat 10) then line :: getlines s [] else getlines s (line ++ [c])
  end.

(** One line of the table. *)
Definition read_entry (interface line : str) (out : gmap Z pb_mac) : result (gmap Z pb_mac) :=
  match Libc.words line with
  | ip :: _ :: flags :: hw :: _ :: dev :: _ =>
      if negb (bool_decide (dev = interface)) then Ok out else
      '(f, _) ← Libc.stoul 16 flags;
      if negb (Z.testbit f 1) then Ok out else
      match Libc.inet_pton ip, RealTable.Mac.parse hw with
      | Some a, Some mac => if RealTable.Mac.is_zero mac then Ok out else Ok (<[a := mac]> out)
      | _, _ => Ok out
      end
  | _ => Ok out
  end.

Fixpoint read_entries (interface : str) (lines : list str) (out : gmap Z pb_mac) : result (gmap Z pb_mac) :=
  match lines with
  | [] => Ok out
  | l :: lines => out ← read_entry interface l out; read_entries interface lines out
  end.

(** The first line is the header. *)
Definition read_arp_table (interface text : str) : result (gmap Z pb_mac) :=
  read_entries interface (drop 1 (getlines text [])) ∅.

(** ** The step *)

Record t := mk {
  failures_ : gmap Z Z;                 (* ip -> consecutive unresolved rounds *)
  last_full_refresh_ : Z                (* in ns *)
}.

Definition fresh : t := mk ∅ 0.

(** The loop over the targets. *)
Fixpoint resolve_all (e : CEnv) (table : gmap Z pb_mac) (targets : list Z) (r : t) (w : World LbState.t) : result unit * t * World LbState.t :=
  match targets with
  | [] => (Ok (), r, w)
  | ip :: targets =>
      match table !! ip with
      | Some mac =>
          let r := mk (delete ip (failures_ r)) (last_full_refresh_ r) in
          match neighbor_resolved e ip mac w with
          | (Ok _, w) => resolve_all e table targets r w
          | (Throw ex, w) => (Throw ex, r, w)
          end
      | None =>
          let n := u32 (default 0 (failures_ r !! ip) + 1) in
          resolve_all e table targets (mk (<[ip := n]> (failures_ r)) (last_full_refresh_ r)) w
      end
  end.

Definition full_refresh (r : t) (now : Z) : bool := 30 * 1000000000 <=? now - last_full_refresh_ r.

(** step(): the sleep in ms. The targets come from the state [before] the probes
    are sent; the answers meet the state 100 ms later. *)
Definition step (e : CEnv) (interface text : str) (now : Z) (before : LbState.t) (r : t) (w : World LbState.t) : result Z * t * World LbState.t :=
  let full := full_refresh r now in
  let targets := if full then neighbor_targets before else unresolved_neighbors before in
  match targets with
  | [] => (Ok 1000, r, w)
  | _ =>
      let r := if full then mk (failures_ r) now else r in
      match read_arp_table interface text with
      | Throw ex => (Throw ex, r, w)
      | Ok table =>
          match resolve_all e table targets r w with
          | (Ok _, r, w) => (Ok 1000, r, w)
          | (Throw ex, r, w) => (Throw ex, r, w)
          end
      end
  end.

(** ** Specification-level definitions *)

(** An entry of the kernel's table, and a line it can be shown in: the columns
    are separated by white space. *)
Record entry := mk_entry {
  en_ip : Z;
  en_flags : str;
  en_mac : pb_mac;
  en_dev : str
}.

Definition word (s : str) : Prop := s ≠ [] ∧ Forall (λ c, Libc.isspace c = false) s.

Definition gap (n : nat) : str := replicate (S n) " "%char.

Definition entry_line (gaps : nat * nat * nat * nat * nat) (x : entry) : str :=
  let '(g1, g2, g3, g4, g5) := gaps in
  VipSpec.ipv4_to_string (en_ip x) ++ gap g1 ++ §"0x1" ++ gap g2 ++ en_flags x ++ gap g3 ++ RealTable.Mac.to_str (en_mac x) ++ gap g4 ++ §"*" ++ gap g5 ++ en_dev x.

Record entry_ok (x : entry) : Prop := {
  eo_ip : is_u 32 (en_ip x);
  eo_mac : RealTable.Mac.valid (en_mac x);
  eo_flags : word (en_flags x) ∧ is_ok (Libc.stoul 16 (en_flags x)) = true;
  eo_dev : word (en_dev x)
}.

(** Complete, on the interface, with a MAC. *)
Definition useful (interface : str) (x : entry) : bool :=
  bool_decide (en_dev x = interface) &&
  match Libc.stoul 16 (en_flags x) with Ok (f, _) => Z.testbit f 1 | Throw _ => false end &&
  negb (RealTable.Mac.is_zero (en_mac x)).

Definition text_of (header : str) (rows : list (nat * nat * nat * nat * nat * entry)) : str :=
  header ++ [ascii_of_nat 10] ++ mjoin ((λ gx, entry_line gx.1 gx.2 ++ [ascii_of_nat 10]) <$> rows).

Definition table_of (interface : str) (xs : list entry) (out : gmap Z pb_mac) : gmap Z pb_mac :=
  foldl (λ m x, if useful interface x then <[en_ip x := en_mac x]> m else m) out xs.

(** ** Lemmas: the table *)

Lemma words_gap n s : Libc.words (gap n ++ s) = Libc.words s.
Proof. unfold gap. induction n as [| n IH]; [by apply Libc.words_space |]. cbn [replicate app] in *. rewrite Libc.words_space by done. exact IH. Qed.

Lemma words_word w n s : word w → Libc.words (w ++ gap n ++ s) = w :: Libc.words s.
Proof.
  intros [Hne Hw]. unfold gap. cbn [replicate app]. rewrite Libc.words_cons by done. f_equal. destruct n as [| n]; [done |]. apply (words_gap n).
Qed.

Lemma digit_space c : VipSpec.isdigit c = true → Libc.isspace c = false.
Proof. intros H. by destruct (Libc.digit_not_space c H). Qed.

Lemma word_app w1 w2 : word w1 → Forall (λ c, Libc.isspace c = false) w2 → word (w1 ++ w2).
Proof. intros [H1 H2] H. split; [by destruct w1 | by apply Forall_app]. Qed.

Lemma word_to_string n : 0 <= n < 2 ^ 64 → word (VipSpec.to_string n).
Proof.
  intros Hn. destruct (VipSpec.to_string_spec n 20) as (Hd & Hne & _); [lia.. |]. split; [done |].
  eapply Forall_impl; [exact Hd |]. intros c. apply digit_space.
Qed.

Lemma word_ipv4 a : word (VipSpec.ipv4_to_string a).
Proof.
  assert (∀ i, 0 <= i → word (VipSpec.to_string (VipSpec.byte_of a i))) as H
    by (intros i Hi; apply word_to_string; pose proof (VipSpec.byte_of_range a i Hi); lia).
  unfold VipSpec.ipv4_to_string. apply word_app; [by apply H |].
  repeat (apply Forall_app; split); try (by repeat constructor); by apply H.
Qed.

Lemma hex_char_space d : 0 <= d < 16 → Libc.isspace (RealTable.Mac.hex_char d) = false.
Proof.
  intros Hd. rewrite <-(Z2Nat.id d) by lia. assert (Z.to_nat d < 16)%nat as Hn by lia. generalize dependent (Z.to_nat d). intros n Hn.
  do 16 (destruct n as [| n]; [reflexivity |]). lia.
Qed.

Lemma hex2_space b : is_u 8 b → Forall (λ c, Libc.isspace c = false) (RealTable.Mac.hex2 b).
Proof.
  intros Hb. unfold is_u in Hb. unfold RealTable.Mac.hex2. repeat constructor; apply hex_char_space.
  - split; [apply Z.div_pos; lia | apply Z.div_lt_upper_bound; lia].
  - apply Z.mod_pos_bound. lia.
Qed.

Lemma word_mac m : RealTable.Mac.valid m → word (RealTable.Mac.to_str m).
Proof.
  destruct m as [b0 b1 b2 b3 b4 b5]. unfold RealTable.Mac.valid. cbn [mac0 mac1 mac2 mac3 mac4 mac5]. rewrite !Forall_cons.
  intros (H0 & H1 & H2 & H3 & H4 & H5 & _). unfold RealTable.Mac.to_str. cbn [mac0 mac1 mac2 mac3 mac4 mac5]. split; [done |].
  repeat first [apply Forall_app; split; [by apply hex2_space |] | apply Forall_cons; split; [reflexivity |]]. by apply hex2_space.
Qed.

(** The columns of a line. *)
Lemma line_words gaps x :
  entry_ok x → Libc.words (entry_line gaps x) = [VipSpec.ipv4_to_string (en_ip x); §"0x1"; en_flags x; RealTable.Mac.to_str (en_mac x); §"*"; en_dev x].
Proof.
  intros [H1 H2 [H3 _] H4]. destruct gaps as [[[[g1 g2] g3] g4] g5]. unfold entry_line.
  rewrite words_word by apply word_ipv4. rewrite words_word by (split; [done | by repeat constructor]). rewrite words_word by done.
  rewrite words_word by (by apply word_mac). rewrite words_word by (split; [done | by repeat constructor]).
  destruct H4 as [Hne Hw]. by rewrite Libc.words_last.
Qed.

Lemma inet_pton_print a : is_u 32 a → Libc.inet_pton (VipSpec.ipv4_to_string a) = Some a.
Proof.
  intros Ha. unfold Libc.inet_pton. rewrite RealTable.Mac.c_str_id.
  - by rewrite VipSpec.parse_ipv4_ipv4_to_string, bool_decide_eq_true_2.
  - assert (∀ i, 0 <= i → zero ∉ VipSpec.to_string (VipSpec.byte_of a i)) as Hn.
    { intros i Hi. pose proof (VipSpec.byte_of_range a i Hi). destruct (VipSpec.to_string_spec (VipSpec.byte_of a i) 20) as (Hd & _); [lia.. |].
      by apply VipSpec.digits_not_elem. }
    unfold VipSpec.ipv4_to_string. rewrite !not_elem_of_app. split_and!; try (by apply Hn); decide_closed.
Qed.

Lemma read_entry_line interface gaps x out :
  entry_ok x → read_entry interface (entry_line gaps x) out = Ok (if useful interface x then <[en_ip x := en_mac x]> out else out).
Proof.
  intros Hx. unfold read_entry. rewrite line_words by done. destruct Hx as [H1 H2 [_ H3] H4]. unfold useful.
  destruct (bool_decide (en_dev x = interface)); cbn [negb andb]; [| done].
  destruct (Libc.stoul 16 (en_flags x)) as [[f k] |]; [| done]. cbn [mbind result_bind].
  destruct (Z.testbit f 1); cbn [negb andb]; [| done]. rewrite inet_pton_print, RealTable.Mac.mac_parse_to_str by done.
  by destruct (RealTable.Mac.is_zero (en_mac x)).
Qed.

Lemma getlines_line l s acc : (ascii_of_nat 10 ∉ l) → getlines (l ++ ascii_of_nat 10 :: s) acc = (acc ++ l) :: getlines s [].
Proof.
  revert acc. induction l as [| c l IH]; intros acc Hl; cbn [app getlines].
  - rewrite bool_decide_eq_true_2 by done. by rewrite app_nil_r.
  - apply not_elem_of_cons in Hl as [H1 H2]. rewrite bool_decide_eq_false_2 by congruence. rewrite IH by done. by rewrite <-app_assoc.
Qed.

Lemma word_no_newline w : word w → ascii_of_nat 10 ∉ w.
Proof. intros [_ Hw] Hin. rewrite Forall_forall in Hw. specialize (Hw _ Hin). vm_compute in Hw. discriminate Hw. Qed.

Lemma gap_no_newline n : ascii_of_nat 10 ∉ gap n.
Proof. intros H. unfold gap in H. apply elem_of_replicate in H as [H _]. discriminate H. Qed.

Lemma line_no_newline gaps x : entry_ok x → ascii_of_nat 10 ∉ entry_line gaps x.
Proof.
  intros [H1 H2 [H3 _] H4]. destruct gaps as [[[[g1 g2] g3] g4] g5]. unfold entry_line. rewrite !not_elem_of_app.
  split_and!; try apply gap_no_newline; try (apply word_no_newline; first [apply word_ipv4 | apply word_mac | done]; done); decide_closed.
Qed.

(** The ARP table is read as the kernel shows it: of any lines of entries,
    however the columns are spaced, exactly the complete entries of the balancer's
    interface with a MAC are taken, the last one for an address counting. *)
Theorem arp_table_read (interface header : str) (rows : list (nat * nat * nat * nat * nat * entry)) :
  (ascii_of_nat 10 ∉ header) → Forall (λ gx, entry_ok gx.2) rows →
  read_arp_table interface (text_of header rows) = Ok (table_of interface rows.*2 ∅).
Proof.
  intros Hh Hr. unfold read_arp_table, text_of. change ([ascii_of_nat 10] ++ ?s) with (ascii_of_nat 10 :: s). rewrite getlines_line by done. cbn [drop]. rewrite drop_0.
  generalize (∅ : gmap Z pb_mac). induction Hr as [| [g x] rows Hx _ IH]; intros out; [done |]. cbn [snd] in Hx.
  cbn [fmap list_fmap mjoin list_join fst snd]. rewrite <-app_assoc. change ([ascii_of_nat 10] ++ ?s) with (ascii_of_nat 10 :: s).
  rewrite getlines_line by (by apply line_no_newline). cbn [app read_entries]. rewrite read_entry_line by done. apply IH.
Qed.

(** ** Lemmas: the step *)

Lemma resolves_one s s' ip ip' a :
  next_hop_ s' = next_hop_ s → LbProps.resolves s ip a = true → ip' ≠ ip → LbProps.resolves s' ip' a = false.
Proof.
  unfold LbProps.resolves. intros -> [_ H]%andb_true_iff Hne. apply andb_false_iff. right.
  destruct (next_hop_ s); apply Z.eqb_eq in H; apply Z.eqb_neq; lia.
Qed.

(** Which reals an answer concerns depends on the settings and the reals in use. *)
Lemma resolves_same s m s' m' ip a :
  LbInv.inv s m → LbInv.inv s' m' → LbProps.abs s' = LbProps.abs s → next_hop_ s' = next_hop_ s →
  LbProps.resolves s' ip a = LbProps.resolves s ip a.
Proof.
  intros Hi Hi' Ha Hn. unfold LbProps.resolves. rewrite Hn. f_equal. apply bool_decide_ext.
  rewrite <-!elem_of_dom, (LbProps.dom_reals _ _ _ _ Hi), (LbProps.dom_reals _ _ _ _ Hi'), Ha. done.
Qed.

(** What the loop has done. *)
Record resolved (table : gmap Z pb_mac) (targets : list Z) (r r' : t) (w w' : World LbState.t) : Prop := {
  rs_inv : LbInv.inv (obj w') (km w');
  rs_calm : calm w';
  rs_steps : rtc System.lb_step w w';
  rs_abs : LbProps.abs (obj w') = LbProps.abs (obj w);
  rs_hop : next_hop_ (obj w') = next_hop_ (obj w);
  rs_exact : LbProps.exact (obj w) → LbProps.exact (obj w');
  rs_failures ip : failures_ r' !! ip =
    if bool_decide (ip ∈ targets) then match table !! ip with Some _ => None | None => Some (u32 (default 0 (failures_ r !! ip) + 1)) end
    else failures_ r !! ip;
  rs_full : last_full_refresh_ r' = last_full_refresh_ r;
  rs_mac ip a mac : ip ∈ targets → table !! ip = Some mac → LbProps.resolves (obj w) ip a = true →
    RealTable.mac_of (reals_ (obj w')) a = Some mac;
  rs_keeps a : (∀ ip, ip ∈ targets → LbProps.resolves (obj w) ip a = false) →
    RealTable.mac_of (reals_ (obj w')) a = RealTable.mac_of (reals_ (obj w)) a
}.

(** A target before others. *)
Lemma resolved_cons table ip targets r r1 r' w w1 w' :
  ip ∉ targets → LbInv.inv (obj w) (km w) → LbInv.inv (obj w1) (km w1) →
  rtc System.lb_step w w1 → LbProps.abs (obj w1) = LbProps.abs (obj w) → next_hop_ (obj w1) = next_hop_ (obj w) →
  (LbProps.exact (obj w) → LbProps.exact (obj w1)) → last_full_refresh_ r1 = last_full_refresh_ r →
  failures_ r1 = match table !! ip with Some _ => delete ip (failures_ r) | None => <[ip := u32 (default 0 (failures_ r !! ip) + 1)]> (failures_ r) end →
  (∀ a, RealTable.mac_of (reals_ (obj w1)) a =
    match table !! ip with Some mac => if LbProps.resolves (obj w) ip a then Some mac else RealTable.mac_of (reals_ (obj w)) a
    | None => RealTable.mac_of (reals_ (obj w)) a end) →
  resolved table targets r1 r' w1 w' → resolved table (ip :: targets) r r' w w'.
Proof.
  intros Hip Hi Hi1 Hs Ha Hn Hx Hfull Hf Hm [R1 R2 R3 R4 R5 R6 R7 R8 R9 R10].
  assert (∀ ip a, LbProps.resolves (obj w1) ip a = LbProps.resolves (obj w) ip a) as Hres by (intros; by eapply resolves_same).
  split; try done; [by etransitivity | by rewrite R4 | by rewrite R5 | auto | | by rewrite R8 | |].
  - intros ip'. rewrite R7, Hf. destruct (decide (ip' = ip)) as [-> | Hne].
    + rewrite (bool_decide_eq_false_2 _ Hip), bool_decide_eq_true_2 by apply list_elem_of_here.
      destruct (table !! ip); [apply lookup_delete_eq | apply lookup_insert_eq].
    + rewrite (bool_decide_ext (ip' ∈ ip :: targets) (ip' ∈ targets)) by (rewrite elem_of_cons; split; [by intros [] | by right]).
      by destruct (table !! ip); rewrite ?lookup_delete_ne, ?lookup_insert_ne by done.
  - intros ip' a mac [-> | Hin]%elem_of_cons Ht Hr.
    + rewrite R10; [by rewrite Hm, Ht, Hr |]. intros ip' Hin'. apply (resolves_one (obj w) (obj w1) ip ip' a); [done | done |]. intros ->. by apply Hip.
    + apply (R9 ip' a mac Hin Ht). by rewrite Hres.
  - intros a Hno. rewrite R10.
    + rewrite Hm. rewrite (Hno ip) by apply list_elem_of_here. by destruct (table !! ip).
    + intros ip' Hin. rewrite Hres. apply Hno. by apply list_elem_of_further.
Qed.

Lemma resolve_all_run e table targets r w :
  LbInv.inv (obj w) (km w) → calm w → NoDup targets →
  ∃ r' w', resolve_all e table targets r w = (Ok (), r', w') ∧ resolved table targets r r' w w'.
Proof.
  revert r w. induction targets as [| ip targets IH]; intros r w Hi Hc Hnd; cbn [resolve_all].
  { exists r, w. split; [done |]. split; try done. by intros ip a mac ?%not_elem_of_nil. }
  apply NoDup_cons in Hnd as [Hip Hnd]. destruct (table !! ip) as [mac |] eqn:Et.
  - destruct (LbProps.neighbor_run e ip mac w Hi Hc) as (w1 & H1 & Hi1 & G1 & A1 & S1 & M1 & X1 & _). rewrite H1.
    destruct (IH (mk (delete ip (failures_ r)) (last_full_refresh_ r)) w1 Hi1 (LbInv.g_calm _ _ G1) Hnd) as (r' & w' & H' & R').
    exists r', w'. split; [exact H' |]. eapply resolved_cons; [exact Hip | exact Hi | exact Hi1 | | exact A1 | apply S1 | exact X1 | | | | exact R'].
    + apply rtc_once. by eapply System.step_neighbor.
    + done.
    + by rewrite Et.
    + intros a. rewrite Et. apply M1.
  - destruct (IH (mk (<[ip := u32 (default 0 (failures_ r !! ip) + 1)]> (failures_ r)) (last_full_refresh_ r)) w Hi Hc Hnd) as (r' & w' & H' & R').
    exists r', w'. split; [exact H' |]. eapply resolved_cons; [exact Hip | exact Hi | exact Hi | apply rtc_refl | done | done | done | | | | exact R'];
      [done | by rewrite Et | intros a; by rewrite Et].
Qed.

Definition targets_of (s : LbState.t) (r : t) (now : Z) : list Z :=
  if full_refresh r now then neighbor_targets s else unresolved_neighbors s.

Lemma NoDup_neighbors s r now : NoDup (targets_of s r now).
Proof.
  unfold targets_of, neighbor_targets, unresolved_neighbors. destruct (full_refresh r now), (next_hop_ s); try apply NoDup_singleton.
  - apply LbInv.NoDup_addr_keys.
  - case_match; [constructor | apply NoDup_singleton].
  - apply NoDup_filter, LbInv.NoDup_addr_keys.
Qed.

(** An unresolved real is asked for, itself or by its next hop. *)
Lemma unresolved_targeted s r now a :
  is_Some (RealTable.by_addr (reals_ s) !! a) → RealTable.mac_of (reals_ s) a = None → default a (next_hop_ s) ∈ targets_of s r now.
Proof.
  intros Ha Hm. assert (a ∈ RealTable.addrs (reals_ s)) as Hin by (by apply LbInv.elem_of_addr_keys).
  assert (a ∈ filter (λ a, RealTable.mac_of (reals_ s) a = None) (RealTable.addrs (reals_ s))) as Hf by (by apply list_elem_of_filter).
  unfold targets_of, neighbor_targets, unresolved_neighbors. destruct (full_refresh r now), (next_hop_ s); cbn; try done; try apply list_elem_of_here.
  destruct (filter _ _); [by apply not_elem_of_nil in Hf | apply list_elem_of_here].
Qed.

(** C22: a step of the resolver resolves what can be resolved. Every real in use
    that had no MAC and whose entry, or whose next hop's, is in the kernel's table
    has it afterwards; the steps are calls of the control plane, so model and maps
    agree and exact rings stay exact; and each address asked for has its counter of
    failed rounds cleared when it was found and raised by one when it was not. *)
Theorem resolver_step (e : CEnv) (interface text : str) (table : gmap Z pb_mac) (now : Z) (before : LbState.t) (r : t) (w : World LbState.t) :
  LbInv.inv (obj w) (km w) → calm w → read_arp_table interface text = Ok table → next_hop_ before = next_hop_ (obj w) →
  ∃ r' w', step e interface text now before r w = (Ok 1000, r', w') ∧ rtc System.lb_step w w' ∧ LbInv.inv (obj w') (km w') ∧
    (LbProps.exact (obj w) → LbProps.exact (obj w')) ∧
    (∀ a mac, is_Some (RealTable.by_addr (reals_ before) !! a) → RealTable.mac_of (reals_ before) a = None →
       is_Some (RealTable.by_addr (reals_ (obj w)) !! a) → table !! default a (next_hop_ before) = Some mac →
       RealTable.mac_of (reals_ (obj w')) a = Some mac) ∧
    (∀ ip, failures_ r' !! ip =
       if bool_decide (ip ∈ targets_of before r now)
       then match table !! ip with Some _ => None | None => Some (u32 (default 0 (failures_ r !! ip) + 1)) end
       else failures_ r !! ip).
Proof.
  intros Hi Hc Htab Hnh. unfold step. fold (targets_of before r now). rewrite Htab.
  destruct (targets_of before r now) as [| ip l] eqn:Et.
  { exists r, w. split_and!; try done. intros a mac H1 H2 _ _. pose proof (unresolved_targeted before r now a H1 H2) as H. rewrite Et in H. by apply not_elem_of_nil in H. }
  set (r0 := if full_refresh r now then mk (failures_ r) now else r).
  pose proof (NoDup_neighbors before r now) as Hnd. rewrite Et in Hnd.
  destruct (resolve_all_run e table (ip :: l) r0 w Hi Hc Hnd) as (r' & w' & H & R). rewrite H.
  exists r', w'. split; [done |]. split_and!; [apply R.. | |].
  - intros a mac H1 H2 H3 H4. pose proof (unresolved_targeted before r now a H1 H2) as Hin. rewrite Et in Hin.
    apply (rs_mac _ _ _ _ _ _ R _ a mac Hin H4). unfold LbProps.resolves. rewrite bool_decide_eq_true_2 by done. rewrite <-Hnh.
    by destruct (next_hop_ before); cbn; apply Z.eqb_refl.
  - intros ip'. rewrite (rs_failures _ _ _ _ _ _ R). subst r0. by destruct (full_refresh r now).
Qed.

(** ** Witnesses *)

Definition demo_entry : entry := mk_entry LbTheorems.real7 §"0x2" LbTheorems.mac7 §"eth0".
Definition demo_text : str := text_of §"IP address  HW type" [(7%nat, 2%nat, 0%nat, 1%nat, 3%nat, demo_entry)].
Definition demo_table : gmap Z pb_mac := {[ LbTheorems.real7 := LbTheorems.mac7 ]}.

Lemma demo_entry_ok : entry_ok demo_entry.
Proof.
  split; [decide_closed | repeat constructor; decide_closed | | split; [done | by repeat constructor]].
  split; [split; [done | by repeat constructor] | reflexivity].
Qed.

Lemma arp_table_read_witness : read_arp_table §"eth0" demo_text = Ok demo_table.
Proof.
  apply (arp_table_read §"eth0" §"IP address  HW type" [(7%nat, 2%nat, 0%nat, 1%nat, 3%nat, demo_entry)]); [decide_closed |].
  constructor; [exact demo_entry_ok | constructor].
Defined.

Lemma demo_text_read : read_arp_table §"eth0" demo_text = Ok demo_table.
Proof. reflexivity. Qed.

Lemma resolver_step_witness :
  ∃ r' w', step LbTheorems.env0 §"eth0" demo_text 0 (obj (LbTheorems.two_world LbTheorems.table7 false)) fresh (LbTheorems.two_world LbTheorems.table7 false) =
    (Ok 1000, r', w') ∧ RealTable.mac_of (reals_ (obj w')) LbTheorems.real7 = Some LbTheorems.mac7.
Proof.
  destruct (resolver_step LbTheorems.env0 §"eth0" demo_text demo_table 0 (obj (LbTheorems.two_world LbTheorems.table7 false)) fresh
    (LbTheorems.two_world LbTheorems.table7 false) LbTheorems.two_world_unresolved (LbTheorems.two_calm _ _) demo_text_read eq_refl)
    as (r' & w' & H1 & _ & _ & _ & H2 & _).
  exists r', w'. split; [exact H1 |]. apply H2.
  - exists 1. reflexivity.
  - apply LbTheorems.table7_ok.
  - exists 1. reflexivity.
  - reflexivity.
Defined.

End NeighborResolver.
