(* ===== verification/Loader.v ===== *)
(** * Loading, pinning and attaching (src/daemon/loader.cpp)

    The decisions of the loader: which directories it makes, which pinned maps it
    reuses, refuses or removes, and in which mode it attaches the program. The
    system calls and libbpf are arguments that say how each call ends. *)

From Stdlib Require Import ZArith Lia Ascii String.
From S2P Require Import Prelude Abi VipSpec Config Libc.

Module Loader.
Import Config.

Record Options := mk_options {
  lo_interface : str;
  lo_mode : XdpMode;
  lo_conntrack_size : Z;
  lo_pin_path : str;
  lo_recreate_maps : bool
}.

(** The parameters of a map, pinned or wanted. *)
Record MapInfo := mk_info {
  mi_type : Z;
  mi_key_size : Z;
  mi_value_size : Z;
  mi_max_entries : Z;
  mi_flags : Z
}.

#[export] Instance MapInfo_eq_dec : EqDecision MapInfo.
Proof. solve_decision. Defined.

(** How the calls end: an error as its text, None for success. *)
Record LoadEnv := mk_load_env {
  le_mkdir : str → option (bool * str);         (* an error, and whether it is EEXIST *)
  le_statfs : str → str + Z;                    (* the type of the file system *)
  le_ifindex : str → Z;
  le_open : option str;
  le_set_size : Z → option str;
  le_obj_get : str → option str;
  le_info : str → option str;
  le_unlink : str → option str;
  le_load : list (str * MapInfo) → str + list (str * MapInfo);   (* the pins before; an error, or the pins after *)
  le_query : option (option XdpMode);           (* the mode attached; None when the query fails *)
  le_attach : XdpMode → option str;
  le_detach : XdpMode → option str;
  le_unpin : list (str * MapInfo) → option str * list (str * MapInfo)
}.

(** ** The directory of the pins *)

Definition kBpfFsMagic : Z := 0xcafe4a11.

Definition slash : ascii := "/"%char.

(** The prefixes that are made, shortest first: those that end before a slash,
    and the whole path. *)
Definition prefixes (path : str) : list str :=
  (λ i, take i path) <$> filter (λ i, i = length path ∨ path !! i = Some slash) (seq 1 (length path)).

Fixpoint make_dirs (env : LoadEnv) (l : list str) (made : list str) : result (list str) :=
  match l with
  | [] => Ok made
  | cur :: l =>
      match le_mkdir env cur with
      | Some (false, err) =>
          Throw (runtime_error (§"mkdir " ++ cur ++ §": " ++ err ++
            §" (is a bpffs mounted here? under `ip netns exec` /sys is a fresh sysfs, so use a bpffs mounted outside /sys, e.g. mount -t bpf bpf /run/packetbalance/bpf)"))
      | _ => make_dirs env l (made ++ [cur])
      end
  end.

Definition ensure_pin_path (env : LoadEnv) (path : str) : result (list str) :=
  made ← make_dirs env (prefixes path) [];
  match le_statfs env path with
  | inl err => Throw (runtime_error (§"statfs " ++ path ++ §": " ++ err))
  | inr ty =>
      if negb (ty =? kBpfFsMagic) then
        Throw (runtime_error (§"pin path " ++ path ++
          §" is not on a bpffs mount; pinned maps need one (mount -t bpf bpf DIR). Note that `ip netns exec` replaces /sys, so /sys/fs/bpf is not visible there."))
      else Ok made
  end.

(** ** The pinned maps *)

Definition PB_MAP_CONNTRACK : str := §"conntrack".

(** The parameters that differ, as text; empty when none does. *)
Definition cmp (what : str) (pinned wanted : Z) (diff : str) : str :=
  if pinned =? wanted then diff
  else diff ++ (if bool_decide (diff = []) then [] else §", ") ++ what ++ §" pinned=" ++ VipSpec.to_string pinned ++ §" wanted=" ++ VipSpec.to_string wanted.

Definition diff_of (info want : MapInfo) : str :=
  cmp §"map_flags" (mi_flags info) (mi_flags want)
    (cmp §"max_entries" (mi_max_entries info) (mi_max_entries want)
      (cmp §"value_size" (mi_value_size info) (mi_value_size want)
        (cmp §"key_size" (mi_key_size info) (mi_key_size want)
          (cmp §"type" (mi_type info) (mi_type want) [])))).

(** The files under the pin path, and what the loader has found out. *)
Record Pins := mk_pins {
  pinned : list (str * MapInfo);                (* path -> the map pinned there *)
  reused_pins_ : bool;
  reused_conntrack_ : bool
}.

Fixpoint pin_at (path : str) (l : list (str * MapInfo)) : option MapInfo :=
  match l with
  | [] => None
  | (p, i) :: l => if bool_decide (p = path) then Some i else pin_at path l
  end.

Definition map_path (o : Options) (name : str) : str := lo_pin_path o ++ §"/" ++ name.

Definition check_map (env : LoadEnv) (o : Options) (m : str * MapInfo) (p : Pins) : result Pins :=
  let '(name, want) := m in
  let path := map_path o name in
  match pin_at path (pinned p) with
  | None => Ok p
  | Some info =>
      match le_obj_get env path with Some err => Throw (runtime_error (§"open pinned map " ++ path ++ §": " ++ err)) | None =>
      match le_info env path with Some err => Throw (runtime_error (§"inspect pinned map " ++ path ++ §": " ++ err)) | None =>
      let diff := diff_of info want in
      let ct := bool_decide (name = PB_MAP_CONNTRACK) in
      if bool_decide (diff = []) then Ok (mk_pins (pinned p) true (reused_conntrack_ p || ct)) else
      if negb (lo_recreate_maps o) then
        Throw (runtime_error (§"pinned map " ++ path ++ §" does not match this build (" ++ diff ++
          §"). It may hold live state, so it is not replaced silently. Restart with --recreate-maps to unpin and recreate it" ++
          (if ct then §" (drops every tracked flow), or set conntrack.size back to " ++ VipSpec.to_string (mi_max_entries info) else [])))
      else
      match le_unlink env path with
      | Some err => Throw (runtime_error (§"unlink " ++ path ++ §": " ++ err))
      | None => Ok (mk_pins (filter (λ pi, pi.1 ≠ path) (pinned p)) (reused_pins_ p) (reused_conntrack_ p))
      end
      end end
  end.

(** The state a throw leaves behind is returned with it. *)
Fixpoint check_pinned_maps (env : LoadEnv) (o : Options) (maps : list (str * MapInfo)) (p : Pins) : result unit * Pins :=
  match maps with
  | [] => (Ok (), p)
  | m :: maps =>
      match check_map env o m p with
      | Ok p => check_pinned_maps env o maps p
      | Throw ex => (Throw ex, p)
      end
  end.

(** ** Attaching *)

(** The program on the interface: its mode, and every state it has been in. *)
Record Iface := mk_iface {
  prog : option XdpMode;
  states : list (option XdpMode)
}.

Definition set_prog (x : option XdpMode) (f : Iface) : Iface := mk_iface x (states f ++ [x]).

(** bpf_xdp_attach replaces the program in the same mode. *)
Definition try_attach (env : LoadEnv) (mode : XdpMode) (f : Iface) : bool * Iface :=
  match le_attach env mode with
  | Some _ => (false, f)
  | None => (true, set_prog (Some mode) f)
  end.

(** bpf_xdp_detach of the program in the mode. *)
Definition xdp_detach (env : LoadEnv) (mode : XdpMode) (f : Iface) : Iface :=
  match le_detach env mode with
  | Some _ => f
  | None => set_prog None f
  end.

Definition current_attach_mode (env : LoadEnv) : XdpMode * bool :=
  match le_query env with
  | None => (Auto, false)
  | Some None => (Auto, false)
  | Some (Some m) => (m, true)
  end.

Definition mode_eqb (a b : XdpMode) : bool := match a, b with Native, Native | Generic, Generic | Auto, Auto => true | _, _ => false end.

Definition other (m : XdpMode) : XdpMode := match m with Native => Generic | _ => Native end.

Definition attach (env : LoadEnv) (o : Options) (f : Iface) : result XdpMode * Iface :=
  let '(current, attached) := current_attach_mode env in
  let first := if mode_eqb (lo_mode o) Generic then Generic else Native in
  let auto := mode_eqb (lo_mode o) Auto in
  let '(first, f) :=
    if auto && attached then (current, f)
    else if attached && negb (mode_eqb current first) then (first, xdp_detach env current f)
    else (first, f) in
  let '(ok, f) := try_attach env first f in
  if ok then (Ok first, f) else
  if auto then
    let '(ok, f) := try_attach env (other first) f in
    if ok then (Ok (other first), f) else (Throw (runtime_error (§"could not attach XDP program to " ++ lo_interface o)), f)
  else (Throw (runtime_error (§"could not attach XDP program to " ++ lo_interface o)), f).

(** ** The constructor *)

Definition or_throw (what : str) (r : option str) : result unit :=
  match r with Some err => Throw (runtime_error (what ++ err)) | None => Ok () end.

(** bpf_map__set_max_entries(conntrack, size) *)
Definition with_size (size : Z) (m : str * MapInfo) : str * MapInfo :=
  let '(name, i) := m in
  if bool_decide (name = PB_MAP_CONNTRACK) then (name, mk_info (mi_type i) (mi_key_size i) (mi_value_size i) size (mi_flags i)) else (name, i).

(** What is left on the system, and the mode in effect. *)
Definition load (env : LoadEnv) (o : Options) (maps : list (str * MapInfo)) (p : Pins) (f : Iface) : result XdpMode * Pins * Iface :=
  match (_ ← ensure_pin_path env (lo_pin_path o);
         _ ← (if le_ifindex env (lo_interface o) =? 0 then Throw (runtime_error (§"no such interface: " ++ lo_interface o)) else Ok ());
         _ ← or_throw §"open BPF skeleton: " (le_open env);
         or_throw §"set conntrack max_entries: " (le_set_size env (lo_conntrack_size o))) with
  | Throw ex => (Throw ex, p, f)
  | Ok _ =>
      match check_pinned_maps env o (with_size (lo_conntrack_size o) <$> maps) p with
      | (Throw ex, p) => (Throw ex, p, f)
      | (Ok _, p) =>
          match le_load env (pinned p) with
          | inl err => (Throw (runtime_error (§"load BPF object: " ++ err ++ §" (the verifier log, if any, is above)")), p, f)
          | inr l => let '(r, f) := attach env o f in (r, mk_pins l (reused_pins_ p) (reused_conntrack_ p), f)
          end
      end
  end.

(** --detach-on-exit: errors are logged only. *)
Definition detach_and_unpin (env : LoadEnv) (attached_mode : XdpMode) (p : Pins) (f : Iface) : Pins * Iface :=
  let f := xdp_detach env attached_mode f in
  let '(_, l) := le_unpin env (pinned p) in
  (mk_pins l (reused_pins_ p) (reused_conntrack_ p), f).

(** ** Lemmas *)

Lemma cmp_nil what a b diff : cmp what a b diff = [] ↔ diff = [] ∧ a = b.
Proof.
  unfold cmp. destruct (Z.eqb_spec a b); [tauto |]. split; [| by intros [_ ?]]. intros H%app_eq_nil. destruct H as [-> H].
  rewrite bool_decide_eq_true_2 in H by done. cbn in H. apply app_eq_nil in H as [_ H]. discriminate H.
Qed.

Lemma diff_nil info want : diff_of info want = [] ↔ info = want.
Proof.
  unfold diff_of. rewrite !cmp_nil. destruct info, want. cbn. split; [intros (((((_ & ->) & ->) & ->) & ->) & ->); done | by intros [= -> -> -> -> ->]].
Qed.

Lemma pin_at_filter path path' l : pin_at path (filter (λ pi, pi.1 ≠ path') l) = if bool_decide (path = path') then None else pin_at path l.
Proof.
  induction l as [| [p i] l IH]; [by destruct (bool_decide _) |]. rewrite filter_cons. cbn [fst]. destruct (decide (p ≠ path')) as [Hne | He].
  - cbn [pin_at]. rewrite IH. case_bool_decide as E1; [| done]. case_bool_decide; [congruence | done].
  - apply dec_stable in He as ->. rewrite IH. cbn [pin_at]. case_bool_decide as E1; [done |]. by rewrite (bool_decide_eq_false_2 (path' = path)) by congruence.
Qed.

Lemma map_path_inj o n n' : map_path o n = map_path o n' → n = n'.
Proof. unfold map_path. intros H%app_inv_head. by injection H. Qed.

(** One map. *)
Lemma check_map_spec env o name want p :
  match check_map env o (name, want) p with
  | Throw _ => True
  | Ok p' =>
      (∀ path, path ≠ map_path o name → pin_at path (pinned p') = pin_at path (pinned p)) ∧
      (pin_at (map_path o name) (pinned p') =
        match pin_at (map_path o name) (pinned p) with Some info => if bool_decide (info = want) then Some info else None | None => None end) ∧
      (lo_recreate_maps o = false → pinned p' = pinned p) ∧
      reused_conntrack_ p' = reused_conntrack_ p || (bool_decide (name = PB_MAP_CONNTRACK) && bool_decide (pin_at (map_path o name) (pinned p) = Some want))
  end.
Proof.
  unfold check_map. destruct (pin_at (map_path o name) (pinned p)) as [info |] eqn:Ep; [| rewrite Ep, andb_false_r, orb_false_r; done].
  destruct (le_obj_get env _); [done |]. destruct (le_info env _); [done |].
  rewrite (bool_decide_ext (diff_of info want = []) (info = want)) by apply diff_nil.
  rewrite (bool_decide_ext (Some info = Some want) (info = want)) by (split; [by intros [= ->] | by intros ->]).
  case_bool_decide as E; [cbn [pinned reused_conntrack_]; rewrite Ep, andb_true_r; split_and!; try done; by rewrite bool_decide_eq_true_2 |].
  destruct (lo_recreate_maps o); cbn [negb]; [| done]. destruct (le_unlink env _); [done |]. cbn [pinned reused_conntrack_].
  rewrite andb_false_r, orb_false_r. split_and!; try done.
  - intros path Hne. by rewrite pin_at_filter, bool_decide_eq_false_2.
  - by rewrite pin_at_filter, bool_decide_eq_true_2.
Qed.

Section pins.
Context (env : LoadEnv) (o : Options).

Lemma check_pinned_maps_spec maps p :
  NoDup maps.*1 →
  let '(r, p') := check_pinned_maps env o maps p in
  (lo_recreate_maps o = false → pinned p' = pinned p) ∧
  (∀ path info, pin_at path (pinned p) = Some info → (∀ name want, (name, want) ∈ maps → path = map_path o name → info = want) →
     pin_at path (pinned p') = Some info) ∧
  (∀ path, (∀ m, m ∈ maps → path ≠ map_path o m.1) → pin_at path (pinned p') = pin_at path (pinned p)) ∧
  (r = Ok () →
    (∀ name want info, (name, want) ∈ maps → pin_at (map_path o name) (pinned p') = Some info → info = want) ∧
    reused_conntrack_ p' = reused_conntrack_ p ||
      bool_decide (Exists (λ m, m.1 = PB_MAP_CONNTRACK ∧ pin_at (map_path o PB_MAP_CONNTRACK) (pinned p) = Some m.2) maps)).
Proof.
  revert p. induction maps as [| [name want] maps IH]; intros p Hnd; cbn [check_pinned_maps].
  { split_and!; try done. intros _. split; [by intros ? ? ? ?%not_elem_of_nil |]. rewrite bool_decide_eq_false_2 by (by intros ?%Exists_nil). by rewrite orb_false_r. }
  cbn in Hnd. apply NoDup_cons in Hnd as [Hn Hnd]. pose proof (check_map_spec env o name want p) as Hm.
  destruct (check_map env o (name, want) p) as [p1 | ex]; [| done]. destruct Hm as (M1 & M2 & M3 & M4).
  specialize (IH p1 Hnd). destruct (check_pinned_maps env o maps p1) as [r p']. destruct IH as (I1 & I2 & I3 & I4).
  assert (∀ n w, (n, w) ∈ maps → map_path o n ≠ map_path o name) as Hother.
  { intros n w Hin ->%map_path_inj. apply Hn. by apply (list_elem_of_fmap_2 fst) in Hin. }
  split_and!.
  - intros Hr. by rewrite I1, M3.
  - intros path info Hp Hmatch. apply I2.
    + destruct (decide (path = map_path o name)) as [-> | Hne]; [| by rewrite M1].
      rewrite M2, Hp, bool_decide_eq_true_2; [done |]. eapply Hmatch; [apply list_elem_of_here | done].
    + intros n w Hin. apply Hmatch. by apply list_elem_of_further.
  - intros path Hno. rewrite I3 by (intros m Hm; apply Hno; by apply list_elem_of_further). apply M1. apply (Hno (name, want)), list_elem_of_here.
  - intros Hr. destruct (I4 Hr) as [J1 J2]. split.
    + intros n w info Hin Hp. apply elem_of_cons in Hin as [[= -> ->] | Hin]; [| by eapply J1].
      rewrite I3 in Hp by (intros [n w] Hin'; cbn; intros E; by apply (Hother n w Hin')). rewrite M2 in Hp.
      destruct (pin_at _ (pinned p)) as [i |]; [| done]. case_bool_decide; by simplify_eq.
    + rewrite J2, M4, <-orb_assoc. f_equal.
      destruct (decide (name = PB_MAP_CONNTRACK)) as [-> | Hne].
      * rewrite (bool_decide_eq_true_2 (PB_MAP_CONNTRACK = PB_MAP_CONNTRACK)) by done. cbn [andb].
        rewrite (bool_decide_eq_false_2 (Exists _ maps)).
        -- rewrite orb_false_r. apply bool_decide_ext. rewrite Exists_cons. cbn [fst snd]. split; [by left |]. intros [[_ ?] | Hx]; [done |].
           apply Exists_exists in Hx as ([n w] & Hin & E & _). cbn in E. subst n. by destruct (Hother _ w Hin).
        -- intros Hx. apply Exists_exists in Hx as ([n w] & Hin & E & _). cbn in E. subst n. by destruct (Hother _ w Hin).
      * rewrite (bool_decide_eq_false_2 (name = PB_MAP_CONNTRACK)) by done. cbn [andb orb]. apply bool_decide_ext. rewrite Exists_cons.
        rewrite M1 by (intros E%map_path_inj; by apply Hne). cbn [fst]. split; [by right |]. by intros [[? _] | ?].
Qed.

End pins.

(** ** Attaching, and starting again *)

(** Attaching ends in the mode that was asked for, or fails. A mode that is
    reported is native or generic, never auto, is the one in effect, and is the
    requested one unless auto was requested; and where a program is attached and
    auto or its own mode is requested, there is a program on the interface in every
    state on the way, so that a restart drops no packet. *)
Lemma attach_sound (env : LoadEnv) (o : Options) (f : Iface) :
  (∀ m, le_query env = Some (Some m) → m ≠ Auto ∧ prog f = Some m) →
  let '(r, f') := attach env o f in
  (∀ m, r = Ok m → m ≠ Auto ∧ prog f' = Some m ∧ le_attach env m = None ∧ (lo_mode o ≠ Auto → m = lo_mode o)) ∧
  (∀ m, le_query env = Some (Some m) → lo_mode o = Auto ∨ lo_mode o = m →
     ∃ l, states f' = states f ++ l ∧ Forall (λ x, x ≠ None) (prog f' :: l)).
Proof.
  intros Hq. unfold attach, current_attach_mode, try_attach, xdp_detach.
  destruct (le_query env) as [[m |] |] eqn:Eq; [destruct (Hq m eq_refl) as [Hm Hp] | |]; clear Hq.
  all: destruct (lo_mode o) eqn:Em; try destruct m; try done; cbn;
    repeat (match goal with |- context [le_attach ?env ?x] => let E := fresh "E" in destruct (le_attach env x) eqn:E | |- context [le_detach ?env ?x] => destruct (le_detach env x) end; cbn);
    (split; [intros m' Hm'; try discriminate Hm'; injection Hm' as <-; split_and!; done | intros m' Hm'; try discriminate Hm'; injection Hm' as <-]);
    intros [Hx | Hx]; try discriminate Hx;
    (eexists; split; [first [reflexivity | symmetry; apply app_nil_r] | rewrite ?Hp; repeat constructor; discriminate]).
Qed.

Lemma with_size_names size maps : (with_size size <$> maps).*1 = maps.*1.
Proof. rewrite <-list_fmap_compose. apply list_fmap_ext. intros _ [n i] _. unfold with_size. cbn. by case_bool_decide. Qed.

(** The system calls of a start that finds everything in place. *)
Record calls_ok (env : LoadEnv) (o : Options) : Prop := {
  ok_mkdir : ∀ cur err, le_mkdir env cur ≠ Some (false, err);
  ok_statfs : le_statfs env (lo_pin_path o) = inr kBpfFsMagic;
  ok_ifindex : le_ifindex env (lo_interface o) ≠ 0;
  ok_open : le_open env = None;
  ok_set_size : le_set_size env (lo_conntrack_size o) = None;
  ok_get : ∀ path, le_obj_get env path = None;
  ok_info : ∀ path, le_info env path = None
}.

(** libbpf's promise for maps that are pinned by name: what is pinned is reused,
    what is not is created as defined and pinned. *)
Definition pins_by_name (env : LoadEnv) (o : Options) (maps : list (str * MapInfo)) : Prop :=
  ∀ l l', le_load env l = inr l' →
    (∀ path i, pin_at path l = Some i → pin_at path l' = Some i) ∧
    (∀ name want, (name, want) ∈ maps → pin_at (map_path o name) l = None → pin_at (map_path o name) l' = Some want).

Lemma make_dirs_ok env o l made : calls_ok env o → is_ok (make_dirs env l made) = true.
Proof.
  intros H. revert made. induction l as [| cur l IH]; intros made; [done |]. cbn [make_dirs].
  destruct (le_mkdir env cur) as [[[] err] |] eqn:E; [apply IH | | apply IH]. by destruct (ok_mkdir _ _ H cur err).
Qed.

(** Pins that all match are reused. *)
Lemma check_all_match env o maps p :
  calls_ok env o → (∀ name want, (name, want) ∈ maps → pin_at (map_path o name) (pinned p) = Some want) →
  check_pinned_maps env o maps p =
    (Ok (), mk_pins (pinned p) (reused_pins_ p || negb (bool_decide (maps = []))) (reused_conntrack_ p || bool_decide (PB_MAP_CONNTRACK ∈ maps.*1))).
Proof.
  intros Hok. revert p. induction maps as [| [name want] maps IH]; intros p Hp.
  { cbn [check_pinned_maps fmap list_fmap]. rewrite (bool_decide_eq_false_2 (_ ∈ [])) by apply not_elem_of_nil. rewrite bool_decide_eq_true_2 by done. cbn. rewrite !orb_false_r. by destruct p. }
  cbn [check_pinned_maps check_map]. rewrite (Hp name want) by apply list_elem_of_here. rewrite (ok_get _ _ Hok), (ok_info _ _ Hok).
  rewrite (bool_decide_eq_true_2 (diff_of want want = [])) by by apply diff_nil.
  rewrite IH by (intros n w Hin; apply Hp; by apply list_elem_of_further). cbn [pinned reused_pins_ reused_conntrack_].
  rewrite (bool_decide_eq_false_2 (_ :: _ = [])) by done. cbn [negb]. rewrite orb_true_r. f_equal. f_equal.
  rewrite <-orb_assoc. f_equal. cbn [fmap list_fmap fst]. rewrite (bool_decide_ext (_ ∈ name :: _) (name = PB_MAP_CONNTRACK ∨ PB_MAP_CONNTRACK ∈ maps.*1)).
  - by rewrite bool_decide_or.
  - rewrite elem_of_cons. split; (intros [-> | ?]; [by left | by right]).
Qed.

(** What a successful start leaves. *)
Lemma load_Ok env o maps p f m p1 f1 :
  NoDup maps.*1 → pins_by_name env o (with_size (lo_conntrack_size o) <$> maps) →
  load env o maps p f = (Ok m, p1, f1) →
  attach env o f = (Ok m, f1) ∧ ∀ name want, (name, want) ∈ with_size (lo_conntrack_size o) <$> maps → pin_at (map_path o name) (pinned p1) = Some want.
Proof.
  intros Hnd Hby. unfold load. destruct (_ ← ensure_pin_path _ _; _); [| done].
  assert ((with_size (lo_conntrack_size o) <$> maps).*1 = maps.*1) as Hn by apply with_size_names.
  pose proof (check_pinned_maps_spec env o (with_size (lo_conntrack_size o) <$> maps) p) as H. rewrite Hn in H. specialize (H Hnd).
  destruct (check_pinned_maps env o _ p) as [[[] |] p2]; [| done]. destruct H as (_ & _ & _ & H). destruct (H eq_refl) as [Hm _].
  destruct (le_load env (pinned p2)) as [err | l] eqn:El; [done |]. destruct (attach env o f) as [r f2]. intros [= -> <- ->].
  split; [done |]. cbn [pinned]. intros name want Hin. destruct (Hby _ _ El) as [Hkeep Hnew].
  destruct (pin_at (map_path o name) (pinned p2)) as [i |] eqn:Ei; [| by eapply Hnew]. rewrite (Hkeep _ _ Ei). f_equal. by eapply Hm.
Qed.

(** An attached program is replaced in its own mode. *)
Lemma attach_again env o f m :
  m ≠ Auto → lo_mode o = Auto ∨ lo_mode o = m → le_query env = Some (Some m) → le_attach env m = None →
  ∃ f', attach env o f = (Ok m, f').
Proof.
  intros Hm Hmode Eq Ea. unfold attach, current_attach_mode, try_attach. rewrite Eq. eexists.
  destruct Hmode as [-> | ->], m; try done; cbn; by rewrite Ea.
Qed.

Lemma calls_made env o :
  calls_ok env o →
  (_ ← ensure_pin_path env (lo_pin_path o);
   _ ← (if le_ifindex env (lo_interface o) =? 0 then Throw (runtime_error (§"no such interface: " ++ lo_interface o)) else Ok ());
   _ ← or_throw §"open BPF skeleton: " (le_open env);
   or_throw §"set conntrack max_entries: " (le_set_size env (lo_conntrack_size o))) = Ok ().
Proof.
  intros H. unfold ensure_pin_path. pose proof (make_dirs_ok env o (prefixes (lo_pin_path o)) [] H) as Hd.
  destruct (make_dirs env _ []); [| done]. cbn [mbind result_bind]. rewrite (ok_statfs _ _ H), Z.eqb_refl. cbn [negb mbind result_bind].
  destruct (Z.eqb_spec (le_ifindex env (lo_interface o)) 0) as [E | _]; [by destruct (ok_ifindex _ _ H) |]. cbn [mbind result_bind].
  by rewrite (ok_open _ _ H), (ok_set_size _ _ H).
Qed.

(** A start that finds every map pinned as it should be, and a program. *)
Lemma load_reuses env o maps p f m l :
  PB_MAP_CONNTRACK ∈ maps.*1 → calls_ok env o → m ≠ Auto → lo_mode o = Auto ∨ lo_mode o = m → prog f = Some m →
  (∀ name want, (name, want) ∈ with_size (lo_conntrack_size o) <$> maps → pin_at (map_path o name) (pinned p) = Some want) →
  le_load env (pinned p) = inr l → le_query env = Some (Some m) → le_attach env m = None →
  ∃ f2, load env o maps p f = (Ok m, mk_pins l true true, f2) ∧ ∃ ss, states f2 = states f ++ ss ∧ Forall (λ x, x ≠ None) (prog f2 :: ss).
Proof.
  intros Hct Hok Hm Hmode Hf Hpins El Eq Ea. pose proof (attach_sound env o f) as H. rewrite Eq in H.
  specialize (H (λ m' E, ltac:(injection E as <-; done))). destruct (attach_again env o f m Hm Hmode Eq Ea) as [f2 Hat].
  rewrite Hat in H. destruct H as [_ H]. exists f2. split; [| by apply (H m)].
  unfold load. rewrite calls_made by done. rewrite (check_all_match env o _ p Hok Hpins). cbn [pinned reused_pins_ reused_conntrack_].
  rewrite El, Hat, with_size_names, (bool_decide_eq_true_2 _ Hct), bool_decide_eq_false_2; [by rewrite !orb_true_r |].
  intros E. destruct maps; [by apply not_elem_of_nil in Hct | done].
Qed.

(** ** Theorems *)

(** C35: live state is never thrown away silently. Whatever the calls return, a
    pinned map whose parameters are the wanted ones, or that is not one of the
    program's, stays pinned; without --recreate-maps nothing is unpinned at all;
    when the check passes, every map of the program that is still pinned matches
    its definition, with the connection table's size as configured, and the daemon
    says that tracked flows survive exactly when the connection table was pinned
    and matched. *)
Theorem pins_checked (env : LoadEnv) (o : Options) (maps : list (str * MapInfo)) (p : Pins) :
  NoDup maps.*1 → reused_conntrack_ p = false →
  let '(r, p') := check_pinned_maps env o (with_size (lo_conntrack_size o) <$> maps) p in
  (lo_recreate_maps o = false → pinned p' = pinned p) ∧
  (∀ path info, pin_at path (pinned p) = Some info →
     (∀ name want, (name, want) ∈ with_size (lo_conntrack_size o) <$> maps → path = map_path o name → info = want) →
     pin_at path (pinned p') = Some info) ∧
  (r = Ok () →
    (∀ name want info, (name, want) ∈ with_size (lo_conntrack_size o) <$> maps → pin_at (map_path o name) (pinned p') = Some info → info = want) ∧
    (reused_conntrack_ p' = true ↔
       ∃ want, (PB_MAP_CONNTRACK, want) ∈ with_size (lo_conntrack_size o) <$> maps ∧ pin_at (map_path o PB_MAP_CONNTRACK) (pinned p) = Some want)).
Proof.
  intros Hnd Hct. pose proof (with_size_names (lo_conntrack_size o) maps) as Hn.
  pose proof (check_pinned_maps_spec env o (with_size (lo_conntrack_size o) <$> maps) p) as H. rewrite Hn in H. specialize (H Hnd).
  destruct (check_pinned_maps env o _ p) as [r p']. destruct H as (H1 & H2 & _ & H4). split_and!; [done | done |].
  intros Hr. destruct (H4 Hr) as [J1 J2]. split; [done |]. rewrite J2, Hct. cbn [orb]. rewrite bool_decide_eq_true, Exists_exists. split.
  - intros ([n w] & Hin & E & Hp). cbn in E, Hp. subst n. eauto.
  - intros (w & Hin & Hp). by exists (PB_MAP_CONNTRACK, w).
Qed.

(** A restart is hitless. After a start that succeeded, a second start with the
    same options, whose system calls succeed and whose libbpf reuses what is pinned
    by name, attaches in the same mode, finds every map the first one left as it
    should be and keeps it, the connection table with its flows included, and there
    is a program on the interface in every state on the way. *)
Theorem restart_hitless (env env' : LoadEnv) (o : Options) (maps : list (str * MapInfo)) (p p1 : Pins) (f f1 : Iface) (m : XdpMode) (l : list (str * MapInfo)) :
  NoDup maps.*1 → PB_MAP_CONNTRACK ∈ maps.*1 →
  pins_by_name env o (with_size (lo_conntrack_size o) <$> maps) →
  (∀ m, le_query env = Some (Some m) → m ≠ Auto ∧ prog f = Some m) →
  load env o maps p f = (Ok m, p1, f1) →
  calls_ok env' o → pins_by_name env' o (with_size (lo_conntrack_size o) <$> maps) →
  le_load env' (pinned p1) = inr l → le_query env' = Some (Some m) → le_attach env' m = None →
  ∃ f2, load env' o maps (mk_pins (pinned p1) false false) f1 = (Ok m, mk_pins l true true, f2) ∧
    (∀ path i, pin_at path (pinned p1) = Some i → pin_at path l = Some i) ∧
    ∃ ss, states f2 = states f1 ++ ss ∧ Forall (λ x, x ≠ None) (prog f2 :: ss).
Proof.
  intros Hnd Hct Hby Hq Hload Hok Hby' El Eq Ea. destruct (load_Ok _ _ _ _ _ _ _ _ Hnd Hby Hload) as [Hat Hpins].
  pose proof (attach_sound env o f Hq) as H. rewrite Hat in H. destruct H as [H _]. destruct (H m eq_refl) as (Hm & Hp1 & _ & Hmode). clear H.
  assert (lo_mode o = Auto ∨ lo_mode o = m) as Hmode' by (destruct (lo_mode o); [right; symmetry; by apply Hmode | right; symmetry; by apply Hmode | by left]).
  destruct (load_reuses env' o maps (mk_pins (pinned p1) false false) f1 m l) as (f2 & H & Hss); try done.
  exists f2. split; [exact H |]. split; [by apply (Hby' _ _ El) | exact Hss].
Qed.

(** A failed switch of modes takes the balancer down: when a program runs in
    generic mode, native mode is requested and the driver refuses it, the old
    program is already detached, and the interface is left without one. *)
Theorem failed_switch_leaves_none (env : LoadEnv) (o : Options) (f : Iface) (err : str) :
  le_query env = Some (Some Generic) → lo_mode o = Native → le_attach env Native = Some err → le_detach env Generic = None →
  let '(r, f') := attach env o f in is_ok r = false ∧ prog f' = None.
Proof. intros Eq Em Ea Ed. unfold attach, current_attach_mode, try_attach, xdp_detach. rewrite Eq, Em. cbn. by rewrite Ed, Ea. Qed.

(** ** Witnesses *)

Definition ct_info : MapInfo := mk_info 10 16 16 64 0.
Definition demo_maps : list (str * MapInfo) := [(PB_MAP_CONNTRACK, mk_info 10 16 16 1 0)].
Definition demo_pins : Pins := mk_pins [(§"/pins/conntrack", ct_info)] false false.
(** libbpf with a single map. *)
Definition pin_one (path : str) (info : MapInfo) (l : list (str * MapInfo)) : str + list (str * MapInfo) :=
  match pin_at path l with Some _ => inr l | None => inr ((path, info) :: l) end.

Lemma pin_one_by_name env o name want : le_load env = pin_one (map_path o name) want → pins_by_name env o [(name, want)].
Proof.
  intros El l l'. rewrite El. unfold pin_one. destruct (pin_at (map_path o name) l) as [i |] eqn:Ei; intros [= <-].
  - split; [done |]. intros n w [= -> ->]%list_elem_of_singleton. by rewrite Ei.
  - split.
    + intros path i H. cbn [pin_at]. case_bool_decide as E; [subst path; congruence | done].
    + intros n w [= -> ->]%list_elem_of_singleton _. cbn [pin_at]. by rewrite bool_decide_eq_true_2.
Qed.

(** An interface that takes one mode only, and has a program in it. *)
Definition good_env (mode : XdpMode) (load : list (str * MapInfo) → str + list (str * MapInfo)) : LoadEnv :=
  mk_load_env (λ _, None) (λ _, inr kBpfFsMagic) (λ _, 2) None (λ _, None) (λ _, None) (λ _, None) (λ _, None) load
    (Some (Some mode)) (λ m, if mode_eqb m mode then None else Some §"Operation not supported") (λ _, None) (λ _, (None, [])).

Lemma good_env_ok mode load o : calls_ok (good_env mode load) o.
Proof. by split. Qed.

Definition demo_env : LoadEnv := good_env Generic (pin_one §"/pins/conntrack" ct_info).
Definition demo_options (mode : XdpMode) : Options := mk_options §"eth0" mode 64 §"/pins" false.

Lemma pins_checked_witness :
  let '(r, p') := check_pinned_maps demo_env (demo_options Auto) (with_size 64 <$> demo_maps) demo_pins in
  pinned p' = pinned demo_pins ∧ (r = Ok () → reused_conntrack_ p' = true).
Proof.
  pose proof (pins_checked demo_env (demo_options Auto) demo_maps demo_pins (NoDup_singleton _) eq_refl) as H.
  cbn [lo_conntrack_size demo_options] in H. destruct (check_pinned_maps _ _ _ _) as [r p']. destruct H as (H1 & _ & H3).
  split; [apply H1; reflexivity |]. intros Hr. destruct (H3 Hr) as [_ H4]. apply H4. exists ct_info. split; [apply list_elem_of_here | reflexivity].
Defined.

Lemma attach_sound_witness :
  let '(r, f') := attach demo_env (demo_options Auto) (mk_iface (Some Generic) []) in
  r = Ok Generic ∧ prog f' = Some Generic ∧ ∃ l, states f' = l ∧ Forall (λ x, x ≠ None) (prog f' :: l).
Proof.
  pose proof (attach_sound demo_env (demo_options Auto) (mk_iface (Some Generic) [])) as H.
  assert (∀ m, le_query demo_env = Some (Some m) → m ≠ Auto ∧ prog (mk_iface (Some Generic) []) = Some m) as Hq
    by (intros m [= <-]; split; [discriminate | reflexivity]).
  specialize (H Hq). destruct (attach _ _ _) as [r f'] eqn:E. vm_compute in E. injection E as <- <-. destruct H as [H1 H2].
  split; [reflexivity |]. split; [apply (H1 Generic eq_refl) |]. destruct (H2 Generic eq_refl (or_introl eq_refl)) as (l & E & Hl). exists l. split; [exact E | exact Hl].
Defined.

Lemma restart_hitless_witness :
  ∃ f2, load demo_env (demo_options Auto) demo_maps (mk_pins (pinned demo_pins) false false) (mk_iface (Some Generic) [Some Generic]) =
      (Ok Generic, mk_pins (pinned demo_pins) true true, f2) ∧ prog f2 = Some Generic.
Proof.
  assert (pins_by_name demo_env (demo_options Auto) (with_size 64 <$> demo_maps)) as Hby by exact (pin_one_by_name demo_env (demo_options Auto) _ _ eq_refl).
  destruct (restart_hitless demo_env demo_env (demo_options Auto) demo_maps (mk_pins [] false false) (mk_pins (pinned demo_pins) false false)
    (mk_iface (Some Generic) []) (mk_iface (Some Generic) [Some Generic]) Generic (pinned demo_pins)) as (f2 & Hl & _ & ss & _ & Hf).
  - apply NoDup_singleton.
  - apply list_elem_of_here.
  - exact Hby.
  - intros m [= <-]. split; [discriminate | reflexivity].
  - vm_compute. reflexivity.
  - apply good_env_ok.
  - exact Hby.
  - vm_compute. reflexivity.
  - reflexivity.
  - reflexivity.
  - exists f2. split; [exact Hl |]. vm_compute in Hl. injection Hl as <-. reflexivity.
Defined.

Lemma failed_switch_leaves_none_witness :
  let '(r, f') := attach demo_env (demo_options Native) (mk_iface (Some Generic) []) in is_ok r = false ∧ prog f' = None.
Proof. apply (failed_switch_leaves_none demo_env (demo_options Native) (mk_iface (Some Generic) []) §"Operation not supported"); reflexivity. Defined.

End Loader.
