(* ===== verification/Daemon.v ===== *)
(** * Options, configuration and reload (src/daemon/options.cpp, daemon.cpp)

    The command line overrides the configuration file at start and at every
    reload; settings that only a restart can change keep their running values.
    getopt_long's scan of argv is an argument: the options it returns, in order,
    with their values, and the arguments left over. *)

From Stdlib Require Import ZArith Lia Ascii String.
From S2P Require Import Prelude Abi VipSpec Maglev Control RealTable Config ConfigFile LbState LbInv LbProps LbTheorems LbApply LbBoot Commands Libc Loader.

Module Daemon.
Import Cli.

(** ** Options *)

(** log::Level *)
Inductive Level : Type := Debug | Info | Warn | Error.

Definition parse_level (s : str) : result Level :=
  if bool_decide (s = §"debug") then Ok Debug else
  if bool_decide (s = §"info") then Ok Info else
  if bool_decide (s = §"warn") then Ok Warn else
  if bool_decide (s = §"error") then Ok Error else
  Throw (invalid_argument (§"bad log level (debug|info|warn|error): " ++ s)).

Record Options := mk_options {
  o_config_path : str;
  o_interface : option str;
  o_xdp_mode : option Config.XdpMode;
  o_hash : option Maglev.HashMode;
  o_no_conntrack : bool;
  o_icmp_pmtu : bool;
  o_conntrack_size : option Z;
  o_socket : option str;
  o_pin_path : option str;
  o_metrics_listen : option str;
  o_no_health_check : bool;
  o_detach_on_exit : bool;
  o_recreate_maps : bool;
  o_log_level : Level
}.

Definition default_options : Options :=
  mk_options §"/etc/packetbalance/packetbalance.yaml" None None None false false None None None None false false false Info.

(** if (x) cfg.field = *x; *)
Definition apply_to (o : Options) (cfg : Config.t) : Config.t :=
  let h := Config.health cfg in
  Config.mk
    (default (Config.interface cfg) (o_interface o))
    (default (Config.xdp_mode cfg) (o_xdp_mode o))
    (default (Config.hash cfg) (o_hash o))
    (Config.encap_src cfg)
    (Config.next_hop cfg)
    (if o_no_conntrack o then false else Config.conntrack_enabled cfg)
    (default (Config.conntrack_size cfg) (o_conntrack_size o))
    (if o_icmp_pmtu o then true else Config.icmp_pmtu cfg)
    (default (Config.socket cfg) (o_socket o))
    (default (Config.pin_path cfg) (o_pin_path o))
    (default (Config.metrics_listen cfg) (o_metrics_listen o))
    (Config.mk_health (if o_no_health_check o then false else Config.hc_enabled h)
       (Config.hc_interval_ms h) (Config.hc_timeout_ms h) (Config.hc_fall h) (Config.hc_rise h))
    (Config.vips cfg).

(** What getopt_long returns. *)
Inductive Flag : Type :=
| kConfig | kInterface | kXdpMode | kHash | kNoConntrack | kIcmpPmtu | kConntrackSize | kSocket | kPinPath | kMetricsListen
| kNoHealthCheck | kRecreateMaps | kDetachOnExit | kLogLevel | kHelp | kUnknown.

Definition usage_error {A} (msg : str) : cli A := Exit 2 (§"packetbalance: " ++ msg ++ [ascii_of_nat 10] ++ §"try --help" ++ [ascii_of_nat 10]).

(** catch (const std::exception& e) of the switch *)
Definition value {A} (arg : str) (r : result A) : cli A :=
  match r with
  | Ok a => Go a
  | Throw ex => usage_error (§"bad value '" ++ arg ++ §"': " ++ Commands.what ex)
  end.

(** std::stoul reads the digits the value starts with. *)
Definition parse_size (arg : str) : result Z :=
  '(n, _) ← Libc.stoul 10 arg;
  if (n =? 0) || (Z.shiftl 1 27 <? n) then Throw (invalid_argument §"out of range") else Ok (u32 n).

Section options.
Context (kUsage : str).

Definition set_option (c : Flag) (arg : str) (o : Options) : cli Options :=
  let '(mk_options cp i x h nc ip cs so pp ml nh de rm ll) := o in
  match c with
  | kConfig => Go (mk_options arg i x h nc ip cs so pp ml nh de rm ll)
  | kInterface => Go (mk_options cp (Some arg) x h nc ip cs so pp ml nh de rm ll)
  | kXdpMode => m ← value arg (Config.parse_xdp_mode arg); Go (mk_options cp i (Some m) h nc ip cs so pp ml nh de rm ll)
  | kHash => m ← value arg (Maglev.parse_hash_mode arg); Go (mk_options cp i x (Some m) nc ip cs so pp ml nh de rm ll)
  | kNoConntrack => Go (mk_options cp i x h true ip cs so pp ml nh de rm ll)
  | kIcmpPmtu => Go (mk_options cp i x h nc true cs so pp ml nh de rm ll)
  | kConntrackSize => n ← value arg (parse_size arg); Go (mk_options cp i x h nc ip (Some n) so pp ml nh de rm ll)
  | kSocket => Go (mk_options cp i x h nc ip cs (Some arg) pp ml nh de rm ll)
  | kPinPath => Go (mk_options cp i x h nc ip cs so (Some arg) ml nh de rm ll)
  | kMetricsListen => Go (mk_options cp i x h nc ip cs so pp (Some arg) nh de rm ll)
  | kNoHealthCheck => Go (mk_options cp i x h nc ip cs so pp ml true de rm ll)
  | kRecreateMaps => Go (mk_options cp i x h nc ip cs so pp ml nh de true ll)
  | kDetachOnExit => Go (mk_options cp i x h nc ip cs so pp ml nh true rm ll)
  | kLogLevel => l ← value arg (parse_level arg); Go (mk_options cp i x h nc ip cs so pp ml nh de rm l)
  | kHelp => Exit 0 kUsage
  | kUnknown => usage_error §"unknown option"
  end.

Fixpoint set_options (l : list (Flag * str)) (o : Options) : cli Options :=
  match l with
  | [] => Go o
  | (c, arg) :: l => o ← set_option c arg o; set_options l o
  end.

Definition parse_options (l : list (Flag * str)) (rest : list str) : cli Options :=
  o ← set_options l default_options;
  match rest with
  | a :: _ => usage_error (§"unexpected argument: " ++ a)
  | [] => Go o
  end.

End options.

(** ** The daemon *)

Section daemon.
Context `{Y : Yaml} (read : str → option str).

Record t := mk {
  opts_ : Options;
  config_ : Config.t;
  health_params_ : Config.HealthCheckConfig     (* of the health checker *)
}.

Definition load_config (opts : Options) : result Config.t :=
  cfg ← ConfigFile.load_config_file read (o_config_path opts);
  let cfg := apply_to opts cfg in
  _ ← Config.validate_config cfg;
  Ok cfg.

(** The settings that take effect on restart only keep their running values. *)
Definition keep_running (running next : Config.t) : Config.t :=
  let h := Config.health next in
  Config.mk (Config.interface running) (Config.xdp_mode running) (Config.hash next) (Config.encap_src next) (Config.next_hop next)
    (Config.conntrack_enabled next) (Config.conntrack_size running) (Config.icmp_pmtu next) (Config.socket running)
    (Config.pin_path running) (Config.metrics_listen running)
    (Config.mk_health (Config.hc_enabled (Config.health running)) (Config.hc_interval_ms h) (Config.hc_timeout_ms h) (Config.hc_fall h) (Config.hc_rise h))
    (Config.vips next).

Definition reload (e : CEnv) (d : t) (w : World LbState.t) : result unit * t * World LbState.t :=
  match load_config (opts_ d) with
  | Throw ex => (Throw (api_error (§"reload: " ++ Commands.what ex)), d, w)
  | Ok next =>
      let next := keep_running (config_ d) next in
      match LbState.apply e next w with
      | (Throw ex, w) => (Throw ex, d, w)
      | (Ok _, w) => (Ok (), mk (opts_ d) next (Config.health next), w)
      end
  end.

Definition loader_options (opts : Options) (cfg : Config.t) : Loader.Options :=
  Loader.mk_options (Config.interface cfg) (Config.xdp_mode cfg) (Config.conntrack_size cfg) (Config.pin_path cfg) (o_recreate_maps opts).

(** What a start leaves: the daemon and the mode in effect, or an exception; the
    pins, the interface, and the maps with the state behind them. *)
Record Started := mk_started {
  st_result : result (t * Config.XdpMode);
  st_pins : Loader.Pins;
  st_iface : Loader.Iface;
  st_world : World LbState.t
}.

(** The constructor. [m] is the contents of the maps the program is loaded with:
    those of the pinned maps where they are reused. *)
Definition start (le : Loader.LoadEnv) (e : CEnv) (opts : Options) (maps : list (str * Loader.MapInfo))
    (p : Loader.Pins) (f : Loader.Iface) (m : Maps) (sys : list Z) : Started :=
  let fresh i := mk_world (LbState.fresh i) m [] sys in
  match load_config opts with
  | Throw ex => mk_started (Throw ex) p f (fresh [])
  | Ok cfg =>
      match Loader.load le (loader_options opts cfg) maps p f with
      | (Throw ex, p, f) => mk_started (Throw ex) p f (fresh (Config.interface cfg))
      | (Ok mode, p, f) =>
          match LbState.apply e cfg (fresh (Config.interface cfg)) with
          | (Throw ex, w) => mk_started (Throw ex) p f w
          | (Ok _, w) => mk_started (Ok (mk opts cfg (Config.health cfg), mode)) p f w
          end
      end
  end.

(** ** The config command *)
Import Commands.

Definition real_config_json (r : Config.RealConfig) : json :=
  JObject [(§"address", JString (VipSpec.ipv4_to_string (Config.rc_addr r))); (§"weight", JUInt (Config.rc_weight r))].

Definition vip_config_json (v : Config.VipConfig) : json :=
  JObject [(§"vip", JString (VipSpec.to_str (Config.vc_spec v))); (§"no_conntrack", JBool (Config.vc_no_conntrack v));
           (§"reals", JArray (real_config_json <$> Config.vc_reals v))].

Definition config_json (attached : Config.XdpMode) (num_cpus : nat) (d : t) : json :=
  let c := config_ d in
  let h := Config.health c in
  JObject
    [(§"config_path", JString (o_config_path (opts_ d)));
     (§"interface", JString (Config.interface c));
     (§"xdp_mode", JString (Config.xdp_mode_name attached));
     (§"xdp_mode_requested", JString (Config.xdp_mode_name (Config.xdp_mode c)));
     (§"hash", JString (Maglev.hash_mode_name (Config.hash c)));
     (§"conntrack", JObject [(§"enabled", JBool (Config.conntrack_enabled c)); (§"size", JUInt (Config.conntrack_size c))]);
     (§"encap_src_prefix", JString (Config.cidr_str (Config.encap_src c)));
     (§"icmp_pmtu", JBool (Config.icmp_pmtu c));
     (§"next_hop", match Config.next_hop c with Some a => JString (VipSpec.ipv4_to_string a) | None => JNull end);
     (§"socket", JString (Config.socket c));
     (§"pin_path", JString (Config.pin_path c));
     (§"metrics_listen", JString (Config.metrics_listen c));
     (§"health_check", JObject [(§"enabled", JBool (Config.hc_enabled h)); (§"interval_ms", JUInt (Config.hc_interval_ms h));
        (§"timeout_ms", JUInt (Config.hc_timeout_ms h)); (§"fall", JUInt (Config.hc_fall h)); (§"rise", JUInt (Config.hc_rise h))]);
     (§"detach_on_exit", JBool (o_detach_on_exit (opts_ d)));
     (§"num_possible_cpus", JInt (Z.of_nat num_cpus));
     (§"vips", JArray (vip_config_json <$> Config.vips c))].

End daemon.

(** ** Lemmas *)

Section lemmas.
Context `{Y : Yaml} (read : str → option str).

Lemma load_config_Ok opts cfg :
  load_config read opts = Ok cfg →
  ∃ file, ConfigFile.load_config_file read (o_config_path opts) = Ok file ∧ cfg = apply_to opts file ∧ Config.valid cfg.
Proof.
  unfold load_config. destruct (ConfigFile.load_config_file read (o_config_path opts)) as [file | ex]; [| done]. cbn [mbind result_bind].
  destruct (Config.validate_config (apply_to opts file)) as [[] | ex] eqn:E; [| done]. intros [= <-]. exists file. split_and!; try done.
  by apply Config.validate_iff.
Qed.

(** What is kept is valid, so the mix is. *)
Lemma keep_running_valid running next : Config.valid running → Config.valid next → Config.valid (keep_running running next).
Proof. intros [] []. by split. Qed.

End lemmas.

(** ** Theorems *)



(** ** Lemmas: options *)

Lemma parse_size_range arg n : parse_size arg = Ok n → 1 <= n <= 2 ^ 27.
Proof.
  unfold parse_size. destruct (Libc.stoul 10 arg) as [[x k] |] eqn:E; [| done]. cbn [mbind result_bind]. apply Libc.stoul_range in E; [| lia].
  change (Z.shiftl 1 27) with (2 ^ 27). destruct ((x =? 0) || (2 ^ 27 <? x)) eqn:B; [done |]. intros [= <-]. rewrite u32_id by (unfold is_u; lia). lia.
Qed.

(** The values of an option in the order they are given. *)
Definition given (c : Flag) (l : list (Flag * str)) : list str := omap (λ ca, match c, ca.1 with
  | kHash, kHash | kInterface, kInterface | kConntrackSize, kConntrackSize | kXdpMode, kXdpMode => Some ca.2 | _, _ => None end) l.

(** What an option that can be given several times ends up as. *)
Definition last_value {A} (conv : str → result A) (args : list str) (before : option A) : option A :=
  foldl (λ x arg, match conv arg with Ok a => Some a | Throw _ => x end) before args.

Lemma set_options_spec u l o o' :
  set_options u l o = Go o' →
  o_interface o' = last_value Ok (given kInterface l) (o_interface o) ∧
  o_xdp_mode o' = last_value Config.parse_xdp_mode (given kXdpMode l) (o_xdp_mode o) ∧
  o_hash o' = last_value Maglev.parse_hash_mode (given kHash l) (o_hash o) ∧
  o_conntrack_size o' = last_value parse_size (given kConntrackSize l) (o_conntrack_size o) ∧
  ((∀ n, o_conntrack_size o = Some n → 1 <= n <= 2 ^ 27) → ∀ n, o_conntrack_size o' = Some n → 1 <= n <= 2 ^ 27).
Proof.
  revert o. induction l as [| [c arg] l IH]; intros o H; cbn [set_options] in H; [by injection H as <- |].
  apply bind_Go in H as (o1 & H1 & H). specialize (IH o1 H). destruct IH as (I1 & I2 & I3 & I4 & I5). destruct o as [cp i x h nc ip cs so pp ml nh de rm ll].
  destruct c; cbn [set_option] in H1; try (apply bind_Go in H1 as (m & Hm & H1)); try discriminate H1; injection H1 as <-;
    try (by split_and!);
    (unfold value in Hm; match type of Hm with match ?r with _ => _ end = _ => destruct r eqn:Ev; [injection Hm as -> | discriminate Hm] end);
    unfold given, last_value in *; cbn [omap list_omap foldl fst snd o_interface o_xdp_mode o_hash o_conntrack_size] in *; rewrite ?Ev; try (by split_and!).
  split_and!; try done. intros _. apply I5. intros n' [= <-]. by eapply parse_size_range.
Qed.

(** The command line decides. When the options are accepted, nothing is left
    over, the interface, the XDP mode, the hash and the size of the connection
    table are the last values given for them, or the file's where none is, whatever
    the file says and however often it is read again, and a given size is between 1
    and 2^27. *)
Theorem options_decide (kUsage : str) (l : list (Flag * str)) (rest : list str) (o : Options) (file : Config.t) :
  parse_options kUsage l rest = Go o →
  rest = [] ∧
  Config.interface (apply_to o file) = default (Config.interface file) (last (given kInterface l)) ∧
  Config.xdp_mode (apply_to o file) = default (Config.xdp_mode file) (last_value Config.parse_xdp_mode (given kXdpMode l) None) ∧
  Config.hash (apply_to o file) = default (Config.hash file) (last_value Maglev.parse_hash_mode (given kHash l) None) ∧
  Config.conntrack_size (apply_to o file) = default (Config.conntrack_size file) (last_value parse_size (given kConntrackSize l) None) ∧
  (∀ n, last_value parse_size (given kConntrackSize l) None = Some n → 1 <= n <= 2 ^ 27) ∧
  Config.vips (apply_to o file) = Config.vips file.
Proof.
  unfold parse_options. intros H. apply bind_Go in H as (o1 & H1 & H). destruct rest as [| a rest]; [| discriminate H]. injection H as ->.
  destruct (set_options_spec _ _ _ _ H1) as (I1 & I2 & I3 & I4 & I5). split; [done |].
  assert (∀ (args : list str) x, last_value Ok args x = match last args with Some a => Some a | None => x end) as Hlast.
  { intros args. induction args as [| a args IH]; intros x; [done |]. unfold last_value in *. cbn [foldl]. rewrite IH. destruct args as [| b args]; [done |].
    change (last (a :: b :: args)) with (last (b :: args)). destruct (last (b :: args)) eqn:E; [done |]. by apply last_None in E. }
  unfold apply_to. cbn [Config.interface Config.xdp_mode Config.hash Config.conntrack_size Config.vips]. rewrite I1, I2, I3, I4, Hlast.
  split_and!; try done; [by destruct (last _) |].
  change (o_conntrack_size default_options) with (@None Z) in I4. rewrite <-I4. by apply I5.
Qed.

(** A size with a suffix is silently cut: --conntrack-size 64k asks for a
    connection table of 64 flows, and 1e6 for one. *)
Theorem size_suffix_ignored (kUsage : str) :
  (∃ o, parse_options kUsage [(kConntrackSize, §"64k")] [] = Go o ∧ o_conntrack_size o = Some 64) ∧
  (∃ o, parse_options kUsage [(kConntrackSize, §"1e6")] [] = Go o ∧ o_conntrack_size o = Some 1).
Proof. split; eexists; split; reflexivity. Qed.

(** ** Witnesses *)

Lemma options_decide_witness :
  ∃ o, parse_options [] [(kHash, §"maglev"); (kInterface, §"eth1"); (kHash, §"modulo")] [] = Go o ∧
    Config.hash (apply_to o ConfigFile.demo_config) = Maglev.ModeModulo ∧ Config.interface (apply_to o ConfigFile.demo_config) = §"eth1".
Proof.
  set (l := [(kHash, §"maglev"); (kInterface, §"eth1"); (kHash, §"modulo")]).
  destruct (parse_options [] l []) as [o | n t] eqn:E; [| vm_compute in E; discriminate E]. exists o. split; [reflexivity |].
  destruct (options_decide [] l [] o ConfigFile.demo_config E) as (_ & H1 & _ & H2 & _). split; [rewrite H2; reflexivity | rewrite H1; reflexivity].
Defined.

Definition demo_daemon : t := mk default_options ConfigFile.demo_config Config.default_health.


Definition boot_options : Loader.Options := loader_options default_options ConfigFile.demo_config.
Definition boot_maps : list (str * Loader.MapInfo) := [(Loader.PB_MAP_CONNTRACK, Loader.mk_info 10 16 16 1 0)].
Definition boot_info : Loader.MapInfo := Loader.mk_info 10 16 16 (Config.conntrack_size ConfigFile.demo_config) 0.
Definition boot_path : str := Loader.map_path boot_options Loader.PB_MAP_CONNTRACK.


End Daemon.
