(* ===== verification/Metrics.v ===== *)
(** * The Prometheus exposition (src/daemon/metrics.cpp)

    [render_metrics] writes the counters of the kernel maps and the state of the
    control plane as text; [scrape] is a reader of that text format, used to
    state what the text says. *)

From Stdlib Require Import ZArith Lia Ascii String.
From S2P Require Import Prelude Abi VipSpec Maglev Counters Control RealTable Config ApiServer LbState LbInv Reader LbProps LbTheorems Commands Libc.

Module Metrics.
Import LbState Reader LbTheorems.

(** ** Exposition *)

Definition nl : str := [ApiServer.nl].
Definition quote : str := [ascii_of_nat 34].

Definition family (name type help e : str) : str :=
  e ++ §"# HELP " ++ name ++ §" " ++ help ++ nl ++ §"# TYPE " ++ name ++ §" " ++ type ++ nl.

Definition sample (name labels : str) (value : Z) (e : str) : str :=
  e ++ if bool_decide (labels = []) then name ++ §" " ++ VipSpec.to_string value ++ nl
       else name ++ §"{" ++ labels ++ §"} " ++ VipSpec.to_string value ++ nl.

Definition vip_label (v : VipView) : str := §"vip=" ++ quote ++ VipSpec.to_str (vw_spec v) ++ quote.

Record PerVipCounter := mk_per_vip {
  pv_metric : str;
  pv_counter : pb_counter;
  pv_help : str
}.

Definition kPerVip : list PerVipCounter :=
  [mk_per_vip §"pb_packets_total" PB_CNT_PACKETS §"Packets that matched the VIP.";
   mk_per_vip §"pb_bytes_total" PB_CNT_BYTES §"Bytes of packets that matched the VIP, before encapsulation.";
   mk_per_vip §"pb_conntrack_hits_total" PB_CNT_CT_HIT §"Packets whose real came from the connection table.";
   mk_per_vip §"pb_conntrack_misses_total" PB_CNT_CT_MISS §"Connection table lookups that missed.";
   mk_per_vip §"pb_hash_total" PB_CNT_HASH §"Packets whose real was chosen by the ring.";
   mk_per_vip §"pb_syn_total" PB_CNT_SYN §"TCP SYNs seen.";
   mk_per_vip §"pb_tx_total" PB_CNT_TX §"Packets encapsulated and transmitted."].

Record DropReason := mk_drop {
  dr_reason : str;
  dr_counter : pb_counter
}.

Definition kDrops : list DropReason :=
  [mk_drop §"frag" PB_CNT_DROP_FRAG; mk_drop §"opts" PB_CNT_DROP_OPTS; mk_drop §"no_real" PB_CNT_DROP_NO_REAL;
   mk_drop §"adj_head" PB_CNT_DROP_ADJ_HEAD; mk_drop §"mtu" PB_CNT_DROP_MTU; mk_drop §"short" PB_CNT_DROP_SHORT;
   mk_drop §"other" PB_CNT_DROP_OTHER].

(** ** The parts of render_metrics, in order *)

(** for (const VipView& v : vips) per_vip.push_back(reader.counters(v.vip_id)); *)
Fixpoint read_vips (vips : list VipView) : M LbState.t (list pb_stats) :=
  match vips with
  | [] => mret []
  | v :: vips => c ← counters (vw_vip_id v); cs ← read_vips vips; mret (c :: cs)
  end.

Definition per_vip_metric (vs : list (VipView * pb_stats)) (e : str) (m : PerVipCounter) : str :=
  foldl (λ e vc, sample (pv_metric m) (vip_label vc.1) (Counters.cnt (pv_counter m) vc.2) e)
    (family (pv_metric m) §"counter" (pv_help m) e) vs.

Definition reason_label (r : str) : str := §"reason=" ++ quote ++ r ++ quote.
Definition real_label (a : Z) : str := §"real=" ++ quote ++ VipSpec.ipv4_to_string a ++ quote.

Definition drop_reason (vs : list (VipView * pb_stats)) (global : pb_stats) (e : str) (d : DropReason) : str :=
  foldl (λ e vc, sample §"pb_drops_total" (vip_label vc.1 ++ §"," ++ reason_label (dr_reason d)) (Counters.cnt (dr_counter d) vc.2) e)
    (sample §"pb_drops_total" (§"vip=" ++ quote ++ §"global" ++ quote ++ §"," ++ reason_label (dr_reason d))
       (Counters.cnt (dr_counter d) global) e) vs.

(** std::map<uint32_t, uint32_t> seen; each real once *)
Definition seen_reals (vips : list VipView) : gmap Z Z :=
  foldl (λ seen v, foldl (λ seen r, <[rv_real_id r := rv_addr r]> seen) seen (vw_reals v)) ∅ vips.

Fixpoint real_packets (seen : gmap Z Z) (ids : list Z) (e : str) : M LbState.t str :=
  match ids with
  | [] => mret e
  | id :: ids =>
      rs ← real_counters id;
      real_packets seen ids (sample §"pb_real_packets_total" (real_label (default 0 (seen !! id))) (rs_packets rs) e)
  end.

(** for (v : vips) for (r : v.reals) e.sample(name, "vip,real", value(r)); *)
Definition per_real (name : str) (value : RealView → Z) (vips : list VipView) (e : str) : str :=
  foldl (λ e v, foldl (λ e r, sample name (vip_label v ++ §"," ++ real_label (rv_addr r)) (value r) e) e (vw_reals v)) e vips.

Definition render_metrics (ct_max_entries : Z) (answers : list answer) (attached_mode : Config.XdpMode) : M LbState.t str :=
  s ← get;
  let vips := snapshot s in
  per_vip ← read_vips vips;
  global ← counters PB_STATS_GLOBAL;
  let vs := zip vips per_vip in
  let e := foldl (per_vip_metric vs) [] kPerVip in
  let e := family §"pb_pass_total" §"counter" §"Packets passed to the kernel stack (not for any VIP)." e in
  let e := sample §"pb_pass_total" [] (Counters.cnt PB_CNT_PASS global) e in
  let e := family §"pb_drops_total" §"counter" §"Packets dropped by the data plane, by reason." e in
  let e := foldl (drop_reason vs global) e kDrops in
  let e := family §"pb_real_packets_total" §"counter" §"Packets sent to the real, all VIPs." e in
  let seen := seen_reals vips in
  e ← real_packets seen (addr_keys seen) e;
  let e := family §"pb_real_up" §"gauge" §"1 if the real passes health checks (always 1 when unchecked)." e in
  let e := per_real §"pb_real_up" (λ r, Z.b2z (rv_up r)) vips e in
  let e := family §"pb_real_weight" §"gauge" §"Configured weight of the real (draining reals keep theirs)." e in
  let e := per_real §"pb_real_weight" rv_weight vips e in
  let e := family §"pb_ring_generation" §"counter" §"Number of ring swaps for the VIP since the daemon started." e in
  let e := foldl (λ e v, sample §"pb_ring_generation" (vip_label v) (vw_generation v) e) e vips in
  let e := family §"pb_conntrack_entries" §"gauge" §"Keys in the connection table (O(n) walk per scrape)." e in
  let e := sample §"pb_conntrack_entries" [] (conntrack_entries ct_max_entries answers) e in
  let e := family §"pb_xdp_mode" §"gauge" §"XDP attach mode in effect." e in
  mret (sample §"pb_xdp_mode" (§"mode=" ++ quote ++ Config.xdp_mode_name attached_mode ++ quote) 1 e).

(** ** Reading the text format *)

Fixpoint span (p : ascii → bool) (s : str) : str * str :=
  match s with
  | c :: s' => if p c then let '(a, r) := span p s' in (c :: a, r) else ([], s)
  | [] => ([], [])
  end.

Definition is_char (c d : ascii) : bool := bool_decide (d = c).

(** key="value" pairs up to the closing brace, and what follows it. *)
Fixpoint scrape_labels (fuel : nat) (s : str) : option (list (str * str) * str) :=
  match fuel with
  | O => None
  | S fuel =>
      let '(key, r) := span (λ c, negb (is_char "="%char c)) s in
      match r with
      | _ :: q :: r =>
          if negb (bool_decide (q = ascii_of_nat 34)) then None else
          let '(val, r) := span (λ c, negb (is_char (ascii_of_nat 34) c)) r in
          match r with
          | _ :: d :: r =>
              if is_char "}"%char d then Some ([(key, val)], r)
              else if is_char ","%char d then '(ls, r) ← scrape_labels fuel r; Some ((key, val) :: ls, r)
              else None
          | _ => None
          end
      | _ => None
      end
  end.

Definition scrape_value (s : str) : option Z :=
  match s with
  | c :: ((_ :: _) as d) =>
      if is_char " "%char c && forallb VipSpec.isdigit d then Some (foldl (λ v c, v * 10 + VipSpec.digit_val c) 0 d) else None
  | _ => None
  end.

Abbreviation labels := (list (str * str)).
Abbreviation series := (str * labels)%type.

Definition scrape_line (s : str) : option (series * Z) :=
  let '(name, r) := span (λ c, negb (is_char " "%char c) && negb (is_char "{"%char c)) s in
  match r with
  | "{"%char :: r => '(ls, r) ← scrape_labels (length r) r; v ← scrape_value r; Some ((name, ls), v)
  | _ => v ← scrape_value r; Some ((name, []), v)
  end.

(** The samples of a text: every line that is not a comment. *)
Definition scrape (text : str) : option (list (series * Z)) :=
  let '(lines, rest) := ApiServer.split_lines text [] in
  if bool_decide (rest = []) then mapM scrape_line (filter (λ l, head l ≠ Some "#"%char) lines) else None.

(** ** Lemmas: the reader reads what the writer writes *)

Lemma span_app p a c r : Forall (λ x, p x = true) a → p c = false → span p (a ++ c :: r) = (a, c :: r).
Proof. induction 1 as [| x a Hx _ IH]; intros Hc; cbn; [by rewrite Hc |]. by rewrite Hx, IH. Qed.

(** A sample without its newline, from its labels. *)
Fixpoint label_text (ls : labels) : str :=
  match ls with
  | [] => []
  | [(k, v)] => k ++ §"=" ++ quote ++ v ++ quote
  | (k, v) :: ls => k ++ §"=" ++ quote ++ v ++ quote ++ §"," ++ label_text ls
  end.

Definition sample_line (name : str) (ls : labels) (value : Z) : str :=
  match ls with
  | [] => name ++ §" " ++ VipSpec.to_string value
  | _ => name ++ §"{" ++ label_text ls ++ §"} " ++ VipSpec.to_string value
  end.

Definition no_nl (s : str) : Prop := ApiServer.nl ∉ s.

(** Texts that the format can carry. *)
Record clean_name (n : str) : Prop := {
  cn_head : head n ≠ Some "#"%char;
  cn_some : n ≠ [];
  cn_chars : Forall (λ c, negb (is_char " "%char c) && negb (is_char "{"%char c) = true) n;
  cn_nl : no_nl n
}.

Record clean_label (kv : str * str) : Prop := {
  cl_key : Forall (λ c, negb (is_char "="%char c) = true) kv.1;
  cl_val : Forall (λ c, negb (is_char (ascii_of_nat 34) c) = true) kv.2;
  cl_nl : no_nl (kv.1 ++ kv.2)
}.

Lemma scrape_value_ok v : is_u 64 v → scrape_value (" "%char :: VipSpec.to_string v) = Some v.
Proof.
  intros Hv. destruct (VipSpec.to_string_spec v 20) as (Hd & Hn & Ev & _); [unfold is_u in Hv; lia | lia |].
  unfold scrape_value. destruct (VipSpec.to_string v) as [| c d]; [done |].
  change (is_char " " " ") with true. cbn [andb]. destruct (forallb VipSpec.isdigit (c :: d)) eqn:E; [f_equal; exact Ev |].
  exfalso. apply not_true_iff_false in E. apply E, forallb_forall. intros x Hx. rewrite Forall_forall in Hd. apply Hd. by apply list_elem_of_In.
Qed.

Lemma scrape_labels_ok ls r fuel :
  ls ≠ [] → Forall clean_label ls → (length ls <= fuel)%nat → scrape_labels fuel (label_text ls ++ "}"%char :: r) = Some (ls, r).
Proof.
  revert fuel. induction ls as [| [k v] ls IH]; [done |]. intros fuel _ [Hc Hls]%Forall_cons Hf. destruct fuel as [| fuel]; [cbn in Hf; lia |].
  assert (∀ x, (k ++ §"=" ++ quote ++ v ++ quote ++ x)%list = k ++ "="%char :: ascii_of_nat 34 :: v ++ ascii_of_nat 34 :: x) as Hx by done.
  assert (label_text ((k, v) :: ls) ++ "}"%char :: r =
    k ++ "="%char :: ascii_of_nat 34 :: v ++ ascii_of_nat 34 :: match ls with [] => "}"%char :: r | _ => ","%char :: label_text ls ++ "}"%char :: r end) as ->.
  { destruct ls as [| kv ls]; cbn [label_text]; unfold quote; rewrite <-!app_assoc; cbn; by rewrite <-?app_assoc. }
  cbn [scrape_labels]. rewrite span_app by (apply Hc || done). cbn [negb bool_decide]. rewrite bool_decide_eq_true_2 by done. cbn [negb].
  rewrite span_app by (apply Hc || done). destruct ls as [| kv ls]; [done |]. change (is_char "}" ",") with false. change (is_char "," ",") with true. cbv iota.
  rewrite IH by (done || (cbn in Hf |- *; lia)). done.
Qed.

Lemma length_label_text ls : (length ls <= length (label_text ls))%nat.
Proof.
  induction ls as [| [k v] ls IH]; [done |]. destruct ls as [| kv ls]; [cbn [label_text length]; rewrite !length_app; cbn; lia |].
  change (label_text ((k, v) :: kv :: ls)) with (k ++ §"=" ++ quote ++ v ++ quote ++ §"," ++ label_text (kv :: ls)).
  rewrite !length_app. cbn [length] in *. change (length (§"=")) with 1%nat. lia.
Qed.

Lemma scrape_line_ok name ls v :
  clean_name name → Forall clean_label ls → is_u 64 v → scrape_line (sample_line name ls v) = Some ((name, ls), v).
Proof.
  intros Hn Hls Hv. unfold scrape_line, sample_line. destruct ls as [| kv ls].
  - change (§" " ++ ?x) with (" "%char :: x). rewrite span_app by (apply Hn || done). by rewrite scrape_value_ok.
  - change (§"{" ++ ?x) with ("{"%char :: x). rewrite span_app by (apply Hn || done).
    change (§"} " ++ ?x) with ("}"%char :: " "%char :: x). rewrite scrape_labels_ok; [| done | done |].
    + cbn [mbind option_bind]. by rewrite scrape_value_ok.
    + rewrite length_app. pose proof (length_label_text (kv :: ls)). lia.
Qed.

(** A metric family and its samples, and the lines it is written as. *)
Record block := mk_block {
  b_name : str;
  b_type : str;
  b_help : str;
  b_samples : list (labels * Z)
}.

Definition family_lines (name type help : str) : list str :=
  [§"# HELP " ++ name ++ §" " ++ help; §"# TYPE " ++ name ++ §" " ++ type].
Definition sample_lines (name : str) (l : list (labels * Z)) : list str := (λ x, sample_line name x.1 x.2) <$> l.
Definition block_lines (b : block) : list str := family_lines (b_name b) (b_type b) (b_help b) ++ sample_lines (b_name b) (b_samples b).
Definition block_series (b : block) : list (series * Z) := (λ x, ((b_name b, x.1), x.2)) <$> b_samples b.

Definition text_of (lines : list str) : str := lines ≫= λ l, l ++ nl.

Record clean_block (b : block) : Prop := {
  cb_name : clean_name (b_name b);
  cb_text : no_nl (b_type b ++ b_help b);
  cb_samples : Forall (λ x, Forall clean_label x.1 ∧ is_u 64 x.2) (b_samples b)
}.

Lemma text_of_app l k : text_of (l ++ k) = text_of l ++ text_of k.
Proof. apply bind_app. Qed.

Lemma split_text lines : Forall no_nl lines → ApiServer.split_lines (text_of lines) [] = (lines, []).
Proof.
  induction 1 as [| l lines Hl _ IH]; [done |]. cbn [text_of mbind list_bind]. change (lines ≫= _) with (text_of lines).
  rewrite <-app_assoc, ApiServer.split_app, ApiServer.split_none by done. cbn [fst snd app]. unfold nl. cbn [app ApiServer.split_lines].
  rewrite bool_decide_eq_true_2, IH by done. done.
Qed.

Lemma no_nl_app a b : no_nl (a ++ b) ↔ no_nl a ∧ no_nl b.
Proof. apply not_elem_of_app. Qed.
Lemma no_nl_cons c s : no_nl (c :: s) ↔ c ≠ ApiServer.nl ∧ no_nl s.
Proof. unfold no_nl. rewrite not_elem_of_cons. split; intros [? ?]; split; congruence. Qed.
Lemma no_nl_digits s : Forall (λ c, VipSpec.isdigit c = true) s → no_nl s.
Proof. by apply VipSpec.digits_not_elem. Qed.

Lemma no_nl_nil : no_nl [].
Proof. apply not_elem_of_nil. Qed.

Ltac nl_tac :=
  repeat (rewrite no_nl_app || rewrite no_nl_cons); split_and?; try done; try apply no_nl_nil;
  try match goal with |- no_nl (list_ascii_of_string _) => unfold no_nl; apply (bool_decide_unpack _); vm_compute; exact I end.

Lemma label_text_nl ls : Forall clean_label ls → no_nl (label_text ls).
Proof.
  induction 1 as [| [k v] ls Hc _ IH]; [by apply not_elem_of_nil |]. destruct (proj1 (no_nl_app _ _) (cl_nl _ Hc)) as [H1 H2]. cbn in H1, H2.
  destruct ls as [| kv ls]; [cbn [label_text]; unfold quote; nl_tac |].
  change (label_text ((k, v) :: kv :: ls)) with (k ++ §"=" ++ quote ++ v ++ quote ++ §"," ++ label_text (kv :: ls)). unfold quote. nl_tac.
Qed.

Lemma sample_line_clean name ls v :
  clean_name name → Forall clean_label ls → is_u 64 v →
  no_nl (sample_line name ls v) ∧ head (sample_line name ls v) ≠ Some "#"%char.
Proof.
  intros Hn Hls Hv. destruct (VipSpec.to_string_spec v 20) as (Hd & _); [unfold is_u in Hv; lia | lia |]. apply no_nl_digits in Hd.
  pose proof (label_text_nl ls Hls). pose proof (cn_nl _ Hn). split.
  - destruct ls as [| kv ls]; cbn [sample_line]; nl_tac.
  - pose proof (cn_head _ Hn). pose proof (cn_some _ Hn). destruct name as [| c name]; [done |]. by destruct ls.
Qed.

Lemma block_lines_clean b : clean_block b → Forall no_nl (block_lines b).
Proof.
  intros [Hn Ht Hs]. apply no_nl_app in Ht as [Ht Hh]. pose proof (cn_nl _ Hn). apply Forall_app. split.
  - repeat constructor; nl_tac.
  - apply Forall_fmap. eapply Forall_impl; [exact Hs |]. intros [ls v] [Hl Hv]. by apply sample_line_clean.
Qed.

Lemma scrape_samples name l :
  clean_name name → Forall (λ x, Forall clean_label x.1 ∧ is_u 64 x.2) l →
  mapM scrape_line (filter (λ s, head s ≠ Some "#"%char) (sample_lines name l)) = Some ((λ x, ((name, x.1), x.2)) <$> l).
Proof.
  intros Hn. induction 1 as [| [ls v] l [Hl Hv] _ IH]; [done |]. unfold sample_lines in *. rewrite fmap_cons.
  rewrite filter_cons_True by (by apply sample_line_clean). cbn [mapM fst snd]. rewrite scrape_line_ok by done. cbn [mbind option_bind]. by rewrite IH.
Qed.

Lemma scrape_block b : clean_block b → mapM scrape_line (filter (λ l, head l ≠ Some "#"%char) (block_lines b)) = Some (block_series b).
Proof.
  intros [Hn _ Hs]. unfold block_lines, family_lines. cbn [app]. rewrite !filter_cons_False by (intros Hx; by apply Hx). by apply scrape_samples.
Qed.

Lemma mapM_app {A B} (f : A → option B) l k x y : mapM f l = Some x → mapM f k = Some y → mapM f (l ++ k) = Some (x ++ y).
Proof.
  intros Hl Hk. apply mapM_Some in Hl, Hk. apply mapM_Some. by apply Forall2_app.
Qed.

(** The reader finds exactly the samples of the families. *)
Lemma scrape_blocks bs : Forall clean_block bs → scrape (text_of (bs ≫= block_lines)) = Some (bs ≫= block_series).
Proof.
  intros Hb. unfold scrape. rewrite split_text.
  - rewrite bool_decide_eq_true_2 by done. induction Hb as [| b bs Hb _ IH]; [done |]. cbn [mbind list_bind]. rewrite filter_app.
    by apply mapM_app; [apply scrape_block |].
  - induction Hb as [| b bs Hb _ IH]; [constructor |]. cbn [mbind list_bind]. apply Forall_app. split; [by apply block_lines_clean | done].
Qed.

(** ** Lemmas: what render_metrics writes *)

(** The sums over the CPUs. *)
Definition total (m : Maps) (i : Z) : pb_stats := foldl add_stats pb_stats0 (default [] (array_lookup (stats m) i)).
Definition real_total (m : Maps) (id : Z) : pb_real_stats := foldl add_real_stats real_stats0 (default [] (array_lookup (real_stats m) id)).

Definition vip_l (v : VipView) : str * str := (§"vip", VipSpec.to_str (vw_spec v)).
Definition real_l (a : Z) : str * str := (§"real", VipSpec.ipv4_to_string a).
Definition reason_l (d : DropReason) : str * str := (§"reason", dr_reason d).

Section blocks.
Context (m : Maps) (vips : list VipView).

Definition per_vip_block (p : PerVipCounter) : block :=
  mk_block (pv_metric p) §"counter" (pv_help p) ((λ v, ([vip_l v], Counters.cnt (pv_counter p) (total m (vw_vip_id v)))) <$> vips).
Definition drop_samples (d : DropReason) : list (labels * Z) :=
  ([(§"vip", §"global"); reason_l d], Counters.cnt (dr_counter d) (total m PB_STATS_GLOBAL)) ::
  ((λ v, ([vip_l v; reason_l d], Counters.cnt (dr_counter d) (total m (vw_vip_id v)))) <$> vips).
Definition real_sample (id : Z) : labels * Z := ([real_l (default 0 (seen_reals vips !! id))], rs_packets (real_total m id)).
Definition per_real_samples (value : RealView → Z) : list (labels * Z) :=
  vips ≫= λ v, (λ r, ([vip_l v; real_l (rv_addr r)], value r)) <$> vw_reals v.

Definition metrics_blocks (entries : Z) (mode : Config.XdpMode) : list block :=
  (per_vip_block <$> kPerVip) ++
  [mk_block §"pb_pass_total" §"counter" §"Packets passed to the kernel stack (not for any VIP)."
     [([], Counters.cnt PB_CNT_PASS (total m PB_STATS_GLOBAL))];
   mk_block §"pb_drops_total" §"counter" §"Packets dropped by the data plane, by reason." (kDrops ≫= drop_samples);
   mk_block §"pb_real_packets_total" §"counter" §"Packets sent to the real, all VIPs." (real_sample <$> addr_keys (seen_reals vips));
   mk_block §"pb_real_up" §"gauge" §"1 if the real passes health checks (always 1 when unchecked)." (per_real_samples (λ r, Z.b2z (rv_up r)));
   mk_block §"pb_real_weight" §"gauge" §"Configured weight of the real (draining reals keep theirs)." (per_real_samples rv_weight);
   mk_block §"pb_ring_generation" §"counter" §"Number of ring swaps for the VIP since the daemon started."
     ((λ v, ([vip_l v], vw_generation v)) <$> vips);
   mk_block §"pb_conntrack_entries" §"gauge" §"Keys in the connection table (O(n) walk per scrape)." [([], entries)];
   mk_block §"pb_xdp_mode" §"gauge" §"XDP attach mode in effect." [([(§"mode", Config.xdp_mode_name mode)], 1)]].

End blocks.

Lemma family_text name type help e : family name type help e = e ++ text_of (family_lines name type help).
Proof. unfold family, family_lines, text_of. cbn [mbind list_bind]. rewrite app_nil_r. by repeat rewrite <-app_assoc. Qed.

Lemma sample_text name ls v e t : t = label_text ls → sample name t v e = e ++ text_of (sample_lines name [(ls, v)]).
Proof.
  intros ->. unfold sample, sample_lines, text_of. cbn [fmap list_fmap mbind list_bind fst snd]. rewrite app_nil_r. destruct ls as [| [k x] ls].
  - rewrite bool_decide_eq_true_2 by done. cbn [sample_line]. by repeat rewrite <-app_assoc.
  - rewrite bool_decide_eq_false_2; [cbn [sample_line]; by repeat rewrite <-app_assoc |]. destruct ls as [| kv ls]; intros [_ [=]]%app_eq_nil.
Qed.

Lemma foldl_text {A} (g : str → A → str) (f : A → list str) e l :
  (∀ e x, g e x = e ++ text_of (f x)) → foldl g e l = e ++ text_of (l ≫= f).
Proof.
  intros H. revert e. induction l as [| x l IH]; intros e; cbn [foldl]; [by rewrite app_nil_r |].
  rewrite IH, H. cbn [mbind list_bind]. by rewrite text_of_app, app_assoc.
Qed.

Lemma bind_fmap {A B C} (f : A → B) (g : B → list C) l : (f <$> l) ≫= g = l ≫= (g ∘ f).
Proof. induction l as [| x l IH]; [done |]. cbn. by rewrite <-IH. Qed.
Lemma bind_single {A B} (f : A → B) l : (l ≫= λ x, [f x]) = f <$> l.
Proof. induction l as [| x l IH]; [done |]. cbn. f_equal. Qed.

(** Loops of samples. *)
Lemma foldl_samples {A} name (g : str → A → str) (f : A → labels * Z) e l :
  (∀ e x, g e x = sample name (label_text (f x).1) (f x).2 e) → foldl g e l = e ++ text_of (sample_lines name (f <$> l)).
Proof.
  intros H. rewrite (foldl_text g (λ x, [sample_line name (f x).1 (f x).2])) by (intros e' x; rewrite H; by erewrite sample_text).
  rewrite bind_single. unfold sample_lines. by rewrite <-list_fmap_compose.
Qed.

Lemma sample_lines_bind {A} name (f : A → list (labels * Z)) l : sample_lines name (l ≫= f) = l ≫= λ x, sample_lines name (f x).
Proof. unfold sample_lines. induction l as [| x l IH]; [done |]. cbn. rewrite fmap_app. f_equal. apply IH. Qed.

(** The label strings of the code are label lists. *)
Lemma label_two x y (k1 k2 v1 v2 : str) :
  x = k1 ++ §"=" ++ quote ++ v1 ++ quote → y = k2 ++ §"=" ++ quote ++ v2 ++ quote → x ++ §"," ++ y = label_text [(k1, v1); (k2, v2)].
Proof. intros -> ->. cbn [label_text]. by repeat rewrite <-app_assoc. Qed.

Lemma per_real_text name value vips e : per_real name value vips e = e ++ text_of (sample_lines name (per_real_samples vips value)).
Proof.
  unfold per_real, per_real_samples. rewrite sample_lines_bind. apply foldl_text. intros e' v.
  apply foldl_samples. intros e2 r. f_equal. by apply label_two.
Qed.

Lemma per_vip_text m vips (p : PerVipCounter) e :
  per_vip_metric (zip vips ((λ v, total m (vw_vip_id v)) <$> vips)) e p = e ++ text_of (block_lines (per_vip_block m vips p)).
Proof.
  unfold per_vip_metric, block_lines. cbn [b_name b_type b_help b_samples per_vip_block].
  rewrite (foldl_samples (pv_metric p) _ (λ vc, ([vip_l vc.1], Counters.cnt (pv_counter p) vc.2))) by done.
  rewrite family_text, text_of_app, app_assoc. do 3 f_equal. induction vips as [| v l IH]; [done |]. cbn. f_equal. apply IH.
Qed.

Lemma drop_text m vips (d : DropReason) e :
  drop_reason (zip vips ((λ v, total m (vw_vip_id v)) <$> vips)) (total m PB_STATS_GLOBAL) e d =
  e ++ text_of (sample_lines §"pb_drops_total" (drop_samples m vips d)).
Proof.
  unfold drop_reason, drop_samples.
  rewrite (foldl_samples §"pb_drops_total" _ (λ vc, ([vip_l vc.1; reason_l d], Counters.cnt (dr_counter d) vc.2)))
    by (intros e' [v c]; f_equal; by apply label_two).
  rewrite (sample_text _ [(§"vip", §"global"); reason_l d]) by (etrans; [| by apply (label_two (§"vip=" ++ quote ++ §"global" ++ quote) (reason_label (dr_reason d)))]; by repeat rewrite <-app_assoc).
  rewrite <-app_assoc, <-text_of_app. unfold sample_lines. rewrite <-fmap_app. cbn [app]. do 4 f_equal. induction vips as [| v l IH]; [done |]. cbn. f_equal. apply IH.
Qed.

Lemma counters_calm {S} i (w : World S) :
  calm w → ∃ w', counters i w = (Ok (total (km w) i), w') ∧ obj w' = obj w ∧ km w' = km w ∧ hist w' = hist w ∧ calm w'.
Proof.
  intros Hc. unfold counters, lookup_percpu. destruct (bpf_result_run w) as (err & w1 & H1 & O1 & K1 & I1 & C1). destruct (C1 Hc) as [-> Hc1].
  exists w1. unfold mbind, M_bind. rewrite H1. unfold get_km. cbn. rewrite K1. done.
Qed.

Lemma real_counters_calm {S} i (w : World S) :
  calm w → ∃ w', real_counters i w = (Ok (real_total (km w) i), w') ∧ obj w' = obj w ∧ km w' = km w ∧ hist w' = hist w ∧ calm w'.
Proof.
  intros Hc. unfold real_counters, lookup_percpu. destruct (bpf_result_run w) as (err & w1 & H1 & O1 & K1 & I1 & C1). destruct (C1 Hc) as [-> Hc1].
  exists w1. unfold mbind, M_bind. rewrite H1. unfold get_km. cbn. rewrite K1. done.
Qed.

Lemma read_vips_calm vips (w : World LbState.t) :
  calm w → ∃ w', read_vips vips w = (Ok ((λ v, total (km w) (vw_vip_id v)) <$> vips), w') ∧
    obj w' = obj w ∧ km w' = km w ∧ hist w' = hist w ∧ calm w'.
Proof.
  revert w. induction vips as [| v vips IH]; intros w Hc; cbn [read_vips]; [by exists w |].
  destruct (counters_calm (vw_vip_id v) w Hc) as (w1 & H1 & O1 & K1 & I1 & C1). erewrite bind_run by exact H1.
  destruct (IH w1 C1) as (w2 & H2 & O2 & K2 & I2 & C2). erewrite bind_run by exact H2. exists w2. rewrite K1. split_and!; congruence || done.
Qed.

Lemma real_packets_calm vips ids e (w : World LbState.t) :
  calm w → ∃ w', real_packets (seen_reals vips) ids e w =
      (Ok (e ++ text_of (sample_lines §"pb_real_packets_total" (real_sample (km w) vips <$> ids))), w') ∧
    obj w' = obj w ∧ km w' = km w ∧ hist w' = hist w ∧ calm w'.
Proof.
  revert w e. induction ids as [| id ids IH]; intros w e Hc; cbn [real_packets]; [exists w; by rewrite app_nil_r |].
  destruct (real_counters_calm id w Hc) as (w1 & H1 & O1 & K1 & I1 & C1). erewrite bind_run by exact H1.
  rewrite (sample_text _ [real_l (default 0 (seen_reals vips !! id))]) by done.
  destruct (IH w1 (e ++ text_of (sample_lines §"pb_real_packets_total" [([real_l (default 0 (seen_reals vips !! id))], rs_packets (real_total (km w) id))])) C1)
    as (w2 & H2 & O2 & K2 & I2 & C2). exists w2. rewrite H2, K1, <-app_assoc, <-text_of_app. split_and!; congruence || done.
Qed.

Lemma render_run ct_max answers mode (w : World LbState.t) :
  calm w → ∃ w', render_metrics ct_max answers mode w =
    (Ok (text_of (metrics_blocks (km w) (snapshot (obj w)) (conntrack_entries ct_max answers) mode ≫= block_lines)), w') ∧ Commands.same_world w w'.
Proof.
  intros Hc. unfold render_metrics. rewrite bind_get. cbv zeta. set (vips := snapshot (obj w)).
  destruct (read_vips_calm vips w Hc) as (w1 & H1 & O1 & K1 & I1 & C1). erewrite bind_run by exact H1.
  destruct (counters_calm PB_STATS_GLOBAL w1 C1) as (w2 & H2 & O2 & K2 & I2 & C2). erewrite bind_run by exact H2. rewrite K1.
  match goal with |- context [real_packets ?s ?i ?e] => destruct (real_packets_calm vips i e w2 C2) as (w3 & H3 & O3 & K3 & I3 & C3) end.
  erewrite bind_run by exact H3. clear H1 H2 H3. rewrite K2, K1. exists w3. split; [| split_and!; congruence].
  unfold mret, M_ret. do 2 f_equal.
  rewrite (foldl_text (per_vip_metric _) _ [] kPerVip (λ e p, per_vip_text (km w) vips p e)).
  rewrite (foldl_text (drop_reason _ _) _ _ kDrops (λ e d, drop_text (km w) vips d e)), <-sample_lines_bind.
  rewrite !per_real_text, (foldl_samples §"pb_ring_generation" _ (λ v, ([vip_l v], vw_generation v))) by done.
  rewrite (sample_text §"pb_xdp_mode" [(§"mode", Config.xdp_mode_name mode)]) by done.
  rewrite !(sample_text _ [] _ _ []) by done. rewrite !family_text. cbn [app].
  unfold metrics_blocks. rewrite bind_app, bind_fmap, text_of_app.
  cbn [mbind list_bind]. unfold block_lines at 2 3 4 5 6 7 8 9. cbn [b_name b_type b_help b_samples].
  rewrite !text_of_app, !app_nil_r. repeat rewrite <-app_assoc. done.
Qed.

(** ** Lemmas: the texts are clean, the series distinct *)

Lemma cnt_u64 c m i : is_u 64 (Counters.cnt c (total m i)).
Proof.
  unfold total, Counters.cnt. set (cpus := default [] _). clearbody cpus.
  assert (∀ sum, Forall (is_u 64) sum → Forall (is_u 64) (foldl add_stats sum cpus)) as H.
  { induction cpus as [| t cpus IH]; intros sum Hs; [done |]. apply IH. unfold add_stats. apply Forall_lookup. intros k x Hk.
    rewrite list_lookup_imap in Hk. destruct (sum !! k); [| done]. injection Hk as <-. apply is_u_u64. }
  specialize (H pb_stats0). destruct (foldl add_stats pb_stats0 cpus !! counter_index c) as [x |] eqn:E; [| cbn; unfold is_u; lia].
  cbn. eapply Forall_lookup_1; [apply H | exact E]. apply Forall_replicate. unfold is_u. lia.
Qed.

Lemma real_packets_u64 m id : is_u 64 (rs_packets (real_total m id)).
Proof.
  unfold real_total. set (cpus := default [] _). clearbody cpus.
  assert (∀ sum, is_u 64 (rs_packets sum) → is_u 64 (rs_packets (foldl add_real_stats sum cpus))) as H.
  { induction cpus as [| t cpus IH]; intros sum Hs; [done |]. apply IH, is_u_u64. }
  apply H. unfold is_u. cbn. lia.
Qed.

(** The characters of addresses and VIPs. *)
Definition plain (c : ascii) : bool := VipSpec.isdigit c || bool_decide (c ∈ §"./:tcpud?").

Lemma chars_digits b : 0 <= b < 10 ^ 5 → Forall (λ c, plain c = true) (VipSpec.to_string b).
Proof.
  intros Hb. destruct (VipSpec.to_string_spec b 5) as (Hd & _); [lia | lia |]. eapply Forall_impl; [exact Hd |]. intros c Hc. unfold plain. by rewrite Hc.
Qed.

Lemma chars_ipv4 a : Forall (λ c, plain c = true) (VipSpec.ipv4_to_string a).
Proof.
  assert (∀ i, 0 <= i → Forall (λ c, plain c = true) (VipSpec.to_string (VipSpec.byte_of a i))) as H.
  { intros i Hi. pose proof (VipSpec.byte_of_range a i Hi). apply chars_digits. lia. }
  assert (Forall (λ c, plain c = true) §".") as Hdot by (repeat constructor).
  unfold VipSpec.ipv4_to_string. rewrite !Forall_app. split_and!; try done; apply H; lia.
Qed.

Lemma chars_vip v : VipSpec.valid v → Forall (λ c, plain c = true) (VipSpec.to_str v).
Proof.
  intros (_ & Hp & _). unfold VipSpec.to_str. rewrite !Forall_app. split_and!; [apply chars_ipv4 | repeat constructor | |].
  - apply chars_digits. destruct (VipSpec.port_be_inverse _ Hp) as (_ & _ & _ & H). unfold is_u in *. lia.
  - destruct (_ =? 6); [repeat constructor |]. destruct (_ =? 17); repeat constructor.
Qed.

Lemma chars_clean s : Forall (λ c, plain c = true) s → Forall (λ c, negb (is_char (ascii_of_nat 34) c) = true) s ∧ no_nl s.
Proof.
  intros H. split.
  - eapply Forall_impl; [exact H |]. intros c Hc. unfold is_char. case_bool_decide as E; [| done]. subst c. vm_compute in Hc. discriminate Hc.
  - intros Hn. rewrite Forall_forall in H. apply H in Hn. vm_compute in Hn. discriminate Hn.
Qed.

Lemma clean_chars k v :
  Forall (λ c, negb (is_char "="%char c) = true) k → no_nl k → Forall (λ c, plain c = true) v → clean_label (k, v).
Proof. intros Hk Hn [Hv Hv']%chars_clean. split; [done | done |]. cbn. by apply no_nl_app. Qed.



Lemma clean_vip_l v : VipSpec.valid (vw_spec v) → clean_label (vip_l v).
Proof. intros Hv. apply clean_chars; [repeat constructor | nl_tac | by apply chars_vip]. Qed.
Lemma clean_real_l a : clean_label (real_l a).
Proof. apply clean_chars; [repeat constructor | nl_tac | apply chars_ipv4]. Qed.
Lemma clean_drops : Forall (λ d, clean_label (reason_l d)) kDrops.
Proof. repeat constructor; cbn; try done; unfold no_nl; apply (bool_decide_unpack _); vm_compute; exact I. Qed.

(** What addresses, weights and generations are when they come from the
    configuration and the API. *)
Record typed (s : LbState.t) : Prop := {
  ty_vip : ∀ spec v, vips_ s !! spec = Some v → VipSpec.valid spec ∧ is_u 64 (v_generation v);
  ty_real : ∀ spec v a mb, vips_ s !! spec = Some v → v_members v !! a = Some mb → is_u 32 a ∧ is_u 64 (m_weight mb)
}.

(** The views of a VIP's members. *)
Lemma elem_of_reals s spec v r :
  r ∈ vw_reals (vip_view s spec v) ↔ ∃ a mb, v_members v !! a = Some mb ∧ r = view_of s (v_spec v) a mb.
Proof.
  cbn [vw_reals vip_view]. rewrite list_elem_of_omap. setoid_rewrite LbInv.elem_of_addr_keys. split.
  - intros (a & [mb Hm] & E). rewrite Hm in E. injection E as <-. eauto.
  - intros (a & mb & Hm & ->). exists a. rewrite Hm. split; [eauto | done].
Qed.

Lemma NoDup_keyed {A K} (f : A → K) (g : K → option A) (l : list K) :
  (∀ k x, g k = Some x → f x = k) → NoDup l → NoDup (f <$> omap g l).
Proof.
  intros Hf. induction 1 as [| k l Hk _ IH]; [constructor |]. cbn [omap list_omap]. destruct (g k) as [x |] eqn:E; [| done].
  rewrite fmap_cons. apply NoDup_cons. split; [| done]. rewrite (Hf k x E). intros (y & Ey & Hy)%list_elem_of_fmap.
  apply list_elem_of_omap in Hy as (k' & Hk' & E'). apply Hf in E'. congruence.
Qed.

Lemma NoDup_specs s : NoDup (vw_spec <$> snapshot s).
Proof.
  unfold snapshot. rewrite merge_sort_Permutation. apply NoDup_keyed; [| apply LbInv.NoDup_spec_keys].
  intros k x E. destruct (vips_ s !! k); [| done]. by injection E as <-.
Qed.

Lemma NoDup_addrs s spec v : NoDup (rv_addr <$> vw_reals (vip_view s spec v)).
Proof.
  apply NoDup_keyed; [| apply LbInv.NoDup_addr_keys]. intros k x E. destruct (v_members v !! k); [| done]. by injection E as <-.
Qed.

Lemma to_str_inj v v' : VipSpec.valid v → VipSpec.valid v' → VipSpec.to_str v = VipSpec.to_str v' → v = v'.
Proof.
  intros Hv Hv' E. pose proof (VipSpec.parse_to_str v Hv) as H. rewrite E, VipSpec.parse_to_str in H by done. by injection H.
Qed.

Lemma not_global v : VipSpec.valid v → VipSpec.to_str v ≠ §"global".
Proof. intros Hv E. pose proof (VipSpec.parse_to_str v Hv) as H. rewrite E in H. vm_compute in H. discriminate H. Qed.

(** *** Each real once *)

Lemma seen_flat vips : seen_reals vips = foldl (λ seen r, <[rv_real_id r := rv_addr r]> seen) ∅ (vips ≫= vw_reals).
Proof.
  unfold seen_reals. generalize (∅ : gmap Z Z). induction vips as [| v vips IH]; intros m; [done |].
  cbn [foldl mbind list_bind]. rewrite IH. symmetry. apply foldl_app.
Qed.

Lemma seen_sound l (m : gmap Z Z) id a :
  foldl (λ seen r, <[rv_real_id r := rv_addr r]> seen) m l !! id = Some a →
  m !! id = Some a ∨ ∃ r, r ∈ l ∧ rv_real_id r = id ∧ rv_addr r = a.
Proof.
  revert m. induction l as [| r l IH]; intros m H; [by left |]. cbn [foldl] in H. apply IH in H as [H | (r' & Hr' & H)].
  - apply lookup_insert_Some in H as [[<- <-] | [_ H]]; [| by left]. right. exists r. split; [apply list_elem_of_here | done].
  - right. exists r'. split; [by apply list_elem_of_further | done].
Qed.

Lemma seen_complete l (m : gmap Z Z) id :
  is_Some (m !! id) ∨ (∃ r, r ∈ l ∧ rv_real_id r = id) → is_Some (foldl (λ seen r, <[rv_real_id r := rv_addr r]> seen) m l !! id).
Proof.
  revert m. induction l as [| r l IH]; intros m H; cbn [foldl].
  - destruct H as [? | (r & ?%not_elem_of_nil & _)]; done.
  - apply IH. destruct (decide (rv_real_id r = id)) as [<- | Hne]; [left; rewrite lookup_insert_eq; eauto |].
    destruct H as [H | (r' & [-> | Hr']%elem_of_cons & E)]; [left; by rewrite lookup_insert_ne | done | right; eauto].
Qed.

(** Ids and addresses of the reals on show. *)
Lemma seen_spec s m id a :
  LbInv.inv s m →
  seen_reals (snapshot s) !! id = Some a ↔
  RealTable.by_addr (reals_ s) !! a = Some id ∧ ∃ spec v, vips_ s !! spec = Some v ∧ is_Some (v_members v !! a).
Proof.
  intros Hi. rewrite seen_flat.
  assert (∀ r, r ∈ snapshot s ≫= vw_reals → RealTable.by_addr (reals_ s) !! rv_addr r = Some (rv_real_id r) ∧
     ∃ spec v, vips_ s !! spec = Some v ∧ is_Some (v_members v !! rv_addr r)) as Hr.
  { intros r (x & Hr & (spec & v & Hv & ->)%Commands.elem_of_snapshot)%list_elem_of_bind. apply elem_of_reals in Hr as (b & mb & Hm & ->).
    destruct (LbInv.member_id _ _ _ _ _ spec v b Hi Hv ltac:(eauto)) as [i Ei]. cbn [rv_addr rv_real_id view_of]. unfold RealTable.id_of. rewrite Ei. eauto 10. }
  split.
  - intros [H%lookup_empty_Some | (r & Hin & <- & <-)]%seen_sound; [done |]. by apply Hr.
  - intros (Hid & spec & v & Hv & [mb Hm]).
    assert (view_of s (v_spec v) a mb ∈ snapshot s ≫= vw_reals) as Hin.
    { apply list_elem_of_bind. exists (vip_view s spec v). split; [apply elem_of_reals; eauto | apply Commands.elem_of_snapshot; eauto]. }
    destruct (seen_complete (snapshot s ≫= vw_reals) ∅ id) as [a' E].
    { right. exists (view_of s (v_spec v) a mb). split; [done |]. cbn. unfold RealTable.id_of. by rewrite Hid. }
    rewrite E. apply seen_sound in E as [E%lookup_empty_Some | (r & Hr' & <- & <-)]; [done |]. apply Hr in Hr' as [Hid' _].
    pose proof (LbInv.i_tb _ _ _ _ _ Hi) as Ht. destruct (RealTable.inv_id _ _ _ Ht Hid) as (_ & _ & <-).
    by destruct (RealTable.inv_id _ _ _ Ht Hid') as (_ & _ & <-).
Qed.

Lemma fmap_bind {A B C} (f : A → list B) (g : B → C) l : g <$> (l ≫= f) = l ≫= λ x, g <$> f x.
Proof. induction l as [| x l IH]; [done |]. cbn [mbind list_bind]. rewrite fmap_app. f_equal. apply IH. Qed.

Lemma series_distinct bs : NoDup (b_name <$> bs) → Forall (λ b, NoDup (b_samples b).*1) bs → NoDup (bs ≫= block_series).*1.
Proof.
  intros Hn Hs. rewrite fmap_bind. rewrite Forall_forall in Hs. apply NoDup_bind; [| | by apply NoDup_fmap_1 in Hn].
  - intros b b' y Hb Hb' Hy Hy'. assert (b_name b = b_name b') as E.
    { apply list_elem_of_fmap in Hy as (x & -> & (u & -> & _)%list_elem_of_fmap).
      apply list_elem_of_fmap in Hy' as (x & E & (u' & -> & _)%list_elem_of_fmap). by injection E. }
    apply list_elem_of_lookup in Hb as [i Hi], Hb' as [j Hj]. assert (i = j) as ->; [| congruence].
    eapply NoDup_lookup; [exact Hn | by rewrite list_lookup_fmap, Hi | by rewrite list_lookup_fmap, Hj, E].
  - intros b Hb. unfold block_series. rewrite <-list_fmap_compose.
    replace ((fst ∘ λ x : labels * Z, ((b_name b, x.1), x.2)) <$> b_samples b) with (pair (b_name b) <$> (b_samples b).*1) by (by rewrite <-list_fmap_compose).
    apply NoDup_fmap_2; [by intros x y [= ->] | by apply Hs].
Qed.

Section distinct.
Context (s : LbState.t) (m : Maps) (Hi : LbInv.inv s m) (Hty : typed s).

Lemma view_valid v : v ∈ snapshot s → VipSpec.valid (vw_spec v).
Proof. intros (sp & u & Hu & ->)%Commands.elem_of_snapshot. by apply (ty_vip _ Hty sp u). Qed.

Lemma view_inj v v' : v ∈ snapshot s → v' ∈ snapshot s → VipSpec.to_str (vw_spec v) = VipSpec.to_str (vw_spec v') → v = v'.
Proof.
  intros Hv Hv' E. apply to_str_inj in E; [| by apply view_valid | by apply view_valid].
  apply list_elem_of_lookup in Hv as [i Hi'], Hv' as [j Hj]. assert (i = j) as ->; [| congruence].
  eapply (NoDup_lookup _ _ _ _ (NoDup_specs s)); [by rewrite list_lookup_fmap, Hi' | by rewrite list_lookup_fmap, Hj, E].
Qed.

Lemma NoDup_snapshot : NoDup (snapshot s).
Proof. eapply NoDup_fmap_1, NoDup_specs. Qed.

Lemma vip_series (value : VipView → Z) (more : labels) : NoDup ((λ v, (vip_l v :: more, value v)) <$> snapshot s).*1.
Proof.
  rewrite <-list_fmap_compose. apply NoDup_fmap_2_strong; [| apply NoDup_snapshot]. intros v v' Hv Hv' E. cbn in E. injection E as E. by apply view_inj.
Qed.

Lemma drop_series : NoDup (kDrops ≫= drop_samples m (snapshot s)).*1.
Proof.
  assert (NoDup (dr_reason <$> kDrops)) as Hk by (apply (bool_decide_unpack _); vm_compute; exact I).
  rewrite fmap_bind. apply NoDup_bind; [| | by apply NoDup_fmap_1 in Hk].
  - assert (∀ d y, y ∈ (drop_samples m (snapshot s) d).*1 → y !! 1%nat = Some (reason_l d)) as Hy.
    { intros d y (x & -> & Hx)%list_elem_of_fmap. apply elem_of_cons in Hx as [-> | (v & -> & _)%list_elem_of_fmap]; done. }
    intros d d' y Hd Hd' E%Hy E'%Hy. rewrite E in E'. injection E' as E'. apply list_elem_of_lookup in Hd as [i Hd], Hd' as [j Hd'].
    assert (i = j) as ->; [| congruence]. eapply NoDup_lookup; [exact Hk | by rewrite list_lookup_fmap, Hd | by rewrite list_lookup_fmap, Hd', E'].
  - intros d _. unfold drop_samples. rewrite fmap_cons. apply NoDup_cons. split; [| apply (vip_series _ [reason_l d])].
    intros (x & E & (v & -> & Hv)%list_elem_of_fmap)%list_elem_of_fmap. cbn in E. injection E as E. by apply (not_global (vw_spec v)), eq_sym; [apply view_valid |].
Qed.

Lemma real_series : NoDup (real_sample m (snapshot s) <$> addr_keys (seen_reals (snapshot s))).*1.
Proof.
  rewrite <-list_fmap_compose. apply NoDup_fmap_2_strong; [| apply LbInv.NoDup_addr_keys].
  intros id id' [a Ea]%LbInv.elem_of_addr_keys [a' Ea']%LbInv.elem_of_addr_keys E. cbn in E. rewrite Ea, Ea' in E. cbn in E. injection E as E.
  apply (seen_spec _ _ _ _ Hi) in Ea as (Hid & sp & v & Hv & [mb Hm]), Ea' as (Hid' & sp' & v' & Hv' & [mb' Hm']).
  apply Commands.ipv4_inj in E as <-; [congruence | exact (proj1 (ty_real _ Hty _ _ _ _ Hv Hm)) | exact (proj1 (ty_real _ Hty _ _ _ _ Hv' Hm'))].
Qed.

Lemma per_real_series value : NoDup (per_real_samples (snapshot s) value).*1.
Proof.
  unfold per_real_samples. rewrite fmap_bind. apply NoDup_bind; [| | apply NoDup_snapshot].
  - intros v v' y Hv Hv' (x & -> & (r & -> & _)%list_elem_of_fmap)%list_elem_of_fmap (x' & E & (r' & -> & _)%list_elem_of_fmap)%list_elem_of_fmap.
    cbn in E. injection E as E _. by apply view_inj.
  - intros v (sp & u & Hu & ->)%Commands.elem_of_snapshot. rewrite <-list_fmap_compose.
    apply NoDup_fmap_2_strong; [| eapply NoDup_fmap_1, NoDup_addrs]. intros r r' Hr Hr' E. cbn in E. injection E as E.
    apply elem_of_reals in Hr as (a & mb & Hm & ->), Hr' as (a' & mb' & Hm' & ->). cbn in E.
    apply Commands.ipv4_inj in E as <-; [congruence | exact (proj1 (ty_real _ Hty _ _ _ _ Hu Hm)) | exact (proj1 (ty_real _ Hty _ _ _ _ Hu Hm'))].
Qed.

Lemma blocks_distinct entries mode : NoDup (metrics_blocks m (snapshot s) entries mode ≫= block_series).*1.
Proof.
  apply series_distinct.
  - unfold metrics_blocks. rewrite fmap_app, <-list_fmap_compose. apply (bool_decide_unpack _). vm_compute. exact I.
  - unfold metrics_blocks. apply Forall_app. split.
    + apply Forall_fmap, Forall_true. intros p. apply vip_series.
    + repeat (apply Forall_cons; split); cbn [b_samples]; try apply NoDup_singleton; try by apply Forall_nil.
      * apply drop_series.
      * apply real_series.
      * apply per_real_series.
      * apply per_real_series.
      * apply vip_series.
Qed.

End distinct.

(** Closed names and texts. *)
Ltac closed_clean :=
  match goal with
  | |- clean_name _ => split; [done | done | repeat constructor | closed_clean]
  | |- no_nl _ => unfold no_nl; apply (bool_decide_unpack _); vm_compute; exact I
  end.
Ltac Forall_split := repeat (apply Forall_cons; split); [.. | by apply Forall_nil].

Lemma per_vip_clean : Forall (λ p, clean_name (pv_metric p) ∧ no_nl (§"counter" ++ pv_help p)) kPerVip.
Proof. Forall_split; (split; closed_clean). Qed.

Definition sample_ok (x : labels * Z) : Prop := Forall clean_label x.1 ∧ is_u 64 x.2.

Lemma blocks_clean s m entries mode :
  typed s → is_u 64 entries → Forall clean_block (metrics_blocks m (snapshot s) entries mode).
Proof.
  intros Hty He. pose proof (view_valid s Hty) as Hv.
  assert (∀ n t h l, clean_name n → no_nl (t ++ h) → Forall sample_ok l → clean_block (mk_block n t h l)) as Hb by done.
  assert (∀ (f : VipView → labels * Z), (∀ v, v ∈ snapshot s → Forall clean_label (f v).1 ∧ is_u 64 (f v).2) →
    Forall sample_ok (f <$> snapshot s)) as Hf by (intros f H; by apply Forall_fmap, Forall_forall).
  assert (∀ (value : RealView → Z), (∀ v r, v ∈ snapshot s → r ∈ vw_reals v → is_u 64 (value r)) →
    Forall sample_ok (per_real_samples (snapshot s) value)) as Hr.
  { intros value H. apply Forall_forall. intros x (v & (r & -> & Hin)%list_elem_of_fmap & Hvin)%list_elem_of_bind.
    split; [Forall_split; [by apply clean_vip_l, Hv | apply clean_real_l] | by eapply H]. }
  unfold metrics_blocks. apply Forall_app. split.
  - apply Forall_fmap. eapply Forall_impl; [apply per_vip_clean |]. intros p [Hn Ht]. apply Hb; [done | done |].
    apply Hf. intros v Hin. split; [Forall_split; by apply clean_vip_l, Hv | apply cnt_u64].
  - Forall_split; (apply Hb; [closed_clean | closed_clean |]).
    + apply Forall_singleton. split; [by apply Forall_nil | apply cnt_u64].
    + apply Forall_forall. intros x (d & Hx & Hd)%list_elem_of_bind. pose proof (proj1 (Forall_forall _ _) clean_drops d Hd) as Hcd.
      apply elem_of_cons in Hx as [-> | (v & -> & Hin)%list_elem_of_fmap]; (split; [| apply cnt_u64]); Forall_split; try apply Hcd.
      * split; [repeat constructor | repeat constructor | closed_clean].
      * by apply clean_vip_l, Hv.
    + apply Forall_fmap, Forall_true. intros id. split; [Forall_split; apply clean_real_l | apply real_packets_u64].
    + apply Hr. intros v r _ _. destruct (rv_up r); unfold is_u; cbn; lia.
    + apply Hr. intros v r (sp & u & Hu & ->)%Commands.elem_of_snapshot (a & mb & Hm & ->)%elem_of_reals. by apply (ty_real _ Hty sp u a).
    + apply Hf. intros v Hin. split; [Forall_split; by apply clean_vip_l, Hv |].
      apply Commands.elem_of_snapshot in Hin as (sp & u & Hu & ->). by apply (ty_vip _ Hty sp u).
    + apply Forall_singleton. by split; [apply Forall_nil |].
    + apply Forall_singleton. split; [| unfold is_u; cbn; lia]. apply Forall_singleton.
      destruct mode; (split; [repeat constructor | repeat constructor | closed_clean]).
Qed.

(** ** Theorem *)

(** The series that must be there: every VIP's counters are the sums over the
    CPUs of its slot of the kernel map, drops are listed by reason for each VIP and
    for packets of no VIP, and every real of every VIP has its health and weight,
    and once its packets. *)
Record reported (s : LbState.t) (m : Maps) (entries : Z) (mode : Config.XdpMode) (l : list (series * Z)) : Prop := {
  rep_vip : ∀ spec v p, vips_ s !! spec = Some v → p ∈ kPerVip →
    ((pv_metric p, [(§"vip", VipSpec.to_str spec)]), Counters.cnt (pv_counter p) (total m (v_id v))) ∈ l;
  rep_drop : ∀ spec v d, vips_ s !! spec = Some v → d ∈ kDrops →
    ((§"pb_drops_total", [(§"vip", VipSpec.to_str spec); (§"reason", dr_reason d)]), Counters.cnt (dr_counter d) (total m (v_id v))) ∈ l;
  rep_drop_global : ∀ d, d ∈ kDrops →
    ((§"pb_drops_total", [(§"vip", §"global"); (§"reason", dr_reason d)]), Counters.cnt (dr_counter d) (total m PB_STATS_GLOBAL)) ∈ l;
  rep_pass : ((§"pb_pass_total", []), Counters.cnt PB_CNT_PASS (total m PB_STATS_GLOBAL)) ∈ l;
  rep_generation : ∀ spec v, vips_ s !! spec = Some v → ((§"pb_ring_generation", [(§"vip", VipSpec.to_str spec)]), v_generation v) ∈ l;
  rep_member : ∀ spec v a mb, vips_ s !! spec = Some v → v_members v !! a = Some mb →
    ((§"pb_real_up", [(§"vip", VipSpec.to_str spec); (§"real", VipSpec.ipv4_to_string a)]), Z.b2z (m_up mb)) ∈ l ∧
    ((§"pb_real_weight", [(§"vip", VipSpec.to_str spec); (§"real", VipSpec.ipv4_to_string a)]), m_weight mb) ∈ l ∧
    ∃ id, RealTable.by_addr (reals_ s) !! a = Some id ∧
      ((§"pb_real_packets_total", [(§"real", VipSpec.ipv4_to_string a)]), rs_packets (real_total m id)) ∈ l;
  rep_entries : ((§"pb_conntrack_entries", []), entries) ∈ l;
  rep_mode : ((§"pb_xdp_mode", [(§"mode", Config.xdp_mode_name mode)]), 1) ∈ l
}.

Lemma elem_of_series bs b ls v : b ∈ bs → (ls, v) ∈ b_samples b → ((b_name b, ls), v) ∈ bs ≫= block_series.
Proof. intros Hb Hx. apply list_elem_of_bind. exists b. split; [| done]. apply list_elem_of_fmap. by exists (ls, v). Qed.

Lemma elem_of_per_real s spec v a mb value :
  vips_ s !! spec = Some v → v_members v !! a = Some mb →
  ([(§"vip", VipSpec.to_str spec); (§"real", VipSpec.ipv4_to_string a)], value (view_of s (v_spec v) a mb)) ∈ per_real_samples (snapshot s) value.
Proof.
  intros Hv Hm. apply list_elem_of_bind. exists (vip_view s spec v). split; [| apply Commands.elem_of_snapshot; eauto].
  apply list_elem_of_fmap. exists (view_of s (v_spec v) a mb). split; [done |]. apply elem_of_reals. eauto.
Qed.

(** The block of a family of the second part. *)
Tactic Notation "nth_block" int_or_var(i) :=
  eapply (elem_of_series _ (mk_block _ _ _ _)); [apply elem_of_app; right; do i apply list_elem_of_further; apply list_elem_of_here |].

Lemma blocks_report s m entries mode : LbInv.inv s m → reported s m entries mode (metrics_blocks m (snapshot s) entries mode ≫= block_series).
Proof.
  intros Hi.
  assert (∀ spec v, vips_ s !! spec = Some v → vip_view s spec v ∈ snapshot s) as Hin by (intros; apply Commands.elem_of_snapshot; eauto).
  split.
  - intros spec v p Hv Hp. apply (elem_of_series _ (per_vip_block m (snapshot s) p)); [apply elem_of_app; left; by apply list_elem_of_fmap_2 |].
    apply list_elem_of_fmap. exists (vip_view s spec v). split; [done | by apply Hin].
  - intros spec v d Hv Hd. nth_block 1. apply list_elem_of_bind. exists d. split; [| done]. apply list_elem_of_further, list_elem_of_fmap.
    exists (vip_view s spec v). split; [done | by apply Hin].
  - intros d Hd. nth_block 1. apply list_elem_of_bind. exists d. split; [apply list_elem_of_here | done].
  - nth_block 0. apply list_elem_of_here.
  - intros spec v Hv. nth_block 5. apply list_elem_of_fmap. exists (vip_view s spec v). split; [done | by apply Hin].
  - intros spec v a mb Hv Hm. split_and!.
    + nth_block 3. by apply (elem_of_per_real s spec v a mb (λ r, Z.b2z (rv_up r))).
    + nth_block 4. by apply (elem_of_per_real s spec v a mb rv_weight).
    + destruct (LbInv.member_id _ _ _ _ _ spec v a Hi Hv ltac:(eauto)) as [id Hid]. exists id. split; [done |].
      assert (seen_reals (snapshot s) !! id = Some a) as Es by (apply (seen_spec _ _ _ _ Hi); eauto).
      nth_block 2. apply list_elem_of_fmap. exists id. split; [unfold real_sample; by rewrite Es | apply LbInv.elem_of_addr_keys; eauto].
  - nth_block 6. apply list_elem_of_here.
  - nth_block 7. apply list_elem_of_here.
Qed.

(** C24: the exposition tells the truth, and can be read. In every state the
    invariant allows, while no bpf call fails, a scrape changes nothing, the text
    reads back as a list of samples in which no series occurs twice, and the list
    has, for every VIP, real and reason, the value the kernel maps and the model
    have for it. *)
Theorem metrics_exact (ct_max_entries : Z) (answers : list answer) (mode : Config.XdpMode) (w : World LbState.t) :
  LbInv.inv (obj w) (km w) → typed (obj w) → calm w → is_u 32 ct_max_entries →
  ∃ text w' l, render_metrics ct_max_entries answers mode w = (Ok text, w') ∧ Commands.same_world w w' ∧
    scrape text = Some l ∧ NoDup l.*1 ∧ reported (obj w) (km w) (conntrack_entries ct_max_entries answers) mode l.
Proof.
  intros Hi Hty Hc Hu. destruct (render_run ct_max_entries answers mode w Hc) as (w' & Hr & Hs). do 3 eexists. split; [exact Hr |].
  assert (is_u 64 (conntrack_entries ct_max_entries answers)) as He.
  { unfold conntrack_entries. rewrite count_keys_spec, length_take. unfold is_u in *. lia. }
  split_and!; [done | by apply scrape_blocks, blocks_clean | by apply blocks_distinct | by apply blocks_report].
Qed.

(** ** Witness *)

Lemma metrics_exact_witness :
  ∃ text w' l, render_metrics 16 [] Config.Native (two_world table7 false) = (Ok text, w') ∧ scrape text = Some l ∧
    ((§"pb_real_weight", [(§"vip", §"10.0.0.100:80/tcp"); (§"real", §"10.0.0.7")]), 1) ∈ l.
Proof.
  destruct table7_ok as (T1 & T2 & T3 & T4).
  destruct (metrics_exact 16 [] Config.Native (two_world table7 false)) as (text & w' & l & Hr & _ & Hs & _ & Hl).
  - exact (two_inv table7 1 false T1 T2 T3 (λ H, False_ind _ (diff_false_true H))).
  - split.
    + intros spec v [[-> ->] | [-> ->]]%two_lookup; (split; [repeat split; try discriminate; try (left; reflexivity) | split; [discriminate | reflexivity]]).
    + intros spec v a mb [[-> ->] | [-> ->]]%two_lookup Hm; cbn [v_members] in Hm; [| rewrite lookup_empty in Hm; discriminate Hm].
      apply lookup_singleton_Some in Hm as [<- <-]. repeat split; discriminate.
  - apply Forall_nil. exact I.
  - repeat split; discriminate.
  - exists text, w', l. split; [exact Hr |]. split; [exact Hs |].
    apply (rep_member _ _ _ _ _ Hl vip80 (mk_vip vip80 0 0 1 {[ real7 := member7 false ]}) real7 (member7 false)); [apply lookup_insert_eq | apply lookup_singleton_eq].
Defined.

End Metrics.
