(* ===== verification/MetricsServer.v ===== *)
(** * The metrics endpoint (src/daemon/metrics_server.cpp)

    A small HTTP server: it reads one request, looks at its first line and writes
    one response. The socket is a list of chunks, one per recv that returns data
    (the end of the list is a recv that times out, fails or finds the peer gone),
    and a list of the numbers of bytes that send takes. *)

From Stdlib Require Import ZArith Lia Ascii String.
From S2P Require Import Prelude Abi VipSpec Control RealTable Config ApiServer LbState LbInv LbTheorems Commands Reader Libc Metrics.

Module MetricsServer.
Import ApiServer.

(** ** Where to listen *)

Definition bad_listen (listen : str) : exn := runtime_error (§"bad metrics.listen: " ++ listen).

(** The address and the port, in network order. *)
Definition listen_addr (listen : str) : result (Z * Z) :=
  match VipSpec.rfind ":"%char listen with
  | None => Throw (runtime_error (§"metrics.listen must be ADDR:PORT: " ++ listen))
  | Some colon =>
      match (a ← VipSpec.parse_ipv4 (take colon listen);
             port ← Libc.stoi (drop (colon + 1) listen);
             if (port <? 1) || (65535 <? port) then Throw (invalid_argument §"port") else Ok (a, VipSpec.port_to_be (u16 port))) with
      | Ok x => Ok x
      | Throw _ => Throw (bad_listen listen)
      end
  end.

(** ** A request *)

(** req.find(p) != npos *)
Fixpoint has (p s : str) : bool :=
  Libc.starts_with p s || match s with [] => false | _ :: s => has p s end.

Definition kMaxRequest : nat := Z.to_nat 8192.

(** The loop's condition is over. *)
Definition complete (req : str) : bool := has [cr; nl; cr; nl] req || has [nl; nl] req || (kMaxRequest <=? length req)%nat.

(** What is read, and the number of recv calls. *)
Fixpoint read_request (recvs : list str) (req : str) : str * nat :=
  if complete req then (req, O) else
  match recvs with
  | [] => (req, 1%nat)
  | chunk :: recvs => let '(r, n) := read_request recvs (req ++ chunk) in (r, S n)
  end.

(** req.substr(0, req.find_first_of("\r\n")) *)
Definition first_line (req : str) : str := (Metrics.span (λ c, negb (bool_decide (c = cr)) && negb (bool_decide (c = nl))) req).1.

Definition is_metrics (line : str) : bool :=
  Libc.starts_with §"GET /metrics " line || bool_decide (line = §"GET /metrics") || Libc.starts_with §"GET /metrics?" line.

(** ** The response *)

Definition crlf : str := [cr; nl].

Definition http (status body : str) : str :=
  §"HTTP/1.0 " ++ status ++ crlf ++ §"Content-Type: text/plain; version=0.0.4; charset=utf-8" ++ crlf ++
  §"Content-Length: " ++ VipSpec.to_string (Z.of_nat (length body)) ++ crlf ++ §"Connection: close" ++ crlf ++ crlf ++ body.

(** Until everything is sent or a send fails. *)
Fixpoint send_all (sends : list nat) (resp : str) : str :=
  match resp, sends with
  | [], _ | _, [] | _, O :: _ => []
  | _, n :: sends => take n resp ++ send_all sends (drop n resp)
  end.

Section serve.
Context {W : Type} (render : W → result str * W).

Definition respond (line : str) (w : W) : str * W :=
  if is_metrics line then
    match render w with
    | (Ok body, w) => (http §"200 OK" body, w)
    | (Throw ex, w) => (http §"500 Internal Server Error" (Commands.what ex ++ [nl]), w)
    end
  else (http §"404 Not Found" (§"not found; try /metrics" ++ [nl]), w).

Definition serve (recvs : list str) (sends : list nat) (w : W) : str * W :=
  let '(req, _) := read_request recvs [] in
  let '(resp, w) := respond (first_line req) w in
  (send_all sends resp, w).

End serve.

(** ** Lemmas: reading *)

Definition eol (c : ascii) : bool := bool_decide (c = cr) || bool_decide (c = nl).

Lemma read_prefix recvs req :
  let '(r, n) := read_request recvs req in
  ∃ k, r = req ++ mjoin (take k recvs) ∧ (k <= n <= S k)%nat ∧ (complete r = true ∨ (length recvs <= k)%nat).
Proof.
  revert req. induction recvs as [| c recvs IH]; intros req; cbn [read_request].
  - destruct (complete req) eqn:E; exists O; cbn; rewrite app_nil_r; split_and!; auto; lia.
  - destruct (complete req) eqn:E; [exists O; cbn; rewrite app_nil_r; split_and!; auto; lia |].
    specialize (IH (req ++ c)). destruct (read_request recvs (req ++ c)) as [r n]. destruct IH as (k & -> & Hn & H).
    exists (S k). cbn. rewrite app_assoc. split_and!; [done | lia | lia |]. destruct H as [H | H]; [by left | right; lia].
Qed.

Lemma has_elem p s c : has p s = true → c ∈ p → c ∈ s.
Proof.
  induction s as [| d s IH]; cbn [has]; intros H Hc.
  - rewrite orb_false_r in H. apply Libc.starts_with_spec, prefix_nil_inv in H as ->. done.
  - apply orb_true_iff in H as [[r E]%Libc.starts_with_spec | H]; [rewrite E; apply elem_of_app; by left | apply list_elem_of_further; auto].
Qed.

Lemma first_line_app line c rest :
  Forall (λ x, eol x = false) line → eol c = true → first_line (line ++ c :: rest) = line.
Proof.
  intros Hl Hc. unfold first_line. rewrite Metrics.span_app; [done | |].
  - eapply Forall_impl; [exact Hl |]. intros x Hx. unfold eol in Hx. by apply orb_false_iff in Hx as [-> ->].
  - unfold eol in Hc. apply orb_true_iff in Hc as [-> | ->]; [done | apply andb_false_r].
Qed.

(** The first line is found however the stream is cut. *)
Lemma first_line_read recvs line c rest :
  mjoin recvs = line ++ c :: rest → Forall (λ x, eol x = false) line → eol c = true → (length line < kMaxRequest)%nat →
  first_line (read_request recvs []).1 = line.
Proof.
  intros Hj Hl Hc Hlen. pose proof (read_prefix recvs []) as H. destruct (read_request recvs []) as [r n]. destruct H as (k & -> & _ & H). cbn [fst app].
  assert (mjoin (take k recvs) `prefix_of` line ++ c :: rest) as Hp.
  { rewrite <-Hj. exists (mjoin (drop k recvs)). by rewrite <-join_app, take_drop. }
  assert (length line < length (mjoin (take k recvs)))%nat as Hlong.
  { destruct H as [H | H]; [| rewrite take_ge, Hj, length_app by done; cbn; lia]. cbn [app] in H.
    destruct (decide (length line < length (mjoin (take k recvs)))%nat) as [| Hge]; [done | exfalso].
    assert (mjoin (take k recvs) `prefix_of` line) as [t Et].
    { destruct (prefix_weak_total _ line _ Hp ltac:(by eexists)) as [? | [u E]]; [done |].
      rewrite E, length_app in Hge. destruct u; [| cbn in Hge; lia]. rewrite E, app_nil_r. done. }
    assert (∀ x, x ∈ mjoin (take k recvs) → eol x = false) as Hno.
    { intros x Hx. rewrite Forall_forall in Hl. apply Hl. rewrite Et. apply elem_of_app. by left. }
    unfold complete in H. apply orb_true_iff in H as [H | H%Nat.leb_le]; [| lia].
    apply orb_true_iff in H as [H | H]; apply (has_elem _ _ nl) in H; [| set_solver | | set_solver]; by apply Hno in H. }
  destruct Hp as [t Et]. apply (f_equal (take (S (length line)))) in Et as Et1.
  rewrite (take_app_le (mjoin _)) in Et1 by lia. 
  replace (mjoin (take k recvs)) with (line ++ c :: drop (S (length line)) (mjoin (take k recvs))); [by apply first_line_app |].
  rewrite <-(take_drop (S (length line)) (mjoin (take k recvs))) at 2. rewrite <-Et1.
  rewrite take_app_ge by lia. replace (S (length line) - length line)%nat with 1%nat by lia. cbn. by rewrite <-app_assoc.
Qed.

(** ** Lemmas: sending and bounds *)

Lemma send_all_ok sends resp : Forall (λ n, (0 < n)%nat) sends → (length resp <= length sends)%nat → send_all sends resp = resp.
Proof.
  intros H. revert resp. induction H as [| n sends Hn _ IH]; intros resp Hl; [by destruct resp; [| cbn in Hl; lia] |].
  destruct resp as [| c resp]; [done |]. destruct n as [| n]; [lia |]. cbn [send_all]. rewrite IH; [apply take_drop |].
  rewrite length_drop. cbn in Hl |- *. lia.
Qed.

Lemma send_all_prefix sends resp : send_all sends resp `prefix_of` resp.
Proof.
  revert resp. induction sends as [| n sends IH]; intros resp; [destruct resp; apply prefix_nil |].
  destruct resp as [| c resp]; [apply prefix_nil |]. destruct n as [| n]; [apply prefix_nil |]. cbn [send_all].
  destruct (IH (drop (S n) (c :: resp))) as [k Hk]. exists k. by rewrite <-app_assoc, <-Hk, take_drop.
Qed.

Lemma read_bound recvs req :
  Forall (λ c, (1 <= length c <= 1024)%nat) recvs → (length req < kMaxRequest + 1024)%nat →
  let '(r, n) := read_request recvs req in (length r < kMaxRequest + 1024)%nat ∧ (n <= S (kMaxRequest - length req))%nat.
Proof.
  intros H. revert req. induction H as [| c recvs Hc _ IH]; intros req Hr; cbn [read_request].
  - destruct (complete req); lia.
  - destruct (complete req) eqn:E; [lia |]. unfold complete in E. apply orb_false_iff in E as [_ E%Nat.leb_gt].
    specialize (IH (req ++ c)). rewrite length_app in IH. destruct (read_request recvs (req ++ c)) as [r n]. destruct IH as [H1 H2]; lia.
Qed.

Lemma has_replicate p k x : (∃ c, c ∈ p ∧ c ≠ x) → has p (replicate k x) = false.
Proof.
  intros (c & Hc & Hne). destruct (has p (replicate k x)) eqn:E; [| done]. apply (has_elem _ _ c) in E; [| done].
  by apply elem_of_replicate in E as [-> _].
Qed.

#[local] Opaque kMaxRequest.

(** One byte at a time. *)
Lemma read_trickle x j k :
  x ≠ nl → (k + j = kMaxRequest)%nat → read_request (replicate j [x]) (replicate k x) = (replicate kMaxRequest x, j).
Proof.
  intros Hx.
  assert (∀ i, complete (replicate i x) = (kMaxRequest <=? i)%nat) as Hc.
  { intros i. unfold complete. rewrite length_replicate. rewrite !has_replicate; [done | |].
    - exists nl. split; [apply list_elem_of_here | by apply not_eq_sym].
    - exists nl. split; [apply list_elem_of_further, list_elem_of_here | by apply not_eq_sym]. }
  revert k. induction j as [| j IH]; intros k E; cbn [replicate read_request]; rewrite Hc.
  - rewrite (proj2 (Nat.leb_le _ _)) by lia. by replace k with kMaxRequest by lia.
  - rewrite (proj2 (Nat.leb_gt _ _)) by lia.
    replace (replicate k x ++ [x]) with (replicate (S k) x) by apply replicate_S_end. by rewrite IH by lia.
Qed.

#[local] Transparent kMaxRequest.

(** ** Theorems *)


(** A request cannot fill the memory or hold the thread forever: with the
    kernel's promise that recv returns between 1 and 1024 bytes, fewer than 9216
    bytes are kept and recv is called at most 8193 times, whatever is sent. *)
Theorem request_bounded (recvs : list str) :
  Forall (λ c, (1 <= length c <= 1024)%nat) recvs →
  let '(r, n) := read_request recvs [] in Z.of_nat (length r) < 9216 ∧ Z.of_nat n <= 8193.
Proof.
  intros H. pose proof (read_bound recvs [] H) as Hb. unfold kMaxRequest in Hb. destruct (read_request recvs []) as [r n].
  destruct Hb as [H1 H2]; cbn [length] in *; lia.
Qed.

(** But a slow client can hold the only metrics thread for long: one that sends
    a byte at a time, each just before the 2 s timeout of recv, makes the loop call
    recv 8192 times, which is more than four and a half hours, in which no other
    scrape is served. *)
Theorem slow_client_holds_thread (x : ascii) :
  x ≠ nl → (read_request (replicate kMaxRequest [x]) []).2 = kMaxRequest ∧ 2 * Z.of_nat kMaxRequest > 4 * 3600 + 1800.
Proof. intros Hx. pose proof (read_trickle x kMaxRequest 0 Hx eq_refl) as H. change (replicate 0 x) with (@nil ascii) in H. rewrite H. split; [reflexivity |]. unfold kMaxRequest. lia. Qed.

(** An address and a port are read back from the form they are written in, and
    what is accepted is an address and a port in range, in network order. *)
Theorem listen_roundtrip (a port : Z) (listen : str) :
  is_u 32 a → 1 <= port <= 65535 →
  listen_addr (VipSpec.ipv4_to_string a ++ §":" ++ VipSpec.to_string port) = Ok (a, VipSpec.port_to_be port) ∧
  (∀ x, listen_addr listen = Ok x → is_u 32 x.1 ∧ ∃ p, 1 <= p <= 65535 ∧ x.2 = VipSpec.port_to_be p).
Proof.
  intros Ha Hp. split.
  - unfold listen_addr. change (§":" ++ ?x) with (":"%char :: x).
    destruct (VipSpec.to_string_spec port 5) as (Hd & _); [lia | lia |].
    rewrite VipSpec.rfind_app by (by apply VipSpec.digits_not_elem). rewrite take_app_length, VipSpec.parse_ipv4_ipv4_to_string by done.
    cbn [mbind result_bind]. rewrite drop_app_add. change (drop 1 (":"%char :: ?x)) with x.
    rewrite <-(app_nil_r (VipSpec.to_string port)), Libc.stoi_dec by (lia || done). cbn [mbind result_bind].
    replace ((port <? 1) || (65535 <? port)) with false by lia. by rewrite u16_id by (unfold is_u; lia).
  - intros x. unfold listen_addr. destruct (VipSpec.rfind ":" listen) as [colon |]; [| done].
    destruct (VipSpec.parse_ipv4 (take colon listen)) as [b |] eqn:Eb; [| done]. cbn [mbind result_bind].
    destruct (Libc.stoi (drop (colon + 1) listen)) as [p |]; [| done]. cbn [mbind result_bind].
    destruct ((p <? 1) || (65535 <? p)) eqn:E; [done |]. intros [= <-]. split; [by eapply VipSpec.parse_ipv4_range |].
    exists p. split; [lia |]. by rewrite u16_id by (unfold is_u; lia).
Qed.

(** ** Witnesses *)


Lemma request_bounded_witness :
  let '(r, n) := read_request [§"GET"; §" / x"] [] in Z.of_nat (length r) < 9216 ∧ Z.of_nat n <= 8193.
Proof. apply (request_bounded [§"GET"; §" / x"]). repeat constructor; cbn; lia. Defined.

Lemma slow_client_holds_thread_witness : (read_request (replicate kMaxRequest ["x"%char]) []).2 = kMaxRequest.
Proof. apply (slow_client_holds_thread "x"%char). discriminate. Defined.

Lemma listen_roundtrip_witness :
  listen_addr §"127.0.0.1:9101" = Ok (0x0100007f, 0x8d23).
Proof. apply (listen_roundtrip 0x0100007f 9101 []); [unfold is_u; split; [discriminate | reflexivity] | split; discriminate]. Defined.

End MetricsServer.
