(* ===== verification/Run.v ===== *)
(** * The daemon from start to exit (src/daemon/main.cpp, Daemon::run)

    What main leaves on the machine, whatever the sockets say: the threads that
    were started and stopped, the file of the API socket, the pinned maps and the
    program on the interface. *)

From Stdlib Require Import ZArith Lia Ascii String.
From S2P Require Import Prelude Abi Control RealTable Config ConfigFile LbState LbInv LbProps LbTheorems LbApply LbBoot Libc Loader MetricsServer Daemon.

Module Run.

(** ** State *)

Inductive Thread : Type := Neighbors | Health | Acceptor | MetricsLoop.

#[export] Instance thread_eq_dec : EqDecision Thread.
Proof. solve_decision. Defined.

(** The file at the path of the API socket: left there by another process, or bound
    by this one. *)
Inductive SocketFile : Type := Theirs | Ours.

Record Sys := mk_sys {
  threads : list Thread;
  socket_file : option SocketFile;
  listen_fd_ : bool;
  pins : Loader.Pins;
  iface : Loader.Iface
}.

Definition set_threads (f : list Thread → list Thread) (s : Sys) : Sys := mk_sys (f (threads s)) (socket_file s) (listen_fd_ s) (pins s) (iface s).
Definition set_socket (o : option SocketFile) (s : Sys) : Sys := mk_sys (threads s) o (listen_fd_ s) (pins s) (iface s).
Definition set_listen (b : bool) (s : Sys) : Sys := mk_sys (threads s) (socket_file s) b (pins s) (iface s).

(** What the socket calls say, with the text of errno where they fail. *)
Record NetEnv := mk_net {
  ne_live : bool;                  (* the connect of socket_is_live works *)
  ne_socket : option str;
  ne_bind : option str;
  ne_listen : option str;
  ne_metrics : option str          (* bind and listen of the metrics server *)
}.

(** ** Threads *)

Definition spawn (t : Thread) : Sys → Sys := set_threads (λ l, l ++ [t]).

(** stop() asks the thread to end and joins it, where it was started. *)
Definition join (t : Thread) : Sys → Sys := set_threads (filter (λ u, u ≠ t)).

(** ** The API server *)

(** sizeof sockaddr_un::sun_path *)
Definition kSunPath : nat := 108.

Definition unix_address (path : str) : result unit :=
  if (kSunPath <=? length path)%nat then Throw (runtime_error (§"socket path too long: " ++ path)) else Ok ().

Definition api_start (ne : NetEnv) (path : str) (s : Sys) : result unit * Sys :=
  match unix_address path with
  | Throw ex => (Throw ex, s)
  | Ok _ =>
      if ne_live ne then (Throw (runtime_error (§"another daemon is serving " ++ path ++ §"; refusing to take it over")), s) else
      let s := set_socket None s in
      match ne_socket ne with
      | Some err => (Throw (runtime_error (§"api socket: " ++ err)), set_listen false s)
      | None =>
          let s := set_listen true s in
          match ne_bind ne with
          | Some err => (Throw (runtime_error (§"bind " ++ path ++ §": " ++ err)), s)
          | None =>
              let s := set_socket (Some Ours) s in
              match ne_listen ne with
              | Some err => (Throw (runtime_error (§"listen " ++ path ++ §": " ++ err)), s)
              | None => (Ok (), spawn Acceptor s)
              end
          end
      end
  end.

(** Joining the acceptor and the connections; a second call finds nothing to do. *)
Definition api_stop (s : Sys) : Sys :=
  let s := join Acceptor s in
  let s := if listen_fd_ s then set_socket None s else s in
  set_listen false s.

(** ** The metrics server *)

Definition metrics_start (ne : NetEnv) (listen : str) (s : Sys) : result unit * Sys :=
  match MetricsServer.listen_addr listen with
  | Throw ex => (Throw ex, s)
  | Ok _ =>
      match ne_metrics ne with
      | Some err => (Throw (runtime_error (§"metrics: bind " ++ listen ++ §": " ++ err)), s)
      | None => (Ok (), spawn MetricsLoop s)
      end
  end.

(** ** The daemon *)

(** Daemon::run, up to and after the loop that waits for the signal. *)
Definition run (ne : NetEnv) (le : Loader.LoadEnv) (d : Daemon.t) (mode : Config.XdpMode) (s : Sys) : result unit * Sys :=
  let cfg := Daemon.config_ d in
  let s := spawn Neighbors s in
  let s := if Config.hc_enabled (Config.health cfg) then spawn Health s else s in
  match api_start ne (Config.socket cfg) s with
  | (Throw ex, s) => (Throw ex, s)
  | (Ok _, s) =>
      match metrics_start ne (Config.metrics_listen cfg) s with
      | (Throw ex, s) => (Throw ex, s)
      | (Ok _, s) =>
          let s := join Neighbors (join Health (api_stop (join MetricsLoop s))) in
          if Daemon.o_detach_on_exit (Daemon.opts_ d) then
            let '(p, f) := Loader.detach_and_unpin le mode (pins s) (iface s) in
            (Ok (), mk_sys (threads s) (socket_file s) (listen_fd_ s) p f)
          else (Ok (), s)
      end
  end.

(** The destructors of the members, the last one first. *)
Definition destroy (s : Sys) : Sys := join Neighbors (join Health (api_stop (join MetricsLoop s))).

(** The exit code, what is left, and the maps with the state behind them after the
    constructor. *)
Definition main `{Y : Yaml} (read : str → option str) (ne : NetEnv) (le : Loader.LoadEnv) (e : CEnv) (opts : Daemon.Options)
    (maps : list (str * Loader.MapInfo)) (sock : option SocketFile) (p : Loader.Pins) (f : Loader.Iface) (m : Maps) (sys : list Z)
    : Z * Sys * World LbState.t :=
  let st := Daemon.start read le e opts maps p f m sys in
  let s := mk_sys [] sock false (Daemon.st_pins st) (Daemon.st_iface st) in
  match Daemon.st_result st with
  | Throw _ => (1, s, Daemon.st_world st)
  | Ok (d, mode) =>
      let '(r, s) := run ne le d mode s in
      (match r with Ok _ => 0 | Throw _ => 1 end, destroy s, Daemon.st_world st)
  end.

(** ** Lemmas *)

Lemma joined_all (l : list Thread) :
  filter (λ u, u ≠ Neighbors) (filter (λ u, u ≠ Health) (filter (λ u, u ≠ Acceptor) (filter (λ u, u ≠ MetricsLoop) l))) = [].
Proof. induction l as [| [] l IH]; cbn; auto. Qed.

Lemma threads_api_stop s : threads (api_stop s) = filter (λ u, u ≠ Acceptor) (threads s).
Proof. unfold api_stop. by destruct (listen_fd_ (join Acceptor s)). Qed.

(** Stopping everything: no thread is left, and a socket that was made is gone. *)
Lemma destroy_spec s :
  threads (destroy s) = [] ∧ listen_fd_ (destroy s) = false ∧ pins (destroy s) = pins s ∧ iface (destroy s) = iface s ∧
  socket_file (destroy s) = (if listen_fd_ s then None else socket_file s).
Proof.
  split_and!; try (unfold destroy, api_stop; cbn; by destruct (listen_fd_ s)).
  change (filter (λ u, u ≠ Neighbors) (filter (λ u, u ≠ Health) (threads (api_stop (join MetricsLoop s)))) = []).
  rewrite threads_api_stop. apply joined_all.
Qed.

(** api_start leaves a file of its own only with the listening socket. *)
Lemma api_start_spec ne path s r s' :
  api_start ne path s = (r, s') → socket_file s ≠ Some Ours → listen_fd_ s = false →
  pins s' = pins s ∧ iface s' = iface s ∧ (socket_file s' = Some Ours → listen_fd_ s' = true) ∧
  (r = Ok () → socket_file s' = Some Ours) ∧ (ne_live ne = true → socket_file s' = socket_file s ∧ listen_fd_ s' = false ∧ r ≠ Ok ()).
Proof.
  unfold api_start. intros H Hs Hl. destruct (unix_address path); [| by injection H as <- <-].
  destruct (ne_live ne); [by injection H as <- <- |].
  destruct (ne_socket ne), (ne_bind ne), (ne_listen ne); injection H as <- <-; cbn; split_and!; try done.
Qed.

Lemma metrics_start_spec ne listen s r s' :
  metrics_start ne listen s = (r, s') → pins s' = pins s ∧ iface s' = iface s ∧ socket_file s' = socket_file s ∧ listen_fd_ s' = listen_fd_ s.
Proof. unfold metrics_start. intros H. destruct (MetricsServer.listen_addr listen), (ne_metrics ne); by injection H as <- <-. Qed.

(** What run has done when it returns or throws. *)
Lemma run_spec ne le d mode s r s' :
  run ne le d mode s = (r, s') → socket_file s ≠ Some Ours → listen_fd_ s = false →
  (socket_file (destroy s') ≠ Some Ours) ∧ (ne_live ne = true → socket_file (destroy s') = socket_file s ∧ r ≠ Ok ()) ∧
  (r = Ok () → socket_file (destroy s') = None) ∧
  (pins s', iface s') = match r with
    | Ok _ => if Daemon.o_detach_on_exit (Daemon.opts_ d) then Loader.detach_and_unpin le mode (pins s) (iface s) else (pins s, iface s)
    | Throw _ => (pins s, iface s)
    end.
Proof.
  unfold run. intros H Hs Hl. set (s1 := if Config.hc_enabled _ then spawn Health _ else spawn Neighbors s) in H.
  assert (socket_file s1 = socket_file s ∧ listen_fd_ s1 = listen_fd_ s ∧ pins s1 = pins s ∧ iface s1 = iface s) as (S1 & S2 & S3 & S4)
    by (unfold s1; destruct (Config.hc_enabled _); done).
  rewrite <-S1, <-S3, <-S4 in *. rewrite <-S2 in Hl. clearbody s1. destruct (api_start ne _ s1) as [ra s2] eqn:Ea.
  destruct (api_start_spec _ _ _ _ _ Ea Hs Hl) as (A1 & A2 & A3 & A4 & A5).
  destruct ra as [[] | ex].
  2: { injection H as <- <-. destruct (destroy_spec s2) as (_ & _ & _ & _ & ->). rewrite A1, A2. split_and!; try done.
    - destruct (listen_fd_ s2) eqn:E; [done |]. intros E'. specialize (A3 E'). congruence.
    - intros Hlive. destruct (A5 Hlive) as (-> & -> & _). done. }
  specialize (A4 eq_refl). specialize (A3 A4). destruct (metrics_start ne _ s2) as [rm s3] eqn:Em.
  destruct (metrics_start_spec _ _ _ _ _ Em) as (M1 & M2 & M3 & M4). rewrite A3 in M4.
  assert (ne_live ne = true → False) as Hlive by (intros E; by destruct (A5 E) as (_ & _ & [])).
  destruct rm as [[] | ex].
  2: { injection H as <- <-. destruct (destroy_spec s3) as (_ & _ & _ & _ & ->). rewrite M4, M1, M2, A1, A2. by split_and!. }
  destruct (destroy_spec s3) as (_ & D2 & D3 & D4 & D5). unfold destroy in D2, D3, D4, D5. set (s4 := join Neighbors _) in *. rewrite M4 in D5. clearbody s4.
  assert (∀ p f, socket_file (destroy (mk_sys (threads s4) (socket_file s4) (listen_fd_ s4) p f)) = None) as Hd.
  { intros p f. destruct (destroy_spec (mk_sys (threads s4) (socket_file s4) (listen_fd_ s4) p f)) as (_ & _ & _ & _ & ->). cbn [listen_fd_ socket_file]. by rewrite D2. }
  rewrite D3, D4, M1, M2, A1, A2 in H. destruct (Daemon.o_detach_on_exit _).
  - destruct (Loader.detach_and_unpin le mode (pins s1) (iface s1)) as [p f]. injection H as <- <-. rewrite Hd. by split_and!.
  - injection H as <- <-. specialize (Hd (pins s4) (iface s4)). destruct s4. cbn in *. rewrite Hd. split_and!; try done; congruence.
Qed.

(** ** Theorems *)

(** C36: the daemon cleans up after itself on every path. However the calls
    turn out, when main returns no thread is left, its socket is gone, and the maps
    stay pinned and the program attached as the start left them, so that forwarding
    goes on, but for a clean exit with --detach-on-exit, which tears both down. A
    socket that another daemon serves is left alone, and the exit code says so. *)
Theorem main_leaves `{Y : Yaml} (read : str → option str) (ne : NetEnv) (le : Loader.LoadEnv) (e : CEnv) (opts : Daemon.Options)
    (maps : list (str * Loader.MapInfo)) (file : bool) (p : Loader.Pins) (f : Loader.Iface) (m : Maps) (sys : list Z) :
  let sock := if file then Some Theirs else None in
  let st := Daemon.start read le e opts maps p f m sys in
  let '(code, s, _) := main read ne le e opts maps sock p f m sys in
  threads s = [] ∧ listen_fd_ s = false ∧ socket_file s ≠ Some Ours ∧
  (ne_live ne = true → code = 1 ∧ socket_file s = sock) ∧
  ((code = 1 ∧ pins s = Daemon.st_pins st ∧ iface s = Daemon.st_iface st) ∨
   ∃ d mode, Daemon.st_result st = Ok (d, mode) ∧ code = 0 ∧ socket_file s = None ∧
     (pins s, iface s) = if Daemon.o_detach_on_exit (Daemon.opts_ d)
       then Loader.detach_and_unpin le mode (Daemon.st_pins st) (Daemon.st_iface st) else (Daemon.st_pins st, Daemon.st_iface st)).
Proof.
  intros sock st. unfold main. fold st. cbv zeta. assert (sock ≠ Some Ours) as Hs by (by destruct file).
  destruct (Daemon.st_result st) as [[d mode] | ex] eqn:Er; [| split_and!; try done; by left].
  destruct (run ne le d mode _) as [r s'] eqn:Ex. destruct (run_spec _ _ _ _ _ _ _ Ex Hs eq_refl) as (R1 & R2 & R3 & R4).
  destruct (destroy_spec s') as (D1 & D2 & D3 & D4 & D5). cbn [pins iface socket_file] in *. rewrite D3, D4. split_and!; try done.
  - intros Hlive. destruct (R2 Hlive) as [E Hr]. split; [by destruct r as [[] | ?] | done].
  - destruct r as [[] | ex]; [right; exists d, mode; auto | left; by injection R4 as -> ->].
Qed.

(** Maps that fit two models: the same VIPs. *)
Lemma inv_dom s s' m : LbInv.inv s m → LbInv.inv s' m → dom (LbState.vips_ s) = dom (LbState.vips_ s').
Proof.
  intros Hi Hi'. assert (∀ s s' sp, LbInv.inv s m → LbInv.inv s' m → sp ∈ dom (LbState.vips_ s) → sp ∈ dom (LbState.vips_ s')) as H.
  { clear. intros s s' sp Hi Hi' [v Hv]%elem_of_dom.
    assert (vip_map m !! VipSpec.VipSpec.key sp = Some (mk_vip_value (LbState.v_id v) (LbState.v_flags v))) as E by (apply (LbInv.i_map _ _ _ _ _ Hi); exists sp, v; by split_and!).
    apply (LbInv.i_map _ _ _ _ _ Hi') in E as (sp' & v' & Hv' & _ & ->%LbInv.key_inj & _). apply elem_of_dom. eauto. }
  apply set_eq. intros sp. split; by apply H.
Qed.

(** A second daemon on the same machine notices the first one too late. Its
    constructor has attached its program and applied its configuration to the maps
    both have pinned before it asks whether the socket is served: it exits with an
    error, having made the VIPs those of its own file, every member up and not
    draining, and unless the first daemon serves the same VIPs, its model and the
    maps no longer agree. *)
Theorem second_daemon_rewrites `{Y : Yaml} (read : str → option str) (ne : NetEnv) (le : Loader.LoadEnv) (e : CEnv) (opts : Daemon.Options)
    (maps : list (str * Loader.MapInfo)) (p : Loader.Pins) (f : Loader.Iface) (d : Daemon.t) (mode : Config.XdpMode) (mac : pb_mac)
    (s0 : LbState.t) (m : Maps) :
  Daemon.st_result (Daemon.start read le e opts maps p f m []) = Ok (d, mode) → ne_live ne = true →
  LbInv.inv s0 m → RealTable.Mac.parse (if_address e) = Some mac →
  let cfg := Daemon.config_ d in
  Z.of_nat (size (LbProps.all_reals (LbProps.abs s0) ∪ Config.all_addrs (Config.vips cfg))) <= PB_MAX_REALS - 1 →
  Z.of_nat (size (dom (LbState.vips_ s0) ∪ list_to_set (LbBoot.cfg_specs cfg))) <= PB_MAX_VIPS →
  let '(code, s, w) := main read ne le e opts maps (Some Theirs) p f m [] in
  code = 1 ∧ socket_file s = Some Theirs ∧ LbProps.abs (obj w) = LbApply.spec_apply cfg ∅ ∧ LbInv.inv (obj w) (km w) ∧
  (dom (LbState.vips_ s0) ≠ dom (LbApply.spec_apply cfg ∅) → ¬ LbInv.inv s0 (km w)).
Proof.
  intros Hst Hlive Hi Hmac cfg HB HW.
  assert (∃ w', Daemon.st_world (Daemon.start read le e opts maps p f m []) = w' ∧ LbProps.abs (obj w') = LbApply.spec_apply cfg ∅ ∧ LbInv.inv (obj w') (km w'))
    as (w' & Ew & Ha & Hi').
  { revert Hst. unfold Daemon.start. cbv zeta. destruct (Daemon.load_config read opts) as [c |] eqn:El; [| done].
    destruct (Daemon.load_config_Ok read _ _ El) as (file & _ & _ & Hval).
    destruct (Loader.load le _ maps p f) as [[[md |] p1] f1]; [| done]. destruct (LbState.apply e c _) as [[[] |] w1] eqn:Ap; [| done].
    intros [= <- <-]. cbn [Daemon.st_world]. exists w1. split; [done |].
    destruct (LbBoot.start_run e c mac (Config.interface c) s0 (mk_world (LbState.fresh (Config.interface c)) m [] []))
      as (w2 & H & Hi2 & _ & _ & _ & _ & A & _); try done; [by apply Forall_nil_2 |]. rewrite Ap in H. by injection H as <-. }
  unfold main. cbv zeta. rewrite Hst, Ew. destruct (run ne le d mode _) as [r s'] eqn:Ex.
  destruct (run_spec _ _ _ _ _ _ _ Ex) as (_ & R2 & _); [done | done |]. destruct (R2 Hlive) as [E Hr]. split_and!; try done.
  - by destruct r as [[] | ?].
  - intros Hne Hi0. apply Hne. rewrite (inv_dom _ _ _ Hi0 Hi'), <-Ha. unfold LbProps.abs. by rewrite dom_fmap_L.
Qed.

End Run.
