(* ===== verification/JsonText.v ===== *)
(** * JSON texts

    The tools write their reports with printf. [writes] is the grammar of the JSON
    texts they mean to write (no escapes in strings; numbers as they are spelled),
    [read] a reader for it that takes no other text for a value: a report is
    well-formed when it is in the grammar, and then it reads back. *)

From Stdlib Require Import ZArith Lia Ascii String.
From S2P Require Import Prelude VipSpec.

#[local] Set Warnings "-register-all".

Module JsonText.

Inductive value : Type :=
| TNum (t : str)
| TStr (s : str)
| TObj (l : list (str * value))
| TArr (l : list value).

Definition eqc (c d : ascii) : bool := bool_decide (d = c).
Definition quote : ascii := ascii_of_nat 34.
Definition newline : ascii := ascii_of_nat 10.

Definition is_ws (c : ascii) : bool := eqc " "%char c || eqc newline c.
Definition is_plain (c : ascii) : bool := negb (eqc quote c) && negb (eqc "\"%char c) && (32 <=? Z.of_nat (nat_of_ascii c)).
Definition is_num (c : ascii) : bool := VipSpec.isdigit c || eqc "."%char c || eqc "-"%char c.

(** ** The reader *)

Fixpoint span (p : ascii → bool) (s : str) : str * str :=
  match s with
  | c :: s' => if p c then let '(a, r) := span p s' in (c :: a, r) else ([], s)
  | [] => ([], [])
  end.

Definition skip (s : str) : str := (span is_ws s).2.

(** The next character after white space, where it is [c]. *)
Definition tok (c : ascii) (s : str) : option str :=
  match skip s with d :: r => if eqc c d then Some r else None | [] => None end.

Definition read_string (s : str) : option (str * str) :=
  r ← tok quote s;
  let '(t, r) := span is_plain r in
  match r with d :: r => if eqc quote d then Some (t, r) else None | [] => None end.

Fixpoint read (fuel : nat) (s : str) : option (value * str) :=
  match fuel with
  | O => None
  | S fuel =>
      match skip s with
      | [] => None
      | c :: r =>
          if eqc quote c then '(t, r) ← read_string (c :: r); Some (TStr t, r)
          else if eqc "{"%char c then
            match tok "}"%char r with
            | Some r => Some (TObj [], r)
            | None => '(l, r) ← read_members fuel r; Some (TObj l, r)
            end
          else if eqc "["%char c then
            match tok "]"%char r with
            | Some r => Some (TArr [], r)
            | None => '(l, r) ← read_items fuel r; Some (TArr l, r)
            end
          else let '(t, r) := span is_num (c :: r) in
            match t with [] => None | _ :: _ => Some (TNum t, r) end
      end
  end
with read_members (fuel : nat) (s : str) : option (list (str * value) * str) :=
  match fuel with
  | O => None
  | S fuel =>
      '(k, r) ← read_string s;
      r ← tok ":"%char r;
      '(v, r) ← read fuel r;
      match tok ","%char r with
      | Some r => '(l, r) ← read_members fuel r; Some ((k, v) :: l, r)
      | None => r ← tok "}"%char r; Some ([(k, v)], r)
      end
  end
with read_items (fuel : nat) (s : str) : option (list value * str) :=
  match fuel with
  | O => None
  | S fuel =>
      '(v, r) ← read fuel s;
      match tok ","%char r with
      | Some r => '(l, r) ← read_items fuel r; Some (v :: l, r)
      | None => r ← tok "]"%char r; Some ([v], r)
      end
  end.

(** ** The grammar *)

Definition all (p : ascii → bool) (s : str) : Prop := Forall (λ c, p c = true) s.

Definition str_text (k : str) : str := quote :: k ++ [quote].

Inductive writes : value → str → Prop :=
| w_num t : t ≠ [] → all is_num t → writes (TNum t) t
| w_str k : all is_plain k → writes (TStr k) (str_text k)
| w_obj_empty a : all is_ws a → writes (TObj []) ("{"%char :: a ++ ["}"%char])
| w_obj l s : members l s → writes (TObj l) ("{"%char :: s ++ ["}"%char])
| w_arr_empty a : all is_ws a → writes (TArr []) ("["%char :: a ++ ["]"%char])
| w_arr l s : items l s → writes (TArr l) ("["%char :: s ++ ["]"%char])
with members : list (str * value) → str → Prop :=
| m_one a k b v s c : all is_ws a → all is_plain k → all is_ws b → writes v s → all is_ws c →
    members [(k, v)] (a ++ str_text k ++ ":"%char :: b ++ s ++ c)
| m_more a k b v s c l s' : all is_ws a → all is_plain k → all is_ws b → writes v s → all is_ws c → members l s' →
    members ((k, v) :: l) (a ++ str_text k ++ ":"%char :: b ++ s ++ c ++ ","%char :: s')
with items : list value → str → Prop :=
| t_one a v s c : all is_ws a → writes v s → all is_ws c → items [v] (a ++ s ++ c)
| t_more a v s c l s' : all is_ws a → writes v s → all is_ws c → items l s' → items (v :: l) (a ++ s ++ c ++ ","%char :: s').

Scheme writes_mind := Minimality for writes Sort Prop
with members_mind := Minimality for members Sort Prop
with items_mind := Minimality for items Sort Prop.

Combined Scheme grammar_ind from writes_mind, members_mind, items_mind.

(** ** The reader reads the grammar *)

Lemma span_all p a c r : all p a → p c = false → span p (a ++ c :: r) = (a, c :: r).
Proof. induction 1 as [| x a Hx _ IH]; intros Hc; cbn; [by rewrite Hc |]. rewrite Hx. by rewrite IH. Qed.

Lemma skip_ws a c r : all is_ws a → is_ws c = false → skip (a ++ c :: r) = c :: r.
Proof. intros Ha Hc. unfold skip. by rewrite span_all. Qed.

Lemma is_same c : eqc c c = true.
Proof. by apply bool_decide_eq_true. Qed.

Lemma tok_ws a c r : all is_ws a → is_ws c = false → tok c (a ++ c :: r) = Some r.
Proof. intros Ha Hc. unfold tok. rewrite skip_ws by done. by rewrite is_same. Qed.

Lemma tok_not a c d r : all is_ws a → is_ws d = false → eqc c d = false → tok c (a ++ d :: r) = None.
Proof. intros Ha Hd Hc. unfold tok. rewrite skip_ws by done. by rewrite Hc. Qed.

Lemma read_string_ok a k r : all is_ws a → all is_plain k → read_string (a ++ str_text k ++ r) = Some (k, r).
Proof.
  intros Ha Hk. unfold read_string, str_text. cbn [app]. rewrite tok_ws by done. cbn [mbind option_bind].
  rewrite <-app_assoc. cbn [app]. rewrite span_all by done. by rewrite is_same.
Qed.

(** How a text goes on after a value. *)
Definition ends (r : str) : Prop := match r with c :: _ => is_num c = false | [] => True end.

Lemma ends_ws a c r : all is_ws a → is_num c = false → ends (a ++ c :: r).
Proof.
  intros Ha Hc. destruct Ha as [| x a Hx _]; [done |]. cbn. unfold is_ws, eqc in Hx. apply orb_true_iff in Hx as [->%bool_decide_eq_true | ->%bool_decide_eq_true]; done.
Qed.

Lemma span_ends t r : all is_num t → ends r → span is_num (t ++ r) = (t, r).
Proof.
  intros Ht Hr. destruct r as [| c r]; [| by apply span_all]. rewrite app_nil_r. induction Ht as [| x t Hx _ IH]; [done |]. cbn. by rewrite Hx, IH.
Qed.

(** The first character of a value. *)
Lemma writes_first v s : writes v s → ∃ c r, s = c :: r ∧ is_ws c = false ∧ eqc "]"%char c = false ∧ eqc "}"%char c = false.
Proof.
  intros H. destruct H as [t Hne Ht | | | | | ]; try (eexists _, _; by split_and!).
  destruct Ht as [| c t Hc _]; [done |]. exists c, t. split; [done |]. unfold is_ws, is_num, eqc, VipSpec.isdigit in *.
  split_and!; try apply orb_false_iff; try split; apply bool_decide_eq_false; intros ->; by vm_compute in Hc.
Qed.

Lemma tok_here c r : is_ws c = false → tok c (c :: r) = Some r.
Proof. intros Hc. apply (tok_ws []); [apply Forall_nil_2 | done]. Qed.

Lemma members_first l s r : members l s → tok "}"%char (s ++ r) = None.
Proof.
  assert (∀ a k x, all is_ws a → tok "}"%char (a ++ (str_text k ++ x)) = None) as H by (intros a k x Ha; by apply tok_not).
  intros []; rewrite <-!app_assoc; by apply H.
Qed.

Lemma items_first l s r : items l s → tok "]"%char (s ++ r) = None.
Proof.
  assert (∀ a v s x, all is_ws a → writes v s → tok "]"%char (a ++ (s ++ x)) = None) as H.
  { intros a v s' x Ha (c & q & -> & Hc & Hn & _)%writes_first. by apply tok_not. }
  intros []; rewrite <-!app_assoc; by eapply H.
Qed.

Lemma num_first t : t ≠ [] → all is_num t → ∃ c r, t = c :: r ∧ is_ws c = false ∧ eqc quote c = false ∧ eqc "{"%char c = false ∧ eqc "["%char c = false.
Proof.
  intros Hne Ht. destruct Ht as [| c t Hc _]; [done |]. exists c, t. split; [done |]. unfold is_ws, is_num, eqc, VipSpec.isdigit in *.
  split_and!; try apply orb_false_iff; try split; apply bool_decide_eq_false; intros ->; by vm_compute in Hc.
Qed.

Theorem reads :
  (∀ v s, writes v s → ∀ fuel a r, (length s <= fuel)%nat → all is_ws a → ends r → read fuel (a ++ s ++ r) = Some (v, r)) ∧
  (∀ l s, members l s → ∀ fuel r, (length s <= fuel)%nat → read_members fuel (s ++ "}"%char :: r) = Some (l, r)) ∧
  (∀ l s, items l s → ∀ fuel r, (length s < fuel)%nat → read_items fuel (s ++ "]"%char :: r) = Some (l, r)).
Proof.
  apply grammar_ind.
  - intros t Hne Ht fuel a r Hf Ha Hr. destruct (num_first t Hne Ht) as (c & t' & -> & H1 & H2 & H3 & H4).
    destruct fuel as [| fuel]; [cbn in Hf; lia |]. cbn [read app]. rewrite skip_ws by done. rewrite H2, H3, H4.
    change (c :: t' ++ r) with ((c :: t') ++ r). by rewrite span_ends.
  - intros k Hk fuel a r Hf Ha Hr. destruct fuel as [| fuel]; [cbn in Hf; lia |]. cbn [read]. unfold str_text at 1. cbn [app]. rewrite skip_ws by done.
    change (eqc quote quote) with true. cbv iota. change (quote :: (k ++ [quote]) ++ r) with ([] ++ str_text k ++ r). rewrite read_string_ok by (done || apply Forall_nil_2); done.
  - intros b Hb fuel a r Hf Ha Hr. destruct fuel as [| fuel]; [cbn in Hf; lia |]. cbn [read app]. rewrite skip_ws by done.
    change (eqc quote "{") with false. change (eqc "{" "{") with true. cbv iota. rewrite <-app_assoc. cbn [app]. by rewrite tok_ws.
  - intros l s Hm IH fuel a r Hf Ha Hr. destruct fuel as [| fuel]; [cbn in Hf; lia |]. cbn [read app]. rewrite skip_ws by done.
    change (eqc quote "{") with false. change (eqc "{" "{") with true. cbv iota. rewrite <-app_assoc. rewrite (members_first l) by done.
    cbn [app]. rewrite IH; [done |]. cbn in Hf. rewrite length_app in Hf. cbn in Hf. lia.
  - intros b Hb fuel a r Hf Ha Hr. destruct fuel as [| fuel]; [cbn in Hf; lia |]. cbn [read app]. rewrite skip_ws by done.
    change (eqc quote "[") with false. change (eqc "{" "[") with false. change (eqc "[" "[") with true. cbv iota. rewrite <-app_assoc. cbn [app]. by rewrite tok_ws.
  - intros l s Hm IH fuel a r Hf Ha Hr. destruct fuel as [| fuel]; [cbn in Hf; lia |]. cbn [read app]. rewrite skip_ws by done.
    change (eqc quote "[") with false. change (eqc "{" "[") with false. change (eqc "[" "[") with true. cbv iota. rewrite <-app_assoc. rewrite (items_first l) by done.
    cbn [app]. rewrite IH; [done |]. cbn in Hf. rewrite length_app in Hf. cbn in Hf. lia.
  - intros a k b v s c Ha Hk Hb Hv IH Hc fuel r Hf. destruct fuel as [| fuel]; [exfalso; rewrite length_app in Hf; cbn in Hf; lia |].
    rewrite !length_app in Hf. cbn in Hf. rewrite !length_app in Hf. cbn [read_members]. rewrite <-!app_assoc, read_string_ok by done. cbn [mbind option_bind app].
    rewrite tok_here by done. cbn [mbind option_bind]. rewrite <-!app_assoc, IH; [| lia | done | by apply ends_ws].
    cbn [mbind option_bind]. rewrite tok_not by done. by rewrite tok_ws.
  - intros a k b v s c l s' Ha Hk Hb Hv IH Hc Hl IHl fuel r Hf. destruct fuel as [| fuel]; [exfalso; rewrite length_app in Hf; cbn in Hf; lia |].
    rewrite !length_app in Hf. cbn in Hf. rewrite !length_app in Hf. cbn in Hf. cbn [read_members]. rewrite <-!app_assoc, read_string_ok by done. cbn [mbind option_bind app].
    rewrite tok_here by done. cbn [mbind option_bind]. rewrite <-!app_assoc, IH; [| lia | done | by apply ends_ws].
    cbn [mbind option_bind app]. rewrite tok_ws by done. by rewrite IHl by lia.
  - intros a v s c Ha Hv IH Hc fuel r Hf. destruct fuel as [| fuel]; [lia |]. rewrite !length_app in Hf.
    cbn [read_items]. rewrite <-!app_assoc, IH; [| lia | done | by apply ends_ws]. cbn [mbind option_bind]. rewrite tok_not by done. by rewrite tok_ws.
  - intros a v s c l s' Ha Hv IH Hc Hl IHl fuel r Hf. destruct fuel as [| fuel]; [lia |]. rewrite !length_app in Hf. cbn in Hf.
    cbn [read_items]. rewrite <-!app_assoc, IH; [| lia | done | by apply ends_ws]. cbn [mbind option_bind app]. rewrite tok_ws by done. by rewrite IHl by lia.
Qed.

(** ** Writing objects and arrays *)

Lemma members_app l1 s1 l2 s2 : members l1 s1 → members l2 s2 → members (l1 ++ l2) (s1 ++ ","%char :: s2).
Proof.
  intros H H2. induction H as [a k b v s c Ha Hk Hb Hv Hc | a k b v s c l s' Ha Hk Hb Hv Hc Hl IH]; repeat (rewrite <-!app_assoc || cbn [app]);
    by apply m_more.
Qed.

Lemma items_app l1 s1 l2 s2 : items l1 s1 → items l2 s2 → items (l1 ++ l2) (s1 ++ ","%char :: s2).
Proof.
  intros H H2. induction H as [a v s c Ha Hv Hc | a v s c l s' Ha Hv Hc Hl IH]; repeat (rewrite <-!app_assoc || cbn [app]); by apply t_more.
Qed.

(** Texts with commas between them. *)
Fixpoint commas (l : list str) : str :=
  match l with [] => [] | [s] => s | s :: l => s ++ ","%char :: commas l end.

Lemma members_commas l ss : Forall2 (λ kv s, members [kv] s) l ss → l ≠ [] → members l (commas ss).
Proof.
  induction 1 as [| kv s l ss Hs Hl IH]; [done |]. intros _. destruct Hl as [| kv' s' l ss Hs' Hl]; [done |].
  apply (members_app [kv] s); [done |]. by apply IH.
Qed.

Lemma items_commas l ss : Forall2 (λ v s, items [v] s) l ss → l ≠ [] → items l (commas ss).
Proof.
  induction 1 as [| v s l ss Hs Hl IH]; [done |]. intros _. destruct Hl as [| v' s' l ss Hs' Hl]; [done |].
  apply (items_app [v] s); [done |]. by apply IH.
Qed.

(** A member or an item on a line of its own, or after a space. *)
Definition member_text (a k s : str) : str := a ++ str_text k ++ §": " ++ s.

Lemma member_written a k v s : all is_ws a → all is_plain k → writes v s → members [(k, v)] (member_text a k s).
Proof. intros Ha Hk Hv. unfold member_text. rewrite <-(app_nil_r s). apply (m_one a k [" "%char]); try done; by repeat constructor. Qed.

Lemma obj_written l s a : members l s → all is_ws a → writes (TObj l) (§"{" ++ s ++ a ++ §"}").
Proof.
  intros H Ha. change (§"{" ++ s ++ a ++ §"}") with ("{"%char :: s ++ (a ++ ["}"%char])). rewrite (app_assoc s). apply (w_obj l). revert H. generalize l s. clear l s. intros l s H.
  induction H as [b k c v s d Hb Hk Hc Hv Hd | b k c v s d l s' Hb Hk Hc Hv Hd Hl IH]; repeat (rewrite <-!app_assoc || cbn [app]).
  - apply m_one; try done. by apply Forall_app.
  - by apply m_more.
Qed.

Lemma arr_written l s a : items l s → all is_ws a → writes (TArr l) (§"[" ++ s ++ a ++ §"]").
Proof.
  intros H Ha. change (§"[" ++ s ++ a ++ §"]") with ("["%char :: s ++ (a ++ ["]"%char])). rewrite (app_assoc s). apply (w_arr l). revert H. generalize l s. clear l s. intros l s H.
  induction H as [b v s d Hb Hv Hd | b v s d l s' Hb Hv Hd Hl IH]; repeat (rewrite <-!app_assoc || cbn [app]).
  - apply t_one; try done. by apply Forall_app.
  - by apply t_more.
Qed.

(** ** Numbers *)

Lemma dec_digits_num fuel n acc :
  all is_num acc → all is_num (VipSpec.dec_digits fuel n acc) ∧ (acc ≠ [] ∨ fuel ≠ 0%nat → VipSpec.dec_digits fuel n acc ≠ []).
Proof.
  revert n acc. induction fuel as [| fuel IH]; intros n acc Ha; cbn; [split; [done | tauto] |].
  assert (all is_num (VipSpec.digit_char (n mod 10) :: acc)) as Hd.
  { constructor; [| done]. unfold is_num. apply orb_true_iff. left. apply orb_true_iff. left. apply VipSpec.digit_char_spec. pose proof (Z.mod_pos_bound n 10). lia. }
  destruct (_ =? 0); [done |]. destruct (IH (n / 10) _ Hd) as [H1 H2]. split; [done |]. intros _. apply H2. by left.
Qed.

Lemma num_written n : writes (TNum (VipSpec.to_string n)) (VipSpec.to_string n).
Proof.
  destruct (dec_digits_num 20 n [] ltac:(constructor)) as [H1 H2]. apply w_num; [apply H2; by right | done].
Qed.

(** printf's %d *)
Definition dec (n : Z) : str := if n <? 0 then "-"%char :: VipSpec.to_string (- n) else VipSpec.to_string n.

Lemma dec_written n : writes (TNum (dec n)) (dec n).
Proof.
  unfold dec. destruct (n <? 0); [| apply num_written]. destruct (dec_digits_num 20 (- n) [] ltac:(constructor)) as [H1 H2].
  apply w_num; [done |]. by constructor.
Qed.

(** White space before the first item. *)
Lemma items_ws a l s : all is_ws a → items l s → items l (a ++ s).
Proof. intros Ha H. destruct H; rewrite app_assoc; [apply t_one | apply t_more]; try done; by apply Forall_app. Qed.

(** Text, as the reports contain it. *)
Lemma plain_num s : all is_num s → all is_plain s.
Proof.
  intros H. eapply Forall_impl; [exact H |]. intros c Hc. unfold is_plain, is_num, eqc, VipSpec.isdigit in *.
  destruct c as [[] [] [] [] [] [] [] []]; vm_compute in Hc |- *; congruence.
Qed.

Lemma to_string_plain n : all is_plain (VipSpec.to_string n).
Proof. apply plain_num. by apply (dec_digits_num 20 n []); constructor. Qed.

Lemma ipv4_plain a : all is_plain (VipSpec.ipv4_to_string a).
Proof. unfold VipSpec.ipv4_to_string, all. rewrite !Forall_app. split_and!; try apply to_string_plain; by repeat constructor. Qed.

End JsonText.
