(* ===== verification/Conncheck.v ===== *)
(** * conncheck (tools/conncheck/conncheck.cpp)

    The instrument of the churn and failover experiments: it holds connections to
    a VIP and counts every one that breaks, by cause, second and backend. The
    outcomes of the socket calls and the clock are arguments. *)

From Stdlib Require Import ZArith Lia Ascii String.
From S2P Require Import Prelude VipSpec RealTable Config ApiServer Libc.

Module Conncheck.
Import Cli.
Import Libc(atoi).

Inductive State : Type := Idle | Connecting | Open | Broken | ConnectFailed.
#[export] Instance State_eq_dec : EqDecision State.
Proof. solve_decision. Defined.

Inductive Cause : Type := kRst | kEof | kTimeout | kWrongBackend.
Definition kNumCauses : nat := 4.
Definition cause_index (c : Cause) : nat := match c with kRst => 0 | kEof => 1 | kTimeout => 2 | kWrongBackend => 3 end.

Record Conn := mk_conn {
  fd : Z;
  state : State;
  backend : Z;
  connect_start : Z;
  hb_sent_at : Z;
  next_hb : Z;
  seq_ : Z;
  in_ : str
}.

Definition new_conn : Conn := mk_conn (-1) Idle (-1) 0 0 0 0 [].

Definition set_fd (x : Z) (c : Conn) : Conn := mk_conn x (state c) (backend c) (connect_start c) (hb_sent_at c) (next_hb c) (seq_ c) (in_ c).
Definition set_state (x : State) (c : Conn) : Conn := mk_conn (fd c) x (backend c) (connect_start c) (hb_sent_at c) (next_hb c) (seq_ c) (in_ c).
Definition set_backend (x : Z) (c : Conn) : Conn := mk_conn (fd c) (state c) x (connect_start c) (hb_sent_at c) (next_hb c) (seq_ c) (in_ c).
Definition set_start (x : Z) (c : Conn) : Conn := mk_conn (fd c) (state c) (backend c) x (hb_sent_at c) (next_hb c) (seq_ c) (in_ c).
Definition set_sent (x : Z) (c : Conn) : Conn := mk_conn (fd c) (state c) (backend c) (connect_start c) x (next_hb c) (seq_ c) (in_ c).
Definition set_next (x : Z) (c : Conn) : Conn := mk_conn (fd c) (state c) (backend c) (connect_start c) (hb_sent_at c) x (seq_ c) (in_ c).
Definition set_seq (x : Z) (c : Conn) : Conn := mk_conn (fd c) (state c) (backend c) (connect_start c) (hb_sent_at c) (next_hb c) x (in_ c).
Definition set_in (x : str) (c : Conn) : Conn := mk_conn (fd c) (state c) (backend c) (connect_start c) (hb_sent_at c) (next_hb c) (seq_ c) x.

Record Options := mk_options {
  vip_host : str;
  vip_port : Z;
  connections : Z;
  heartbeat_ms : Z;
  duration_s : Z;
  connect_rate : Z;
  ramp_ms : Z;
  timeout_ms : Z;
  connect_timeout_ms : Z;
  json_path : str;
  quiet : bool
}.

Definition default_options : Options := mk_options [] 0 1000 100 40 5000 100 2000 5000 [] false.

(** ** The command line *)

Definition usage {A} : cli A :=
  Exit 2 (§"usage: conncheck --vip ADDR:PORT [--connections N] [--heartbeat-ms MS]" ++ [ApiServer.nl] ++
          §"                 [--duration-s S] [--json FILE] [--connect-rate PER_S]" ++ [ApiServer.nl] ++
          §"                 [--ramp-ms MS] [--timeout-ms MS] [--connect-timeout-ms MS] [--quiet]" ++ [ApiServer.nl]).

(** The option a, with the value v that follows it. *)
Definition set_option (a v : str) (o : Options) : option Options :=
  let '(mk_options h p n hb d cr rm t ct j q) := o in
  if bool_decide (a = §"--vip") then
    match VipSpec.rfind ":"%char v with
    | None => None
    | Some c => Some (mk_options (take c v) (atoi (drop (c + 1) v)) n hb d cr rm t ct j q)
    end
  else if bool_decide (a = §"--connections") then Some (mk_options h p (atoi v) hb d cr rm t ct j q)
  else if bool_decide (a = §"--heartbeat-ms") then Some (mk_options h p n (atoi v) d cr rm t ct j q)
  else if bool_decide (a = §"--duration-s") then Some (mk_options h p n hb (atoi v) cr rm t ct j q)
  else if bool_decide (a = §"--connect-rate") then Some (mk_options h p n hb d (atoi v) rm t ct j q)
  else if bool_decide (a = §"--ramp-ms") then Some (mk_options h p n hb d cr (atoi v) t ct j q)
  else if bool_decide (a = §"--timeout-ms") then Some (mk_options h p n hb d cr rm (atoi v) ct j q)
  else if bool_decide (a = §"--connect-timeout-ms") then Some (mk_options h p n hb d cr rm t (atoi v) j q)
  else if bool_decide (a = §"--json") then Some (mk_options h p n hb d cr rm t ct v q)
  else None.

Definition set_quiet (o : Options) : Options :=
  let '(mk_options h p n hb d cr rm t ct j _) := o in mk_options h p n hb d cr rm t ct j true.

(** The loop over the arguments after the program's name. An option that is not
    known and one that lacks its value end alike. *)
Fixpoint set_options (args : list str) (o : Options) : cli Options :=
  match args with
  | [] => Go o
  | a :: args =>
      if bool_decide (a = §"--quiet") then set_options args (set_quiet o) else
      match args with
      | [] => usage
      | v :: args => match set_option a v o with Some o => set_options args o | None => usage end
      end
  end.

Definition parse (args : list str) : cli Options :=
  o ← set_options args default_options;
  if bool_decide (vip_host o = []) || (vip_port o <=? 0) || (65535 <? vip_port o) || (connections o <=? 0) ||
     (heartbeat_ms o <=? 0) || (duration_s o <=? 0) || (connect_rate o <=? 0) || (ramp_ms o <=? 0) ||
     (timeout_ms o <=? 0) || (connect_timeout_ms o <=? 0)
  then usage else Go o.

(** ** The runner *)

Record Runner := mk_runner {
  o_ : Options;
  conns_ : list Conn;
  t0_ : Z;
  pending_connects_ : Z;
  established_ : Z;
  connect_failed_ : Z;
  connect_fail_reasons_ : gmap Z Z;
  broken_ : list Z;
  broken_by_backend_ : gmap Z Z;
  timeline_ : list (list Z)
}.

(** The members of a Runner once run() has set t0_. *)
Definition started (o : Options) (t0 : Z) : Runner :=
  mk_runner o (replicate (Z.to_nat (connections o)) new_conn) t0 0 0 0 ∅ (replicate kNumCauses 0) ∅
    (replicate (Z.to_nat (duration_s o + 2)) (replicate kNumCauses 0)).

(** Runner::Runner: a host that is not an IPv4 address ends the program. *)
Definition new_runner (o : Options) : cli Runner :=
  match Libc.inet_pton (vip_host o) with None => usage | Some _ => Go (started o 0) end.

Definition conn (r : Runner) (i : nat) : Conn := default new_conn (conns_ r !! i).
Definition upd (i : nat) (f : Conn → Conn) (r : Runner) : Runner :=
  mk_runner (o_ r) (alter f i (conns_ r)) (t0_ r) (pending_connects_ r) (established_ r) (connect_failed_ r)
    (connect_fail_reasons_ r) (broken_ r) (broken_by_backend_ r) (timeline_ r).
Definition set_pending (x : Z) (r : Runner) : Runner :=
  mk_runner (o_ r) (conns_ r) (t0_ r) x (established_ r) (connect_failed_ r) (connect_fail_reasons_ r) (broken_ r) (broken_by_backend_ r) (timeline_ r).

(** map[k]++ *)
Definition incr (k : Z) (m : gmap Z Z) : gmap Z Z := <[k := default 0 (m !! k) + 1]> m.

(** close and forget the descriptor *)
Definition close (c : Conn) : Conn := set_fd (-1) c.

(** ** Connections *)

Definition fail_connect (i : nat) (err : Z) (r : Runner) : Runner :=
  let r := match state (conn r i) with Connecting => set_pending (pending_connects_ r - 1) r | _ => r end in
  mk_runner (o_ r) (alter (λ c, close (set_state ConnectFailed c)) i (conns_ r)) (t0_ r) (pending_connects_ r) (established_ r)
    (connect_failed_ r + 1) (incr err (connect_fail_reasons_ r)) (broken_ r) (broken_by_backend_ r) (timeline_ r).

Definition break_conn (i : nat) (cause : Cause) (now : Z) (r : Runner) : Runner :=
  match state (conn r i) with
  | Open =>
      let sec := Z.to_nat (Z.max 0 (Z.quot (now - t0_ r) 1000)) in
      let sec := if (length (timeline_ r) <=? sec)%nat then (length (timeline_ r) - 1)%nat else sec in
      mk_runner (o_ r) (alter (λ c, close (set_state Broken c)) i (conns_ r)) (t0_ r) (pending_connects_ r) (established_ r)
        (connect_failed_ r) (connect_fail_reasons_ r) (alter (λ n, n + 1) (cause_index cause) (broken_ r))
        (incr (backend (conn r i)) (broken_by_backend_ r))
        (alter (alter (λ n, n + 1) (cause_index cause)) sec (timeline_ r))
  | _ => r
  end.

Definition EPIPE := 32.
Definition ECONNRESET := 104.
Definition ETIMEDOUT := 110.
Definition ECONNREFUSED := 111.

Definition cause_for_errno (err : Z) : Cause :=
  if (err =? ECONNRESET) || (err =? EPIPE) || (err =? ECONNREFUSED) then kRst else kTimeout.

(** How a send of a heartbeat ends. *)
Inductive sent : Type := SentAll | SentAgain | SentShort | SentErr (err : Z).

Definition send_heartbeat (w : sent) (i : nat) (now : Z) (r : Runner) : Runner :=
  let r := upd i (λ c, set_seq (seq_ c + 1) c) r in
  match w with
  | SentAll | SentAgain | SentShort => upd i (set_sent now) r
  | SentErr err => break_conn i (cause_for_errno err) now r
  end.

Definition on_connected (w : sent) (i : nat) (now : Z) (r : Runner) : Runner :=
  match state (conn r i) with
  | Connecting =>
      let r := set_pending (pending_connects_ r - 1) r in
      let r := mk_runner (o_ r) (alter (λ c, set_next now (set_state Open c)) i (conns_ r)) (t0_ r) (pending_connects_ r) (established_ r + 1)
                 (connect_failed_ r) (connect_fail_reasons_ r) (broken_ r) (broken_by_backend_ r) (timeline_ r) in
      send_heartbeat w i now r
  | _ => r
  end.

(** The outcomes of socket, connect and the first send. *)
Record connect_calls := mk_connect_calls {
  cc_socket : Z + Z;              (* an error, or the descriptor *)
  cc_connect : option Z;          (* an error, or connected at once *)
  cc_send : sent
}.

Definition EINPROGRESS := 115.

Definition start_connect (x : connect_calls) (i : nat) (now : Z) (r : Runner) : Runner :=
  match cc_socket x with
  | inl err => fail_connect i err r
  | inr f =>
      let r := upd i (λ c, set_start now (set_fd f c)) r in
      match cc_connect x with
      | Some err =>
          if negb (err =? EINPROGRESS) then fail_connect i err r
          else set_pending (pending_connects_ r + 1) (upd i (set_state Connecting) r)
      | None => on_connected (cc_send x) i now (set_pending (pending_connects_ r + 1) (upd i (set_state Connecting) r))
      end
  end.

(** ** Replies *)

(** The loop over complete lines; each turn removes a newline. *)
Fixpoint consume_loop (fuel : nat) (i : nat) (now : Z) (r : Runner) : bool * Runner :=
  match fuel with
  | O => (true, r)
  | S fuel =>
      match state (conn r i), Config.find ApiServer.nl (in_ (conn r i)) with
      | Open, Some pos =>
          let line := take pos (in_ (conn r i)) in
          let r := upd i (λ c, set_in (drop (pos + 1) (in_ c)) c) r in
          if negb (Libc.starts_with §"id=" line) then consume_loop fuel i now r else
          let id := atoi (drop 3 line) in
          let r := upd i (λ c, set_next (now + heartbeat_ms (o_ r)) (set_sent 0 c)) r in
          if backend (conn r i) <? 0 then consume_loop fuel i now (upd i (set_backend id) r)
          else if negb (id =? backend (conn r i)) then (false, break_conn i kWrongBackend now r)
          else consume_loop fuel i now r
      | _, _ => (true, r)
      end
  end.

Definition consume_lines (i : nat) (now : Z) (r : Runner) : Runner :=
  let '(on, r) := consume_loop (S (length (in_ (conn r i)))) i now r in
  if on && (4096 <? Z.of_nat (length (in_ (conn r i)))) then break_conn i kWrongBackend now r else r.

(** ** Events *)

Definition EPOLLIN := 1.
Definition EPOLLOUT := 4.
Definition EPOLLERR := 8.
Definition EPOLLHUP := 16.
Definition any (events mask : Z) : bool := negb (Z.land events mask =? 0).

Inductive recv_result : Type := RData (chunk : str) | REof | RAgain | RIntr | RErr (err : Z).

Record event_calls := mk_event_calls {
  ev_so_error : Z;                (* while connecting *)
  ev_send : sent;
  ev_recvs : list recv_result;    (* no more data after the last *)
  ev_err : Z                      (* SO_ERROR on EPOLLERR *)
}.

(** The loop of recv: what ends it. *)
Fixpoint recv_loop (l : list recv_result) (i : nat) (r : Runner) : recv_result * Runner :=
  match l with
  | RData chunk :: l => recv_loop l i (upd i (λ c, set_in (in_ c ++ chunk) c) r)
  | RIntr :: l => recv_loop l i r
  | x :: _ => (x, r)
  | [] => (RAgain, r)
  end.

Definition handle_open (x : event_calls) (i : nat) (events now : Z) (r : Runner) : Runner :=
  match state (conn r i) with
  | Open =>
      let '(ended, r) := recv_loop (ev_recvs x) i r in
      let r := consume_lines i now r in
      match ended with
      | REof => break_conn i kEof now r
      | RErr err => break_conn i (cause_for_errno err) now r
      | _ => if any events EPOLLERR then break_conn i (cause_for_errno (if ev_err x =? 0 then ECONNRESET else ev_err x)) now r else r
      end
  | _ => r
  end.

Definition handle_event (x : event_calls) (i : nat) (events now : Z) (r : Runner) : Runner :=
  match state (conn r i) with
  | Connecting =>
      if negb (ev_so_error x =? 0) then fail_connect i (ev_so_error x) r else
      if any events (Z.lor EPOLLOUT EPOLLIN) then handle_open x i events now (on_connected (ev_send x) i now r)
      else if any events (Z.lor EPOLLERR EPOLLHUP) then fail_connect i ECONNREFUSED r
      else r
  | _ => handle_open x i events now r
  end.

Definition scan_one (sends : nat → sent) (now : Z) (r : Runner) (i : nat) : Runner :=
  let c := conn r i in
  match state c with
  | Connecting => if connect_timeout_ms (o_ r) <? now - connect_start c then fail_connect i ETIMEDOUT r else r
  | Open =>
      if negb (hb_sent_at c =? 0) then (if timeout_ms (o_ r) <? now - hb_sent_at c then break_conn i kTimeout now r else r)
      else if next_hb c <=? now then send_heartbeat (sends i) i now r else r
  | _ => r
  end.

Definition scan (sends : nat → sent) (now : Z) (r : Runner) : Runner := foldl (scan_one sends now) r (seq 0 (length (conns_ r))).

(** ** Counting *)

Definition is_open (c : Conn) : bool := match state c with Open => true | _ => false end.

Definition all_have_backend (r : Runner) : bool := forallb (λ c, negb (is_open c && (backend c <? 0))) (conns_ r).

Definition take_snapshot (r : Runner) : gmap Z Z := foldl (λ out c, if is_open c then incr (backend c) out else out) ∅ (conns_ r).

Definition open_count (r : Runner) : Z := Z.of_nat (length (filter (λ c, is_open c = true) (conns_ r))).
Definition broken_total (r : Runner) : Z := foldr Z.add 0 (broken_ r).

(** ** The run *)

(** What one turn of the loop sees: the clock before and after epoll_wait, the
    calls of the connects, whether epoll_wait failed, the events and their calls,
    the sends of the scan. *)
Record Input := mk_input {
  in_now : Z;
  in_connect : nat → connect_calls;
  in_failed : bool;
  in_later : Z;
  in_events : list (nat * Z * event_calls);
  in_sends : nat → sent
}.

Record Loop := mk_loop {
  l_runner : Runner;
  next_batch : Z;
  batches : Z;
  next_scan : Z;
  next_idx : nat;
  start_counts_ : option (gmap Z Z)      (* once the snapshot is taken *)
}.

(** while (next_idx < conns_.size() && next_idx < due) start_connect(next_idx++, now); *)
Fixpoint connect_batch (fuel : nat) (x : nat → connect_calls) (now : Z) (due : Z) (idx : nat) (r : Runner) : nat * Runner :=
  match fuel with
  | O => (idx, r)
  | S fuel =>
      if (idx <? length (conns_ r))%nat && (Z.of_nat idx <? due)
      then connect_batch fuel x now due (S idx) (start_connect (x idx) idx now r)
      else (idx, r)
  end.

(** Whether the loop goes on, and its state. *)
Definition turn (x : Input) (l : Loop) : bool * Loop :=
  let r := l_runner l in
  let n := length (conns_ r) in
  let o := o_ r in
  let '(idx, r, nb, bs) :=
    if (next_idx l <? n)%nat && (next_batch l <=? in_now x) then
      let bs := batches l + 1 in
      let due := Z.max 1 (connect_rate o * bs * ramp_ms o / 1000) in
      let '(idx, r) := connect_batch n (in_connect x) (in_now x) due (next_idx l) r in
      (idx, r, next_batch l + ramp_ms o, bs)
    else (next_idx l, r, next_batch l, batches l) in
  let sc :=
    match start_counts_ l with
    | None => if (idx =? n)%nat && (pending_connects_ r =? 0) && all_have_backend r then Some (take_snapshot r) else None
    | sc => sc
    end in
  if in_failed x then (false, mk_loop r nb bs (next_scan l) idx sc) else
  let r := foldl (λ r e, handle_event e.2 e.1.1 e.1.2 (in_later x) r) r (in_events x) in
  (true, if next_scan l <=? in_later x
         then mk_loop (scan (in_sends x) (in_later x) r) nb bs (in_later x + 5) idx sc
         else mk_loop r nb bs (next_scan l) idx sc).

Fixpoint turns (xs : list Input) (l : Loop) : Loop :=
  match xs with
  | [] => l
  | x :: xs => if t0_ (l_runner l) + duration_s (o_ (l_runner l)) * 1000 <=? in_now x then l else
      let '(on, l) := turn x l in if on then turns xs l else l
  end.

(** The counts of the report, and the connections with their sockets closed. *)
Record Report := mk_report {
  rp_runner : Runner;
  rp_start : gmap Z Z;
  rp_end : gmap Z Z;
  rp_survived : Z
}.

Definition sum_counts (m : gmap Z Z) : Z := map_fold (λ _ n s, s + n) 0 m.

Definition run (o : Options) (t0 : Z) (xs : list Input) : Report :=
  let l := turns xs (mk_loop (started o t0) t0 0 t0 0 None) in
  let r := l_runner l in
  let e := take_snapshot r in
  mk_report (mk_runner (o_ r) (close <$> conns_ r) (t0_ r) (pending_connects_ r) (established_ r) (connect_failed_ r)
      (connect_fail_reasons_ r) (broken_ r) (broken_by_backend_ r) (timeline_ r))
    (default (take_snapshot r) (start_counts_ l)) e (sum_counts e).

(** main: the options, the runner made from them, and its run. *)
Definition program (args : list str) (t0 : Z) (xs : list Input) : cli Report :=
  o ← parse args;
  r ← new_runner o;
  Go (run (o_ r) t0 xs).

(** ** The books *)

Definition cnt (st : State) (l : list Conn) : Z := Z.of_nat (length (filter (λ c, state c = st) l)).

(** The sum of a column of the timeline. *)
Definition column (k : nat) (t : list (list Z)) : Z := foldr (λ row s, default 0 (row !! k) + s) 0 t.

Record books (r : Runner) : Prop := {
  bk_pending : pending_connects_ r = cnt Connecting (conns_ r);
  bk_established : established_ r = cnt Open (conns_ r) + cnt Broken (conns_ r);
  bk_failed : connect_failed_ r = cnt ConnectFailed (conns_ r);
  bk_reasons : sum_counts (connect_fail_reasons_ r) = connect_failed_ r;
  bk_broken : broken_total r = cnt Broken (conns_ r);
  bk_backend : sum_counts (broken_by_backend_ r) = cnt Broken (conns_ r);
  bk_shape : length (broken_ r) = kNumCauses ∧ timeline_ r ≠ [] ∧ Forall (λ row, length row = kNumCauses) (timeline_ r);
  bk_timeline : ∀ k, (k < kNumCauses)%nat → broken_ r !! k = Some (column k (timeline_ r))
}.

Definition live (st : State) : bool := match st with Connecting | Open => true | _ => false end.

(** Exactly the connections that are being made or open hold a descriptor. *)
Definition fds_but (x : option nat) (r : Runner) : Prop :=
  ∀ j c, x ≠ Some j → conns_ r !! j = Some c → (0 <=? fd c) = live (state c).

Definition good (r : Runner) : Prop := books r ∧ fds_but None r.

(** What every step does: the books stay right, and a connection that has not been
    started is not touched. *)
Record fine (r r' : Runner) : Prop := {
  f_good : good r → good r';
  f_len : length (conns_ r') = length (conns_ r);
  f_idle : ∀ j c, conns_ r !! j = Some c → state c = Idle → conns_ r' !! j = Some c;
  f_o : o_ r' = o_ r;
  f_t0 : t0_ r' = t0_ r
}.

Lemma fine_refl r : fine r r.
Proof. by split. Qed.
Lemma fine_trans r1 r2 r3 : fine r1 r2 → fine r2 r3 → fine r1 r3.
Proof.
  intros [G1 L1 I1 O1 T1] [G2 L2 I2 O2 T2]. split; [auto | congruence | eauto | congruence | congruence].
Qed.

(** *** Lemmas: sums *)

Lemma sum_insert k x (m : gmap Z Z) : m !! k = None → sum_counts (<[k := x]> m) = sum_counts m + x.
Proof. intros H. unfold sum_counts. rewrite map_fold_insert_L; [done | | done]. intros. lia. Qed.

Lemma sum_incr k m : sum_counts (incr k m) = sum_counts m + 1.
Proof.
  unfold incr. destruct (m !! k) as [y |] eqn:E; cbn.
  - rewrite <-(insert_delete_eq m). rewrite sum_insert by apply lookup_delete_eq.
    assert (sum_counts m = sum_counts (<[k := y]> (delete k m))) as -> by (by rewrite insert_delete_id).
    rewrite sum_insert by apply lookup_delete_eq. lia.
  - by rewrite sum_insert.
Qed.

Lemma alter_split {A} (f : A → A) i l x : l !! i = Some x → alter f i l = take i l ++ f x :: drop (S i) l.
Proof.
  revert i. induction l as [| y l IH]; intros [| i] H; cbn in *; try done; [by injection H as -> |]. f_equal. by apply IH.
Qed.

Lemma cnt_app st l k : cnt st (l ++ k) = cnt st l + cnt st k.
Proof. unfold cnt. rewrite filter_app, length_app. lia. Qed.
Lemma cnt_cons st c l : cnt st (c :: l) = (if decide (state c = st) then 1 else 0) + cnt st l.
Proof. unfold cnt. rewrite filter_cons. destruct (decide _); cbn [length]; lia. Qed.

Lemma cnt_alter st f i l c :
  l !! i = Some c →
  cnt st (alter f i l) = cnt st l - (if decide (state c = st) then 1 else 0) + (if decide (state (f c) = st) then 1 else 0).
Proof.
  intros H. assert (cnt st l = cnt st (take i l ++ c :: drop (S i) l)) as -> by (by rewrite take_drop_middle).
  rewrite (alter_split f i l c H), !cnt_app, !cnt_cons. destruct (decide (state c = st)), (decide (state (f c) = st)); lia.
Qed.

Lemma foldr_alter i (l : list Z) x : l !! i = Some x → foldr Z.add 0 (alter (λ n, n + 1) i l) = foldr Z.add 0 l + 1.
Proof. revert i. induction l as [| y l IH]; intros [| i] H; cbn in *; try done; [lia |]. rewrite (IH i H). lia. Qed.

Lemma column_alter k j i t row :
  t !! i = Some row → (j < length row)%nat →
  column k (alter (alter (λ n, n + 1) j) i t) = column k t + (if decide (k = j) then 1 else 0).
Proof.
  revert i. induction t as [| y t IH]; intros [| i] H Hj; cbn [alter list_alter lookup list_lookup column foldr] in *; try done.
  - injection H as ->. destruct (lookup_lt_is_Some_2 row j Hj) as [v Hv]. destruct (decide (k = j)) as [-> | Hne].
    + rewrite list_lookup_alter_eq, Hv. cbn. lia.
    + rewrite list_lookup_alter_ne by done. lia.
  - change (foldr _ 0 (alter ?f i t)) with (column k (alter f i t)). rewrite (IH i H Hj). unfold column. lia.
Qed.

Lemma cause_bound cause : (cause_index cause < kNumCauses)%nat.
Proof. destruct cause; unfold kNumCauses; cbn; lia. Qed.

(** *** Lemmas: steps *)

Lemma conn_Some r i : state (conn r i) ≠ Idle → conns_ r !! i = Some (conn r i).
Proof. unfold conn. by destruct (conns_ r !! i). Qed.

Lemma lookup_alter_conn (f : Conn → Conn) i j (l : list Conn) c :
  alter f i l !! j = Some c → (i = j ∧ ∃ c0, l !! j = Some c0 ∧ c = f c0) ∨ (i ≠ j ∧ l !! j = Some c).
Proof.
  destruct (decide (i = j)) as [<- | Hne]; [| rewrite list_lookup_alter_ne by done; auto].
  rewrite list_lookup_alter_eq. destruct (l !! i) as [c0 |]; [| done]. intros [= <-]. left. eauto.
Qed.

(** Changing what the books do not look at. *)
Lemma upd_fine i f r :
  state (conn r i) ≠ Idle → (∀ c, state (f c) = state c ∧ fd (f c) = fd c) → fine r (upd i f r).
Proof.
  intros Hs Hf. pose proof (conn_Some r i Hs) as Hi. split; try done.
  - intros [B F]. split.
    + assert (∀ st, cnt st (alter f i (conns_ r)) = cnt st (conns_ r)) as Hc.
      { intros st. rewrite (cnt_alter st f i _ _ Hi), (proj1 (Hf _)). lia. }
      destruct B. split; cbn [upd pending_connects_ established_ connect_failed_ conns_]; rewrite ?Hc; done.
    + intros j c _ [[<- (c0 & H0 & ->)] | [_ H]]%lookup_alter_conn; [| by apply (F j)]. destruct (Hf c0) as [-> ->]. by apply (F i).
  - cbn. apply length_alter.
  - intros j c Hj Hidle. cbn. rewrite list_lookup_alter_ne; [done |]. intros ->. unfold conn in Hs. rewrite Hj in Hs. done.
Qed.

Lemma break_fine i cause now r : fine r (break_conn i cause now r).
Proof.
  unfold break_conn. destruct (state (conn r i)) eqn:Es; try apply fine_refl.
  assert (conns_ r !! i = Some (conn r i)) as Hi by (apply conn_Some; congruence). cbv zeta.
  match goal with |- context [alter (alter _ _) ?x _] => set (sec := x) end.
  split; try done.
  - intros [B F]. split.
    + destruct B as [B1 B2 B3 B4 B5 B6 (S1 & S2 & S3) B8].
      assert (sec < length (timeline_ r))%nat as Hsec.
      { assert (length (timeline_ r) ≠ 0%nat) by (by destruct (timeline_ r)). subst sec. destruct (Nat.leb_spec (length (timeline_ r)) (Z.to_nat (Z.max 0 (Z.quot (now - t0_ r) 1000)))); lia. }
      destruct (lookup_lt_is_Some_2 _ _ Hsec) as [row Hrow]. pose proof (Forall_lookup_1 _ _ _ _ S3 Hrow) as Hlen. cbn in Hlen.
      pose proof (cause_bound cause) as Hcb. pose proof (B8 _ Hcb) as Hold.
      split; cbn [pending_connects_ established_ connect_failed_ conns_ connect_fail_reasons_ broken_ broken_by_backend_ timeline_];
        rewrite ?(cnt_alter _ _ i _ _ Hi), ?Es; cbn [close set_state set_fd state]; rewrite ?sum_incr; try (repeat (destruct (decide _); try done); lia).
      * unfold broken_total in *. cbn [broken_]. rewrite (foldr_alter _ _ _ Hold). repeat (destruct (decide _); try done). lia.
      * split_and!; [by rewrite length_alter | by intros ?%(f_equal length); rewrite length_alter in *; destruct (timeline_ r) |].
        apply Forall_lookup_2. intros j row'. destruct (decide (sec = j)) as [<- | Hne].
        -- rewrite list_lookup_alter_eq, Hrow. intros [= <-]. by rewrite length_alter.
        -- rewrite list_lookup_alter_ne by done. intros Hr. by apply (Forall_lookup_1 _ _ _ _ S3 Hr).
      * intros k Hk. rewrite (column_alter k _ sec _ row Hrow) by (rewrite Hlen; exact Hcb).
        destruct (decide (k = cause_index cause)) as [-> | Hne]; [by rewrite list_lookup_alter_eq, Hold |].
        rewrite list_lookup_alter_ne, Z.add_0_r by done. by apply B8.
    + intros j c _ [[<- (c0 & H0 & ->)] | [_ H]]%lookup_alter_conn; [done | by apply (F j)].
  - cbn. apply length_alter.
  - intros j c Hj Hidle. cbn. rewrite list_lookup_alter_ne; [done |]. intros ->. assert (conn r j = c) by congruence. congruence.
Qed.

(** A connect that fails, from either state it can fail in. *)
Lemma fail_good i err r :
  (i < length (conns_ r))%nat → state (conn r i) = Connecting ∨ state (conn r i) = Idle →
  books r → fds_but (Some i) r → good (fail_connect i err r).
Proof.
  intros Hlt Hs B F. destruct (lookup_lt_is_Some_2 _ _ Hlt) as [c Hc]. assert (conn r i = c) as E by (unfold conn; by rewrite Hc). rewrite E in Hs.
  unfold fail_connect. rewrite E. split.
  - destruct B as [B1 B2 B3 B4 B5 B6 B7 B8]. unfold broken_total in B5.
    destruct Hs as [Es | Es]; rewrite Es; (split; unfold broken_total;
      cbn [set_pending pending_connects_ established_ connect_failed_ conns_ connect_fail_reasons_ broken_ broken_by_backend_ timeline_];
      rewrite ?(cnt_alter _ _ i _ _ Hc), ?Es; cbn [close set_state set_fd state]; rewrite ?sum_incr; try done; repeat (destruct (decide _); try congruence); try lia).
  - intros j c' _ Hj.
    assert (alter (λ c, close (set_state ConnectFailed c)) i (conns_ r) !! j = Some c') as Ha.
    { revert Hj. by destruct (state c). }
    apply lookup_alter_conn in Ha as [[<- (c0 & H0 & ->)] | [Hne H]]; [done |]. apply (F j); [congruence | done].
Qed.

Lemma fds_weaken x r : fds_but None r → fds_but x r.
Proof. intros F j c _. by apply F. Qed.

Lemma fail_idle i err r : state (conn r i) ≠ Idle → ∀ j c, conns_ r !! j = Some c → state c = Idle → conns_ (fail_connect i err r) !! j = Some c.
Proof.
  intros Hs j c Hj Hidle. assert (i ≠ j) by (intros ->; unfold conn in Hs; by rewrite Hj in Hs).
  unfold fail_connect. destruct (state (conn r i)); cbn; by rewrite list_lookup_alter_ne.
Qed.

Lemma fail_same i err r : length (conns_ (fail_connect i err r)) = length (conns_ r) ∧ o_ (fail_connect i err r) = o_ r ∧ t0_ (fail_connect i err r) = t0_ r.
Proof. unfold fail_connect. destruct (state (conn r i)); cbn; by rewrite length_alter. Qed.

Lemma fail_fine i err r : state (conn r i) = Connecting → fine r (fail_connect i err r).
Proof.
  intros Hs. assert (state (conn r i) ≠ Idle) as Hne by congruence. pose proof (conn_Some r i Hne) as Hi. destruct (fail_same i err r) as (L & O & T).
  split; [| exact L | by apply fail_idle | exact O | exact T].
  intros [B F]. apply fail_good; [by apply lookup_lt_Some in Hi | by left | done | by apply fds_weaken].
Qed.

Lemma conn_upd i f r : state (conn r i) ≠ Idle → conn (upd i f r) i = f (conn r i).
Proof. intros Hs. pose proof (conn_Some r i Hs) as Hi. unfold conn, upd at 1. cbn [conns_]. rewrite list_lookup_alter_eq, Hi. cbn. unfold conn. by rewrite Hi. Qed.

Lemma send_fine w i now r : state (conn r i) = Open → fine r (send_heartbeat w i now r).
Proof.
  intros Hs. assert (state (conn r i) ≠ Idle) as Hne by congruence. unfold send_heartbeat.
  eapply fine_trans; [by apply (upd_fine i (λ c, set_seq (seq_ c + 1) c)) |]. destruct w; [.. | apply break_fine]; (apply upd_fine; [by rewrite conn_upd | done]).
Qed.

Lemma on_connected_fine w i now r : fine r (on_connected w i now r).
Proof.
  unfold on_connected. destruct (state (conn r i)) eqn:Hs; try apply fine_refl. cbv zeta.
  assert (conns_ r !! i = Some (conn r i)) as Hi by (apply conn_Some; congruence).
  eapply fine_trans; [| apply send_fine].
  - split; try done.
    + intros [B F]. split.
      * destruct B as [B1 B2 B3 B4 B5 B6 B7 B8]. unfold broken_total in B5. split; unfold broken_total;
          cbn [set_pending pending_connects_ established_ connect_failed_ conns_ connect_fail_reasons_ broken_ broken_by_backend_ timeline_];
          rewrite ?(cnt_alter _ _ i _ _ Hi), ?Hs; cbn [set_next set_state state]; try done; repeat (destruct (decide _); try congruence); lia.
      * intros j c _ [[<- (c0 & H0 & ->)] | [_ H]]%lookup_alter_conn; [| by apply (F j)]. cbn.
        rewrite (F i c0 ltac:(done) H0). cbn in H0. rewrite Hi in H0. injection H0 as <-. by rewrite Hs.
    + cbn. apply length_alter.
    + intros j c Hj Hidle. cbn. rewrite list_lookup_alter_ne; [done |]. intros ->. assert (conn r j = c) by congruence. congruence.
  - unfold conn at 1. cbn [conns_ set_pending]. rewrite list_lookup_alter_eq, Hi. done.
Qed.

(** Reading and judging replies. *)
Lemma consume_loop_fine fuel i now r : fine r (consume_loop fuel i now r).2.
Proof.
  revert r. induction fuel as [| fuel IH]; intros r; cbn [consume_loop]; [apply fine_refl |].
  destruct (state (conn r i)) eqn:Hs; try apply fine_refl. destruct (Config.find _ _) as [pos |]; [| apply fine_refl].
  assert (state (conn r i) ≠ Idle) as Hne by congruence. cbv zeta. set (r1 := upd i (λ c, set_in _ c) r).
  assert (fine r r1) as H1 by (by apply upd_fine). assert (state (conn r1 i) = Open) as Hs1 by (unfold r1; by rewrite conn_upd).
  destruct (negb _); [by eapply fine_trans |]. set (r2 := upd i _ r1).
  assert (fine r r2) as H2 by (eapply fine_trans; [exact H1 | apply upd_fine; [congruence | done]]).
  assert (state (conn r2 i) = Open) as Hs2 by (unfold r2; rewrite conn_upd; congruence || done).
  destruct (_ <? 0).
  - eapply fine_trans; [exact H2 |]. eapply fine_trans; [| apply IH]. apply upd_fine; [congruence | done].
  - destruct (negb _); [eapply fine_trans; [exact H2 | apply break_fine] | by eapply fine_trans].
Qed.

Lemma consume_fine i now r : fine r (consume_lines i now r).
Proof.
  unfold consume_lines. pose proof (consume_loop_fine (S (length (in_ (conn r i)))) i now r) as H. destruct (consume_loop _ _ _ _) as [on r1].
  destruct (_ && _); [eapply fine_trans; [exact H | apply break_fine] | exact H].
Qed.

Lemma recv_fine l i r : state (conn r i) = Open → fine r (recv_loop l i r).2 ∧ state (conn (recv_loop l i r).2 i) = Open.
Proof.
  revert r. induction l as [| x l IH]; intros r Hs; [split; [apply fine_refl | done] |].
  destruct x as [chunk | | | | err]; cbn [recv_loop snd]; try (split; [apply fine_refl | done]); [| by apply IH].
  assert (state (conn r i) ≠ Idle) as Hne by congruence. destruct (IH (upd i (λ c, set_in (in_ c ++ chunk) c) r)) as [H1 H2]; [by rewrite conn_upd |].
  split; [| exact H2]. eapply fine_trans; [by apply (upd_fine i (λ c, set_in (in_ c ++ chunk) c)) | exact H1].
Qed.

Lemma handle_open_fine x i events now r : fine r (handle_open x i events now r).
Proof.
  unfold handle_open. destruct (state (conn r i)) eqn:Hs; try apply fine_refl. destruct (recv_fine (ev_recvs x) i r Hs) as [H _].
  destruct (recv_loop _ _ _) as [ended r1]. cbn [snd] in H. assert (fine r (consume_lines i now r1)) as H1 by (eapply fine_trans; [exact H | apply consume_fine]).
  assert (∀ cause, fine r (break_conn i cause now (consume_lines i now r1))) as Hb by (intros; eapply fine_trans; [exact H1 | apply break_fine]).
  destruct ended; try apply Hb; destruct (any _ _); try apply Hb; exact H1.
Qed.

Lemma handle_event_fine x i events now r : fine r (handle_event x i events now r).
Proof.
  unfold handle_event. destruct (state (conn r i)) eqn:Hs; try apply handle_open_fine.
  destruct (negb _); [by apply fail_fine |]. destruct (any events (Z.lor EPOLLOUT EPOLLIN)).
  - eapply fine_trans; [apply on_connected_fine | apply handle_open_fine].
  - destruct (any _ _); [by apply fail_fine | apply fine_refl].
Qed.

Lemma scan_one_fine sends now r i : fine r (scan_one sends now r i).
Proof.
  unfold scan_one. cbv zeta. destruct (state (conn r i)) eqn:Hs; try apply fine_refl.
  - destruct (_ <? _); [by apply fail_fine | apply fine_refl].
  - destruct (negb _); [destruct (_ <? _); [apply break_fine | apply fine_refl] |]. destruct (_ <=? _); [by apply send_fine | apply fine_refl].
Qed.

Lemma foldl_fine {A} (f : Runner → A → Runner) l r : (∀ r x, fine r (f r x)) → fine r (foldl f r l).
Proof. intros H. revert r. induction l as [| x l IH]; intros r; [apply fine_refl |]. eapply fine_trans; [apply H | apply IH]. Qed.

(** *** Lemmas: starting connections *)

Definition calls_ok (x : connect_calls) : Prop := ∀ f, cc_socket x = inr f → 0 <= f.

Lemma start_fine x i now r :
  calls_ok x → (i < length (conns_ r))%nat → state (conn r i) = Idle → good r →
  good (start_connect x i now r) ∧ length (conns_ (start_connect x i now r)) = length (conns_ r) ∧
  o_ (start_connect x i now r) = o_ r ∧ t0_ (start_connect x i now r) = t0_ r ∧
  ∀ j c, i ≠ j → conns_ r !! j = Some c → state c = Idle → conns_ (start_connect x i now r) !! j = Some c.
Proof.
  intros Hx Hlt Hs [B F]. destruct (lookup_lt_is_Some_2 _ _ Hlt) as [c0 Hc0]. assert (conn r i = c0) as E0 by (unfold conn; by rewrite Hc0). rewrite E0 in Hs.
  assert (∀ err j, i ≠ j → conns_ (fail_connect i err r) !! j = conns_ r !! j) as Hfail.
  { intros err j Hne. unfold fail_connect. rewrite E0, Hs. cbn. by rewrite list_lookup_alter_ne. }
  unfold start_connect. destruct (cc_socket x) as [err | f] eqn:Ex.
  { destruct (fail_same i err r) as (L & O & T). split; [apply fail_good; [done | right; congruence | done | by apply fds_weaken] |].
    split_and!; try done. intros j c Hne Hj _. by rewrite (Hfail err j Hne). }
  cbv zeta. set (r1 := upd i (λ c, set_start now (set_fd f c)) r). specialize (Hx f Ex).
  assert (conns_ r1 !! i = Some (set_start now (set_fd f c0))) as H1 by (cbn; by rewrite list_lookup_alter_eq, Hc0).
  assert (books r1) as B1.
  { assert (∀ st, cnt st (conns_ r1) = cnt st (conns_ r)) as Hc by (intros st; cbn; rewrite (cnt_alter st _ i _ _ Hc0); cbn; lia).
    destruct B. split; cbn [r1 upd pending_connects_ established_ connect_failed_]; rewrite ?Hc; done. }
  assert (fds_but (Some i) r1) as F1.
  { intros j c Hne [[<- _] | [_ H]]%lookup_alter_conn; [done | by apply (F j)]. }
  assert (length (conns_ r1) = length (conns_ r)) as L1 by (cbn; apply length_alter).
  assert (∀ j, i ≠ j → conns_ r1 !! j = conns_ r !! j) as O1 by (intros j Hne; cbn; by rewrite list_lookup_alter_ne).
  assert (state (conn r1 i) = Idle) as S1 by (unfold conn; by rewrite H1).
  set (r2 := set_pending (pending_connects_ r1 + 1) (upd i (set_state Connecting) r1)).
  assert (conns_ r2 !! i = Some (set_state Connecting (set_start now (set_fd f c0)))) as H2 by (cbn [r2 set_pending upd conns_]; by rewrite list_lookup_alter_eq, H1).
  assert (good r2) as G2.
  { split.
    - destruct B1 as [B1 B2 B3 B4 B5 B6 B7 B8]. unfold broken_total in B5. split; unfold broken_total;
        cbn [r2 set_pending upd pending_connects_ established_ connect_failed_ conns_ connect_fail_reasons_ broken_ broken_by_backend_ timeline_];
        rewrite ?(cnt_alter _ _ i _ _ H1); cbn [set_state set_start set_fd state]; rewrite ?Hs; try done; repeat (destruct (decide _); try congruence); lia.
    - intros j c _ [[<- (c1 & Hc1 & ->)] | [Hne H]]%lookup_alter_conn; [| apply (F1 j); [congruence | done]].
      rewrite H1 in Hc1. injection Hc1 as <-. cbn. lia. }
  assert (∀ j c, i ≠ j → conns_ r !! j = Some c → conns_ r2 !! j = Some c) as O2.
  { intros j c Hne Hj. cbn [r2 set_pending upd conns_]. rewrite list_lookup_alter_ne by done. by rewrite O1. }
  destruct (cc_connect x) as [err |].
  - destruct (negb (err =? EINPROGRESS)).
    + destruct (fail_same i err r1) as (L & O & T). split; [apply fail_good; [lia | by right | done | done] |]. split_and!; [congruence | done | done |].
      intros j c Hne Hj _. unfold fail_connect. rewrite S1. cbn [conns_]. rewrite list_lookup_alter_ne by done. by rewrite O1.
    + split; [exact G2 |]. split_and!; [cbn; by rewrite !length_alter | done | done |]. intros j c Hne Hj _. by apply O2.
  - destruct (on_connected_fine (cc_send x) i now r2) as [G L I O T]. split; [by apply G |]. split_and!; [rewrite L; cbn; by rewrite !length_alter | done | done |].
    intros j c Hne Hj Hidle. apply I; [by apply O2 | done].
Qed.

Lemma batch_fine fuel x now due idx r :
  (∀ i, calls_ok (x i)) → good r → (∀ j c, (idx <= j)%nat → conns_ r !! j = Some c → state c = Idle) →
  let '(idx', r') := connect_batch fuel x now due idx r in
  good r' ∧ length (conns_ r') = length (conns_ r) ∧ o_ r' = o_ r ∧ t0_ r' = t0_ r ∧
  ∀ j c, (idx' <= j)%nat → conns_ r' !! j = Some c → state c = Idle.
Proof.
  intros Hx. revert idx r. induction fuel as [| fuel IH]; intros idx r G Hidle; cbn [connect_batch]; [done |].
  destruct (Nat.ltb_spec idx (length (conns_ r))) as [Hlt | _]; [| done]. destruct (Z.of_nat idx <? due); [| done]. cbn [andb].
  destruct (lookup_lt_is_Some_2 _ _ Hlt) as [c0 Hc0].
  destruct (start_fine (x idx) idx now r (Hx idx) Hlt) as (G1 & L1 & O1 & T1 & I1); [unfold conn; rewrite Hc0; by apply (Hidle idx) | done |].
  specialize (IH (S idx) (start_connect (x idx) idx now r) G1). destruct (connect_batch _ _ _ _ _ _) as [idx' r']. destruct IH as (G2 & L2 & O2 & T2 & I2).
  - intros j c Hj Hc. destruct (lookup_lt_is_Some_2 (conns_ r) j) as [c1 Hc1]; [apply lookup_lt_Some in Hc; lia |].
    assert (conns_ (start_connect (x idx) idx now r) !! j = Some c1) as Hc2 by (apply I1; [lia | done | apply (Hidle j); [lia | done]]).
    rewrite Hc in Hc2. injection Hc2 as ->. apply (Hidle j); [lia | done].
  - split_and!; [done | congruence | congruence | congruence | done].
Qed.

Definition input_ok (x : Input) : Prop := ∀ i, calls_ok (in_connect x i).

(** Between the turns of the loop. *)
Record loop_inv (o : Options) (t0 : Z) (l : Loop) : Prop := {
  li_good : good (l_runner l);
  li_len : length (conns_ (l_runner l)) = Z.to_nat (connections o);
  li_o : o_ (l_runner l) = o;
  li_t0 : t0_ (l_runner l) = t0;
  li_idle : ∀ j c, (next_idx l <= j)%nat → conns_ (l_runner l) !! j = Some c → state c = Idle
}.

Lemma fine_inv o t0 l r nb bs ns sc :
  loop_inv o t0 l → fine (l_runner l) r → loop_inv o t0 (mk_loop r nb bs ns (next_idx l) sc).
Proof.
  intros [G L O T I] [FG FL FI FO FT]. split; cbn [l_runner next_idx]; [auto | congruence.. |].
  intros j c Hj Hc. destruct (lookup_lt_is_Some_2 (conns_ (l_runner l)) j) as [c1 Hc1]; [apply lookup_lt_Some in Hc; lia |].
  rewrite (FI j c1 Hc1 (I j c1 Hj Hc1)) in Hc. injection Hc as <-. by apply (I j).
Qed.

Lemma turn_books o t0 x l : input_ok x → loop_inv o t0 l → loop_inv o t0 (turn x l).2.
Proof.
  intros Hx Hl. unfold turn. cbv zeta.
  destruct (if _ : bool then _ else _) as [[[idx r1] nb] bs] eqn:E.
  assert (∀ ns sc, loop_inv o t0 (mk_loop r1 nb bs ns idx sc)) as H1.
  { intros ns sc. destruct Hl as [G L O T I]. destruct (_ && _) in E.
    - pose proof (batch_fine (length (conns_ (l_runner l))) (in_connect x) (in_now x)
        (Z.max 1 (connect_rate (o_ (l_runner l)) * (batches l + 1) * ramp_ms (o_ (l_runner l)) / 1000)) (next_idx l) (l_runner l) Hx G I) as H.
      destruct (connect_batch _ _ _ _ _ _) as [idx' r']. injection E as <- <- <- <-. destruct H as (G' & L' & O' & T' & I').
      split; cbn [l_runner next_idx]; [done | congruence.. | done].
    - injection E as <- <- <- <-. by split. }
  destruct (in_failed x); [apply H1 |]. cbn [snd].
  set (r2 := foldl _ r1 _). assert (fine r1 r2) as F2 by (apply foldl_fine; intros; apply handle_event_fine).
  assert (∀ r ns sc, fine r1 r → loop_inv o t0 (mk_loop r nb bs ns idx sc)) as H2.
  { intros r ns sc Hr. exact (fine_inv o t0 (mk_loop r1 nb bs ns idx sc) r nb bs ns sc (H1 ns sc) Hr). }
  destruct (next_scan l <=? in_later x); apply H2; [| exact F2].
  eapply fine_trans; [exact F2 |]. apply foldl_fine. intros. apply scan_one_fine.
Qed.

Lemma turns_books o t0 xs l : Forall input_ok xs → loop_inv o t0 l → loop_inv o t0 (turns xs l).
Proof.
  intros H. revert l. induction H as [| x xs Hx _ IH]; intros l Hl; cbn [turns]; [done |]. destruct (_ <=? _); [done |].
  pose proof (turn_books o t0 x l Hx Hl) as H. destruct (turn x l) as [[] l']; [by apply IH | done].
Qed.

Lemma new_inv o t0 sc : 0 < duration_s o → loop_inv o t0 (mk_loop (started o t0) t0 0 t0 0 sc).
Proof.
  intros Hd. assert (∀ st n, st ≠ Idle → cnt st (replicate n new_conn) = 0) as Hc.
  { intros st n Hst. induction n as [| n IH]; [done |]. cbn [replicate]. rewrite cnt_cons, IH. cbn. by rewrite decide_False by congruence. }
  split; cbn [l_runner next_idx started conns_ o_ t0_]; try done.
  - split.
    + split; cbn [started pending_connects_ established_ connect_failed_ conns_ connect_fail_reasons_ broken_ broken_by_backend_ timeline_]; rewrite ?Hc; try done.
      * split_and!; [done | by destruct (Z.to_nat (duration_s o + 2)) eqn:E; [lia |] | apply Forall_replicate; done].
      * intros k Hk. rewrite lookup_replicate_2 by done. f_equal. generalize (Z.to_nat (duration_s o + 2)). intros n. induction n as [| n IH]; [done |].
        cbn [replicate column foldr]. rewrite lookup_replicate_2 by done. cbn. exact IH.
    + intros j c _ [-> _]%lookup_replicate. done.
  - apply length_replicate.
  - by intros j c _ [-> _]%lookup_replicate.
Qed.

(** *** Lemmas: totals and replies *)

Lemma snapshot_sum r : sum_counts (take_snapshot r) = cnt Open (conns_ r).
Proof.
  unfold take_snapshot. assert (∀ l m, sum_counts (foldl (λ out c, if is_open c then incr (backend c) out else out) m l) = sum_counts m + cnt Open l) as H.
  { intros l. induction l as [| c l IH]; intros m; cbn [foldl]; [unfold cnt; cbn; lia |]. rewrite IH, cnt_cons. unfold is_open.
    destruct (state c); rewrite ?sum_incr; repeat (destruct (decide _); try done); lia. }
  rewrite H. done.
Qed.

Lemma cnt_total l : Z.of_nat (length l) = cnt Idle l + cnt Connecting l + cnt Open l + cnt Broken l + cnt ConnectFailed l.
Proof. induction l as [| c l IH]; [done |]. cbn [length]. rewrite !cnt_cons. destruct (state c); repeat (destruct (decide _); try done); lia. Qed.

Lemma cnt_close st l : cnt st (close <$> l) = cnt st l.
Proof. induction l as [| c l IH]; [done |]. rewrite fmap_cons, !cnt_cons, IH. done. Qed.

Lemma break_state i cause now r : state (conn r i) = Open → state (conn (break_conn i cause now r) i) = Broken.
Proof.
  intros Hs. assert (conns_ r !! i = Some (conn r i)) as Hi by (apply conn_Some; congruence). unfold break_conn. rewrite Hs. cbv zeta.
  unfold conn at 1. cbn [conns_]. by rewrite list_lookup_alter_eq, Hi.
Qed.

(** An accepted command line has positive numbers throughout. *)
Lemma parse_ok args o :
  parse args = Go o →
  0 < connections o ∧ 0 < duration_s o ∧ 0 < heartbeat_ms o ∧ 0 < connect_rate o ∧ 0 < ramp_ms o ∧ 0 < timeout_ms o ∧
  0 < connect_timeout_ms o ∧ 1 <= vip_port o <= 65535 ∧ vip_host o ≠ [].
Proof.
  intros (o1 & _ & H)%bind_Go. destruct (_ || _) eqn:E in H; [done |]. injection H as ->.
  repeat (apply orb_false_iff in E as [E ?]). apply bool_decide_eq_false in E. split_and!; try lia. done.
Qed.

(** The host is a part of an argument. *)
Lemma set_options_host (P : str → Prop) args o o' :
  (∀ a c, a ∈ args → P (take c a)) → P (vip_host o) → set_options args o = Go o' → P (vip_host o').
Proof.
  remember (length args) as n eqn:En. revert args o En. induction n as [n IH] using lt_wf_ind. intros args o -> Ha Ho H.
  destruct args as [| a args]; [by injection H as <- |]. cbn [set_options] in H.
  assert (∀ b c, b ∈ args → P (take c b)) as Ha' by (intros b c Hb; by apply Ha, list_elem_of_further).
  destruct (bool_decide (a = §"--quiet")).
  { eapply (IH (length args)); [cbn; lia | reflexivity | exact Ha' | | exact H]. by destruct o. }
  destruct args as [| v args]; [done |]. destruct (set_option a v o) as [o1 |] eqn:E; [| done].
  eapply (IH (length args)); [cbn; lia | reflexivity | | | exact H].
  { intros b c Hb. by apply Ha', list_elem_of_further. }
  destruct o. unfold set_option in E. repeat case_match; try done; injection E as <-; cbn [vip_host] in *; try done.
  apply Ha', list_elem_of_here.
Qed.

(** The arguments are C strings, and the host is an address: what is accepted is
    written with digits and dots. *)
Lemma program_inv args t0 xs rp :
  program args t0 xs = Go rp → Forall (λ a, Ascii.zero ∉ a) args →
  ∃ o a, parse args = Go o ∧ vip_host o = VipSpec.ipv4_to_string a ∧ rp = run o t0 xs.
Proof.
  intros (o & Hp & (r & Hr & [= <-])%bind_Go)%bind_Go Hz. unfold new_runner in Hr.
  destruct (Libc.inet_pton (vip_host o)) as [a |] eqn:Ea; [| done]. injection Hr as <-. exists o, a. split_and!; [done | | done].
  assert (Ascii.zero ∉ vip_host o) as Hn.
  { unfold parse in Hp. apply bind_Go in Hp as (o1 & H1 & H2). destruct (_ || _) in H2; [done |]. injection H2 as <-.
    eapply (set_options_host (λ s, Ascii.zero ∉ s)); [| | exact H1]; [| by apply not_elem_of_nil].
    intros b c Hb Hin. rewrite Forall_forall in Hz. apply (Hz b Hb). rewrite <-(take_drop c b). apply elem_of_app. by left. }
  unfold Libc.inet_pton in Ea. rewrite RealTable.Mac.c_str_id in Ea by done.
  destruct (VipSpec.parse_ipv4 (vip_host o)) as [a' |]; [| done]. case_bool_decide as E; [| done]. by injection Ea as <-.
Qed.

(** A reply, and the id a connection expects. *)
Definition reply (id : Z) : str := §"id=" ++ VipSpec.to_string id ++ [ApiServer.nl].
Definition expected (b : Z) (ids : list Z) : Z := if b <? 0 then hd 0 ids else b.

Lemma atoi_dec k : 0 <= k < 2 ^ 31 → atoi (VipSpec.to_string k) = k.
Proof.
  intros Hk. destruct (VipSpec.to_string_spec k 20) as (Hd & Hne & Hv & _); [lia | lia |]. unfold atoi.
  rewrite <-(app_nil_r (VipSpec.to_string k)), Libc.strto_dec, Hv by done. rewrite Z.min_r, Z.max_r, Z.mod_small; lia.
Qed.

Lemma reply_line k rest :
  0 <= k < 2 ^ 31 →
  Config.find ApiServer.nl (reply k ++ rest) = Some (length (§"id=" ++ VipSpec.to_string k)) ∧
  take (length (§"id=" ++ VipSpec.to_string k)) (reply k ++ rest) = §"id=" ++ VipSpec.to_string k ∧
  drop (length (§"id=" ++ VipSpec.to_string k) + 1) (reply k ++ rest) = rest.
Proof.
  intros Hk. destruct (VipSpec.to_string_spec k 20) as (Hd & _); [lia | lia |].
  assert (reply k ++ rest = (§"id=" ++ VipSpec.to_string k) ++ ApiServer.nl :: rest) as ->.
  { unfold reply. by rewrite <-!app_assoc. }
  split_and!.
  - apply Config.find_app. apply not_elem_of_app. split; [apply (bool_decide_unpack _); vm_compute; exact I | by apply VipSpec.digits_not_elem].
  - apply take_app_length.
  - by rewrite drop_app_add.
Qed.

(** The turns allowed to the loop are enough: it ends because the connection is
    broken or no complete line is left. *)
Lemma consume_ends fuel i now r :
  (length (in_ (conn r i)) < fuel)%nat →
  let '(on, r') := consume_loop fuel i now r in on = true → state (conn r' i) ≠ Open ∨ ApiServer.nl ∉ in_ (conn r' i).
Proof.
  revert r. induction fuel as [| fuel IH]; intros r Hf; [lia |]. cbn [consume_loop]. destruct (state (conn r i)) eqn:Hs; try (intros _; left; congruence).
  assert (state (conn r i) ≠ Idle) as Hne by congruence.
  destruct (Config.find ApiServer.nl (in_ (conn r i))) as [pos |] eqn:E; [| intros _; right; by apply ApiServer.find_None].
  apply ApiServer.find_Some in E as [_ E]. assert (length (drop (pos + 1) (in_ (conn r i))) < fuel)%nat as Hlt.
  { rewrite E, length_app in Hf. cbn [length] in Hf. rewrite length_drop in *. lia. }
  cbv zeta. set (r1 := upd i (λ c, set_in _ c) r). assert (conn r1 i = set_in (drop (pos + 1) (in_ (conn r i))) (conn r i)) as C1 by (unfold r1; by rewrite conn_upd).
  assert (state (conn r1 i) ≠ Idle) as Hne1 by (rewrite C1; cbn; congruence).
  destruct (negb _); [apply IH; by rewrite C1 |]. set (r2 := upd i _ r1). assert (in_ (conn r2 i) = in_ (conn r1 i)) as I2 by (unfold r2; by rewrite conn_upd).
  assert (state (conn r2 i) ≠ Idle) as Hne2 by (unfold r2; by rewrite conn_upd).
  destruct (_ <? 0); [apply IH; rewrite conn_upd by done; cbn; by rewrite I2, C1 |]. destruct (negb _); [done |]. apply IH. by rewrite I2, C1.
Qed.

Lemma consume_replies ids rest fuel i now r :
  state (conn r i) = Open → in_ (conn r i) = (ids ≫= reply) ++ rest → ApiServer.nl ∉ rest →
  Forall (λ k, 0 <= k < 2 ^ 31) ids → (length ids < fuel)%nat →
  let '(on, r') := consume_loop fuel i now r in
  if forallb (Z.eqb (expected (backend (conn r i)) ids)) ids
  then on = true ∧ state (conn r' i) = Open ∧ in_ (conn r' i) = rest ∧ backend (conn r' i) = match ids with [] => backend (conn r i) | _ => expected (backend (conn r i)) ids end
  else on = false ∧ state (conn r' i) = Broken.
Proof.
  intros Hs Hin Hnl Hids. revert fuel r Hs Hin. induction Hids as [| k ids Hk Hids IH]; intros fuel r Hs Hin Hf; (destruct fuel as [| fuel]; [cbn in Hf; lia |]); cbn [consume_loop]; rewrite Hs.
  - cbn [mbind list_bind app] in Hin. rewrite Hin. destruct (Config.find ApiServer.nl rest) as [j |] eqn:E; [| done].
    apply ApiServer.find_Some in E as [_ E]. destruct Hnl. rewrite E. apply elem_of_app. right. apply list_elem_of_here.
  - cbn [mbind list_bind] in Hin. change (ids ≫= reply) with (ids ≫= reply) in Hin. rewrite <-app_assoc in Hin.
    destruct (reply_line k ((ids ≫= reply) ++ rest) Hk) as (E1 & E2 & E3). rewrite Hin, E1, E2. cbv zeta.
    rewrite Libc.starts_with_app. cbn [negb].
    set (r1 := upd i (λ c, set_in (drop (length (§"id=" ++ VipSpec.to_string k) + 1) (in_ c)) c) r).
    assert (state (conn r i) ≠ Idle) as Hne by congruence.
    assert (conn r1 i = set_in ((ids ≫= reply) ++ rest) (conn r i)) as C1 by (unfold r1; rewrite conn_upd by done; by rewrite Hin, E3).
    assert (state (conn r1 i) = Open) as Hs1 by (by rewrite C1).
    set (r2 := upd i (λ c, set_next (now + heartbeat_ms (o_ r1)) (set_sent 0 c)) r1).
    assert (conn r2 i = set_next (now + heartbeat_ms (o_ r1)) (set_sent 0 (conn r1 i))) as C2 by (unfold r2; rewrite conn_upd by congruence; done).
    assert (state (conn r2 i) = Open) as Hs2 by (by rewrite C2). change (drop 3 (§"id=" ++ VipSpec.to_string k)) with (VipSpec.to_string k).
    rewrite atoi_dec by done. assert (backend (conn r2 i) = backend (conn r i)) as Hb by (by rewrite C2, C1). rewrite Hb.
    assert (in_ (conn r2 i) = (ids ≫= reply) ++ rest) as Hin2 by (by rewrite C2, C1).
    unfold expected at 1 2. destruct (Z.ltb_spec (backend (conn r i)) 0) as [Hneg | Hpos]; cbn [hd forallb].
    + set (r3 := upd i (set_backend k) r2). assert (conn r3 i = set_backend k (conn r2 i)) as C3 by (unfold r3; by rewrite conn_upd by congruence).
      specialize (IH fuel r3). rewrite C3 in IH. cbn [set_backend state in_ backend] in IH. specialize (IH Hs2 Hin2 ltac:(cbn in Hf; lia)).
      assert (expected k ids = k) as Ek by (unfold expected; destruct (Z.ltb_spec k 0); [lia | done]). rewrite Ek in IH. rewrite Z.eqb_refl. cbn [andb].
      destruct (consume_loop fuel i now r3) as [on r']. destruct (forallb (Z.eqb k) ids); [| exact IH].
      destruct IH as (I1 & I2 & I3 & I4). split_and!; try done. rewrite I4. by destruct ids.
    + rewrite Z.eqb_sym. destruct (Z.eqb_spec (backend (conn r i)) k) as [Ek | Hk']; cbn [negb andb]; [| split; [done | by apply break_state]].
      specialize (IH fuel r2 Hs2 Hin2 ltac:(cbn in Hf; lia)). rewrite Hb in IH. assert (∀ l, expected (backend (conn r i)) l = backend (conn r i)) as Ee.
      { intros l. unfold expected. destruct (Z.ltb_spec (backend (conn r i)) 0); [lia | done]. }
      rewrite !Ee in *. destruct (consume_loop fuel i now r2) as [on r']. destruct (forallb _ ids); [| exact IH].
      destruct IH as (I1 & I2 & I3 & I4). split_and!; try done. rewrite I4. by destruct ids.
Qed.

(** ** Theorems *)

(** The report adds up. On every command line that is accepted, whatever the sockets, the clock and the events do, at
    the end every connection is in one of five states and the counters agree with
    them: established ones have survived or are broken, the broken ones are broken
    down by cause, by second and by backend to the same total, the failed connects
    by reason; and every socket is closed. *)
Theorem conncheck_accounts (args : list str) (o : Options) (t0 : Z) (xs : list Input) :
  parse args = Go o → Forall input_ok xs →
  let rp := run o t0 xs in
  let r := rp_runner rp in
  connections o = cnt Idle (conns_ r) + cnt Connecting (conns_ r) + connect_failed_ r + established_ r ∧
  established_ r = rp_survived rp + broken_total r ∧
  pending_connects_ r = cnt Connecting (conns_ r) ∧ rp_survived rp = cnt Open (conns_ r) ∧ broken_total r = cnt Broken (conns_ r) ∧
  sum_counts (connect_fail_reasons_ r) = connect_failed_ r ∧ sum_counts (broken_by_backend_ r) = broken_total r ∧
  (∀ k, (k < kNumCauses)%nat → broken_ r !! k = Some (column k (timeline_ r))) ∧
  Forall (λ c, fd c = -1) (conns_ r).
Proof.
  intros (Hn & Hd & _)%parse_ok Hxs. pose proof (turns_books o t0 xs _ Hxs (new_inv o t0 None Hd)) as H. unfold run. cbv zeta.
  destruct (turns xs _) as [r nb bs ns idx sc]. destruct H as [[B _] L _ _ _]. cbn [l_runner] in *.
  cbn [rp_runner rp_survived conns_ connect_failed_ established_ pending_connects_ connect_fail_reasons_ broken_by_backend_ broken_ timeline_].
  change (broken_total (mk_runner _ _ _ _ _ _ _ _ _ _)) with (broken_total r). rewrite !cnt_close, snapshot_sum. assert (connections o = Z.of_nat (length (conns_ r))) as -> by lia.
  pose proof (cnt_total (conns_ r)). destruct B as [B1 B2 B3 B4 B5 B6 _ B8]. split_and!; try lia; try done. apply Forall_fmap, Forall_true. done.
Qed.

(** A connection is broken as wrong_backend exactly when it should be. With
    replies id=k buffered, it stays open, and its buffer empty but for a partial
    line, if and only if every k is the id it expects, its first one or the one it
    had, and the partial line is at most 4096 bytes long; else it is broken. *)
Theorem wrong_backend_detected (i : nat) (now : Z) (r : Runner) (ids : list Z) (rest : str) :
  state (conn r i) = Open → in_ (conn r i) = (ids ≫= reply) ++ rest → ApiServer.nl ∉ rest → Forall (λ k, 0 <= k < 2 ^ 31) ids →
  let r' := consume_lines i now r in
  (state (conn r' i) = Open ↔
     (∀ k, k ∈ ids → k = expected (backend (conn r i)) ids) ∧ Z.of_nat (length rest) <= 4096) ∧
  (state (conn r' i) = Open → in_ (conn r' i) = rest ∧
     backend (conn r' i) = match ids with [] => backend (conn r i) | _ => expected (backend (conn r i)) ids end) ∧
  (state (conn r' i) ≠ Open → state (conn r' i) = Broken).
Proof.
  intros Hs Hin Hnl Hids. cbv zeta. unfold consume_lines.
  assert (length ids < S (length (in_ (conn r i))))%nat as Hf.
  { rewrite Hin, length_app. assert (length ids <= length (ids ≫= reply))%nat; [| lia]. clear. induction ids as [| k ids IH]; [done |].
    cbn [mbind list_bind]. rewrite length_app. unfold reply at 1. rewrite !length_app. cbn [length] in *. change (mbind reply ids) with (ids ≫= reply) in *. lia. }
  pose proof (consume_replies ids rest _ i now r Hs Hin Hnl Hids Hf) as H. destruct (consume_loop _ i now r) as [on r1].
  destruct (forallb _ ids) eqn:E.
  - destruct H as (-> & S1 & I1 & B1). cbn [andb]. rewrite I1. rewrite forallb_forall in E.
    assert (∀ k, k ∈ ids → k = expected (backend (conn r i)) ids) as Hall by (intros k Hk; symmetry; apply Z.eqb_eq, E; by apply list_elem_of_In).
    destruct (Z.ltb_spec 4096 (Z.of_nat (length rest))) as [Hl | Hl].
    + pose proof (break_state i kWrongBackend now r1 S1) as Hb. rewrite Hb. split_and!; [split; [done | lia] | done | done].
    + split_and!; [done | done | done].
  - destruct H as [-> S1]. cbn [andb]. rewrite S1. split_and!; [split; [done |] | done | done].
    intros [Hall _]. exfalso. apply not_true_iff_false in E. apply E, forallb_forall. intros k Hk. apply Z.eqb_eq. symmetry. apply Hall. by apply list_elem_of_In.
Qed.

(** ** Witnesses *)

Definition demo_args : list str :=
  [§"--vip"; §"198.51.100.1:7000"; §"--connections"; §"2"; §"--duration-s"; §"1"; §"--quiet"].
Definition demo_options : Options := mk_options §"198.51.100.1" 7000 2 100 1 5000 100 2000 5000 [] true.
Definition demo_input : Input :=
  mk_input 0 (λ i, mk_connect_calls (inr (Z.of_nat i)) None (if (i =? 0)%nat then SentAll else SentErr EPIPE)) false 3 [] (λ _, SentAll).

Lemma conncheck_accounts_witness :
  let rp := run demo_options 0 [demo_input] in
  established_ (rp_runner rp) = 2 ∧ established_ (rp_runner rp) = rp_survived rp + broken_total (rp_runner rp).
Proof.
  destruct (conncheck_accounts demo_args demo_options 0 [demo_input]) as (_ & H & _).
  - vm_compute. reflexivity.
  - apply Forall_singleton. intros i f [= <-]. apply Zle_0_nat.
  - split; [vm_compute; reflexivity | exact H].
Defined.

Definition open_conn : Conn := mk_conn 5 Open (-1) 0 1 0 1 ([3; 4] ≫= reply).
Definition open_runner : Runner :=
  mk_runner demo_options [open_conn] 0 0 1 0 ∅ (replicate kNumCauses 0) ∅ [replicate kNumCauses 0].

Lemma wrong_backend_detected_witness : state (conn (consume_lines 0 7 open_runner) 0) ≠ Open.
Proof.
  destruct (wrong_backend_detected 0 7 open_runner [3; 4] []) as [H _].
  - reflexivity.
  - vm_compute. reflexivity.
  - apply not_elem_of_nil.
  - repeat constructor; discriminate.
  - intros Hs. apply H in Hs as [Hs _]. specialize (Hs 4 ltac:(apply list_elem_of_further, list_elem_of_here)). discriminate Hs.
Defined.

End Conncheck.
