(* ===== verification/ConncheckReport.v ===== *)
(** * conncheck's report (tools/conncheck/conncheck.cpp, Runner::report)

    The JSON file and the line on the standard output, as they are printed. The
    texts of errno and printf's rounding of x / 1000.0 are arguments. *)

From Stdlib Require Import ZArith Lia Ascii String.
From S2P Require Import Prelude VipSpec Control LbState LbInv Libc JsonText Conncheck.

Module ConncheckReport.
Import JsonText Conncheck.

Section report.
Context (strerror : Z → str) (fixed : nat → Z → str).

Definition nl : str := [newline].
Definition kCauseName : list str := [§"rst"; §"eof"; §"timeout"; §"wrong_backend"].

Definition backend_name (id : Z) : str := if id <? 0 then §"unknown" else VipSpec.to_string id.

(** fprintf(f, "%s\"%s\": %llu", first ? "" : ", ", name, n) for each *)
Fixpoint write_entries (first : bool) (l : list (str * Z)) : str :=
  match l with
  | [] => []
  | (k, n) :: l => (if first then [] else §", ") ++ str_text k ++ §": " ++ VipSpec.to_string n ++ write_entries false l
  end.

(** A std::map in its order. *)
Definition entries (name : Z → str) (m : gmap Z Z) : list (str * Z) := (λ k, (name k, default 0 (m !! k))) <$> LbState.addr_keys m.

Definition write_counts (m : gmap Z Z) : str := §"{" ++ write_entries true (entries backend_name m) ++ §"}".

Definition causes (row : list Z) : list (str * Z) := zip kCauseName row.

(** ** The timeline *)

Definition row (t : list (list Z)) (s : nat) : list Z := default [] (t !! s).

(** The last second in which a connection broke: if (v) last = s; *)
Definition later (t : list (list Z)) (last s : nat) : nat := if existsb (λ v, negb (v =? 0)) (row t s) then s else last.
Definition last_row (t : list (list Z)) : nat := foldl (later t) 0%nat (seq 0 (length t)).

(** for (size_t s = 0; s <= last && s < timeline_.size(); ++s) *)
Definition rows (t : list (list Z)) : list nat := seq 0 (Nat.min (S (last_row t)) (length t)).

Definition row_entries (t : list (list Z)) (s : nat) : list (str * Z) :=
  (§"t", Z.of_nat s) :: (§"broken", foldr Z.add 0 (row t s)) :: causes (row t s).

Definition write_row (t : list (list Z)) (s : nat) : str :=
  (if (s =? 0)%nat then [] else §",") ++ nl ++ §"    {" ++ write_entries true (row_entries t s) ++ §"}".

(** ** The file and the line *)

Definition report_json (rp : Report) (elapsed_ms ramp_done_ms : Z) : str :=
  let r := rp_runner rp in
  let o := o_ r in
  let llu := VipSpec.to_string in
  §"{" ++ nl ++
  §"  " ++ str_text §"vip" ++ §": " ++ str_text (vip_host o ++ §":" ++ dec (vip_port o)) ++ §"," ++ nl ++
  §"  " ++ str_text §"heartbeat_ms" ++ §": " ++ dec (heartbeat_ms o) ++ §"," ++ nl ++
  §"  " ++ str_text §"timeout_ms" ++ §": " ++ dec (timeout_ms o) ++ §"," ++ nl ++
  §"  " ++ str_text §"duration_s" ++ §": " ++ fixed 3 elapsed_ms ++ §"," ++ nl ++
  §"  " ++ str_text §"ramp_complete_s" ++ §": " ++ fixed 3 ramp_done_ms ++ §"," ++ nl ++
  §"  " ++ str_text §"total" ++ §": " ++ dec (connections o) ++ §"," ++ nl ++
  §"  " ++ str_text §"established" ++ §": " ++ llu (established_ r) ++ §"," ++ nl ++
  §"  " ++ str_text §"connect_failed" ++ §": " ++ llu (connect_failed_ r) ++ §"," ++ nl ++
  §"  " ++ str_text §"connect_fail_reasons" ++ §": {" ++ write_entries true (entries strerror (connect_fail_reasons_ r)) ++ §"}," ++ nl ++
  §"  " ++ str_text §"broken" ++ §": " ++ llu (broken_total r) ++ §"," ++ nl ++
  §"  " ++ str_text §"broken_by_cause" ++ §": {" ++ write_entries true (causes (broken_ r)) ++ §"}," ++ nl ++
  §"  " ++ str_text §"survived" ++ §": " ++ llu (rp_survived rp) ++ §"," ++ nl ++
  §"  " ++ str_text §"backends_at_start" ++ §": " ++ write_counts (rp_start rp) ++
  §"," ++ nl ++ §"  " ++ str_text §"backends_at_end" ++ §": " ++ write_counts (rp_end rp) ++
  §"," ++ nl ++ §"  " ++ str_text §"broken_by_backend" ++ §": " ++ write_counts (broken_by_backend_ r) ++
  §"," ++ nl ++ §"  " ++ str_text §"timeline" ++ §": [" ++ mjoin (write_row (timeline_ r) <$> rows (timeline_ r)) ++
  nl ++ §"  ]" ++ nl ++ §"}" ++ nl.

Definition report_line (rp : Report) (elapsed_ms : Z) : str :=
  let r := rp_runner rp in
  let llu := VipSpec.to_string in
  let b k := llu (default 0 (broken_ r !! cause_index k)) in
  §"conncheck: total=" ++ dec (connections (o_ r)) ++ §" established=" ++ llu (established_ r) ++ §" broken=" ++ llu (broken_total r) ++
  §" (rst=" ++ b kRst ++ §" eof=" ++ b kEof ++ §" timeout=" ++ b kTimeout ++ §" wrong_backend=" ++ b kWrongBackend ++
  §") survived=" ++ llu (rp_survived rp) ++ §" connect_failed=" ++ llu (connect_failed_ r) ++ §" duration=" ++ fixed 1 elapsed_ms ++ §"s" ++ nl.

(** The contents of the file, where one was asked for and opens, and the line. *)
Definition report (opens : bool) (rp : Report) (elapsed_ms ramp_done_ms : Z) : option str * str :=
  (if negb (bool_decide (json_path (o_ (rp_runner rp)) = [])) && opens then Some (report_json rp elapsed_ms ramp_done_ms) else None,
   report_line rp elapsed_ms).

(** ** What the file says *)

Definition counts_tree (l : list (str * Z)) : value := TObj ((λ kn, (kn.1, TNum (VipSpec.to_string kn.2))) <$> l).

Definition report_tree (rp : Report) (elapsed_ms ramp_done_ms : Z) : value :=
  let r := rp_runner rp in
  let o := o_ r in
  let num n := TNum (VipSpec.to_string n) in
  TObj
    [(§"vip", TStr (vip_host o ++ §":" ++ dec (vip_port o)));
     (§"heartbeat_ms", TNum (dec (heartbeat_ms o)));
     (§"timeout_ms", TNum (dec (timeout_ms o)));
     (§"duration_s", TNum (fixed 3 elapsed_ms));
     (§"ramp_complete_s", TNum (fixed 3 ramp_done_ms));
     (§"total", TNum (dec (connections o)));
     (§"established", num (established_ r));
     (§"connect_failed", num (connect_failed_ r));
     (§"connect_fail_reasons", counts_tree (entries strerror (connect_fail_reasons_ r)));
     (§"broken", num (broken_total r));
     (§"broken_by_cause", counts_tree (causes (broken_ r)));
     (§"survived", num (rp_survived rp));
     (§"backends_at_start", counts_tree (entries backend_name (rp_start rp)));
     (§"backends_at_end", counts_tree (entries backend_name (rp_end rp)));
     (§"broken_by_backend", counts_tree (entries backend_name (broken_by_backend_ r)));
     (§"timeline", TArr (counts_tree ∘ row_entries (timeline_ r) <$> rows (timeline_ r)))].

(** ** Lemmas *)

Definition entry_texts (a : str) (l : list (str * Z)) : list str :=
  match l with
  | [] => []
  | kn :: l => member_text a kn.1 (VipSpec.to_string kn.2) :: ((λ kn, member_text §" " kn.1 (VipSpec.to_string kn.2)) <$> l)
  end.

Lemma entries_commas first l : l ≠ [] →
  write_entries first l = (if first then [] else §",") ++ commas (entry_texts (if first then [] else §" ") l).
Proof.
  revert first. induction l as [| [k n] l IH]; intros first Hl; [done |]. cbn [write_entries entry_texts fmap list_fmap].
  destruct l as [| kn l].
  - cbn [write_entries commas list_fmap]. unfold member_text. rewrite !app_nil_r. by destruct first.
  - rewrite (IH false) by done. cbn [entry_texts fmap list_fmap fst snd]. set (m := member_text §" " _ _). set (ms := _ <$> l).
    change (commas (?x :: m :: ms)) with (x ++ ","%char :: commas (m :: ms)). unfold member_text. destruct first; repeat (rewrite <-!app_assoc || cbn [app]); done.
Qed.

Lemma counts_written l : Forall (λ kn, all is_plain kn.1) l → writes (counts_tree l) (§"{" ++ write_entries true l ++ §"}").
Proof.
  intros Hl. destruct l as [| kn l]; [apply (w_obj_empty []); constructor |]. rewrite entries_commas by done.
  apply (obj_written _ _ []); [| constructor]. apply members_commas; [| done]. apply Forall_cons in Hl as [Hk Hl].
  cbn [counts_tree entry_texts fmap list_fmap]. constructor.
  - apply member_written; [constructor | done | apply num_written].
  - clear Hk. induction Hl as [| x l Hx _ IH]; cbn [fmap list_fmap]; [constructor |]. constructor; [| done]. apply member_written; [by repeat constructor | done | apply num_written].
Qed.

Definition row_text (t : list (list Z)) (s : nat) : str := nl ++ §"    " ++ (§"{" ++ write_entries true (row_entries t s) ++ §"}").

Lemma rows_commas t n k : mjoin (write_row t <$> seq k (S n)) = (if (k =? 0)%nat then [] else §",") ++ commas (row_text t <$> seq k (S n)).
Proof.
  revert k. induction n as [| n IH]; intros k.
  - cbn [seq fmap list_fmap mjoin list_join commas]. unfold write_row, row_text. rewrite app_nil_r. by repeat rewrite <-!app_assoc.
  - change (mjoin (write_row t <$> seq k (S (S n)))) with (write_row t k ++ mjoin (write_row t <$> seq (S k) (S n))). rewrite IH.
    change (commas (row_text t <$> seq k (S (S n)))) with (row_text t k ++ ","%char :: commas (row_text t <$> seq (S k) (S n))).
    generalize (commas (row_text t <$> seq (S k) (S n))). intros x. unfold write_row, row_text. repeat (rewrite <-!app_assoc || cbn [app Nat.eqb]). done.
Qed.

Lemma plain_causes l : Forall (λ kn : str * Z, all is_plain kn.1) (causes l).
Proof.
  unfold causes, kCauseName. destruct l as [| ? l]; [constructor |]. destruct l as [| ? l]; [|destruct l as [| ? l]; [| destruct l]].
  all: repeat constructor.
Qed.

Lemma plain_entries name m : (∀ k, all is_plain (name k)) → Forall (λ kn : str * Z, all is_plain kn.1) (entries name m).
Proof. intros Hn. unfold entries. apply Forall_fmap, Forall_true. intros k. apply Hn. Qed.

Lemma plain_backend id : all is_plain (backend_name id).
Proof. unfold backend_name. destruct (id <? 0); [by repeat constructor | apply to_string_plain]. Qed.

Lemma timeline_written t :
  writes (TArr (counts_tree ∘ row_entries t <$> rows t)) (§"[" ++ mjoin (write_row t <$> rows t) ++ (nl ++ §"  ") ++ §"]").
Proof.
  unfold rows. destruct (Nat.min (S (last_row t)) (length t)) as [| n]; [apply (w_arr_empty (nl ++ §"  ")); by repeat constructor |].
  rewrite rows_commas. apply arr_written; [| by repeat constructor]. apply items_commas; [| done]. apply Forall2_fmap, Forall_Forall2_diag, Forall_true.
  intros s. unfold row_text. rewrite app_assoc, <-(app_nil_r (§"{" ++ _)). apply t_one; [by repeat constructor | | constructor].
  apply counts_written. constructor; [by repeat constructor |]. constructor; [by repeat constructor |]. apply plain_causes.
Qed.

(** The members of the file, each on its line. *)
Definition report_lines (rp : Report) (elapsed_ms ramp_done_ms : Z) : list (str * str) :=
  let r := rp_runner rp in
  let o := o_ r in
  let llu := VipSpec.to_string in
  [(§"vip", str_text (vip_host o ++ §":" ++ dec (vip_port o))); (§"heartbeat_ms", dec (heartbeat_ms o)); (§"timeout_ms", dec (timeout_ms o));
   (§"duration_s", fixed 3 elapsed_ms); (§"ramp_complete_s", fixed 3 ramp_done_ms); (§"total", dec (connections o));
   (§"established", llu (established_ r)); (§"connect_failed", llu (connect_failed_ r));
   (§"connect_fail_reasons", §"{" ++ write_entries true (entries strerror (connect_fail_reasons_ r)) ++ §"}");
   (§"broken", llu (broken_total r)); (§"broken_by_cause", §"{" ++ write_entries true (causes (broken_ r)) ++ §"}");
   (§"survived", llu (rp_survived rp)); (§"backends_at_start", write_counts (rp_start rp)); (§"backends_at_end", write_counts (rp_end rp));
   (§"broken_by_backend", write_counts (broken_by_backend_ r));
   (§"timeline", §"[" ++ mjoin (write_row (timeline_ r) <$> rows (timeline_ r)) ++ (nl ++ §"  ") ++ §"]")].

Lemma report_text rp e d :
  report_json rp e d = (§"{" ++ commas ((λ ks, member_text (nl ++ §"  ") ks.1 ks.2) <$> report_lines rp e d) ++ nl ++ §"}") ++ nl.
Proof.
  unfold report_json, report_lines. cbv zeta. cbn [fmap list_fmap fst snd commas]. unfold member_text. repeat (rewrite <-!app_assoc || cbn [app]). done.
Qed.

Lemma report_written rp e d :
  (∀ k, all is_plain (strerror k)) → (∀ k x, fixed k x ≠ [] ∧ all is_num (fixed k x)) → all is_plain (vip_host (o_ (rp_runner rp))) →
  ∃ s, writes (report_tree rp e d) s ∧ report_json rp e d = s ++ nl.
Proof.
  intros He Hf Hh. eexists. split; [| apply report_text]. apply obj_written; [| by repeat constructor].
  assert (∀ k s v, all is_plain k → writes v s → members [(k, v)] (member_text (nl ++ §"  ") k s)) as Hm
    by (intros k s v Hk Hv; apply member_written; [by repeat constructor | done | done]).
  apply members_commas; [| done]. unfold report_tree, report_lines. cbv zeta. cbn [fmap list_fmap fst snd].
  assert (∀ k x, writes (TNum (fixed k x)) (fixed k x)) as Hfix by (intros k x; destruct (Hf k x); by apply w_num).
  assert (writes (TStr (vip_host (o_ (rp_runner rp)) ++ §":" ++ dec (vip_port (o_ (rp_runner rp)))))
    (str_text (vip_host (o_ (rp_runner rp)) ++ §":" ++ dec (vip_port (o_ (rp_runner rp)))))) as Hvip.
  { apply w_str. apply Forall_app. split; [done |]. constructor; [done |]. unfold dec. destruct (_ <? 0); [constructor; [done |] |]; apply to_string_plain. }
  repeat (apply Forall2_cons; split); try (apply Hm; [by repeat constructor |]); try apply Forall2_nil_2;
    first [exact Hvip | apply dec_written | apply Hfix | apply num_written | apply timeline_written
          | apply counts_written, plain_causes | apply counts_written, plain_entries, He | apply counts_written, plain_entries, plain_backend].
Qed.

(** The rows that are left out say nothing. *)
Lemma quiet_after t s : (last_row t < s < length t)%nat → Forall (λ v, v = 0) (row t s).
Proof.
  unfold last_row. intros [H1 H2]. assert (∀ n, (n <= length t)%nat → ∀ s, (foldl (later t) 0 (seq 0 n) < s < n)%nat →
    existsb (λ v, negb (v =? 0)) (row t s) = false) as H.
  { clear. induction n as [| n IH]; intros Hn s [H1 H2]; [lia |]. rewrite seq_S, foldl_app in H1. cbn [foldl Nat.add] in H1. unfold later at 1 in H1.
    destruct (existsb (λ v, negb (v =? 0)) (row t n)) eqn:E; [lia |]. destruct (decide (s = n)) as [-> | ?]; [done |]. apply IH; lia. }
  specialize (H (length t) ltac:(lia) s ltac:(lia)). revert H. generalize (row t s). clear. induction l as [| v l IH]; cbn; [constructor |].
  intros [H1 H2]%orb_false_iff. constructor; [| by apply IH]. apply negb_false_iff in H1. by apply Z.eqb_eq.
Qed.

End report.

Lemma column_app k t u : column k (t ++ u) = column k t + column k u.
Proof. unfold column. induction t as [| x t IH]; cbn; [done |]. rewrite IH. lia. Qed.

(** Leaving them out keeps the sums. *)
Lemma printed_column k t : column k (row t <$> rows t) = column k t.
Proof.
  unfold rows. set (m := Nat.min _ _). assert (row t <$> seq 0 m = take m t) as ->.
  { apply list_eq. intros i. rewrite list_lookup_fmap. destruct (decide (i < m)%nat) as [Hi | Hi].
    - rewrite lookup_seq_lt by done. rewrite lookup_take_lt by done. cbn. unfold row. destruct (lookup_lt_is_Some_2 t i) as [x ->]; [lia | done].
    - rewrite lookup_seq_ge by lia. rewrite lookup_take_ge by lia. done. }
  rewrite <-(take_drop m t) at 2. rewrite column_app. assert (column k (drop m t) = 0) as ->; [| lia].
  assert (Forall (λ r, Forall (λ v, v = 0) r) (drop m t)) as Hz.
  { apply Forall_lookup. intros i r Hr. rewrite lookup_drop in Hr. pose proof (lookup_lt_Some _ _ _ Hr) as Hl.
    pose proof (quiet_after t (m + i)) as Hq. unfold row in Hq. rewrite Hr in Hq. apply Hq. lia. }
  induction Hz as [| r u Hr _ IH]; [done |]. unfold column in *. cbn [foldr]. rewrite IH. destruct (r !! k) eqn:E; [| done]. cbn. by rewrite (Forall_lookup_1 _ _ _ _ Hr E).
Qed.

(** ** Theorem *)

(** C38: the report says what happened, and adds up. On every command line that is
    accepted and names a file that opens, whatever the sockets, the clock and the
    events do, the file is a JSON text that reads back as the object of exactly the
    counters of the run; every connection is idle, connecting, failed or
    established, the established ones have survived or are broken, and the broken
    ones are broken down by cause, by backend and, in the seconds the timeline
    prints, by time to the same total, the failed connects by reason; and every
    socket is closed. The arguments are C strings, and the messages of strerror
    have nothing in them that JSON would have to escape. *)
Theorem report_exact (strerror : Z → str) (fixed : nat → Z → str) (args : list str) (t0 : Z) (xs : list Input) (rp : Report) (elapsed_ms ramp_done_ms : Z) :
  (∀ e, all is_plain (strerror e)) → (∀ k x, fixed k x ≠ [] ∧ all is_num (fixed k x)) →
  Forall (λ a, Ascii.zero ∉ a) args → program args t0 xs = Cli.Go rp → Forall input_ok xs →
  let r := rp_runner rp in
  json_path (o_ r) ≠ [] →
  (∃ text, (report strerror fixed true rp elapsed_ms ramp_done_ms).1 = Some text ∧
     read (length text) text = Some (report_tree strerror fixed rp elapsed_ms ramp_done_ms, nl)) ∧
  connections (o_ r) = cnt Idle (conns_ r) + cnt Connecting (conns_ r) + connect_failed_ r + established_ r ∧
  established_ r = rp_survived rp + broken_total r ∧ rp_survived rp = cnt Open (conns_ r) ∧
  sum_counts (connect_fail_reasons_ r) = connect_failed_ r ∧ sum_counts (broken_by_backend_ r) = broken_total r ∧
  (∀ k, (k < kNumCauses)%nat → broken_ r !! k = Some (column k (row (timeline_ r) <$> rows (timeline_ r)))) ∧
  Forall (λ c, fd c = -1) (conns_ r).
Proof.
  intros He Hf Hz Hprog Hxs r Hj. destruct (program_inv _ _ _ _ Hprog Hz) as (o & a & Hp & Hhost & Erp).
  destruct (conncheck_accounts args o t0 xs Hp Hxs) as (A1 & A2 & A3 & A4 & A5 & A6 & A7 & A8 & A9).
  rewrite <-Erp in A1, A2, A3, A4, A5, A6, A7, A8, A9. fold r in A1, A2, A3, A4, A5, A6, A7, A8, A9.
  assert (o_ r = o) as Eo.
  { apply parse_ok in Hp as (_ & Hd & _). pose proof (turns_books o t0 xs _ Hxs (new_inv o t0 None Hd)) as H. unfold r. rewrite Erp. unfold run. cbn [rp_runner o_]. apply H. }
  split_and!; try done; [| by rewrite Eo | intros k Hk; rewrite printed_column; by apply A8].
  destruct (report_written strerror fixed rp elapsed_ms ramp_done_ms He Hf) as (s & Hw & Es).
  { fold r. rewrite Eo, Hhost. apply ipv4_plain. }
  exists (report_json strerror fixed rp elapsed_ms ramp_done_ms). split.
  - unfold report. fold r. rewrite bool_decide_eq_false_2 by done. done.
  - rewrite Es. apply (proj1 reads _ _ Hw _ []); [rewrite length_app; lia | constructor | done].
Qed.

Definition json_args : list str := demo_args ++ [§"--json"; §"out.json"].
Definition json_options : Options := mk_options §"198.51.100.1" 7000 2 100 1 5000 100 2000 5000 §"out.json" true.

Lemma json_accepted : program json_args 0 [demo_input] = Cli.Go (run json_options 0 [demo_input]).
Proof. vm_compute. reflexivity. Qed.

Lemma report_exact_witness :
  let rp := run json_options 0 [demo_input] in
  program json_args 0 [demo_input] = Cli.Go rp ∧ established_ (rp_runner rp) = 2 ∧ rp_survived rp + broken_total (rp_runner rp) = 2 ∧
  ∃ text, (report (λ _, §"Error") (λ _ _, §"1.000") true rp 1000 0).1 = Some text ∧ read (length text) text ≠ None.
Proof.
  intros rp. destruct (report_exact (λ _, §"Error") (λ _ _, §"1.000") json_args 0 [demo_input] rp 1000 0) as ((text & H1 & H2) & _ & H3 & _).
  - intros _. repeat constructor.
  - intros _ _. split; [discriminate | repeat constructor].
  - apply (bool_decide_unpack _). vm_compute. exact I.
  - exact json_accepted.
  - apply Forall_singleton. intros i f [= <-]. apply Zle_0_nat.
  - discriminate.
  - split; [exact json_accepted |]. assert (established_ (rp_runner rp) = 2) as E by (vm_compute; reflexivity).
    split; [exact E |]. split; [rewrite <-H3; exact E |]. exists text. split; [exact H1 |]. rewrite H2. discriminate.
Defined.

End ConncheckReport.
