(* ===== verification/ConncheckServer.v ===== *)
(** * conncheck-server (tools/conncheck/conncheck_server.cpp)

    The server of the experiments: it answers every line of a connection with its
    number. One thread waits for events and serves whichever descriptors are ready.
    What accept, recv, send and epoll return is an argument; what the server does to
    the descriptors is a trace. *)

From Stdlib Require Import ZArith Lia Ascii String.
From S2P Require Import Prelude VipSpec Config ApiServer Libc Conncheck.

Module ConncheckServer.
Import Cli.
Import Conncheck(EPOLLIN, EPOLLOUT, EPOLLERR, EPOLLHUP, any, recv_result, RData, REof, RAgain, RIntr, RErr).
Import Libc(atoi).

(** ** The command line *)

Definition usage {A} : cli A := Exit 2 (§"usage: conncheck-server --port P --id N [--bind ADDR]" ++ [ApiServer.nl]).

Record Options := mk_options {
  port : Z;
  id_ : Z;
  bind_addr : str
}.

Fixpoint set_options (args : list str) (o : Options) : cli Options :=
  match args with
  | [] => Go o
  | a :: v :: args =>
      if bool_decide (a = §"--port") then set_options args (mk_options (atoi v) (id_ o) (bind_addr o))
      else if bool_decide (a = §"--id") then set_options args (mk_options (port o) (atoi v) (bind_addr o))
      else if bool_decide (a = §"--bind") then set_options args (mk_options (port o) (id_ o) v)
      else usage
  | [_] => usage
  end.

Definition parse_args (args : list str) : cli Options :=
  o ← set_options args (mk_options 7000 (-1) §"0.0.0.0");
  if (id_ o <? 0) || (port o <=? 0) || (65535 <? port o) then usage else Go o.

(** The listening socket: perror and exit where a call fails. *)
Definition perror {A} (what err : str) : cli A := Exit 1 (what ++ §": " ++ err ++ [ApiServer.nl]).

Definition or_exit (what : str) (r : option str) : cli unit := match r with Some err => perror what err | None => Go () end.

Definition open_listener (socket bind listen : option str) (pton : bool) : cli unit :=
  _ ← or_exit §"socket" socket;
  _ ← (if negb pton then usage else Go ());
  _ ← or_exit §"bind" bind;
  or_exit §"listen" listen.

(** ** Connections *)

Definition EPOLLRDHUP := 0x2000.

Record Conn := mk_conn {
  in_ : str;      (* bytes received, not yet a full line *)
  out : str       (* replies not yet written *)
}.

(** What the server does to the descriptors. *)
Inductive io : Type :=
| Accepted (fd : Z) (registered : bool)     (* accept4, and whether EPOLL_CTL_ADD took it *)
| Received (fd : Z) (chunk : str)
| Sent (fd : Z) (bytes : str)
| Interest (fd : Z) (want_out : bool)       (* EPOLL_CTL_MOD, with or without EPOLLOUT *)
| Closed (fd : Z).

(** "id=" + std::to_string(id) + "\n" *)
Definition reply (id : Z) : str := §"id=" ++ VipSpec.to_string id ++ [ApiServer.nl].

(** The loop of recv: whether the connection is dead, and the bytes received. No
    more data after the last result. *)
Fixpoint recv_loop (fd : Z) (l : list recv_result) (buf : str) : bool * str * list io :=
  match l with
  | RData chunk :: l => let '(dead, buf, tr) := recv_loop fd l (buf ++ chunk) in (dead, buf, Received fd chunk :: tr)
  | REof :: _ => (true, buf, [])
  | RErr _ :: _ => (true, buf, [])
  | RAgain :: _ | RIntr :: _ | [] => (false, buf, [])
  end.

(** One reply per complete line; each turn removes a newline. *)
Fixpoint answer_lines (fuel : nat) (id : Z) (c : Conn) : Conn :=
  match fuel, Config.find ApiServer.nl (in_ c) with
  | S fuel, Some pos => answer_lines fuel id (mk_conn (drop (pos + 1) (in_ c)) (out c ++ reply id))
  | _, _ => c
  end.

(** How the send ends; Busy is EAGAIN or EINTR. *)
Inductive send_result : Type := Wrote (n : nat) | Busy | Failed.

(** One ready descriptor and the results of the calls on it. *)
Record Event := mk_event {
  ev_fd : Z;
  ev_events : Z;
  ev_accepts : list (Z * bool);
  ev_recvs : list recv_result;
  ev_send : send_result
}.

Definition no_out (c : Conn) : bool := bool_decide (out c = []).

(** Reading: whether the connection is dead, and what was received. *)
Definition read_conn (id : Z) (e : Event) (c : Conn) : bool * Conn * list io :=
  if any (ev_events e) (Z.lor (Z.lor EPOLLIN EPOLLRDHUP) (Z.lor EPOLLHUP EPOLLERR)) then
    let '(dead, buf, tr) := recv_loop (ev_fd e) (ev_recvs e) (in_ c) in
    let c := answer_lines (S (length buf)) id (mk_conn buf (out c)) in
    (dead || (65536 <? Z.of_nat (length (in_ c))), c, tr)
  else (false, c, []).

(** Writing what is pending. *)
Definition write_conn (e : Event) (c : Conn) : bool * Conn * list io :=
  if negb (no_out c) then
    match ev_send e with
    | Wrote n => let c' := mk_conn (in_ c) (drop n (out c)) in
        (false, c', [Sent (ev_fd e) (take n (out c)); Interest (ev_fd e) (negb (no_out c'))])
    | Busy => (false, c, [Interest (ev_fd e) true])
    | Failed => (true, c, [Interest (ev_fd e) true])
    end
  else if any (ev_events e) EPOLLOUT then (false, c, [Interest (ev_fd e) false])
  else (false, c, []).

(** The event of a connection: the connection that is left, if it is. *)
Definition serve_conn (id : Z) (e : Event) (c : Conn) : option Conn * list io :=
  let '(dead, c, tr) := read_conn id e c in
  let '(dead, c, tr') := if dead then (true, c, []) else write_conn e c in
  if dead then (None, tr ++ tr' ++ [Closed (ev_fd e)]) else (Some c, tr ++ tr').

(** ** The server *)

Definition accept_one (s : gmap Z Conn) (fd : Z) : gmap Z Conn :=
  match s !! fd with Some _ => s | None => <[fd := mk_conn [] []]> s end.

Definition handle (id lfd : Z) (s : gmap Z Conn) (e : Event) : gmap Z Conn * list io :=
  if ev_fd e =? lfd then (foldl accept_one s (ev_accepts e).*1, (λ '(fd, ok), Accepted fd ok) <$> ev_accepts e) else
  match s !! ev_fd e with
  | None => (s, [])
  | Some c => let '(c', tr) := serve_conn id e c in
      (match c' with Some c' => <[ev_fd e := c']> s | None => delete (ev_fd e) s end, tr)
  end.

Fixpoint handle_all (id lfd : Z) (es : list Event) (s : gmap Z Conn) : gmap Z Conn * list io :=
  match es with
  | [] => (s, [])
  | e :: es =>
      let '(s, tr) := handle id lfd s e in
      let '(s, tr') := handle_all id lfd es s in (s, tr ++ tr')
  end.

(** What epoll_wait returns, and whether a signal asks to stop before it. *)
Inductive wait : Type := Ready (es : list Event) | Interrupted | WaitFailed | Signalled.

Definition close_all (s : gmap Z Conn) : list io := (λ '(fd, _), Closed fd) <$> map_to_list s.

(** The status with which main returns, if it does. *)
Fixpoint loop (id lfd : Z) (xs : list wait) (s : gmap Z Conn) : option Z * gmap Z Conn * list io :=
  match xs with
  | [] => (None, s, [])
  | Signalled :: _ => (Some 0, s, close_all s)
  | WaitFailed :: _ => (Some 1, s, [])
  | Interrupted :: xs => loop id lfd xs s
  | Ready es :: xs =>
      let '(s, tr) := handle_all id lfd es s in
      let '(st, s, tr') := loop id lfd xs s in (st, s, tr ++ tr')
  end.

(** ** What a peer sees *)

Definition io_fd (e : io) : Z :=
  match e with Accepted fd _ | Received fd _ | Sent fd _ | Interest fd _ | Closed fd => fd end.

(** A descriptor: whether it is open, the bytes received and sent since it was
    accepted, and whether a registered one is waited for to become writable. *)
Record View := mk_view {
  v_open : bool;
  rx : str;
  tx : str;
  armed : option bool
}.

Definition view_step (fd : Z) (v : View) (e : io) : View :=
  if negb (io_fd e =? fd) then v else
  match e with
  | Accepted _ ok => mk_view true [] [] (if ok then Some false else None)
  | Received _ chunk => mk_view (v_open v) (rx v ++ chunk) (tx v) (armed v)
  | Sent _ bytes => mk_view (v_open v) (rx v) (tx v ++ bytes) (armed v)
  | Interest _ b => mk_view (v_open v) (rx v) (tx v) ((λ _, b) <$> armed v)
  | Closed _ => mk_view false (rx v) (tx v) None
  end.

Definition view (fd : Z) (tr : list io) : View := foldl (view_step fd) (mk_view false [] [] None) tr.

(** The kernel hands out a descriptor that is not in use. *)
Definition fresh (lfd : Z) (s : gmap Z Conn) (e : Event) : Prop :=
  ev_fd e = lfd → NoDup (ev_accepts e).*1 ∧ ∀ fd, fd ∈ (ev_accepts e).*1 → fd ≠ lfd ∧ s !! fd = None.

(** The states the server gets to, with what it did until then. *)
Inductive reaches (id lfd : Z) : gmap Z Conn → list io → Prop :=
| reaches_start : reaches id lfd ∅ []
| reaches_event s tr e :
    reaches id lfd s tr → fresh lfd s e →
    reaches id lfd (handle id lfd s e).1 (tr ++ (handle id lfd s e).2).

(** The lines of what was received, and what is left of the last one. *)
Definition lines (s : str) : nat := length (ApiServer.split_lines s []).1.
Definition rest (s : str) : str := (ApiServer.split_lines s []).2.
Definition replies (id : Z) (n : nat) : str := mjoin (replicate n (reply id)).

(** A connection agrees with what its peer sees. *)
Record conn_ok (id : Z) (c : Conn) (v : View) : Prop := {
  ok_open : v_open v = true;
  ok_in : in_ c = rest (rx v);
  ok_out : tx v ++ out c = replies id (lines (rx v));
  ok_armed : armed v = None ∨ armed v = Some (negb (no_out c));
  ok_length : Z.of_nat (length (in_ c)) <= 65536
}.

(** *** Lemmas: lines *)

Lemma replies_app id n m : replies id (n + m) = replies id n ++ replies id m.
Proof. unfold replies. by rewrite replicate_add, join_app. Qed.

Lemma rest_no_newline s : ApiServer.nl ∉ rest s.
Proof. apply ApiServer.rest_clean, not_elem_of_nil. Qed.

(** Splitting what is left and a chunk is splitting the stream. *)
Lemma split_more s chunk :
  rest (s ++ chunk) = rest (rest s ++ chunk) ∧ lines (s ++ chunk) = (lines s + lines (rest s ++ chunk))%nat.
Proof.
  unfold rest, lines. rewrite !(ApiServer.split_app _ chunk). cbn [fst snd].
  rewrite (ApiServer.split_none (ApiServer.split_lines s []).2 []) by apply rest_no_newline. cbn [fst snd app].
  by rewrite length_app.
Qed.

Lemma answer_lines_ok fuel id c :
  (length (in_ c) < fuel)%nat → answer_lines fuel id c = mk_conn (rest (in_ c)) (out c ++ replies id (lines (in_ c))).
Proof.
  revert c. induction fuel as [| fuel IH]; intros c Hf; [lia |]. cbn [answer_lines].
  destruct (Config.find ApiServer.nl (in_ c)) as [pos |] eqn:E.
  - apply ApiServer.find_Some in E as [Hn E]. set (l := take pos (in_ c)) in *. set (r := drop (pos + 1) (in_ c)) in *.
    rewrite IH; cbn [in_ out].
    2: { rewrite E, length_app in Hf. cbn [length] in Hf. lia. }
    assert (ApiServer.split_lines (in_ c) [] = (l :: (ApiServer.split_lines r []).1, (ApiServer.split_lines r []).2)) as Es.
    { rewrite E, ApiServer.split_app, ApiServer.split_none by done. cbn [fst snd app ApiServer.split_lines].
      rewrite bool_decide_eq_true_2 by done. by destruct (ApiServer.split_lines r []). }
    unfold rest, lines. rewrite Es. cbn [fst snd length]. f_equal. rewrite <-app_assoc. done.
  - apply ApiServer.find_None in E. unfold rest, lines. rewrite ApiServer.split_none by done. cbn [fst snd app length replies replicate mjoin].
    destruct c. cbn. by rewrite app_nil_r.
Qed.

(** *** Lemmas: the view of a descriptor *)

Lemma view_app fd tr tr' : view fd (tr ++ tr') = foldl (view_step fd) (view fd tr) tr'.
Proof. apply foldl_app. Qed.

Lemma view_other fd tr v : Forall (λ e, io_fd e ≠ fd) tr → foldl (view_step fd) v tr = v.
Proof.
  intros H. revert v. induction H as [| e tr He _ IH]; intros v; cbn [foldl]; [done |]. rewrite IH. unfold view_step.
  by destruct (Z.eqb_spec (io_fd e) fd).
Qed.

Lemma recv_loop_view fd l buf v :
  let '(_, buf', tr) := recv_loop fd l buf in
  ∃ data, buf' = buf ++ data ∧ foldl (view_step fd) v tr = mk_view (v_open v) (rx v ++ data) (tx v) (armed v) ∧ Forall (λ e, io_fd e = fd) tr.
Proof.
  revert buf v. induction l as [| x l IH]; intros buf v; cbn [recv_loop].
  - exists []. rewrite !app_nil_r. by destruct v.
  - destruct x as [chunk | | | | err]; try (exists []; rewrite !app_nil_r; by destruct v).
    specialize (IH (buf ++ chunk) (mk_view (v_open v) (rx v ++ chunk) (tx v) (armed v))).
    destruct (recv_loop fd l (buf ++ chunk)) as [[dead buf'] tr]. destruct IH as (data & -> & E & F).
    exists (chunk ++ data). cbn [foldl]. unfold view_step at 2. cbn [io_fd]. rewrite Z.eqb_refl. cbn [negb].
    rewrite E. cbn [v_open rx tx armed]. rewrite !app_assoc. split_and!; [done | done |]. by constructor.
Qed.

Lemma read_conn_ok id e c v :
  conn_ok id c v →
  let '(dead, c', tr) := read_conn id e c in
  let v' := foldl (view_step (ev_fd e)) v tr in
  v_open v' = true ∧ in_ c' = rest (rx v') ∧ tx v' ++ out c' = replies id (lines (rx v')) ∧ armed v' = armed v ∧
  (out c' = [] → out c = []) ∧ (dead = false → Z.of_nat (length (in_ c')) <= 65536) ∧
  Forall (λ x, io_fd x = ev_fd e) tr.
Proof.
  intros [Ho Hi Ht Ha Hl]. unfold read_conn. destruct (any _ _); [| by split_and!].
  pose proof (recv_loop_view (ev_fd e) (ev_recvs e) (in_ c) v) as H. destruct (recv_loop _ _ _) as [[dead buf] tr].
  destruct H as (data & -> & -> & F). rewrite answer_lines_ok by (cbn; lia). cbn [in_ out v_open rx tx armed].
  destruct (split_more (rx v) data) as [E1 E2]. rewrite <-Hi in E1, E2. rewrite E1, E2, replies_app, app_assoc, Ht.
  split_and!; try done.
  - by intros [-> _]%app_eq_nil.
  - intros [_ Hd]%orb_false_iff. lia.
Qed.

Lemma write_conn_ok id e c v :
  v_open v = true → in_ c = rest (rx v) → tx v ++ out c = replies id (lines (rx v)) →
  (out c = [] → armed v = None ∨ armed v = Some false) → Z.of_nat (length (in_ c)) <= 65536 →
  let '(dead, c', tr) := write_conn e c in
  let v' := foldl (view_step (ev_fd e)) v tr in
  (dead = false → conn_ok id c' v') ∧ tx v' ++ out c' = replies id (lines (rx v')) ∧ Forall (λ x, io_fd x = ev_fd e) tr.
Proof.
  intros Ho Hi Ht Ha Hl. assert (∀ b, view_step (ev_fd e) v (Interest (ev_fd e) b) = mk_view true (rx v) (tx v) ((λ _, b) <$> armed v)) as Hv.
  { intros b. unfold view_step. cbn [io_fd]. by rewrite Z.eqb_refl, Ho. }
  unfold write_conn. destruct (no_out c) eqn:En; cbn [negb].
  - apply bool_decide_eq_true in En as En'. specialize (Ha En').
    destruct (any _ _); cbn [foldl]; rewrite ?Hv; (split_and!; [intros _; split; cbn [v_open rx tx armed]; rewrite ?En; try done | done |]).
    + destruct (armed v); [by right | by left].
    + by repeat constructor.
    + apply Forall_nil_2.
  - assert (∀ (x : option bool) (b : bool), (λ _, b) <$> x = None ∨ (λ _, b) <$> x = Some b) as Hm by (intros [] ?; [by right | by left]).
    destruct (ev_send e) as [n | |]; cbn [foldl]; rewrite ?Hv.
    + unfold view_step. cbn [io_fd]. rewrite !Z.eqb_refl. cbn [negb v_open rx tx armed out].
      assert ((tx v ++ take n (out c)) ++ drop n (out c) = replies id (lines (rx v))) as Ht' by (by rewrite <-app_assoc, take_drop).
      split_and!; [intros _; split; cbn [v_open rx tx armed in_ out]; try done; apply Hm | done | by repeat constructor].
    + split_and!; [intros _; split; cbn [v_open rx tx armed]; rewrite ?En; try done; apply Hm | done | by repeat constructor].
    + split_and!; [done | done | by repeat constructor].
Qed.

(** A descriptor that is not a connection: the replies sent were due. *)
Definition gone (id : Z) (v : View) : Prop := v_open v = false ∧ tx v `prefix_of` replies id (lines (rx v)).

Lemma close_gone id fd v o : tx v ++ o = replies id (lines (rx v)) → gone id (view_step fd v (Closed fd)).
Proof. intros E. unfold view_step. cbn [io_fd]. rewrite Z.eqb_refl. cbn. split; [done |]. cbn. rewrite <-E. by eexists. Qed.

Lemma serve_conn_ok id e c v :
  conn_ok id c v →
  let '(c', tr) := serve_conn id e c in
  let v' := foldl (view_step (ev_fd e)) v tr in
  match c' with Some c' => conn_ok id c' v' | None => gone id v' end ∧ Forall (λ x, io_fd x = ev_fd e) tr.
Proof.
  intros Hc. pose proof (read_conn_ok id e c v Hc) as H. unfold serve_conn. destruct (read_conn id e c) as [[dead c1] tr].
  destruct H as (H1 & H2 & H3 & H4 & H5 & H6 & F). set (v1 := foldl _ v tr) in *.
  destruct dead.
  { cbn [app]. rewrite foldl_app. split; [by eapply close_gone | apply Forall_app; split; [done | by repeat constructor]]. }
  pose proof (write_conn_ok id e c1 v1 H1 H2 H3) as H. destruct (write_conn e c1) as [[dead c2] tr2].
  destruct H as (Hk & Ht2 & F2).
  { intros Hn. rewrite H4. destruct (ok_armed _ _ _ Hc) as [-> | ->]; [by left |]. right. unfold no_out. by rewrite bool_decide_eq_true_2 by auto. }
  { by apply H6. }
  destruct dead.
  - split; [rewrite app_assoc, !foldl_app; by eapply close_gone |]. apply Forall_app. split; [done |]. apply Forall_app. split; [done | by repeat constructor].
  - split; [rewrite foldl_app; by apply Hk | by apply Forall_app].
Qed.

(** *** Lemmas: the server *)

(** Every connection agrees with its peer, and every other descriptor is closed. *)
Definition server_ok (id : Z) (s : gmap Z Conn) (tr : list io) : Prop :=
  ∀ fd, match s !! fd with Some c => conn_ok id c (view fd tr) | None => gone id (view fd tr) end.

Lemma accept_lookup l s fd :
  (∀ x, x ∈ l → s !! x = None) → NoDup l → foldl accept_one s l !! fd = if decide (fd ∈ l) then Some (mk_conn [] []) else s !! fd.
Proof.
  intros Hl Hn. revert s Hl. induction Hn as [| x l Hx Hn IH]; intros s Hl; cbn [foldl]; [done |].
  assert (accept_one s x = <[x := mk_conn [] []]> s) as Ea by (unfold accept_one; by rewrite Hl by apply list_elem_of_here).
  rewrite Ea, IH.
  - destruct (decide (fd = x)) as [-> | Hne].
    + rewrite decide_False by done. rewrite decide_True by apply list_elem_of_here. apply lookup_insert_eq.
    + rewrite lookup_insert_ne by done. destruct (decide (fd ∈ l)) as [Hi | Hi].
      * by rewrite decide_True by (by apply list_elem_of_further).
      * rewrite decide_False; [done |]. by intros [-> |]%elem_of_cons.
  - intros y Hy. rewrite lookup_insert_ne by (by intros ->). apply Hl. by apply list_elem_of_further.
Qed.

Lemma accept_view fd (l : list (Z * bool)) v :
  NoDup l.*1 → fd ∈ l.*1 →
  ∃ ok : bool, foldl (view_step fd) v ((λ '(fd, ok), Accepted fd ok) <$> l) = mk_view true [] [] (if ok then Some false else None).
Proof.
  revert v. induction l as [| [x ok] l IH]; intros v Hn Hi; [by apply not_elem_of_nil in Hi |]. cbn [fmap list_fmap fst foldl] in *.
  apply NoDup_cons in Hn as [Hx Hn]. apply elem_of_cons in Hi as [-> | Hi]; [| by apply IH].
  exists ok. unfold view_step at 2. cbn [io_fd]. rewrite Z.eqb_refl. cbn [negb]. apply view_other.
  apply Forall_fmap, Forall_forall. intros [y ok'] Hy Ey. apply Hx. cbn in Ey. subst y. by apply (list_elem_of_fmap_2 fst _ (_, ok')).
Qed.

Lemma server_step_ok id lfd s tr e :
  server_ok id s tr → fresh lfd s e → server_ok id (handle id lfd s e).1 (tr ++ (handle id lfd s e).2).
Proof.
  intros Hs Hf fd. rewrite view_app. unfold handle. destruct (Z.eqb_spec (ev_fd e) lfd) as [El | El].
  - destruct (Hf El) as [Hn Hfr]. cbn [fst snd]. rewrite accept_lookup; [| by intros x [_ H]%Hfr | done].
    destruct (decide (fd ∈ (ev_accepts e).*1)) as [Hi | Hi].
    + destruct (accept_view fd (ev_accepts e) (view fd tr) Hn Hi) as [ok ->]. split; cbn; try done; try lia. destruct ok; [by right | by left].
    + rewrite view_other; [apply Hs |]. apply Forall_fmap, Forall_forall. intros [y ok'] Hy Ey. apply Hi. cbn in Ey. subst y.
      by apply (list_elem_of_fmap_2 fst _ (_, ok')).
  - pose proof (Hs (ev_fd e)) as He. destruct (s !! ev_fd e) as [c |] eqn:Ec; [| apply Hs].
    pose proof (serve_conn_ok id e c _ He) as H. destruct (serve_conn id e c) as [c' tr']. destruct H as [H F]. cbn [fst snd].
    destruct (decide (fd = ev_fd e)) as [-> | Hne].
    + destruct c' as [c' |]; [by rewrite lookup_insert_eq | by rewrite lookup_delete_eq].
    + rewrite (view_other fd tr') by (eapply Forall_impl; [exact F |]; cbn; congruence). specialize (Hs fd).
      destruct c' as [c' |]; [by rewrite lookup_insert_ne | by rewrite lookup_delete_ne].
Qed.

Lemma reaches_ok id lfd s tr : reaches id lfd s tr → server_ok id s tr.
Proof. induction 1 as [| s tr e _ IH Hf]; [intros fd; rewrite lookup_empty; split; [done | apply prefix_nil] | by apply server_step_ok]. Qed.

Lemma close_all_view fd s v :
  foldl (view_step fd) v (close_all s) = match s !! fd with Some _ => mk_view false (rx v) (tx v) None | None => v end.
Proof.
  unfold close_all. destruct (s !! fd) as [c |] eqn:E.
  - assert (∃ l1 l2, map_to_list s = (l1 ++ (fd, c) :: l2) ∧ (fd ∉ l1.*1) ∧ (fd ∉ l2.*1)) as (l1 & l2 & -> & N1 & N2).
    { apply elem_of_map_to_list in E as E'. apply list_elem_of_split in E' as (l1 & l2 & Em). exists l1, l2. split; [done |].
      pose proof (NoDup_fst_map_to_list s) as Hn. rewrite Em, fmap_app in Hn. cbn [fmap list_fmap fst] in Hn.
      apply NoDup_app in Hn as (_ & Hd & Hc). apply NoDup_cons in Hc as [Hc _]. split; [| done]. intros Hi. apply (Hd fd Hi). apply list_elem_of_here. }
    rewrite fmap_app, foldl_app. cbn [fmap list_fmap foldl].
    assert (∀ l w, fd ∉ l.*1 → foldl (view_step fd) w ((λ '(fd, _), Closed fd) <$> (l : list (Z * Conn))) = w) as H.
    { intros l w Hn. apply view_other, Forall_fmap, Forall_forall. intros [y c'] Hy Ey. apply Hn. cbn in Ey. subst y. by apply (list_elem_of_fmap_2 fst _ (_, c')). }
    rewrite (H l1), (H l2) by done. unfold view_step. cbn [io_fd]. by rewrite Z.eqb_refl.
  - apply view_other, Forall_fmap, Forall_forall. intros [y c'] Hy Ey. cbn in Ey. subst y. apply elem_of_map_to_list in Hy. congruence.
Qed.

(** *** Lemmas: the client of the server *)

Lemma reply_last id : 0 <= id < 2 ^ 31 → ∃ body, reply id = (body ++ [ApiServer.nl]) ∧ (ApiServer.nl ∉ body) ∧ (length body <= 23)%nat.
Proof.
  intros Hi. destruct (VipSpec.to_string_spec id 20) as (Hd & _ & _ & Hl); [lia | lia |]. exists (§"id=" ++ VipSpec.to_string id).
  split_and!; [by unfold reply; rewrite <-app_assoc | |].
  - apply not_elem_of_app. split; [apply (bool_decide_unpack _); vm_compute; exact I | by apply VipSpec.digits_not_elem].
  - rewrite length_app. change (length §"id=") with 3%nat. lia.
Qed.

Lemma prefix_app_cases {A} (p a b : list A) :
  p `prefix_of` a ++ b → p `prefix_of` a ∨ ∃ q, p = a ++ q ∧ q `prefix_of` b.
Proof.
  intros [k E]. apply app_eq_inv in E as [(q & E1 & E2) | (q & E1 & E2)]; [left; by exists q | right; exists q].
  split; [done |]. by exists k.
Qed.

(** A prefix of replies is whole replies and a short piece of one. *)
Lemma replies_prefix id n p :
  0 <= id < 2 ^ 31 → p `prefix_of` replies id n →
  ∃ m piece, p = (replies id m ++ piece) ∧ (ApiServer.nl ∉ piece) ∧ (length piece <= 23)%nat.
Proof.
  intros Hi. destruct (reply_last id Hi) as (body & Eb & Hb & Hl). revert p. induction n as [| n IH]; intros p Hp.
  - exists 0%nat, []. apply prefix_nil_inv in Hp as ->. split_and!; [done | apply not_elem_of_nil | cbn; lia].
  - change (replies id (S n)) with (reply id ++ replies id n) in Hp. apply prefix_app_cases in Hp as [Hp | (q & -> & Hq)].
    + rewrite Eb in Hp. apply prefix_app_cases in Hp as [Hp | (q & -> & Hq)].
      * exists 0%nat, p. destruct Hp as [k ->]. apply not_elem_of_app in Hb as [Hb _]. rewrite length_app in Hl. split_and!; [done | done | lia].
      * destruct q as [| a q].
        -- exists 0%nat, body. rewrite app_nil_r. done.
        -- apply prefix_cons_inv_1 in Hq as Ea. apply prefix_cons_inv_2, prefix_nil_inv in Hq as ->. subst a. exists 1%nat, [].
           rewrite <-Eb. unfold replies. cbn. rewrite !app_nil_r. split_and!; [done | apply not_elem_of_nil | lia].
    + destruct (IH q Hq) as (m & piece & -> & Hn & Hp). exists (S m), piece. by rewrite app_assoc.
Qed.

Lemma lines_replies id n piece :
  0 <= id < 2 ^ 31 → ApiServer.nl ∉ piece → ApiServer.split_lines (replies id n ++ piece) [] = (replicate n (take (length (reply id) - 1) (reply id)), piece).
Proof.
  intros Hi Hp. destruct (reply_last id Hi) as (body & Eb & Hb & _). rewrite Eb, length_app, Nat.add_sub, take_app_length.
  induction n as [| n IH]; [by apply ApiServer.split_none |].
  change (replies id (S n)) with (reply id ++ replies id n). rewrite Eb, <-!app_assoc, ApiServer.split_app, ApiServer.split_none by done.
  cbn [fst snd app ApiServer.split_lines]. rewrite bool_decide_eq_true_2 by done. by rewrite IH.
Qed.

Lemma split_replies id n piece :
  0 <= id < 2 ^ 31 → ApiServer.nl ∉ piece → lines (replies id n ++ piece) = n ∧ rest (replies id n ++ piece) = piece.
Proof. intros Hi Hp. unfold lines, rest. rewrite lines_replies by done. cbn [fst snd]. by rewrite length_replicate. Qed.

(** More of the stream has at least as many lines. *)
Lemma lines_prefix p q : p `prefix_of` q → (lines p <= lines q)%nat.
Proof. intros [k ->]. destruct (split_more p k) as [_ ->]. lia. Qed.

(** What recv returns until there is no more, unless the stream ends. *)
Fixpoint received (l : list recv_result) : option str :=
  match l with
  | RData chunk :: l => app chunk <$> received l
  | RIntr :: l => received l
  | RAgain :: _ | [] => Some []
  | REof :: _ | RErr _ :: _ => None
  end.

Lemma recv_loop_received l i r d :
  Conncheck.state (Conncheck.conn r i) ≠ Conncheck.Idle → received l = Some d →
  ∃ r', Conncheck.recv_loop l i r = (RAgain, r') ∧ Conncheck.conn r' i = Conncheck.set_in (Conncheck.in_ (Conncheck.conn r i) ++ d) (Conncheck.conn r i).
Proof.
  revert r d. induction l as [| x l IH]; intros r d Hs Hd; cbn [received Conncheck.recv_loop] in *.
  - injection Hd as <-. exists r. split; [done |]. rewrite app_nil_r. by destruct (Conncheck.conn r i).
  - destruct x as [chunk | | | | err]; try done; [| injection Hd as <- | by apply IH].
    + destruct (received l) as [d' |] eqn:E; [| done]. injection Hd as <-.
      set (r1 := Conncheck.upd _ _ _). assert (Conncheck.conn r1 i = Conncheck.set_in (Conncheck.in_ (Conncheck.conn r i) ++ chunk) (Conncheck.conn r i)) as C1 by (unfold r1; by rewrite Conncheck.conn_upd).
      destruct (IH r1 d') as (r' & E1 & E2); [by rewrite C1 | done |]. exists r'. split; [done |]. rewrite E2, C1. cbn. by rewrite app_assoc.
    + exists r. split; [done |]. rewrite app_nil_r. by destruct (Conncheck.conn r i).
Qed.

(** The client after a stream of replies: it knows its backend from the first. *)
Definition client_ok (id : Z) (i : nat) (stream : str) (r : Conncheck.Runner) : Prop :=
  let c := Conncheck.conn r i in
  Conncheck.state c = Conncheck.Open ∧ Conncheck.in_ c = rest stream ∧
  Conncheck.backend c = (if (lines stream =? 0)%nat then -1 else id).

(** One event of the client: the results of its calls, the events and the clock. *)
Definition client_event (i : nat) (r : Conncheck.Runner) (x : Conncheck.event_calls * Z * Z) : Conncheck.Runner :=
  Conncheck.handle_event x.1.1 i x.1.2 x.2 r.

Lemma client_step id i stream x d n r :
  0 <= id < 2 ^ 31 → client_ok id i stream r → received (Conncheck.ev_recvs x.1.1) = Some d → any x.1.2 EPOLLERR = false →
  (stream ++ d) `prefix_of` replies id n → client_ok id i (stream ++ d) (client_event i r x).
Proof.
  intros Hid (Hs & Hin & Hb) Hd Hev Hp. destruct (split_more stream d) as [Er El].
  destruct (replies_prefix id n stream Hid (prefix_app_l _ _ _ Hp)) as (m & p & Es & Np & _).
  destruct (replies_prefix id n _ Hid Hp) as (m' & p' & Es' & Np' & Lp').
  assert (lines stream = m ∧ rest stream = p) as [Lm Rm] by (rewrite Es; by apply split_replies).
  assert (lines (stream ++ d) = m' ∧ rest (stream ++ d) = p') as [Lm' Rm'] by (rewrite Es'; by apply split_replies).
  assert (m <= m')%nat as Hm by lia.
  assert (p ++ d = replies id (m' - m) ++ p') as Epd.
  { apply (app_inv_head (replies id m)). rewrite app_assoc, <-Es, Es', app_assoc, <-replies_app. f_equal. f_equal. lia. }
  unfold client_ok. rewrite Rm', Lm'. unfold client_event, Conncheck.handle_event. rewrite Hs. unfold Conncheck.handle_open. rewrite Hs.
  destruct (recv_loop_received (Conncheck.ev_recvs x.1.1) i r d) as (r1 & -> & C1); [congruence | done |]. rewrite Hev.
  rewrite Hin, Rm, Epd in C1. set (ids := replicate (m' - m) id).
  assert (mjoin (replicate (m' - m) (reply id)) = ids ≫= Conncheck.reply) as Ei.
  { unfold ids. clear. induction (m' - m)%nat as [| k IH]; [done |]. cbn [replicate mbind list_bind]. change (mjoin (reply id :: replicate k (reply id))) with (reply id ++ mjoin (replicate k (reply id))). by rewrite IH. }
  pose proof (Conncheck.wrong_backend_detected i x.2 r1 ids p') as H. rewrite C1 in H. cbn [Conncheck.set_in Conncheck.state Conncheck.in_ Conncheck.backend] in H.
  rewrite Hb, Lm in H. unfold replies in H. rewrite Ei in H. specialize (H Hs eq_refl Np').
  destruct H as (H1 & H2 & _); [by apply Forall_replicate |].
  assert (∀ b, b = id ∨ b = -1 → ∀ k, k ∈ ids → k = Conncheck.expected b ids) as Hexp.
  { intros b Hbb k Hk. apply elem_of_replicate in Hk as [-> Hk]. unfold Conncheck.expected, ids. destruct (Z.ltb_spec b 0); [| lia].
    by destruct (m' - m)%nat as [| j]; [lia |]. }
  assert (Conncheck.state (Conncheck.conn (Conncheck.consume_lines i x.2 r1) i) = Conncheck.Open) as Hopen.
  { apply H1. split; [| lia]. intros k Hk. apply Hexp; [| done]. destruct (m =? 0)%nat; [by right | by left]. }
  destruct (H2 Hopen) as [I2 B2]. split_and!; [done | done |]. rewrite B2. unfold ids, Conncheck.expected.
  destruct (m' - m)%nat as [| j] eqn:Ej; cbn [replicate hd].
  - by replace m' with m by lia.
  - destruct (Nat.eqb_spec m' 0); [lia |]. destruct (Nat.eqb_spec m 0); cbn; [done |]. by destruct (Z.ltb_spec id 0); [lia |].
Qed.

Lemma client_steps id i n (xs : list (Conncheck.event_calls * Z * Z)) (data : list str) stream r :
  0 <= id < 2 ^ 31 → client_ok id i stream r →
  Forall2 (λ x d, received (Conncheck.ev_recvs x.1.1) = Some d ∧ any x.1.2 EPOLLERR = false) xs data →
  (stream ++ mjoin data) `prefix_of` replies id n → client_ok id i (stream ++ mjoin data) (foldl (client_event i) r xs).
Proof.
  intros Hid Hc H. revert stream r Hc. induction H as [| x d xs data [Hd He] _ IH]; intros stream r Hc Hp; cbn [foldl].
  - by rewrite app_nil_r.
  - change (mjoin (d :: data)) with (d ++ mjoin data) in *. rewrite app_assoc in *. apply IH; [| done].
    apply (client_step id i stream x d n r); try done. by apply (prefix_app_l _ _ (mjoin data)).
Qed.

(** *** Lemmas: the loop *)

Fixpoint fresh_all (id lfd : Z) (es : list Event) (s : gmap Z Conn) : Prop :=
  match es with [] => True | e :: es => fresh lfd s e ∧ fresh_all id lfd es (handle id lfd s e).1 end.

(** Every descriptor that accept returns while the loop runs is not in use. *)
Fixpoint fresh_run (id lfd : Z) (xs : list wait) (s : gmap Z Conn) : Prop :=
  match xs with
  | Ready es :: xs => fresh_all id lfd es s ∧ fresh_run id lfd xs (handle_all id lfd es s).1
  | Interrupted :: xs => fresh_run id lfd xs s
  | _ => True
  end.

Lemma handle_all_reaches id lfd es s tr :
  reaches id lfd s tr → fresh_all id lfd es s → reaches id lfd (handle_all id lfd es s).1 (tr ++ (handle_all id lfd es s).2).
Proof.
  revert s tr. induction es as [| e es IH]; intros s tr Hr Hf; cbn [handle_all fresh_all] in *; [by rewrite app_nil_r |].
  destruct Hf as [Hf Hfs]. pose proof (reaches_event id lfd s tr e Hr Hf) as H. destruct (handle id lfd s e) as [s1 tr1]. cbn [fst snd] in *.
  specialize (IH s1 _ H Hfs). destruct (handle_all id lfd es s1) as [s2 tr2]. cbn [fst snd] in *. by rewrite app_assoc.
Qed.

(** The loop is in a state it reaches; a signal closes what is open there. *)
Lemma loop_reaches id lfd xs s tr :
  reaches id lfd s tr → fresh_run id lfd xs s →
  let '(st, s', tr') := loop id lfd xs s in
  ∃ tr1, reaches id lfd s' (tr ++ tr1) ∧ tr' = tr1 ++ (if bool_decide (st = Some 0) then close_all s' else []).
Proof.
  revert s tr. induction xs as [| x xs IH]; intros s tr Hr Hf; cbn [loop fresh_run] in *.
  - exists []. by rewrite app_nil_r.
  - destruct x as [es | | |]; [| by apply IH | by exists []; rewrite app_nil_r..].
    destruct Hf as [Hf Hfs]. pose proof (handle_all_reaches id lfd es s tr Hr Hf) as H. destruct (handle_all id lfd es s) as [s1 tr1]. cbn [fst snd] in *.
    specialize (IH s1 _ H Hfs). destruct (loop id lfd xs s1) as [[st s2] tr2]. destruct IH as (tr3 & Hr3 & ->).
    exists (tr1 ++ tr3). by rewrite !app_assoc in *.
Qed.

Lemma ok_prefix id s tr fd : server_ok id s tr → tx (view fd tr) `prefix_of` replies id (lines (rx (view fd tr))).
Proof. intros H. specialize (H fd). destruct (s !! fd) as [c |]; [| by destruct H]. destruct H as [_ _ <- _]. by eexists. Qed.

Lemma recv_loop_eof fd l buf : REof ∈ l → Forall (λ x, x = REof ∨ ∃ chunk, x = RData chunk) l → (recv_loop fd l buf).1.1 = true ∧ Forall (λ e, ∃ chunk, e = Received fd chunk) (recv_loop fd l buf).2.
Proof.
  intros Hi Hl. revert buf Hi. induction Hl as [| x l [-> | [chunk ->]] _ IH]; intros buf Hi; [by apply not_elem_of_nil in Hi | done |].
  apply elem_of_cons in Hi as [? | Hi]; [done |]. cbn [recv_loop]. destruct (IH (buf ++ chunk) Hi) as [E F].
  destruct (recv_loop fd l (buf ++ chunk)) as [[dead buf'] tr]. cbn [fst snd] in *. split; [done |]. constructor; [by eexists | done].
Qed.

(** ** Theorems *)

(** The server answers every line once. Whatever the sockets return and however
    the streams are cut, a descriptor that is a connection has been sent, or has
    pending, one reply for each complete line received and nothing else; only the
    unfinished line is kept, of at most 64 KB, and the descriptor is waited for to
    become writable exactly while something is pending. A descriptor that is not a
    connection is closed, and after a signal all are. *)
Theorem server_answers (id lfd : Z) (xs : list wait) :
  fresh_run id lfd xs ∅ →
  let '(st, s, tr) := loop id lfd xs ∅ in
  ∀ fd, let v := view fd tr in
  tx v `prefix_of` replies id (lines (rx v)) ∧
  (st = Some 0 → v_open v = false) ∧
  (st ≠ Some 0 →
     match s !! fd with
     | Some c => v_open v = true ∧ tx v ++ out c = replies id (lines (rx v)) ∧ in_ c = rest (rx v) ∧
         Z.of_nat (length (in_ c)) <= 65536 ∧ (armed v = None ∨ armed v = Some (negb (no_out c)))
     | None => v_open v = false
     end).
Proof.
  intros Hf. pose proof (loop_reaches id lfd xs ∅ [] (reaches_start id lfd) Hf) as H. destruct (loop id lfd xs ∅) as [[st s] tr].
  destruct H as (tr1 & Hr & ->). cbn [app] in Hr. intros fd. cbv zeta. pose proof (reaches_ok id lfd s tr1 Hr) as Hok.
  pose proof (ok_prefix id s tr1 fd Hok) as Hp. specialize (Hok fd). rewrite view_app. case_bool_decide as Hst.
  - rewrite close_all_view. destruct (s !! fd) as [c |]; cbn [v_open rx tx armed]; [done |]. destruct Hok. by split_and!.
  - cbn [foldl]. split_and!; [done | done |]. intros _. destruct (s !! fd) as [c |]; [| by destruct Hok]. by destruct Hok.
Qed.

(** C39: The check finds no fault where there is none. A client of conncheck that
    receives what a server with number id sends, however it is cut, keeps its
    connection open and takes id for its backend from the first whole reply on; it
    never gets more replies than the lines the server received. *)
Theorem heartbeats_answered (id lfd fd : Z) (s : gmap Z Conn) (tr : list io) (i : nat) (r : Conncheck.Runner)
    (xs : list (Conncheck.event_calls * Z * Z)) (data : list str) :
  reaches id lfd s tr → 0 <= id < 2 ^ 31 →
  Conncheck.state (Conncheck.conn r i) = Conncheck.Open → Conncheck.in_ (Conncheck.conn r i) = [] → Conncheck.backend (Conncheck.conn r i) = -1 →
  Forall2 (λ x d, received (Conncheck.ev_recvs x.1.1) = Some d ∧ any x.1.2 EPOLLERR = false) xs data →
  mjoin data `prefix_of` tx (view fd tr) →
  let c := Conncheck.conn (foldl (client_event i) r xs) i in
  Conncheck.state c = Conncheck.Open ∧ Conncheck.backend c = (if (lines (mjoin data) =? 0)%nat then -1 else id) ∧
  Conncheck.in_ c = rest (mjoin data) ∧ (lines (mjoin data) <= lines (rx (view fd tr)))%nat.
Proof.
  intros Hr Hid Hs Hin Hb Hx Hp. pose proof (ok_prefix id s tr fd (reaches_ok id lfd s tr Hr)) as Ht.
  pose proof (client_steps id i (lines (rx (view fd tr))) xs data [] r Hid) as H. destruct H as (H1 & H2 & H3); [done | exact Hx | exact (transitivity Hp Ht) |].
  cbv zeta. split_and!; [done | done | done |].
  pose proof (lines_prefix _ _ (transitivity Hp Ht)) as Hl. rewrite <-(app_nil_r (replies id _)) in Hl.
  by rewrite (proj1 (split_replies id _ [] Hid (not_elem_of_nil _))) in Hl.
Qed.

(** A client that ends its side of the stream right after its lines gets no answer
    to them: the connection is closed without a send, although whole lines were
    received. *)
Theorem half_close_unanswered (id : Z) (e : Event) (c : Conn) :
  any (ev_events e) (Z.lor (Z.lor EPOLLIN EPOLLRDHUP) (Z.lor EPOLLHUP EPOLLERR)) = true →
  REof ∈ ev_recvs e → Forall (λ x, x = REof ∨ ∃ chunk, x = RData chunk) (ev_recvs e) →
  (serve_conn id e c).1 = None ∧ ∀ bytes, Sent (ev_fd e) bytes ∉ (serve_conn id e c).2.
Proof.
  intros Hev Hi Hl. unfold serve_conn, read_conn. rewrite Hev. destruct (recv_loop_eof (ev_fd e) (ev_recvs e) (in_ c) Hi Hl) as [E F].
  destruct (recv_loop _ _ _) as [[dead buf] tr]. cbn [fst snd] in *. subst dead. cbn [orb app fst snd]. split; [done |].
  intros bytes [Hb | Hb]%elem_of_app; [| by apply list_elem_of_singleton in Hb].
  rewrite Forall_forall in F. by destruct (F _ Hb).
Qed.

(** ** Witnesses *)

Definition demo_accept : Event := mk_event 3 EPOLLIN [(5, true); (6, true)] [] Busy.
Definition demo_data : Event := mk_event 5 EPOLLIN [] [RData (§"hb 1" ++ [ApiServer.nl] ++ §"hb")] (Wrote 4).
Definition demo_more : Event := mk_event 5 (Z.lor EPOLLIN EPOLLOUT) [] [RData [ApiServer.nl]] (Wrote 3).
Definition demo_waits : list wait := [Ready [demo_accept; demo_data]; Interrupted; Ready [demo_more]; Signalled].

Lemma demo_fresh : fresh 3 ∅ demo_accept.
Proof.
  intros _. cbn. split; [apply (bool_decide_unpack _); vm_compute; exact I |].
  intros fd [-> | [-> | []%elem_of_nil]%elem_of_cons]%elem_of_cons; by rewrite lookup_empty.
Qed.

Lemma server_answers_witness :
  let '(st, s, tr) := loop 7 3 demo_waits ∅ in
  st = Some 0 ∧ v_open (view 5 tr) = false ∧ tx (view 5 tr) = replies 7 1 ++ take 2 (replies 7 1).
Proof.
  pose proof (server_answers 7 3 demo_waits) as H. vm_compute loop. vm_compute loop in H. split; [reflexivity |]. split.
  - apply H; [| reflexivity]. cbn [fresh_run fresh_all demo_waits]. split_and!; try done. apply demo_fresh.
  - vm_compute. reflexivity.
Defined.

Definition demo_client : Conncheck.Runner :=
  Conncheck.mk_runner Conncheck.demo_options [Conncheck.mk_conn 5 Conncheck.Open (-1) 0 1 0 1 []] 0 0 1 0 ∅
    (replicate Conncheck.kNumCauses 0) ∅ [replicate Conncheck.kNumCauses 0].
Definition demo_event (chunk : str) : Conncheck.event_calls * Z * Z :=
  (Conncheck.mk_event_calls 0 Conncheck.SentAll [RData chunk; RAgain] 0, EPOLLIN, 9).

Lemma heartbeats_answered_witness :
  let c := Conncheck.conn (foldl (client_event 0) demo_client (demo_event <$> [§"id="; §"7" ++ [ApiServer.nl]; §"i"])) 0 in
  Conncheck.state c = Conncheck.Open ∧ Conncheck.backend c = 7.
Proof.
  destruct (heartbeats_answered 7 3 5 (handle_all 7 3 [demo_accept; demo_data; demo_more] ∅).1 (handle_all 7 3 [demo_accept; demo_data; demo_more] ∅).2
    0 demo_client (demo_event <$> [§"id="; §"7" ++ [ApiServer.nl]; §"i"]) [§"id="; §"7" ++ [ApiServer.nl]; §"i"]) as (H1 & H2 & _).
  - apply (handle_all_reaches 7 3 [demo_accept; demo_data; demo_more] ∅ []); [apply reaches_start |].
    cbn [fresh_all]. split_and!; try done. apply demo_fresh.
  - lia.
  - reflexivity.
  - reflexivity.
  - reflexivity.
  - repeat constructor.
  - exists §"d". vm_compute. reflexivity.
  - split; [exact H1 | exact H2].
Defined.

Lemma half_close_unanswered_witness :
  (serve_conn 7 (mk_event 5 (Z.lor EPOLLIN EPOLLRDHUP) [] [RData (§"hb 1" ++ [ApiServer.nl]); REof] (Wrote 100)) (mk_conn [] [])).1 = None.
Proof.
  refine (proj1 (half_close_unanswered 7 _ (mk_conn [] []) _ _ _)).
  - reflexivity.
  - apply list_elem_of_further, list_elem_of_here.
  - constructor; [right; by eexists |]. constructor; [by left | constructor].
Defined.

(** The command line of the server: numbers as given, in range. *)
Theorem args_read (p k : Z) (args : list str) :
  1 <= p <= 65535 → 0 <= k < 2 ^ 31 →
  parse_args [§"--port"; VipSpec.to_string p; §"--id"; VipSpec.to_string k] = Go (mk_options p k §"0.0.0.0") ∧
  (∀ o, parse_args args = Go o → 1 <= port o <= 65535 ∧ 0 <= id_ o).
Proof.
  intros Hp Hk. split.
  - unfold parse_args. cbn [set_options]. rewrite (bool_decide_eq_true_2 (§"--port" = §"--port")), (bool_decide_eq_false_2 (§"--id" = §"--port")), (bool_decide_eq_true_2 (§"--id" = §"--id")) by done.
    rewrite !Conncheck.atoi_dec by lia. assert ((k <? 0) || (p <=? 0) || (65535 <? p) = false) as E by lia. cbn. by rewrite E.
  - intros o (o1 & _ & H)%bind_Go. destruct (_ || _) eqn:E in H; [done |]. injection H as ->. lia.
Qed.

Lemma args_read_witness :
  parse_args [§"--port"; VipSpec.to_string 7000; §"--id"; VipSpec.to_string 3] = Go (mk_options 7000 3 §"0.0.0.0").
Proof. refine (proj1 (args_read 7000 3 [] _ _)); lia. Defined.

End ConncheckServer.
