(* ===== verification/HashQuality.v ===== *)
(** * hashquality (tools/hashquality/hashquality.cpp)

    The experiment on the quality of the hash: random flows are looked up in rings
    before and after a real is removed and one is added. A double that is a
    quotient of two counts is the pair of the counts; the time a ring takes to
    build is left out; [HashReport] has the reports. *)

From Stdlib Require Import ZArith Lia Ascii String.
From S2P Require Import Prelude Abi Hash VipSpec Maglev Libc.

Module HashQuality.
Import Hash Maglev Cli.

(** ** Random flows *)

(** SplitMix64::next: the new state and the number. *)
Definition next (state : Z) : Z * Z :=
  let state := u64 (state + 0x9e3779b97f4a7c15) in
  let z := state in
  let z := u64 ((z ^u (z ≫ 30)) * 0xbf58476d1ce4e5b9) in
  let z := u64 ((z ^u (z ≫ 27)) * 0x94d049bb133111eb) in
  (state, z ^u (z ≫ 31)).

(** The hash of the flow drawn from r. *)
Definition flow_of (vip : VipSpec.t) (r : Z) : Z :=
  let saddr := u32 r in
  let sport := VipSpec.port_to_be (u16 (1024 + (r ≫ 32) mod (65536 - 1024))) in
  pb_flow_hash saddr (VipSpec.addr_be vip) sport (VipSpec.port_be vip) (VipSpec.proto vip).

(** The first n numbers. *)
Fixpoint draws (n : nat) (state : Z) : list Z :=
  match n with O => [] | S n => let '(state, r) := next state in r :: draws n state end.

Definition make_flow_hashes (n : nat) (seed : Z) (vip : VipSpec.t) : list Z := flow_of vip <$> draws n seed.

(** ** Looking up and comparing

    [None]: an index outside of the ring, or a function that does not return. *)

Definition lookup (ring hashes : list Z) : option (list Z) :=
  mapM (λ h, if (length ring =? 0)%nat then None else ring !! Z.to_nat (ring_index h (u32 (Z.of_nat (length ring))))) hashes.

(** Positions in which two lists differ. *)
Definition differ (a b : list Z) : Z := Z.of_nat (length (filter (λ i, a !! i ≠ b !! i) (seq 0 (length a)))).

Definition frac : Type := Z * Z.

Definition flow_disruption (a b : list Z) : frac := (differ a b, Z.of_nat (length a)).

Definition ring_disruption (a b : list Z) : result frac :=
  if negb (length a =? length b)%nat then Throw (invalid_argument §"ring_disruption: rings differ in size") else
  if (length a =? 0)%nat then Ok (0, 1) else Ok (differ a b, Z.of_nat (length a)).

(** ** The experiment *)

Record ShareRow := mk_share {
  real : str;
  sh_weight : Z;
  expected : frac;
  observed : frac
}.

Record DisruptionRow := mk_disruption {
  event : str;
  target : frac;
  flows : frac;
  slots : frac
}.

Record ModeResult := mk_result {
  mode_ : HashMode;
  shares : list ShareRow;
  disruption : list DisruptionRow
}.

(** A computation that may throw, and may not return. *)
Definition bind {A B} (x : option (result A)) (k : A → option (result B)) : option (result B) :=
  match x with Some (Ok a) => k a | Some (Throw e) => Some (Throw e) | None => None end.

#[local] Notation "'do' x <- m ; k" := (bind m (λ x, k)) (at level 10, x name, m at level 100, k at level 200).

Definition total_w (reals : list Backend) : Z := foldl (λ w b, w + weight b) 0 reals.

Definition share_of (hashes base : list Z) (total : Z) (b : Backend) : ShareRow :=
  let n := Z.of_nat (length (filter (λ r, r = real_id b) base)) in
  mk_share (VipSpec.ipv4_to_string (addr b)) (weight b) (weight b, total) (n, Z.of_nat (length hashes)).

Definition event_name (what : str) (b : Backend) : str :=
  what ++ §" " ++ VipSpec.ipv4_to_string (addr b) ++ §" (w=" ++ VipSpec.to_string (weight b) ++ §")".

(** The ring of the changed set against the old one. *)
Definition disruption_row (M : Z) (mode : HashMode) (what : str) (b : Backend) (target : frac) (changed : list Backend) (ring base hashes : list Z) :
    option (result DisruptionRow) :=
  do ring' <- build_ring changed mode M;
  do moved <- Ok <$> lookup ring' hashes;
  do slots <- Some (ring_disruption ring ring');
  Some (Ok (mk_disruption (event_name what b) target (flow_disruption base moved) slots)).

Definition run_mode (M : Z) (mode : HashMode) (reals : list Backend) (fifth : Backend) (removed_index : nat) (hashes : list Z) :
    option (result ModeResult) :=
  do ring <- build_ring reals mode M;
  do base <- Ok <$> lookup ring hashes;
  let total := total_w reals in
  do gone <- Ok <$> reals !! removed_index;
  do rm <- disruption_row M mode §"remove" gone (weight gone, total) (delete removed_index reals) ring base hashes;
  do ad <- disruption_row M mode §"add" fifth (weight fifth, total + weight fifth) (reals ++ [fifth]) ring base hashes;
  Some (Ok (mk_result mode (share_of hashes base total <$> reals) [rm; ad])).

(** ** The command line *)

Definition usage {A} : cli A := Exit 2 (§"usage: hashquality [--flows N] [--seed S] [--json PATH] [--md PATH]" ++ [ascii_of_nat 10]).

Record Options := mk_options {
  o_flows : Z;
  o_seed : Z;
  o_json : str;
  o_md : str
}.

(** std::stoull throws out of main, which ends the program. *)
Definition stoull (s : str) : cli Z := match Libc.stoul 10 s with Ok (n, _) => Go n | Throw _ => Exit 134 §"stoull" end.

Definition needs_value {A} (a : str) : cli A := Exit 2 (§"hashquality: " ++ a ++ §" needs a value" ++ [ascii_of_nat 10]).

Definition takes_value (a : str) : bool := bool_decide (a ∈ [§"--flows"; §"--seed"; §"--json"; §"--md"]).

Fixpoint set_options (args : list str) (o : Options) : cli Options :=
  match args with
  | [] => Go o
  | a :: args =>
      if negb (takes_value a) then usage else
      match args with
      | [] => needs_value a
      | v :: args =>
          if bool_decide (a = §"--flows") then n ← stoull v; set_options args (mk_options n (o_seed o) (o_json o) (o_md o))
          else if bool_decide (a = §"--seed") then n ← stoull v; set_options args (mk_options (o_flows o) n (o_json o) (o_md o))
          else if bool_decide (a = §"--json") then set_options args (mk_options (o_flows o) (o_seed o) v (o_md o))
          else set_options args (mk_options (o_flows o) (o_seed o) (o_json o) v)
      end
  end.

Definition parse_args (args : list str) : cli Options :=
  o ← set_options args (mk_options 1000000 5 [] []);
  if o_flows o =? 0 then Exit 2 (§"hashquality: --flows must be > 0" ++ [ascii_of_nat 10]) else Go o.

(** ** The run *)

Definition backend (id : Z) (a : str) (w : Z) : result Backend := x ← VipSpec.parse_ipv4 a; Ok (mk_backend id x w).

(** The reals of the experiment, and the one that is added. *)
Definition the_reals : result (list Backend) :=
  b1 ← backend 1 §"10.0.0.21" 1;
  b2 ← backend 2 §"10.0.0.22" 1;
  b3 ← backend 3 §"10.0.0.23" 2;
  b4 ← backend 4 §"10.0.0.24" 4;
  Ok [b1; b2; b3; b4].
Definition the_fifth : result Backend := backend 5 §"10.0.0.25" 1.
Definition removed_index : nat := 2.

(** Both modes on the same flows. *)
Definition experiment (o : Options) : option (result (list ModeResult)) :=
  do vip <- Some (VipSpec.parse §"198.51.100.1:80/tcp");
  do reals <- Some the_reals;
  do fifth <- Some the_fifth;
  let hashes := make_flow_hashes (Z.to_nat (o_flows o)) (o_seed o) vip in
  do r1 <- run_mode PB_RING_SIZE ModeMaglev reals fifth removed_index hashes;
  do r2 <- run_mode PB_RING_SIZE ModeModulo reals fifth removed_index hashes;
  Some (Ok [r1; r2]).

(** *** Lemmas: the generator *)

Lemma xorshift_undo s z :
  0 <= s → 64 <= 3 * s → is_u 64 z → let y := z ^u (z ≫ s) in y ^u (y ≫ s) ^u (y ≫ (2 * s)) = z.
Proof.
  intros Hs H3 Hz y. subst y. rewrite !Z.shiftr_lxor, !Z.shiftr_shiftr by lia.
  replace (s + s) with (2 * s) by lia. replace (s + 2 * s) with (3 * s) by lia.
  assert (z ≫ (3 * s) = 0) as ->.
  { rewrite Z.shiftr_div_pow2 by lia. apply Z.div_small. split; [apply Hz |]. eapply Z.lt_le_trans; [apply Hz |]. apply Z.pow_le_mono_r; lia. }
  rewrite Z.lxor_0_r. rewrite <-!Z.lxor_assoc, lxor_cancel. by rewrite lxor_cancel.
Qed.

Lemma xorshift_inj s z z' : 0 <= s → 64 <= 3 * s → is_u 64 z → is_u 64 z' → z ^u (z ≫ s) = z' ^u (z' ≫ s) → z = z'.
Proof. intros Hs H3 Hz Hz' E. rewrite <-(xorshift_undo s z), <-(xorshift_undo s z') by done. cbv zeta. by rewrite E. Qed.

Lemma is_u_xorshift s z : 0 <= s → is_u 64 z → is_u 64 (z ^u (z ≫ s)).
Proof. intros Hs Hz. apply is_u_lxor; [lia | done |]. by apply is_u_shiftr. Qed.

Lemma mul_undo c d x : u64 (c * d) = 1 → is_u 64 x → u64 (u64 (x * c) * d) = x.
Proof.
  intros Hcd Hx. unfold u64 in *. rewrite Z.mul_mod_idemp_l by lia. rewrite <-Z.mul_assoc, <-Z.mul_mod_idemp_r, Hcd, Z.mul_1_r by lia.
  by apply u64_id.
Qed.

Lemma mul_inj c d x y : u64 (c * d) = 1 → is_u 64 x → is_u 64 y → u64 (x * c) = u64 (y * c) → x = y.
Proof. intros Hcd Hx Hy E. rewrite <-(mul_undo c d x), <-(mul_undo c d y) by done. by rewrite E. Qed.

Lemma next_inj s s' : is_u 64 s → is_u 64 s' → (next s).2 = (next s').2 → (next s).1 = (next s').1.
Proof.
  intros Hs Hs' E. unfold next in *. cbn [fst snd] in *. apply xorshift_inj in E; [| lia | lia | apply is_u_u64 | apply is_u_u64].
  apply (mul_inj _ 0x319642b2d24d8ec3) in E; [| done | by apply is_u_xorshift; [lia | apply is_u_u64]..].
  apply xorshift_inj in E; [| lia | lia | apply is_u_u64 | apply is_u_u64].
  apply (mul_inj _ 0x96de1b173f119089) in E; [| done | by apply is_u_xorshift; [lia | apply is_u_u64]..].
  apply xorshift_inj in E; [done | lia | lia | apply is_u_u64 | apply is_u_u64].
Qed.

(** The state after k steps. *)
Definition state_at (seed : Z) (k : nat) : Z := u64 (seed + Z.of_nat k * 0x9e3779b97f4a7c15).

Lemma state_at_next seed k : (next (state_at seed k)).1 = state_at seed (S k).
Proof. unfold next, state_at, u64. cbn [fst]. rewrite Z.add_mod_idemp_l by lia. f_equal. lia. Qed.

Lemma draws_lookup n seed k r : draws n (state_at seed 0) !! k = Some r → (k < n)%nat ∧ r = (next (state_at seed k)).2.
Proof.
  enough (∀ j, draws n (state_at seed j) !! k = Some r → (k < n)%nat ∧ r = (next (state_at seed (j + k))).2) as H by (intros Hk; exact (H 0%nat Hk)).
  revert k. induction n as [| n IH]; intros k j H; [done |]. cbn [draws] in H. pose proof (state_at_next seed j) as Hn.
  destruct (next (state_at seed j)) as [s r0] eqn:E. cbn [fst] in Hn. subst s. destruct k as [| k].
  - injection H as ->. split; [lia |]. by rewrite Nat.add_0_r, E.
  - destruct (IH k (S j) H) as [Hk ->]. split; [lia |]. by replace (S j + k)%nat with (j + S k)%nat by lia.
Qed.

Lemma state_at_inj seed j k : Z.of_nat j < 2 ^ 64 → Z.of_nat k < 2 ^ 64 → state_at seed j = state_at seed k → j = k.
Proof.
  intros Hj Hk E. unfold state_at, u64 in E.
  assert (u64 (Z.of_nat j * 0x9e3779b97f4a7c15) = u64 (Z.of_nat k * 0x9e3779b97f4a7c15)) as E'.
  { unfold u64. apply (f_equal (λ x, (x - seed) mod 2 ^ 64)) in E. rewrite !Zminus_mod_idemp_l in E.
    by replace (seed + Z.of_nat j * 0x9e3779b97f4a7c15 - seed) with (Z.of_nat j * 0x9e3779b97f4a7c15) in E by lia;
    replace (seed + Z.of_nat k * 0x9e3779b97f4a7c15 - seed) with (Z.of_nat k * 0x9e3779b97f4a7c15) in E by lia. }
  apply (mul_inj _ 0xf1de83e19937733d) in E'; [lia | done | split; lia | split; lia].
Qed.

Lemma draws_NoDup n seed : Z.of_nat n <= 2 ^ 64 - 1 → is_u 64 seed → NoDup (draws n seed).
Proof.
  intros Hn Hs. apply NoDup_alt. intros i j r Hi Hj.
  assert (state_at seed 0 = seed) as E0 by (unfold state_at; rewrite Z.add_0_r; by apply u64_id). rewrite <-E0 in Hi, Hj.
  apply draws_lookup in Hi as [Li Hi]. apply draws_lookup in Hj as [Lj Hj]. rewrite Hi in Hj.
  apply next_inj in Hj; [| apply is_u_u64 | apply is_u_u64]. rewrite !state_at_next in Hj.
  apply state_at_inj in Hj; lia.
Qed.

(** *** Lemmas: lookups *)

(** The real of a hash. *)
Definition slot (ring : list Z) (h : Z) : Z := default PB_REAL_NONE (ring !! Z.to_nat (h mod Z.of_nat (length ring))).

(** The flows that a ring sends to a real, and those that two rings send elsewhere. *)
Definition flows_to (ring : list Z) (id : Z) (hashes : list Z) : Z := Z.of_nat (length (filter (λ h, slot ring h = id) hashes)).
Definition moved_flows (ring ring' : list Z) (hashes : list Z) : Z := Z.of_nat (length (filter (λ h, slot ring h ≠ slot ring' h) hashes)).

Lemma lookup_slot ring hashes :
  ring ≠ [] → Z.of_nat (length ring) < 2 ^ 32 → lookup ring hashes = Some (slot ring <$> hashes).
Proof.
  intros Hne Hl. assert (0 < Z.of_nat (length ring)) as Hp by (destruct ring; [done | cbn; lia]).
  unfold lookup. apply mapM_Some_2. induction hashes as [| h hs IH]; constructor; [| done].
  destruct (Nat.eqb_spec (length ring) 0); [lia |]. unfold ring_index, slot. rewrite u32_id by (split; lia).
  pose proof (Z.mod_pos_bound h _ Hp). destruct (lookup_lt_is_Some_2 ring (Z.to_nat (h mod Z.of_nat (length ring)))) as [x ->]; [lia | done].
Qed.

Lemma slot_in ring h : ring ≠ [] → slot ring h ∈ ring.
Proof.
  intros Hne. unfold slot. assert (0 < Z.of_nat (length ring)) as Hp by (destruct ring; [done | cbn; lia]).
  pose proof (Z.mod_pos_bound h _ Hp). destruct (lookup_lt_is_Some_2 ring (Z.to_nat (h mod Z.of_nat (length ring)))) as [x Hx]; [lia |].
  rewrite Hx. by apply list_elem_of_lookup_2 in Hx.
Qed.

Lemma differ_cons x y a b : differ (x :: a) (y :: b) = (if decide (x = y) then 0 else 1) + differ a b.
Proof.
  unfold differ. cbn [length seq]. rewrite filter_cons. cbn [list_lookup].
  assert (length (filter (λ i, (x :: a) !! i ≠ (y :: b) !! i) (seq 1 (length a))) = length (filter (λ i, a !! i ≠ b !! i) (seq 0 (length a)))) as E.
  { rewrite <-fmap_S_seq. rewrite (filter_fmap_comm S _ (λ i, a !! i ≠ b !! i)); [by rewrite length_fmap | done]. }
  destruct (decide (x = y)) as [-> | Hne].
  - rewrite decide_False by (intros H; by apply H). lia.
  - rewrite decide_True by (cbn; congruence). cbn [length]. lia.
Qed.

Lemma differ_fmap f g (l : list Z) : differ (f <$> l) (g <$> l) = Z.of_nat (length (filter (λ h, f h ≠ g h) l)).
Proof.
  induction l as [| h l IH]; [done |]. rewrite !fmap_cons, differ_cons, IH, filter_cons. destruct (decide (f h = g h)).
  - by rewrite decide_False by (intros H; by apply H).
  - rewrite decide_True by done. cbn [length]. lia.
Qed.

(** What one of the lists does not have differs wherever the other has it. *)
Lemma differ_occ_l x a b : length a = length b → x ∉ b → Z.of_nat (occ x a) <= differ a b.
Proof.
  intros Hl. revert b Hl. induction a as [| y a IH]; intros [| z b] Hl Hx; try done. rewrite occ_cons, differ_cons.
  apply not_elem_of_cons in Hx as [Hz Hx]. specialize (IH b ltac:(cbn in Hl; lia) Hx). destruct (decide (y = x)), (decide (y = z)); try congruence; lia.
Qed.

Lemma differ_occ_r x a b : length a = length b → x ∉ a → Z.of_nat (occ x b) <= differ a b.
Proof.
  intros Hl. revert b Hl. induction a as [| y a IH]; intros [| z b] Hl Hx; try done. rewrite occ_cons, differ_cons.
  apply not_elem_of_cons in Hx as [Hz Hx]. specialize (IH b ltac:(cbn in Hl; lia) Hx). destruct (decide (z = x)), (decide (y = z)); try congruence; lia.
Qed.

Lemma occ_slots id ring hashes : Z.of_nat (occ id (slot ring <$> hashes)) = flows_to ring id hashes.
Proof. unfold occ, flows_to. rewrite (filter_fmap_comm (slot ring) (λ y, y = id) (λ h, slot ring h = id)); [by rewrite length_fmap | done]. Qed.

(** Each flow goes to one of the reals. *)
Lemma occ_sum (ids l : list Z) : NoDup ids → Forall (λ x, x ∈ ids) l → foldr Z.add 0 ((λ id, Z.of_nat (occ id l)) <$> ids) = Z.of_nat (length l).
Proof.
  intros Hn. induction 1 as [| x l Hx _ IH]; [by clear; induction ids |]. cbn [length]. rewrite Nat2Z.inj_succ, <-IH. clear IH.
  assert (foldr Z.add 0 ((λ id, Z.of_nat (occ id (x :: l))) <$> ids) = Z.of_nat (occ x ids) + foldr Z.add 0 ((λ id, Z.of_nat (occ id l)) <$> ids)) as ->.
  { clear. induction ids as [| i ids IH]; [done |]. rewrite !fmap_cons. cbn [foldr]. rewrite IH, !occ_cons. destruct (decide (x = i)), (decide (i = x)); try congruence; lia. }
  rewrite occ_NoDup by done. lia.
Qed.

Lemma total_w_sum l : total_w l = total_weight l.
Proof.
  unfold total_w, total_weight. assert (∀ a, foldl (λ w b, w + weight b) a l = a + foldr Z.add 0 (weight <$> l)) as H.
  { induction l as [| b l IH]; intros a; cbn; [lia |]. rewrite IH. lia. }
  rewrite H. lia.
Qed.

(** *** Lemmas: the experiment *)

(** What the experiment assumes of its reals. *)
Record setup (M : Z) (reals : list Backend) : Prop := {
  su_prime : Z.prime M;
  su_small : M < 2 ^ 32;
  su_weights : Forall (λ b, 0 < weight b) reals;
  su_none : PB_REAL_NONE ∉ real_id <$> reals;
  su_ids : NoDup (real_id <$> reals);
  su_addrs : NoDup (addr <$> reals)
}.

Lemma setup_sub M l k : setup M k → sublist l k → setup M l.
Proof.
  intros [H1 H2 H3 H4 H5 H6] Hs. split; try done.
  - apply Forall_forall. intros b Hb. rewrite Forall_forall in H3. apply H3. eapply elem_of_sublist; [exact Hb | exact Hs].
  - intros Hn. apply H4. eapply elem_of_sublist; [exact Hn |]. by apply fmap_sublist.
  - eapply sublist_NoDup; [exact H5 |]. by apply fmap_sublist.
  - eapply sublist_NoDup; [exact H6 |]. by apply fmap_sublist.
Qed.

Lemma setup_ring M mode l :
  setup M l →
  ∃ r, build_ring l mode M = Some (Ok r) ∧ length r = Z.to_nat M ∧ r ≠ [] ∧
       (∀ h, slot r h ∈ r) ∧ (∀ hashes, lookup r hashes = Some (slot r <$> hashes)) ∧
       (l ≠ [] → Forall (λ x, x ∈ real_id <$> l) r) ∧ (∀ x, x ∉ real_id <$> l → x ≠ PB_REAL_NONE → x ∉ r) ∧
       (∀ b, b ∈ l → M / total_w l * weight b <= Z.of_nat (occ (real_id b) r)).
Proof.
  intros [H1 H2 H3 H4 H5 H6]. pose proof (Z.prime_ge_2 M H1). assert (active l = l) as Ea by (apply filter_all; by apply Forall_forall).
  destruct (build_ring_ok l mode M H1 H2) as (r & Er & Lr & R1 & R2); [by rewrite Ea |]. rewrite Ea in R1, R2.
  assert (r ≠ []) as Hne by (intros ->; cbn in Lr; lia). exists r. split_and!; try done.
  - intros h. by apply slot_in.
  - intros hashes. apply lookup_slot; [done |]. lia.
  - intros x Hx Hn Hr. destruct (decide (l = [])) as [E | E].
    + rewrite (R1 E) in Hr. by apply elem_of_replicate in Hr as [-> _].
    + specialize (R2 E). rewrite Forall_forall in R2. by apply Hx, R2.
  - intros b Hb. pose proof (build_ring_slots l mode M r b H1 H2 H5 Hb) as H0. rewrite Ea in H0. rewrite total_w_sum. apply H0; [| done].
    rewrite Forall_forall in H3. by apply H3.
Qed.

Lemma disruption_row_ok M mode what b target changed ring hashes :
  setup M changed → length ring = Z.to_nat M →
  ∃ ring', build_ring changed mode M = Some (Ok ring') ∧ length ring' = Z.to_nat M ∧
    disruption_row M mode what b target changed ring (slot ring <$> hashes) hashes =
      Some (Ok (mk_disruption (event_name what b) target (moved_flows ring ring' hashes, Z.of_nat (length hashes)) (differ ring ring', M))).
Proof.
  intros Hs Hl. destruct (setup_ring M mode changed Hs) as (r & Er & Lr & Hne & _ & Hk & _). exists r. split_and!; try done.
  unfold disruption_row. rewrite Er. cbn [bind]. rewrite Hk. cbn [fmap option_fmap option_map bind].
  pose proof (Z.prime_ge_2 M (su_prime _ _ Hs)). unfold ring_disruption. rewrite Hl, Lr, Nat.eqb_refl. cbn [negb].
  destruct (Nat.eqb_spec (Z.to_nat M) 0); [lia |]. cbn [bind]. unfold flow_disruption. rewrite differ_fmap, length_fmap, Z2Nat.id by lia. done.
Qed.

Lemma moved_ge_l ring ring' id hashes : id ∉ ring' → ring' ≠ [] → flows_to ring id hashes <= moved_flows ring ring' hashes.
Proof.
  intros Hi Hne. rewrite <-occ_slots. unfold moved_flows. rewrite <-differ_fmap. apply differ_occ_l; [by rewrite !length_fmap |].
  intros (h & -> & _)%list_elem_of_fmap. by apply Hi, slot_in.
Qed.

Lemma moved_ge_r ring ring' id hashes : id ∉ ring → ring ≠ [] → flows_to ring' id hashes <= moved_flows ring ring' hashes.
Proof.
  intros Hi Hne. rewrite <-occ_slots. unfold moved_flows. rewrite <-differ_fmap. apply differ_occ_r; [by rewrite !length_fmap |].
  intros (h & -> & _)%list_elem_of_fmap. by apply Hi, slot_in.
Qed.

(** The numbers of a result, against the rings they are about. *)
Definition measures (M : Z) (reals : list Backend) (gone fifth : Backend) (ring ring_rm ring_ad hashes : list Z) (res : ModeResult) : Prop :=
  let n := Z.of_nat (length hashes) in
  let W := total_w reals in
  expected <$> shares res = (λ b, (weight b, W)) <$> reals ∧
  observed <$> shares res = (λ b, (flows_to ring (real_id b) hashes, n)) <$> reals ∧
  foldr Z.add 0 (fst ∘ observed <$> shares res) = n ∧
  ∃ rm ad, disruption res = [rm; ad] ∧
    flows rm = (moved_flows ring ring_rm hashes, n) ∧ flows_to ring (real_id gone) hashes <= (flows rm).1 ∧
    slots rm = (differ ring ring_rm, M) ∧ M / W * weight gone <= (slots rm).1 ∧
    flows ad = (moved_flows ring ring_ad hashes, n) ∧ flows_to ring_ad (real_id fifth) hashes <= (flows ad).1 ∧
    slots ad = (differ ring ring_ad, M) ∧ M / (W + weight fifth) * weight fifth <= (slots ad).1.

Lemma run_mode_ok M mode reals fifth idx gone hashes :
  setup M (reals ++ [fifth]) → reals !! idx = Some gone →
  ∃ ring ring_rm ring_ad res,
    build_ring reals mode M = Some (Ok ring) ∧ build_ring (delete idx reals) mode M = Some (Ok ring_rm) ∧
    build_ring (reals ++ [fifth]) mode M = Some (Ok ring_ad) ∧
    run_mode M mode reals fifth idx hashes = Some (Ok res) ∧ measures M reals gone fifth ring ring_rm ring_ad hashes res.
Proof.
  intros Hs Hg. assert (setup M reals) as Hs1 by (eapply setup_sub; [exact Hs | by apply sublist_inserts_r]).
  assert (setup M (delete idx reals)) as Hs2 by (eapply setup_sub; [exact Hs1 | apply sublist_delete]).
  assert (reals ≠ []) as Hne by (by intros ->).
  destruct (setup_ring M mode reals Hs1) as (r & Er & Lr & Nr & Hin & Hk & Hids & Hout & Hsl).
  destruct (setup_ring M mode _ Hs2) as (rr & Err & Lrr & Nrr & _ & _ & _ & Houtr & _).
  destruct (setup_ring M mode _ Hs) as (ra & Era & Lra & Nra & _ & _ & _ & _ & Hsla).
  destruct (disruption_row_ok M mode §"remove" gone (weight gone, total_w reals) (delete idx reals) r hashes Hs2 Lr) as (rr' & Err' & _ & Drm).
  destruct (disruption_row_ok M mode §"add" fifth (weight fifth, total_w reals + weight fifth) (reals ++ [fifth]) r hashes Hs Lr) as (ra' & Era' & _ & Dad).
  rewrite Err in Err'. injection Err' as <-. rewrite Era in Era'. injection Era' as <-.
  assert (real_id gone ∉ rr) as Gr.
  { apply Houtr.
    - pose proof (su_ids _ _ Hs1) as Hn. rewrite (delete_Permutation _ _ _ Hg) in Hn. cbn [fmap list_fmap] in Hn. by apply NoDup_cons in Hn as [Hn _].
    - intros E. apply (su_none _ _ Hs1). rewrite <-E. apply list_elem_of_fmap_2. by eapply list_elem_of_lookup_2. }
  assert (real_id fifth ∉ r) as Gf.
  { apply Hout.
    - pose proof (su_ids _ _ Hs) as Hn. rewrite fmap_app in Hn. apply NoDup_app in Hn as (_ & Hd & _). intros Hi. apply (Hd _ Hi). apply list_elem_of_here.
    - intros E. apply (su_none _ _ Hs). rewrite <-E, fmap_app. apply elem_of_app. right. apply list_elem_of_here. }
  exists r, rr, ra. eexists. split_and!; [done | done | done | |].
  { unfold run_mode. rewrite Er. cbn [bind]. rewrite Hk. cbn [fmap option_fmap option_map bind]. rewrite Hg. cbn [fmap option_fmap option_map bind].
    rewrite Drm. cbn [bind]. rewrite Dad. cbn [bind]. reflexivity. }
  assert (∀ b, Z.of_nat (length (filter (λ x, x = real_id b) (slot r <$> hashes))) = flows_to r (real_id b) hashes) as Hf by (intros b; apply occ_slots).
  unfold measures. cbv zeta. cbn [shares disruption]. split_and!.
  - rewrite <-list_fmap_compose. by apply list_fmap_ext.
  - rewrite <-list_fmap_compose. apply list_fmap_ext. intros i b _. cbn. by rewrite Hf.
  - rewrite <-list_fmap_compose. rewrite <-(length_fmap (slot r) hashes), <-(occ_sum (real_id <$> reals)).
    + rewrite <-list_fmap_compose. done.
    + apply (su_ids _ _ Hs1).
    + apply Forall_fmap, Forall_forall. intros h _. cbn. specialize (Hids Hne). rewrite Forall_forall in Hids. by apply Hids.
  - eexists _, _. split; [reflexivity |]. cbn [flows slots fst]. split_and!; try done.
    + by apply moved_ge_l.
    + etrans; [apply Hsl; by eapply list_elem_of_lookup_2 |]. apply differ_occ_l; [congruence | done].
    + by apply moved_ge_r.
    + assert (total_w reals + weight fifth = total_w (reals ++ [fifth])) as -> by (unfold total_w; by rewrite foldl_app).
      etrans; [apply Hsla; apply elem_of_app; right; apply list_elem_of_here |]. apply differ_occ_r; [congruence | done].
Qed.

Lemma length_draws n s : length (draws n s) = n.
Proof. revert s. induction n as [| n IH]; intros s; [done |]. cbn [draws]. destruct (next s). cbn [length]. by rewrite IH. Qed.

Lemma stoull_range v n : stoull v = Go n → 0 <= n.
Proof. unfold stoull. destruct (Libc.stoul 10 v) as [[n' u] | e] eqn:E; [| done]. intros [= ->]. apply Libc.stoul_range in E; lia. Qed.

Lemma set_options_flows k args o o' : (length args <= k)%nat → 0 <= o_flows o → set_options args o = Go o' → 0 <= o_flows o'.
Proof.
  revert args o. induction k as [| k IH]; intros args o Hk H0 H; (destruct args as [| a args]; [by injection H as -> | cbn [length] in Hk; try lia]).
  cbn [set_options] in H. destruct (negb _); [done |]. destruct args as [| v args]; [done |]. cbn [length] in Hk.
  repeat case_bool_decide; try (apply bind_Go in H as (n & Hn%stoull_range & H)); (eapply IH; [| | exact H]); cbn [o_flows]; done || lia.
Qed.

Lemma parse_args_flows args o : parse_args args = Go o → 0 < o_flows o.
Proof.
  intros (o1 & H1 & H)%bind_Go. destruct (Z.eqb_spec (o_flows o1) 0); [done |]. injection H as ->.
  apply (set_options_flows (length args)) in H1; cbn; lia.
Qed.

Lemma the_reals_ok : ∃ reals fifth gone, the_reals = Ok reals ∧ the_fifth = Ok fifth ∧ reals !! removed_index = Some gone ∧ setup PB_RING_SIZE (reals ++ [fifth]).
Proof.
  eexists _, _, _. split_and!; [vm_compute; reflexivity | vm_compute; reflexivity | vm_compute; reflexivity |].
  split; [apply prime_PB_RING_SIZE | done | decide_closed..].
Qed.

(** ** Theorems *)

(** C40: The experiment measures what it says, for any flows. For distinct reals of
    positive weight it ends without an index outside of a ring; each flow is
    counted for exactly one real, the one its slot names, and the expected shares
    are those of the weights; the flows reported as moved are those whose real
    changes, at least those of the real that is removed and those of the one that
    is added, whose slots alone are as many as their weight in every whole round. *)
Theorem experiment_measures (M : Z) (mode : HashMode) (reals : list Backend) (fifth gone : Backend) (idx : nat) (hashes : list Z) :
  setup M (reals ++ [fifth]) → reals !! idx = Some gone →
  ∃ ring ring_rm ring_ad res,
    build_ring reals mode M = Some (Ok ring) ∧ build_ring (delete idx reals) mode M = Some (Ok ring_rm) ∧
    build_ring (reals ++ [fifth]) mode M = Some (Ok ring_ad) ∧
    run_mode M mode reals fifth idx hashes = Some (Ok res) ∧
    let n := Z.of_nat (length hashes) in
    let W := total_w reals in
    expected <$> shares res = (λ b, (weight b, W)) <$> reals ∧
    observed <$> shares res = (λ b, (flows_to ring (real_id b) hashes, n)) <$> reals ∧
    foldr Z.add 0 (fst ∘ observed <$> shares res) = n ∧
    ∃ rm ad, disruption res = [rm; ad] ∧
      flows rm = (moved_flows ring ring_rm hashes, n) ∧ flows_to ring (real_id gone) hashes <= (flows rm).1 ∧
      slots rm = (differ ring ring_rm, M) ∧ M / W * weight gone <= (slots rm).1 ∧
      flows ad = (moved_flows ring ring_ad hashes, n) ∧ flows_to ring_ad (real_id fifth) hashes <= (flows ad).1 ∧
      slots ad = (differ ring ring_ad, M) ∧ M / (W + weight fifth) * weight fifth <= (slots ad).1.
Proof. apply run_mode_ok. Qed.

(** Every accepted command line runs the experiment to its end, once in each mode,
    with the number of flows that was asked for. *)
Theorem experiment_ends (args : list str) (o : Options) :
  parse_args args = Go o →
  ∃ r1 r2, experiment o = Some (Ok [r1; r2]) ∧ 0 < o_flows o ∧
    Forall (λ res, foldr Z.add 0 (fst ∘ observed <$> shares res) = o_flows o) [r1; r2].
Proof.
  intros Hp%parse_args_flows.
  destruct the_reals_ok as (reals & fifth & gone & E1 & E2 & E3 & Hs). unfold experiment.
  destruct (VipSpec.parse §"198.51.100.1:80/tcp") as [vip | e] eqn:Ev; [| by vm_compute in Ev]. rewrite E1, E2. cbn [bind].
  set (hashes := make_flow_hashes _ _ _).
  assert (Z.of_nat (length hashes) = o_flows o) as Hl.
  { unfold hashes, make_flow_hashes. rewrite length_fmap, length_draws. lia. }
  destruct (run_mode_ok PB_RING_SIZE ModeMaglev reals fifth removed_index gone hashes Hs E3) as (? & ? & ? & r1 & _ & _ & _ & -> & (_ & _ & S1 & _)).
  destruct (run_mode_ok PB_RING_SIZE ModeModulo reals fifth removed_index gone hashes Hs E3) as (? & ? & ? & r2 & _ & _ & _ & -> & (_ & _ & S2 & _)).
  exists r1, r2. cbn [bind]. split_and!; [done | done |]. repeat constructor; congruence.
Qed.

(** The generator does not repeat itself: the numbers drawn are distinct. *)
Theorem flows_never_repeat (n : nat) (seed : Z) : Z.of_nat n < 2 ^ 64 → is_u 64 seed → NoDup (draws n seed).
Proof. intros Hn Hs. apply draws_NoDup; [lia | done]. Qed.

(** ** Witnesses *)

Definition demo_reals : list Backend := [mk_backend 1 0x1500000a 1; mk_backend 2 0x1600000a 2].
Definition demo_fifth : Backend := mk_backend 5 0x1900000a 1.

Lemma experiment_measures_witness :
  ∃ res, run_mode 13 ModeMaglev demo_reals demo_fifth 1 [0; 1; 2; 3; 4; 5] = Some (Ok res) ∧
    foldr Z.add 0 (fst ∘ observed <$> shares res) = 6.
Proof.
  destruct (experiment_measures 13 ModeMaglev demo_reals demo_fifth (mk_backend 2 0x1600000a 2) 1 [0; 1; 2; 3; 4; 5])
    as (_ & _ & _ & res & _ & _ & _ & H & _ & _ & H' & _).
  - split; [apply prime_13 | done | decide_closed..].
  - reflexivity.
  - exists res. split; [exact H | exact H'].
Defined.

Lemma experiment_ends_witness :
  ∃ r1 r2, experiment (mk_options 20 9 [] []) = Some (Ok [r1; r2]).
Proof.
  destruct (experiment_ends [§"--flows"; §"20"; §"--seed"; §"9"] (mk_options 20 9 [] [])) as (r1 & r2 & H & _).
  - vm_compute. reflexivity.
  - exists r1, r2. exact H.
Defined.

Lemma flows_never_repeat_witness : NoDup (draws 3 5).
Proof. apply (flows_never_repeat 3 5); [lia | split; lia]. Defined.

(** The first number of SplitMix64 with the state 0. *)
Example splitmix_reference : (next 0).2 = 0xe220a8397b1dcdaf.
Proof. vm_compute. reflexivity. Qed.

End HashQuality.
