(* ===== verification/HashReport.v ===== *)
(** * hashquality's report (tools/hashquality/hashquality.cpp)

    The JSON file and the Markdown text. How a quotient, a difference of quotients
    and the build time of a mode are printed with so many decimals is an argument,
    as is the date. *)

From Stdlib Require Import ZArith Lia Ascii String.
From S2P Require Import Prelude Abi VipSpec Maglev Libc JsonText HashQuality.

Module HashReport.
Import JsonText HashQuality.

Section report.
Context (fmt : nat → frac → str) (fmt_diff : nat → frac → frac → str) (fmt_ms : nat → Maglev.HashMode → str) (date : str).

Definition nl : str := [newline].

(** ** to_json *)

(** A row per line, and (i + 1 < n ? "," : "") after each. *)
Fixpoint each {A} (f : A → str) (l : list A) : str :=
  match l with
  | [] => []
  | x :: l => f x ++ (if bool_decide (l = []) then [] else §",") ++ nl ++ each f l
  end.

Definition share_json (s : ShareRow) : str :=
  §"        {" ++ str_text §"real" ++ §": " ++ str_text (real s) ++ §", " ++ str_text §"weight" ++ §": " ++ VipSpec.to_string (sh_weight s) ++
  §", " ++ str_text §"expected" ++ §": " ++ fmt 6 (expected s) ++ §", " ++ str_text §"observed" ++ §": " ++ fmt 6 (observed s) ++
  §", " ++ str_text §"deviation" ++ §": " ++ fmt_diff 6 (observed s) (expected s) ++ §"}".

Definition disruption_json (d : DisruptionRow) : str :=
  §"        {" ++ str_text §"event" ++ §": " ++ str_text (event d) ++ §", " ++ str_text §"target" ++ §": " ++ fmt 6 (target d) ++
  §", " ++ str_text §"flows_moved" ++ §": " ++ fmt 6 (flows d) ++ §", " ++ str_text §"slots_moved" ++ §": " ++ fmt 6 (slots d) ++ §"}".

Definition mode_json (r : ModeResult) : str :=
  §"    {" ++ nl ++ §"      " ++ str_text §"mode" ++ §": " ++ str_text (Maglev.hash_mode_name (mode_ r)) ++ §"," ++ nl ++
  §"      " ++ str_text §"build_ms" ++ §": " ++ fmt_ms 3 (mode_ r) ++ §"," ++ nl ++ §"      " ++ str_text §"shares" ++ §": [" ++ nl ++
  each share_json (shares r) ++
  §"      ]," ++ nl ++ §"      " ++ str_text §"disruption" ++ §": [" ++ nl ++
  each disruption_json (disruption r) ++
  §"      ]" ++ nl ++ §"    }".

Definition hash_text : str := §"pb_flow_hash (jhash 3 words, include/packetbalance/hash.h)".

Definition to_json (results : list ModeResult) (flows seed : Z) (vip : str) : str :=
  §"{" ++ nl ++ §"  " ++ str_text §"experiment" ++ §": " ++ str_text §"exp5_hash_quality" ++ §"," ++ nl ++
  §"  " ++ str_text §"date" ++ §": " ++ str_text date ++ §"," ++ nl ++
  §"  " ++ str_text §"ring_size" ++ §": " ++ VipSpec.to_string PB_RING_SIZE ++ §"," ++ nl ++
  §"  " ++ str_text §"tuples" ++ §": " ++ VipSpec.to_string flows ++ §"," ++ nl ++
  §"  " ++ str_text §"seed" ++ §": " ++ VipSpec.to_string seed ++ §"," ++ nl ++
  §"  " ++ str_text §"vip" ++ §": " ++ str_text vip ++ §"," ++ nl ++
  §"  " ++ str_text §"hash" ++ §": " ++ str_text hash_text ++ §"," ++ nl ++
  §"  " ++ str_text §"modes" ++ §": [" ++ nl ++
  each mode_json results ++
  §"  ]" ++ nl ++ §"}" ++ nl.

(** ** to_markdown *)

(** pct: fmt(100.0 * v, 2) + "%"; [fmt_pct] is the number. *)
Context (fmt_pct : frac → str) (fmt_pct_diff : frac → frac → str).

Definition pct (x : frac) : str := fmt_pct x ++ §"%".

(** (dev == "-0.00" ? "+0.00" : dev[0] == '-' ? dev : "+" + dev) *)
Definition signed (dev : str) : str :=
  if bool_decide (dev = §"-0.00") then §"+0.00" else
  match dev with c :: _ => if eqc "-"%char c then dev else §"+" ++ dev | [] => §"+" end.

Definition share_line (results : list ModeResult) (i : nat) (s0 : ShareRow) : str :=
  §"| " ++ real s0 ++ §" | " ++ VipSpec.to_string (sh_weight s0) ++ §" | " ++ pct (expected s0) ++ §" |" ++
  mjoin ((λ r, match shares r !! i with
               | Some s => §" " ++ pct (observed s) ++ §" | " ++ signed (fmt_pct_diff (observed s) (expected s)) ++ §" pp |"
               | None => []
               end) <$> results) ++ nl.

Definition event_line (e : nat) (r : ModeResult) : str :=
  match disruption r !! e with
  | Some d => §"| " ++ event d ++ §" | " ++ pct (target d) ++ §" | " ++ Maglev.hash_mode_name (mode_ r) ++ §" | " ++ pct (flows d) ++ §" | " ++ pct (slots d) ++ §" |" ++ nl
  | None => []
  end.

(** results[0] exists: both modes have run. *)
Definition to_markdown (results : list ModeResult) (flows seed : Z) (vip : str) : str :=
  let r0 := hd (mk_result Maglev.ModeMaglev [] []) results in
  §"### Experiment 5: hash quality" ++ nl ++ nl ++
  VipSpec.to_string flows ++ §" synthetic flows to " ++ vip ++ §", hashed with the data plane's `pb_flow_hash`, " ++
  §"ring size " ++ VipSpec.to_string PB_RING_SIZE ++ §", seed " ++ VipSpec.to_string seed ++ §", " ++ date ++
  §". Generated by `tools/hashquality`." ++ nl ++ nl ++
  §"**Share of flows per real (weights 1:1:2:4)**" ++ nl ++ nl ++
  §"| Real | Weight | Expected |" ++
  mjoin ((λ r, §" " ++ Maglev.hash_mode_name (mode_ r) ++ §" observed | deviation |") <$> results) ++
  nl ++ §"|---|---:|---:|" ++ mjoin ((λ _, §"---:|---:|") <$> results) ++ nl ++
  mjoin (imap (share_line results) (shares r0)) ++
  nl ++ §"**Disruption: fraction that changes real**" ++ nl ++ nl ++
  §"| Event | Minimum possible | Mode | Flows moved | Slots moved |" ++ nl ++ §"|---|---:|---|---:|---:|" ++ nl ++
  mjoin ((λ e, mjoin (event_line e <$> results)) <$> seq 0 (length (disruption r0))).

(** ** The end of main *)

(** write_file: an error ends the program; the files written so far stay. *)
Definition write_file (can_write : str → bool) (path body : str) (files : list (str * str)) : option Z * list (str * str) :=
  if can_write path then (None, files ++ [(path, body)]) else (Some 1, files).

(** The exit code, the standard output and the files. *)
Definition outputs (can_write : str → bool) (o : Options) (results : list ModeResult) (vip : str) : Z * str * list (str * str) :=
  let md := to_markdown results (o_flows o) (o_seed o) vip in
  let '(x, files) := if bool_decide (o_json o = []) then (None, []) else write_file can_write (o_json o) (to_json results (o_flows o) (o_seed o) vip) [] in
  match x with
  | Some code => (code, md, files)
  | None =>
      let '(x, files) := if bool_decide (o_md o = []) then (None, files) else write_file can_write (o_md o) md files in
      (default 0 x, md, files)
  end.

(** ** What the file says *)

Definition share_tree (s : ShareRow) : value :=
  TObj [(§"real", TStr (real s)); (§"weight", TNum (VipSpec.to_string (sh_weight s))); (§"expected", TNum (fmt 6 (expected s)));
        (§"observed", TNum (fmt 6 (observed s))); (§"deviation", TNum (fmt_diff 6 (observed s) (expected s)))].
Definition disruption_tree (d : DisruptionRow) : value :=
  TObj [(§"event", TStr (event d)); (§"target", TNum (fmt 6 (target d))); (§"flows_moved", TNum (fmt 6 (flows d))); (§"slots_moved", TNum (fmt 6 (slots d)))].
Definition mode_tree (r : ModeResult) : value :=
  TObj [(§"mode", TStr (Maglev.hash_mode_name (mode_ r))); (§"build_ms", TNum (fmt_ms 3 (mode_ r)));
        (§"shares", TArr (share_tree <$> shares r)); (§"disruption", TArr (disruption_tree <$> disruption r))].
Definition json_tree (results : list ModeResult) (flows seed : Z) (vip : str) : value :=
  TObj [(§"experiment", TStr §"exp5_hash_quality"); (§"date", TStr date); (§"ring_size", TNum (VipSpec.to_string PB_RING_SIZE));
        (§"tuples", TNum (VipSpec.to_string flows)); (§"seed", TNum (VipSpec.to_string seed)); (§"vip", TStr vip); (§"hash", TStr hash_text);
        (§"modes", TArr (mode_tree <$> results))].

(** ** Lemmas *)

Lemma each_items {A} (f : A → str) (g : A → value) l :
  Forall (λ x, ∃ a s, f x = a ++ s ∧ all is_ws a ∧ writes (g x) s) l → l ≠ [] → items (g <$> l) (each f l).
Proof.
  induction 1 as [| x l (a & s & E & Ha & Hs) Hl IH]; [done |]. intros _. cbn [each fmap list_fmap]. rewrite E.
  destruct l as [| y l]; [rewrite <-app_assoc; cbn [bool_decide app each]; apply t_one; [done | done | by repeat constructor] |].
  rewrite bool_decide_eq_false_2 by done. rewrite <-app_assoc. apply (t_more a _ s []); [done | done | constructor |].
  apply items_ws; [by repeat constructor |]. by apply IH.
Qed.

Lemma each_array {A} (f : A → str) (g : A → value) l b :
  Forall (λ x, ∃ a s, f x = a ++ s ∧ all is_ws a ∧ writes (g x) s) l → all is_ws b → writes (TArr (g <$> l)) (§"[" ++ nl ++ each f l ++ b ++ §"]").
Proof.
  intros Hl Hb. destruct l as [| x l]; [apply (w_arr_empty (nl ++ b)); by constructor |].
  rewrite (app_assoc nl). apply arr_written; [| done]. apply items_ws; [by repeat constructor |]. by apply each_items.
Qed.

(** The parts of a result that are text. *)
Definition plain_result (r : ModeResult) : Prop :=
  Forall (λ s, all is_plain (real s)) (shares r) ∧ Forall (λ d, all is_plain (event d)) (disruption r).

Lemma plain_event what b : all is_plain what → all is_plain (event_name what b).
Proof.
  intros Hw. unfold event_name. repeat (apply Forall_app; split); try apply to_string_plain; try apply ipv4_plain; try done; by repeat constructor.
Qed.

Lemma do_Ok {A B} (x : option (result A)) (k : A → option (result B)) b :
  bind x k = Some (Ok b) → ∃ a, x = Some (Ok a) ∧ k a = Some (Ok b).
Proof. destruct x as [[a | ex] |]; cbn; intros H; [eauto | discriminate ..]. Qed.

Lemma disruption_plain M mode what b target changed ring base hashes d :
  disruption_row M mode what b target changed ring base hashes = Some (Ok d) → all is_plain what → all is_plain (event d).
Proof.
  intros (ring' & _ & (moved & _ & (slots & _ & H)%do_Ok)%do_Ok)%do_Ok Hw. injection H as <-. by apply plain_event.
Qed.

Lemma mode_plain M mode reals fifth i hashes r : run_mode M mode reals fifth i hashes = Some (Ok r) → plain_result r.
Proof.
  intros (ring & _ & (base & _ & (gone & _ & (rm & Hr & (ad & Ha & H)%do_Ok)%do_Ok)%do_Ok)%do_Ok)%do_Ok. injection H as <-. split.
  - apply Forall_fmap, Forall_true. intros b. apply ipv4_plain.
  - apply Forall_cons. split; [| apply Forall_singleton]; eapply disruption_plain; try eassumption; by repeat constructor.
Qed.

Lemma experiment_plain o : ∃ r1 r2, experiment o = Some (Ok [r1; r2]) ∧ Forall plain_result [r1; r2].
Proof.
  destruct the_reals_ok as (reals & fifth & gone & E1 & E2 & E3 & Hs). unfold experiment.
  destruct (VipSpec.parse §"198.51.100.1:80/tcp") as [vip | e] eqn:Ev; [| by vm_compute in Ev]. rewrite E1, E2. cbn [bind].
  set (hashes := make_flow_hashes _ _ _).
  destruct (run_mode_ok PB_RING_SIZE Maglev.ModeMaglev reals fifth removed_index gone hashes Hs E3) as (? & ? & ? & r1 & _ & _ & _ & H1 & _).
  destruct (run_mode_ok PB_RING_SIZE Maglev.ModeModulo reals fifth removed_index gone hashes Hs E3) as (? & ? & ? & r2 & _ & _ & _ & H2 & _).
  exists r1, r2. rewrite H1, H2. cbn [bind]. split; [done |]. apply Forall_cons. split; [| apply Forall_singleton]; by eapply mode_plain.
Qed.

Context (fmt_num : ∀ k x, fmt k x ≠ [] ∧ all is_num (fmt k x)) (fmt_diff_num : ∀ k x y, fmt_diff k x y ≠ [] ∧ all is_num (fmt_diff k x y))
  (fmt_ms_num : ∀ k m, fmt_ms k m ≠ [] ∧ all is_num (fmt_ms k m)) (date_plain : all is_plain date).

(** Members, one after the other. *)
Ltac fields := apply members_commas; [| done]; repeat (apply Forall2_cons; split; [apply member_written; [by repeat constructor | by repeat constructor |] |]); [.. | apply Forall2_nil_2];
  first [by apply w_str | apply num_written | by apply w_num; apply fmt_num | by apply w_num; apply fmt_diff_num | by apply w_num; apply fmt_ms_num | idtac].

Lemma share_written s : all is_plain (real s) → ∃ a t, share_json s = a ++ t ∧ all is_ws a ∧ writes (share_tree s) t.
Proof.
  intros Hr. exists §"        ". eexists. split; [| split; [by repeat constructor |]].
  2: { apply (obj_written _ (commas [member_text [] §"real" (str_text (real s)); member_text §" " §"weight" (VipSpec.to_string (sh_weight s));
         member_text §" " §"expected" (fmt 6 (expected s)); member_text §" " §"observed" (fmt 6 (observed s));
         member_text §" " §"deviation" (fmt_diff 6 (observed s) (expected s))]) []); [| constructor]. fields. }
  unfold share_json, member_text. cbn [commas]. repeat (rewrite <-!app_assoc || cbn [app]). done.
Qed.

Lemma disruption_written d : all is_plain (event d) → ∃ a t, disruption_json d = a ++ t ∧ all is_ws a ∧ writes (disruption_tree d) t.
Proof.
  intros Hr. exists §"        ". eexists. split; [| split; [by repeat constructor |]].
  2: { apply (obj_written _ (commas [member_text [] §"event" (str_text (event d)); member_text §" " §"target" (fmt 6 (target d));
         member_text §" " §"flows_moved" (fmt 6 (flows d)); member_text §" " §"slots_moved" (fmt 6 (slots d))]) []); [| constructor]. fields. }
  unfold disruption_json, member_text. cbn [commas]. repeat (rewrite <-!app_assoc || cbn [app]). done.
Qed.

Lemma mode_written r : plain_result r → ∃ a t, mode_json r = a ++ t ∧ all is_ws a ∧ writes (mode_tree r) t.
Proof.
  intros [Hs Hd]. exists §"    ". eexists. split; [| split; [by repeat constructor |]].
  2: { apply (obj_written _ (commas [member_text (nl ++ §"      ") §"mode" (str_text (Maglev.hash_mode_name (mode_ r)));
         member_text (nl ++ §"      ") §"build_ms" (fmt_ms 3 (mode_ r));
         member_text (nl ++ §"      ") §"shares" (§"[" ++ nl ++ each share_json (shares r) ++ §"      " ++ §"]");
         member_text (nl ++ §"      ") §"disruption" (§"[" ++ nl ++ each disruption_json (disruption r) ++ §"      " ++ §"]")])
         (nl ++ §"    ")); [| by repeat constructor]. fields.
       - apply w_str. destruct (mode_ r); by repeat constructor.
       - apply each_array; [| by repeat constructor]. eapply Forall_impl; [exact Hs |]. intros s. apply share_written.
       - apply each_array; [| by repeat constructor]. eapply Forall_impl; [exact Hd |]. intros d. apply disruption_written. }
  unfold mode_json, member_text. cbn [commas]. repeat (rewrite <-!app_assoc || cbn [app]). done.
Qed.

Lemma json_written results flows seed vip :
  Forall plain_result results → all is_plain vip →
  ∃ s, writes (json_tree results flows seed vip) s ∧ to_json results flows seed vip = s ++ nl.
Proof.
  intros Hr Hv. eexists. split.
  - apply (obj_written _ (commas [member_text (nl ++ §"  ") §"experiment" (str_text §"exp5_hash_quality"); member_text (nl ++ §"  ") §"date" (str_text date);
      member_text (nl ++ §"  ") §"ring_size" (VipSpec.to_string PB_RING_SIZE); member_text (nl ++ §"  ") §"tuples" (VipSpec.to_string flows);
      member_text (nl ++ §"  ") §"seed" (VipSpec.to_string seed); member_text (nl ++ §"  ") §"vip" (str_text vip); member_text (nl ++ §"  ") §"hash" (str_text hash_text);
      member_text (nl ++ §"  ") §"modes" (§"[" ++ nl ++ each mode_json results ++ §"  " ++ §"]")]) nl); [| by repeat constructor]. fields.
    + apply w_str. by repeat constructor.
    + apply w_str. by repeat constructor.
    + apply each_array; [| by repeat constructor]. eapply Forall_impl; [exact Hr |]. intros r. apply mode_written.
  - unfold to_json, member_text. cbn [commas]. repeat (rewrite <-!app_assoc || cbn [app]). done.
Qed.

(** The file of an experiment reads back as the object of its results: every row of
    every mode, and nothing else. *)
Theorem json_reads_back (o : Options) (vip : str) :
  all is_plain vip →
  ∃ r1 r2 text, experiment o = Some (Ok [r1; r2]) ∧ to_json [r1; r2] (o_flows o) (o_seed o) vip = text ∧
    read (length text) text = Some (json_tree [r1; r2] (o_flows o) (o_seed o) vip, nl).
Proof.
  intros Hv. destruct (experiment_plain o) as (r1 & r2 & E & Hr). exists r1, r2. eexists. split; [exact E |]. split; [done |].
  destruct (json_written [r1; r2] (o_flows o) (o_seed o) vip Hr Hv) as (s & Hw & ->).
  apply (proj1 reads _ _ Hw _ []); [rewrite length_app; lia | constructor | done].
Qed.

End report.

End HashReport.
